(* ===== verification/_CoqProject ===== *)
-Q . S2P
Prelude.v
Text.v
Json.v
Timestamps.v
Common.v
Schema.v
Policy.v
Plugin.v
Database.v
AuditKinds.v
AuditLog.v
Logging.v
Embedding.v
Rpc.v
PinStore.v
Remote.v
ApprovalRegistry.v
Approval.v
Manager.v
Mcp.v
Bridge.v
KeyRegistry.v
PluginStore.v
RaftStore.v
SecProfile.v
Peers.v
RaftNode.v
Parse.v
Podman.v
Resources.v
Sessions.v
SnapCrypto.v
SnapStore.v
Snapshots.v
Layers.v
Metrics.v
Containers.v
IpNet.v
Egress.v
Gui.v
Server.v
Web.v
Distro.v
