(* ===== verification/Prelude.v ===== *)
(** * linpodx: a verification of its daemon

    linpodx is a daemon that runs containers for (AI) agents through rootless
    podman and puts a sandbox around them: profiles that constrain what a container
    may get, approvals by a human or a plugin, a tamper-evident audit log, a bridge
    that filters the MCP messages between a host and a container, snapshots that can
    be encrypted and rolled back, an egress filter, remote access with pinned
    clients, and a cluster that replicates a container view and key revocations.
    This library models those parts, from the Rust sources under [src/crates], and
    proves what they promise. Paths below are relative to [src/crates].

    ** The parts and the files

    Foundations:
    - [Prelude]: results and the state-and-error monad [M] in which effectful code
      is written (an error keeps the effects before it, as the source's [?] does),
      Rust strings as their UTF-8 bytes, machine integers at their width, tactics
      and hint databases. [Text]: the [str] methods that take text apart.
    - [Json]: [serde_json::Value], and the class [Env] of everything the daemon
      takes from outside: SHA-256, the JSON printer and parser, chrono's formats,
      the clock, and which database statements and spawned tasks fail.
      [Timestamps]: times as sortable text.
    - [Common]: the types components exchange ([linpodx-common]).
    - [Database]: the daemon's state [World]: the rows of the tables, the caches,
      the published events, and the position in the environment's clock and faults.
      [Embedding]: components with state of their own beside it ([HasWorld]),
      weakest preconditions ([wp]) and [SafeIn].

    Sandbox and audit:
    - [Schema], [Policy]: sandbox profiles and the policy engine
      ([linpodx-sandbox/src/schema.rs], [profile.rs], [policy.rs]).
    - [AuditKinds], [AuditLog], [Logging]: the audit log, the [AuditSink] trait with
      its laws and the sink that runs the audit filters ([audit.rs], [mcp_audit.rs],
      [linpodx-common/src/audit_sink.rs]).
    - [ApprovalRegistry]: the approval registry ([linpodx-daemon/src/approval.rs]) as
      a transition system over all interleavings; [Approval]: the
      [ApprovalGateway] trait with its laws and the plugin-aware gateway.
    - [Manager]: the sandbox manager ([linpodx-sandbox/src/manager.rs]), proved
      against the gateway and compiler interfaces; [SecProfile]: the compiler of
      seccomp, AppArmor and SELinux profiles ([secprofile.rs]).
    - [Plugin]: the WASM plugin host ([linpodx-plugin]); a guest is an interaction
      tree of host calls. [KeyRegistry]: publisher keys and their revocation.
      [PluginStore]: manifests, signatures and installation.
    - [Mcp], [Bridge]: MCP messages, the rules for them, and the stdio bridge
      ([linpodx-mcp]).

    Containers:
    - [Parse], [Podman], [Resources]: podman's JSON, the adapter over its command
      line, and images, networks, volumes, pods and secrets ([linpodx-runtime]).
    - [Sessions], [Metrics]: the lifetime of a container with its timeline, and its
      samples ([linpodx-sandbox/src/session.rs], [linpodx-runtime/src/metrics.rs]).
    - [SnapCrypto], [SnapStore], [Snapshots], [Layers]: ciphers and keys, the
      encrypted store with key rotation, the snapshot manager with its jobs, and the
      layer-aware diff ([linpodx-runtime/src/snapshot.rs], [snapshot_crypto.rs],
      [snapshot_key_rotation.rs], [oci_tar.rs], [linpodx-sandbox/src/snapshot.rs]).
    - [Containers]: the container handlers of the daemon, where all of these meet
      ([linpodx-daemon/src/dispatch/containers.rs]).
    - [IpNet], [Egress]: addresses and the nft script, the DNS filter, the
      privileged helper and its client ([linpodx-netfilter],
      [linpodx-runtime/src/network_filter.rs], [egress_enforcer.rs]).
    - [Distro]: distro instances, custom images and menu entries ([linpodx-distro]).

    Surfaces and cluster:
    - [Rpc]: JSON-RPC envelopes, error codes and dispatch. [Server]: the Unix-socket
      connections and broadcast channels. [Remote], [PinStore]: the remote listener,
      the bearer checks, and certificates pinned on first use ([linpodx-daemon]).
    - [Gui]: the reducer of the graphical clients and the snapshot tree
      ([linpodx-gui-core/src/state.rs]). [Web]: helpers of the web client.
    - [Peers]: the peer table, gossip and the container view; [RaftStore],
      [RaftNode]: Raft storage, state machine, node and membership
      ([linpodx-cluster]).

    ** How they interact

    A container creation goes through [Containers.container_create] to
    [Manager.apply_to_create], which asks the engine ([Policy.apply]), asks the
    gateway for each pending gate ([Approval], whose inner gateway is the registry of
    [ApprovalRegistry]) and compiles the security profile ([SecProfile]); the plugins
    may add options ([Plugin]), [Podman.create_args] turns the decision into a
    command line, and a session and a collector are started; the log
    ([AuditLog.append]) is written at every step. A line of MCP traffic goes through
    [Bridge.pump_line], which asks the rules ([Mcp.evaluate_policy]) and possibly the
    gateway, and records the line through an [AuditSink] before it is written to the
    other side. An egress request goes from [Egress.network_egress_apply] over the
    helper's socket to the script of [IpNet]. A committed snapshot goes through the
    hook of [SnapStore] that encrypts it; the rows [Snapshots] keeps are the tree
    [Gui] draws. A remote connection is admitted by [Remote] with the trust of
    [PinStore] and then dispatched as one on the Unix socket is ([Rpc], [Server]).
    The cluster hands replicated revocations ([RaftStore]) to the key registry, and
    gossip ([Peers]) drives the membership ([RaftNode]).

    ** What the theorems show

    - Audit log: the hashed bytes determine the row; a log that verifies and ends in
      the same hash is the same log, or two of their rows are a SHA-256 collision; every append,
      failing or not, keeps the log verifiable.
    - Sandbox: an allowed container has only whitelisted mounts with their pinned
      modes; exactly which requests are denied or gated; no creation succeeds without
      every grant; what podman reads from the command line is what was decided (for
      any option parser with the documented syntax, [PodmanFlagLaws]); under a syscall
      allowlist the container's seccomp file refuses every other call, and exactly
      which failures stop the compilation of a profile.
    - Approvals: a grant always comes from a responder that named the request; in
      every fair run every request returns, after at most three steps of its own.
    - MCP: the rules are a lookup; with rules in place a denied, ungranted or
      unrecognised line is not forwarded; resource updates need a subscription.
    - Plugins and keys: only code verified under its publisher's unrevoked key is
      installed; exactly what the injector chain can add to a container; revocation is
      permanent.
    - Snapshots: the lineage stays a forest; pruning keeps the recent ones; jobs
      settle, unless podman fills its error pipe while its output is being read;
      encrypting and loading back is the identity; rotation never loses the
      contents, whichever operation fails; a diff of layers lists exactly the paths
      whose topmost entries differ.
    - Sessions and metrics: a timeline is its window; histories refine unbounded logs.
    - Egress: the allowlist reaches nft, in the namespace of the container; a name is
      passed to the upstream resolver exactly when it is allowed.
    - Distro instances: the table refines a map of names, each used once.
    - Remote access: an accepted upgrade presented a trusted certificate in the TLS
      handshake of its connection; no session without the token; by how many
      certificates the enrolment cap can be exceeded.
    - Server and clients: a connection gets exactly the events of its topics since it
      subscribed; the clients' state
      stays bounded, their tree is the lineage, and the calendar is right.
    - Cluster: the log store is a list; a node that catches up from a snapshot reaches
      the same replicated state; peers age as documented; synchronisation moves only
      dead and settled peers and never takes the last voter, also when openraft leaves
      a change in its joint configuration.
    - Interfaces: [LogSafe], [AuditSinkLaws], [GatewayLaws], [SecCompilerLaws],
      [SnapshotBackend] and [PluginRevocationSinkLaws] are proved for the
      implementations and used by their clients, so that the manager and the bridge
      keep the log valid for any gateway and sink within their laws.
    - Defects: some theorems and examples state behaviour the source does not intend
      (a method rule cannot be updated, an accepted grant can time out, subscription
      messages bypass the rules, a revocation can be lost, a sandbox profile has no
      part in a distro instance).

    ** Bounds and fuel

    Loops are structural over their input, guests are well-founded trees, and
    termination of a request is a theorem about steps. The loop of the snapshot tree
    has fuel, the number of snapshots, which is proved to be enough on every listing
    of a forest ([Gui.tree_shows_the_lineage]); an upgrade of the remote listener run
    without interruption has six steps, the rank of its first state ([Remote.rank]).
    Integers are [Z] or [N] with
    wrap-around or saturation written out where the source has it; [u64] lengths bound
    what is hashed ([fits_u64]). Faults are quantified over: every theorem holds for
    each choice of failing statements, file operations, podman calls and tasks unless
    it says otherwise.

    ** Not modelled

    SQLite itself (statements either take effect or fail), tokio's scheduler outside
    the modelled interleavings, wasmtime, podman, openraft, nft and the upstream DNS
    resolver, TLS, the ciphers and the network: they are parameters. Where a theorem
    relies on one of them, what is documented of it is a class of laws with an instance
    among the examples: [PodmanFlagLaws] for podman's option parser, [RaftEnvLaws] for
    openraft's membership changes, [CryptoLaws] for the ciphers. podman as a child
    process is its writes and its exit status ([PodmanChild]); how its turns and the
    reader's interleave is a schedule the theorems quantify over. Floating point
    (CPU fractions, chart geometry) stays bits. The overlayfs and btrfs snapshot
    backends, the streams of logs and terminals, process
    spawning of the bridge, the daemon's start-up and doctor checks, the REST handlers
    behind the bearer check, the command line, and the views and connection tasks of
    the clients are left out: they are system calls, rendering or glue around the
    parts above. *)
From Stdlib Require Export ZArith Lia Ascii.
From stdpp Require Export base tactics option strings sorting pretty numbers gmap list.

(** * Results and the state-and-error monad

    Rust's [Result<T, E>], and the monad in which the effectful operations of
    the daemon are written: explicit state passing, where an error keeps the
    effects performed before it ([?] in the source returns early, it does not
    roll anything back). *)

Inductive Result (E A : Type) : Type :=
| Ok (a : A)
| Err (e : E).
Arguments Ok {E A} a.
Arguments Err {E A} e.

#[export] Instance Result_eq_dec {E A} `{EqDecision E, EqDecision A} :
  EqDecision (Result E A).
Proof. solve_decision. Defined.

Definition is_ok {E A} (r : Result E A) : bool :=
  match r with Ok _ => true | Err _ => false end.

Definition M (S E A : Type) : Type := S → Result E A * S.

#[export] Instance M_ret {S E} : MRet (M S E) := λ A a s, (Ok a, s).
#[export] Instance M_bind {S E} : MBind (M S E) := λ A B k c s,
  match c s with
  | (Ok a, s') => k a s'
  | (Err e, s') => (Err e, s')
  end.

Definition throw {S E A} (e : E) : M S E A := λ s, (Err e, s).
Definition gets {S E A} (f : S → A) : M S E A := λ s, (Ok (f s), s).
Definition modify {S E} (f : S → S) : M S E unit := λ s, (Ok tt, f s).

Definition is_some {A} (o : option A) : bool :=
  match o with Some _ => true | None => false end.

Definition unwrap_or {A} (d : A) (o : option A) : A :=
  match o with Some a => a | None => d end.

(** [Option::or]. *)
Definition or_else {A} (o d : option A) : option A :=
  match o with Some a => Some a | None => d end.

(** [Result]s of a pure loop body, collected left to right with [?]. *)
Fixpoint collect {E A} (rs : list (Result E A)) : Result E (list A) :=
  match rs with
  | [] => Ok []
  | Ok a :: rs' => match collect rs' with Ok l => Ok (a :: l) | Err e => Err e end
  | Err e :: _ => Err e
  end.

(** A [for] loop over [l] whose body may return early with an error. *)
Fixpoint for_each {S E A} (body : A → M S E unit) (l : list A) : M S E unit :=
  match l with
  | [] => mret tt
  | x :: l' => body x ≫= λ _, for_each body l'
  end.

(** How a sequence of operations succeeds and how it stops. *)
Lemma bind_ok {S E A B} (c : M S E A) (k : A → M S E B) s b s' :
  (c ≫= k) s = (Ok b, s') ↔ ∃ a s1, c s = (Ok a, s1) ∧ k a s1 = (Ok b, s').
Proof. unfold mbind, M_bind. destruct (c s) as [[a|e] s1]; naive_solver. Qed.

Lemma bind_err {S E A B} (c : M S E A) (k : A → M S E B) s e s' :
  (c ≫= k) s = (Err e, s') ↔
  c s = (Err e, s') ∨ ∃ a s1, c s = (Ok a, s1) ∧ k a s1 = (Err e, s').
Proof. unfold mbind, M_bind. destruct (c s) as [[a|e'] s1]; naive_solver. Qed.

Lemma run_ok {S E A} (c : M S E A) s a : (c s).1 = Ok a → c s = (Ok a, (c s).2).
Proof. destruct (c s). by intros [= ->]. Qed.

Lemma ret_inv {S E A} (a b : A) (s s' : S) : (mret a : M S E A) s = (Ok b, s') → b = a ∧ s' = s.
Proof. by intros [= -> ->]. Qed.

(** The development's hints: lemmas that close the common side conditions
    ([eauto with linpodx]), and equations that normalise lengths and
    concatenations of strings ([autorewrite with linpodx_str]). *)
Create HintDb linpodx.
Create Rewrite HintDb linpodx_str.
Declare Scope linpodx_scope.
Delimit Scope linpodx_scope with linpodx.

(** Closes an equation by evaluating its sides once, in the kernel. *)
Ltac vm_check := match goal with |- _ = ?v => vm_cast_no_check (eq_refl v) end.

(** Take a successful run apart, one bind at a time. *)
Tactic Notation "inv_bind" ident(H) ident(a) ident(s) ident(Hc) :=
  apply bind_ok in H as (a & s & Hc & H).
Ltac run_simpl H :=
  cbv [mret M_ret gets throw modify] in H; simplify_eq/=.
Ltac inv_ret H :=
  apply ret_inv in H; destruct H; subst.

(** * Bytes and strings

    A Rust [String] is its UTF-8 bytes: a [string] here is a list of bytes
    ([ascii]), and its [String.length] is [str::len]. *)

Definition byte_val (c : ascii) : N := Ascii.N_of_ascii c.

(** [str::is_char_boundary] on well-formed UTF-8: offset 0, the end, or a byte
    that is not a continuation byte (0b10xxxxxx). *)
Definition is_cont_byte (c : ascii) : bool :=
  bool_decide (128 ≤ byte_val c < 192)%N.
Definition is_char_boundary (s : string) (i : nat) : bool :=
  if decide (i = 0 ∨ i = String.length s) then true
  else match String.get i s with
       | Some c => negb (is_cont_byte c)
       | None => false
       end.

Fixpoint str_take (n : nat) (s : string) : string :=
  match n, s with
  | S n', String c s' => String c (str_take n' s')
  | _, _ => EmptyString
  end.

(** [&s[..n]]: [None] is the panic of slicing inside a character or past the
    end. *)
Definition slice_to (s : string) (n : nat) : option string :=
  if is_char_boundary s n then Some (str_take n s) else None.

Fixpoint str_all (p : ascii → bool) (s : string) : bool :=
  match s with
  | EmptyString => true
  | String c s' => p c && str_all p s'
  end.

(** Unicode's [White_Space] on the UTF-8 bytes: the number of bytes of the white
    space character [s] starts with, 0 if it starts with another character. *)
Definition ws_len (s : string) : nat :=
  match s with
  | EmptyString => 0
  | String c1 s1 =>
      let b1 := byte_val c1 in
      if bool_decide (9 ≤ b1 ≤ 13)%N || bool_decide (b1 = 32%N) then 1
      else match s1 with
           | EmptyString => 0
           | String c2 s2 =>
               let b2 := byte_val c2 in
               if bool_decide (b1 = 194%N) &&
                  (bool_decide (b2 = 133%N) || bool_decide (b2 = 160%N)) then 2
               else match s2 with
                    | EmptyString => 0
                    | String c3 _ =>
                        let b3 := byte_val c3 in
                        if (bool_decide (b1 = 225%N) && bool_decide (b2 = 154%N) && bool_decide (b3 = 128%N))
                           || (bool_decide (b1 = 226%N) && bool_decide (b2 = 128%N) &&
                               (bool_decide (128 ≤ b3 ≤ 138)%N || bool_decide (b3 = 168%N)
                                || bool_decide (b3 = 169%N) || bool_decide (b3 = 175%N)))
                           || (bool_decide (b1 = 226%N) && bool_decide (b2 = 129%N) && bool_decide (b3 = 159%N))
                           || (bool_decide (b1 = 227%N) && bool_decide (b2 = 128%N) && bool_decide (b3 = 128%N))
                        then 3 else 0
                    end
           end
  end.

(** [s.chars().filter(|c| !c.is_whitespace()).collect()]; [skip] counts the bytes
    left of the character being dropped. *)
Fixpoint strip_ws_from (skip : nat) (s : string) : string :=
  match s with
  | EmptyString => EmptyString
  | String c s' =>
      match skip with
      | S k => strip_ws_from k s'
      | O => match ws_len s with
             | O => String c (strip_ws_from 0 s')
             | S k => strip_ws_from k s'
             end
      end
  end.
Definition strip_ws (s : string) : string := strip_ws_from 0 s.

(** [s.trim().is_empty()]. *)
Definition is_blank (s : string) : bool := bool_decide (strip_ws s = "").

(** [str::trim]. *)
Fixpoint trim_start_from (skip : nat) (s : string) : string :=
  match s with
  | EmptyString => EmptyString
  | String _ s' =>
      match skip with
      | S k => trim_start_from k s'
      | O => match ws_len s with
             | O => s
             | S k => trim_start_from k s'
             end
      end
  end.
Fixpoint trim_end (s : string) : string :=
  match s with
  | EmptyString => EmptyString
  | String c s' => if is_blank s then EmptyString else String c (trim_end s')
  end.
Definition trim (s : string) : string := trim_end (trim_start_from 0 s).

(** [trim_end_matches('\n')]. *)
Definition newline : ascii := Ascii.ascii_of_N 10.
Fixpoint trim_newlines (s : string) : string :=
  match s with
  | EmptyString => EmptyString
  | String c s' => match trim_newlines s' with
                   | EmptyString => if decide (c = newline) then EmptyString else String c EmptyString
                   | t => String c t
                   end
  end.

(** [str::to_ascii_lowercase], [contains], [starts_with], [ends_with]. *)
Definition lower_byte (c : ascii) : ascii :=
  if bool_decide (65 ≤ byte_val c ≤ 90)%N then Ascii.ascii_of_N (byte_val c + 32) else c.
Fixpoint to_lower (s : string) : string :=
  match s with
  | EmptyString => EmptyString
  | String c s' => String (lower_byte c) (to_lower s')
  end.
Definition starts_with (s pat : string) : bool := String.prefix pat s.
Fixpoint contains (s pat : string) : bool :=
  starts_with s pat || match s with EmptyString => false | String _ s' => contains s' pat end.
Fixpoint ends_with (s pat : string) : bool :=
  bool_decide (s = pat) || match s with EmptyString => false | String _ s' => ends_with s' pat end.

Lemma starts_with_iff s p : starts_with s p = true ↔ ∃ t, s = p +:+ t.
Proof.
  unfold starts_with. revert s. induction p as [|c p IH]; intros s; [split; [by exists s|by destruct s]|].
  destruct s as [|d s]; [split; [done|by intros [? ?]]|]. cbn. destruct (Ascii.ascii_dec c d) as [->|Hn].
  - rewrite IH. split; intros [t Ht]; exists t; [by rewrite Ht|]. by injection Ht.
  - split; [done|]. intros [t [= ? ?]]. by subst.
Qed.
Lemma contains_iff s p : contains s p = true ↔ ∃ a b, s = a +:+ p +:+ b.
Proof.
  induction s as [|c s IH]; cbn [contains]; rewrite orb_true_iff, starts_with_iff.
  - split; [intros [[t Ht]|]; [by exists "", t|done]|]. intros ([|??] & b & Hs); [|done]. left. by exists b.
  - rewrite IH. split.
    + intros [[t Ht]|(a & b & ->)]; [by exists "", t|by exists (String c a), b].
    + intros ([|d a] & b & Hs); [left; by exists b|]. right. injection Hs as -> ->. by exists a, b.
Qed.
Lemma ends_with_iff s p : ends_with s p = true ↔ ∃ a, s = a +:+ p.
Proof.
  induction s as [|c s IH]; cbn [ends_with]; rewrite orb_true_iff, bool_decide_eq_true.
  - split; [intros [<-|]; [by exists ""|done]|]. intros ([|??] & Hs); [|done]. by left.
  - rewrite IH. split.
    + intros [<-|(a & ->)]; [by exists ""|by exists (String c a)].
    + intros ([|d a] & Hs); [by left|]. right. injection Hs as -> ->. by exists a.
Qed.

(** [String::from_utf8_lossy]: every maximal invalid sequence becomes U+FFFD.
    [utf8_start] gives the byte ranges that must follow a lead byte. *)
Definition utf8_start (c : ascii) : option (list (N * N)) :=
  let b := byte_val c in
  if bool_decide (b < 128)%N then Some []
  else if bool_decide (194 ≤ b ≤ 223)%N then Some [(128, 191)]%N
  else if bool_decide (b = 224)%N then Some [(160, 191); (128, 191)]%N
  else if bool_decide (b = 237)%N then Some [(128, 159); (128, 191)]%N
  else if bool_decide (225 ≤ b ≤ 239)%N then Some [(128, 191); (128, 191)]%N
  else if bool_decide (b = 240)%N then Some [(144, 191); (128, 191); (128, 191)]%N
  else if bool_decide (241 ≤ b ≤ 243)%N then Some [(128, 191); (128, 191); (128, 191)]%N
  else if bool_decide (b = 244)%N then Some [(128, 143); (128, 191); (128, 191)]%N
  else None.
Definition replacement_char : string :=
  String (Ascii.ascii_of_N 239) (String (Ascii.ascii_of_N 191) (String (Ascii.ascii_of_N 189) "")).
Fixpoint utf8_lossy_from (acc : string) (expect : list (N * N)) (s : string) : string :=
  match s with
  | EmptyString => match expect with [] => "" | _ => replacement_char end
  | String c s' =>
      let start :=
        match utf8_start c with
        | Some [] => String c (utf8_lossy_from "" [] s')
        | Some rs => utf8_lossy_from (String c "") rs s'
        | None => replacement_char +:+ utf8_lossy_from "" [] s'
        end in
      match expect with
      | [] => start
      | (lo, hi) :: rest =>
          if bool_decide (lo ≤ byte_val c ≤ hi)%N then
            match rest with
            | [] => (acc +:+ String c "") +:+ utf8_lossy_from "" [] s'
            | _ => utf8_lossy_from (acc +:+ String c "") rest s'
            end
          else replacement_char +:+ start
      end
  end.
Definition from_utf8_lossy (s : string) : string := utf8_lossy_from "" [] s.

(** The double quote. *)
Definition dquote : string := String (Ascii.ascii_of_N 34) EmptyString.

(** [str::join]. *)
Fixpoint str_concat (sep : string) (l : list string) : string :=
  match l with
  | [] => ""
  | [s] => s
  | s :: l' => s +:+ sep +:+ str_concat sep l'
  end.

(** Lemmas on strings. *)

Lemma str_app_nil_r (s : string) : s +:+ "" = s.
Proof. induction s as [|c s IH]; [done|]. change (String c (s +:+ "") = String c s). by f_equal. Qed.

Lemma str_app_assoc (s t u : string) : (s +:+ t) +:+ u = s +:+ t +:+ u.
Proof. induction s as [|c s IH]; [done|]. change (String c ((s +:+ t) +:+ u) = String c (s +:+ t +:+ u)). by f_equal. Qed.

Lemma str_length_app (s t : string) :
  String.length (s +:+ t) = String.length s + String.length t.
Proof. induction s as [|c s IH]; [done|]. change (S (String.length (s +:+ t)) = S (String.length s + String.length t)). by f_equal. Qed.

(** Two concatenations with first halves of the same length agree half by
    half: what makes a length-prefixed encoding unambiguous. *)
Lemma str_app_inj (s1 s2 t1 t2 : string) :
  String.length s1 = String.length s2 →
  s1 +:+ t1 = s2 +:+ t2 → s1 = s2 ∧ t1 = t2.
Proof.
  revert s2. induction s1 as [|c s1 IH]; intros [|c2 s2] Hlen Heq; simpl in Hlen; [done..|].
  change (String c (s1 +:+ t1) = String c2 (s2 +:+ t2)) in Heq. injection Heq as -> Heq.
  injection Hlen as Hlen. destruct (IH s2 Hlen Heq) as [-> ->]. done.
Qed.

Lemma str_app_inj_l (s t1 t2 : string) : s +:+ t1 = s +:+ t2 → t1 = t2.
Proof. intros H. by apply (str_app_inj s s) in H as [_ ->]. Qed.

Lemma str_cons_inj c1 c2 (s1 s2 : string) : String c1 s1 = String c2 s2 → c1 = c2 ∧ s1 = s2.
Proof. by intros [= -> ->]. Qed.

Lemma str_app_cons_l c (s t : string) : String c s +:+ t = String c (s +:+ t).
Proof. done. Qed.

Lemma str_take_length n s : String.length (str_take n s) = n `min` String.length s.
Proof. revert s. induction n as [|n IH]; intros [|c s]; simpl; auto. Qed.

Lemma str_take_full n s : String.length s ≤ n → str_take n s = s.
Proof.
  revert s. induction n as [|n IH]; intros [|c s] H; simpl in *; try done; try lia.
  f_equal. apply IH. lia.
Qed.

Lemma slice_to_length s n t : slice_to s n = Some t → String.length t ≤ n.
Proof. unfold slice_to. case_match; intros; simplify_eq. rewrite str_take_length. lia. Qed.

(** * Lists *)

Lemma fmap_nil_iff {A B} (f : A → B) (l : list A) : f <$> l = [] ↔ l = [].
Proof. split; [apply fmap_nil_inv|by intros ->]. Qed.

Lemma filter_nil_Forall {A} (P : A → Prop) `{∀ x, Decision (P x)} (l : list A) :
  filter P l = [] ↔ Forall (λ x, ¬ P x) l.
Proof.
  induction l as [|x l IH]; [by split|]. rewrite filter_cons, List.Forall_cons_iff, <-IH.
  case_decide; naive_solver.
Qed.

(** * Machine integers *)

Definition u32_max : Z := 2 ^ 32 - 1.
Definition u64_max : Z := 2 ^ 64 - 1.
Definition i64_min : Z := - 2 ^ 63.
Definition i64_max : Z := 2 ^ 63 - 1.
Definition is_u32 (z : Z) : Prop := (0 ≤ z ≤ u32_max)%Z.
Definition is_u64 (z : Z) : Prop := (0 ≤ z ≤ u64_max)%Z.
Definition is_i64 (z : Z) : Prop := (i64_min ≤ z ≤ i64_max)%Z.
Definition wrap_u64 (z : Z) : Z := (z mod 2 ^ 64)%Z.

(** [i64::saturating_sub], [u32::saturating_add]. *)
Definition i64_saturating_sub (a b : Z) : Z := Z.max i64_min (Z.min i64_max (a - b)).
Definition u32_saturating_add (a b : Z) : Z := Z.min u32_max (a + b).

(** [usize::saturating_add] on a 64-bit target, [i32 as usize] (sign extension)
    and [usize as i32] (truncation). *)
Definition usize_saturating_add (a b : Z) : Z := Z.min u64_max (a + b).
Definition i32_as_usize (a : Z) : Z := (a mod 2 ^ 64)%Z.
Definition usize_as_i32 (a : Z) : Z := ((a + 2 ^ 31) mod 2 ^ 32 - 2 ^ 31)%Z.

(** [u64::to_le_bytes]. *)
Fixpoint le_bytes (n : nat) (v : N) : string :=
  match n with
  | O => EmptyString
  | S n' => String (Ascii.ascii_of_N (v mod 256)) (le_bytes n' (v / 256))
  end.
Definition u64_to_le_bytes (v : N) : string := le_bytes 8 v.

Lemma le_bytes_length n v : String.length (le_bytes n v) = n.
Proof. revert v. induction n; intros; simpl; auto. Qed.

Lemma le_bytes_inj n v1 v2 :
  (v1 < 256 ^ N.of_nat n)%N → (v2 < 256 ^ N.of_nat n)%N →
  le_bytes n v1 = le_bytes n v2 → v1 = v2.
Proof.
  revert v1 v2. induction n as [|n IH]; intros v1 v2 H1 H2 Heq.
  { simpl in H1, H2. lia. }
  replace (N.of_nat (S n)) with (N.succ (N.of_nat n)) in H1, H2 by lia.
  rewrite N.pow_succ_r' in H1, H2. simpl in Heq. injection Heq as Hlow Hhigh.
  apply (f_equal Ascii.N_of_ascii) in Hlow.
  rewrite !Ascii.N_ascii_embedding in Hlow by (apply N.mod_lt; lia).
  apply IH in Hhigh; [|apply N.Div0.div_lt_upper_bound; lia..].
  rewrite (N.div_mod v1 256), (N.div_mod v2 256) by lia. congruence.
Qed.

Lemma u64_to_le_bytes_inj v1 v2 :
  (v1 < 2 ^ 64)%N → (v2 < 2 ^ 64)%N →
  u64_to_le_bytes v1 = u64_to_le_bytes v2 → v1 = v2.
Proof. intros. by apply (le_bytes_inj 8). Qed.

#[export] Hint Rewrite str_length_app str_take_length le_bytes_length str_app_nil_r : linpodx_str.
#[export] Hint Resolve slice_to_length str_take_full : linpodx.

(** Two strings cannot be equal when their lengths differ. *)
Ltac str_length_in H := apply (f_equal String.length) in H; autorewrite with linpodx_str in H; simpl in H.
