(* ===== verification/Text.v ===== *)
(** Rust's [str] methods that take text apart, and integer parsing: the shared
    vocabulary of the parsers of headers, addresses, mappings and command output. *)
From S2P Require Import Prelude.

Definition comma : ascii := Ascii.ascii_of_N 44.
Definition slash : ascii := Ascii.ascii_of_N 47.
Definition colon : ascii := Ascii.ascii_of_N 58.
Definition space : ascii := Ascii.ascii_of_N 32.

(** * Taking strings apart *)

(** [str::strip_prefix] and [strip_suffix]. *)
Fixpoint strip_prefix (pre s : string) : option string :=
  match pre, s with
  | EmptyString, _ => Some s
  | String c pre', String d s' => if decide (c = d) then strip_prefix pre' s' else None
  | String _ _, EmptyString => None
  end.
Fixpoint strip_suffix (suf s : string) : option string :=
  if decide (s = suf) then Some ""
  else match s with
       | EmptyString => None
       | String c s' => String c <$> strip_suffix suf s'
       end.

(** [str::split_once] and [rsplit_once] at a character, [str::split] at one. *)
Fixpoint split_once (sep : ascii) (s : string) : option (string * string) :=
  match s with
  | EmptyString => None
  | String c s' => if decide (c = sep) then Some ("", s')
                   else (λ p, (String c p.1, p.2)) <$> split_once sep s'
  end.
Fixpoint rsplit_once (sep : ascii) (s : string) : option (string * string) :=
  match s with
  | EmptyString => None
  | String c s' =>
      match rsplit_once sep s' with
      | Some (a, b) => Some (String c a, b)
      | None => if decide (c = sep) then Some ("", s') else None
      end
  end.
Fixpoint split (sep : ascii) (s : string) : list string :=
  match s with
  | EmptyString => [""]
  | String c s' =>
      if decide (c = sep) then "" :: split sep s'
      else match split sep s' with
           | [] => [String c ""]
           | w :: ws => String c w :: ws
           end
  end.

(** [str::trim_start], [trim_end_matches] with a character, [eq_ignore_ascii_case]. *)
Definition trim_start (s : string) : string := trim_start_from 0 s.
Fixpoint trim_end_char (x : ascii) (s : string) : string :=
  match s with
  | EmptyString => EmptyString
  | String c s' => match trim_end_char x s' with
                   | EmptyString => if decide (c = x) then EmptyString else String c EmptyString
                   | t => String c t
                   end
  end.
Definition eq_ignore_ascii_case (s t : string) : bool := bool_decide (to_lower s = to_lower t).

(** [str::lines]: lines end at [\n], with a [\r] before it dropped; a final
    newline does not start another line. *)
Definition cr : ascii := Ascii.ascii_of_N 13.
Definition strip_cr (s : string) : string := unwrap_or s (strip_suffix (String cr "") s).
Definition lines (s : string) : list string :=
  let parts := split newline s in
  (strip_cr <$> removelast parts) ++
  match last parts with Some (String c l) => [String c l] | _ => [] end.

(** Whether a character occurs. *)
Fixpoint has_char (x : ascii) (s : string) : bool :=
  match s with
  | EmptyString => false
  | String c s' => bool_decide (c = x) || has_char x s'
  end.

(** [Path::is_absolute], [Path::join]. *)
Definition is_absolute (p : string) : bool := starts_with p "/".
Definition join (base p : string) : string :=
  if is_absolute p || bool_decide (base = "") then p
  else if ends_with base "/" then base +:+ p else base +:+ "/" +:+ p.

(** * Integers *)

Definition digit_val (c : ascii) : option N :=
  if bool_decide (48 ≤ byte_val c ≤ 57)%N then Some (byte_val c - 48)%N else None.

Fixpoint digits_from (acc : N) (s : string) : option N :=
  match s with
  | EmptyString => Some acc
  | String c s' => d ← digit_val c; digits_from (acc * 10 + d)%N s'
  end.

(** [str::parse] of an unsigned integer type: an optional [+], at least one digit,
    no other character, and a value within the type. *)
Definition parse_uint (max : N) (s : string) : option N :=
  let ds := unwrap_or s (strip_prefix "+" s) in
  if decide (ds = "") then None
  else n ← digits_from 0 ds; if bool_decide (n ≤ max)%N then Some n else None.
Definition parse_u16 : string → option N := parse_uint 65535.
Definition parse_u32 : string → option N := parse_uint 4294967295.
Definition parse_u64 : string → option N := parse_uint 18446744073709551615.

(** * Lemmas *)

Lemma strip_prefix_spec pre s r : strip_prefix pre s = Some r ↔ s = pre +:+ r.
Proof.
  revert s. induction pre as [|c pre IH]; intros s; simpl.
  - split; [by intros [= ->]|by intros ->].
  - rewrite str_app_cons_l. destruct s as [|d s]; [done|]. case_decide as Hc.
    + subst d. rewrite IH. split; [by intros ->|]. intros H. by apply str_cons_inj in H as [_ ->].
    + split; [done|]. intros H. by apply str_cons_inj in H as [-> _].
Qed.

Lemma strip_suffix_app suf s : strip_suffix suf (s +:+ suf) = Some s.
Proof.
  induction s as [|c s IH].
  - change ("" +:+ suf) with suf. destruct suf; cbn [strip_suffix]; by rewrite decide_True.
  - rewrite str_app_cons_l. cbn [strip_suffix]. rewrite decide_False; [by rewrite IH|].
    rewrite <-str_app_cons_l. intros H. str_length_in H. lia.
Qed.

Lemma split_once_spec sep s a b :
  split_once sep s = Some (a, b) → s = a +:+ String sep b ∧ has_char sep a = false.
Proof.
  revert a b. induction s as [|c s IH]; intros a b; simpl; [done|]. case_decide as Hc.
  - intros [= <- <-]. by subst.
  - destruct (split_once sep s) as [[a' b']|]; [|done]. intros [= <- <-].
    destruct (IH a' b') as [-> Ha]; [done|]. split; [done|]. simpl. by rewrite bool_decide_false.
Qed.

Lemma split_once_app sep a b : has_char sep a = false → split_once sep (a +:+ String sep b) = Some (a, b).
Proof.
  induction a as [|c a IH]; intros H; cbn [has_char] in H.
  - change ("" +:+ String sep b) with (String sep b). simpl. by rewrite decide_True.
  - rewrite str_app_cons_l. apply orb_false_elim in H as [Hc Ha]. apply bool_decide_eq_false in Hc.
    cbn [split_once]. rewrite decide_False by done. by rewrite IH.
Qed.

Lemma split_once_none sep s : split_once sep s = None ↔ has_char sep s = false.
Proof.
  induction s as [|c s IH]; simpl; [done|]. case_decide as Hc; [by rewrite bool_decide_true|].
  rewrite bool_decide_false by done. simpl. rewrite <-IH. destruct (split_once sep s); done.
Qed.

Lemma has_char_app x a b : has_char x (a +:+ b) = has_char x a || has_char x b.
Proof. induction a as [|c a IH]; [done|]. rewrite str_app_cons_l. simpl. by rewrite IH, orb_assoc. Qed.

Lemma rsplit_once_app sep a b : has_char sep b = false → rsplit_once sep (a +:+ String sep b) = Some (a, b).
Proof.
  intros Hb. assert (rsplit_once sep b = None) as Hn.
  { induction b as [|c b IH]; [done|]. simpl in *. apply orb_false_elim in Hb as [Hc Hb].
    apply bool_decide_eq_false in Hc. rewrite IH by done. by rewrite decide_False. }
  induction a as [|c a IH]; [change ("" +:+ String sep b) with (String sep b)|rewrite str_app_cons_l]; simpl.
  - rewrite Hn. by rewrite decide_True.
  - by rewrite IH.
Qed.

(** A split text joins back to itself, whatever the text. *)
Lemma rsplit_once_none sep s : rsplit_once sep s = None ↔ has_char sep s = false.
Proof.
  induction s as [|c s IH]; [done|]. simpl. destruct (rsplit_once sep s) as [[a b]|] eqn:Hr.
  - split; [done|]. intros [_ H]%orb_false_elim. apply IH in H. congruence.
  - destruct IH as [IH _]. rewrite (IH eq_refl), orb_false_r. case_decide; by rewrite ?bool_decide_eq_false.
Qed.

Lemma split_nonempty sep s : split sep s ≠ [].
Proof. destruct s; simpl; [done|]. case_decide; [done|]. by destruct (split sep s). Qed.
Lemma split_join sep s : str_concat (String sep "") (split sep s) = s.
Proof.
  induction s as [|c s IH]; [done|]. simpl. pose proof (split_nonempty sep s) as Hne.
  case_decide as Hc; destruct (split sep s) as [|w ws] eqn:Hs; try done.
  - subst c. change ("" +:+ String sep "" +:+ str_concat (String sep "") (w :: ws) = String sep s).
    by rewrite IH.
  - destruct ws; simpl in *; [by subst|]. rewrite str_app_cons_l. by rewrite IH.
Qed.

(** ** Decimal numbers *)

Lemma digit_val_char n : (n < 10)%N → digit_val (pretty_N_char n) = Some n.
Proof.
  intros H. rewrite <-(N2Nat.id n). assert (N.to_nat n < 10)%nat as Hn by lia. revert Hn.
  generalize (N.to_nat n). intros k Hk. do 10 (destruct k as [|k]; [done|]). lia.
Qed.

Lemma digits_from_pretty (x : N) s : digits_from 0 (pretty_N_go x s) = digits_from x s.
Proof.
  revert s. induction (N.lt_wf_0 x) as [x _ IH]. intros s. destruct (decide (x = 0)%N) as [->|Hx].
  - by rewrite pretty_N_go_0.
  - rewrite pretty_N_go_step by lia. rewrite IH by (apply N.div_lt; lia). cbn [digits_from].
    rewrite digit_val_char by (apply N.mod_lt; lia). simpl. f_equal. rewrite (N.div_mod x 10) at 3 by lia. lia.
Qed.

Lemma pretty_N_no_plus (n : N) : strip_prefix "+" (pretty n) = None ∧ pretty n ≠ "".
Proof.
  assert (digits_from 0 (pretty n) = Some n) as H.
  { unfold pretty, pretty_N. case_decide as H0; [by subst|]. by rewrite digits_from_pretty. }
  split.
  - destruct (strip_prefix "+" (pretty n)) as [r|] eqn:Hp; [|done].
    apply strip_prefix_spec in Hp. rewrite Hp in H. by simpl in H.
  - intros He. unfold pretty, pretty_N in He. case_decide; [done|]. revert He.
    rewrite pretty_N_go_step by lia. intros He. pose proof (digits_from_pretty (n / 10)%N (String (pretty_N_char (n mod 10)%N) "")) as Hd.
    rewrite He in Hd. simpl in Hd. rewrite digit_val_char in Hd by (apply N.mod_lt; lia). simpl in Hd.
    injection Hd as Hd. pose proof (N.div_mod n 10). lia.
Qed.

(** Printing and parsing an integer of the type gives it back. *)
Lemma parse_uint_pretty max n : (n ≤ max)%N → parse_uint max (pretty n) = Some n.
Proof.
  intros Hn. destruct (pretty_N_no_plus n) as [Hp He]. unfold parse_uint. rewrite Hp. simpl.
  rewrite decide_False by done.
  assert (digits_from 0 (pretty n) = Some n) as ->.
  { unfold pretty, pretty_N. case_decide as H0; [by subst|]. by rewrite digits_from_pretty. }
  simpl. by rewrite bool_decide_true.
Qed.

Lemma parse_uint_bound max s n : parse_uint max s = Some n → (n ≤ max)%N.
Proof.
  unfold parse_uint. case_decide; [done|]. destruct (digits_from _ _); simpl; [|done].
  case_bool_decide; [|done]. by intros [= <-].
Qed.

Lemma digits_no_char x s acc n :
  digit_val x = None → digits_from acc s = Some n → has_char x s = false.
Proof.
  intros Hx. revert acc. induction s as [|c s IH]; intros acc; simpl; [done|].
  destruct (digit_val c) as [d|] eqn:Hd; simpl; [|done]. intros H. rewrite (IH _ H), orb_false_r.
  apply bool_decide_eq_false. intros ->. by rewrite Hx in Hd.
Qed.

Lemma pretty_N_digits (n : N) : digits_from 0 (pretty n) = Some n.
Proof. unfold pretty, pretty_N. case_decide as H0; [by subst|]. by rewrite digits_from_pretty. Qed.

Lemma pretty_N_no_char x (n : N) : digit_val x = None → has_char x (pretty n) = false.
Proof. intros Hx. eapply digits_no_char; [done|apply pretty_N_digits]. Qed.

(** ** Visible text is its own trimming *)

Definition visible (c : ascii) : bool := bool_decide (33 ≤ byte_val c < 127)%N.

Lemma ws_len_visible c s : visible c = true → ws_len (String c s) = 0.
Proof.
  unfold visible. intros Hc%bool_decide_eq_true. unfold ws_len. cbv zeta.
  rewrite (bool_decide_false (9 ≤ byte_val c ≤ 13)%N), (bool_decide_false (byte_val c = 32%N)) by lia.
  destruct s as [|d s]; [done|]. rewrite (bool_decide_false (byte_val c = 194%N)) by lia.
  destruct s; [done|]. rewrite (bool_decide_false (byte_val c = 225%N)), (bool_decide_false (byte_val c = 226%N)),
    (bool_decide_false (byte_val c = 227%N)) by lia. done.
Qed.

Lemma strip_ws_visible c s : visible c = true → strip_ws (String c s) ≠ "".
Proof. intros Hc. unfold strip_ws. cbn [strip_ws_from]. by rewrite ws_len_visible. Qed.

Lemma trim_end_visible s : str_all visible s = true → trim_end s = s.
Proof.
  induction s as [|c s IH]; [done|]. cbn [str_all trim_end]. intros [Hc Hs]%andb_prop.
  unfold is_blank. rewrite bool_decide_false by (by apply strip_ws_visible). by rewrite IH.
Qed.
Lemma trim_start_visible c s : visible c = true → trim_start_from 0 (String c s) = String c s.
Proof. intros Hc. cbn [trim_start_from]. by rewrite ws_len_visible. Qed.
Lemma trim_visible s : str_all visible s = true → trim s = s.
Proof.
  intros Hs. unfold trim. destruct s as [|c s]; [done|].
  rewrite trim_start_visible, trim_end_visible; [done..|]. simpl in Hs. by apply andb_prop in Hs as [].
Qed.

Lemma str_all_app p a b : str_all p (a +:+ b) = str_all p a && str_all p b.
Proof. induction a as [|c a IH]; [done|]. rewrite str_app_cons_l. simpl. by rewrite IH, andb_assoc. Qed.
Lemma str_all_impl (p q : ascii → bool) s :
  (∀ c, p c = true → q c = true) → str_all p s = true → str_all q s = true.
Proof.
  intros Hpq. induction s as [|c s IH]; [done|]. simpl. intros [Hc Hs]%andb_prop. by rewrite (Hpq c Hc), IH.
Qed.

#[export] Hint Resolve pretty_N_no_char split_once_app rsplit_once_app : linpodx.
#[export] Hint Rewrite has_char_app strip_suffix_app split_join : linpodx_str.
