(* ===== verification/Json.v ===== *)
(** [serde_json::Value] as the sources use it, and the outside world the daemon
    calls: the third-party functions (SHA-256, JSON text, chrono's timestamp
    text), the wall clock and the faults of the SQLite connection are the fields
    of [Env], so every theorem holds for each choice of them. *)
From S2P Require Import Prelude.

(** Integers are kept exact; a float is its IEEE-754 bit pattern (the modelled
    code copies floats and never computes with them). *)
Inductive Number : Type :=
| NInt (z : Z)
| NFloat (bits : Z).

Inductive Value : Type :=
| JNull
| JBool (b : bool)
| JNumber (n : Number)
| JString (s : string)
| JArray (l : list Value)
| JObject (m : list (string * Value)).

#[export] Instance Number_eq_dec : EqDecision Number.
Proof. solve_decision. Defined.

(** [Value::get] with a string key: [None] on anything but an object. *)
Fixpoint obj_find {A} (k : string) (m : list (string * A)) : option A :=
  match m with
  | [] => None
  | (k', v) :: m' => if decide (k' = k) then Some v else obj_find k m'
  end.
Definition get (v : Value) (k : string) : option Value :=
  match v with JObject m => obj_find k m | _ => None end.

(** [Value::as_str], [Value::as_i64]. *)
Definition as_str (v : Value) : option string :=
  match v with JString s => Some s | _ => None end.
Definition as_i64 (v : Value) : option Z :=
  match v with
  | JNumber (NInt z) => if decide (i64_min ≤ z ≤ i64_max)%Z then Some z else None
  | _ => None
  end.

(** The fields of an object are listed in the order of the source. The text of a
    [Value] ([json_to_string], where the map type decides the order) and that of
    a serialised struct ([struct_to_string]) are parameters. *)

(** serde's [Option], [Vec<String>] and integers. *)
Definition jopt {A} (f : A → Value) (o : option A) : Value :=
  match o with Some a => f a | None => JNull end.
Definition jint (z : Z) : Value := JNumber (NInt z).
Definition jstrs (l : list string) : Value := JArray (JString <$> l).

(** What is outside the repository. [clock n] is the [n]-th reading of
    [Utc::now()] in Unix milliseconds; [db_fault n] says that the [n]-th
    statement (or transaction) sent to SQLite fails with [sqlx::Error], and
    [task_fault n] that the [n]-th blocking task cannot be joined. *)
Class Env := {
  sha256 : string → string;
  json_to_string : Value → string;
  struct_to_string : Value → string;
  json_from_str : string → option Value;
  ts_format : Z → string;
  ts_parse : string → Z + string;
  ts_serde : Z → string;
  f32_number : Z → Number;
  clock : nat → Z;
  db_fault : nat → bool;
  task_fault : nat → bool;
}.

(** SHA-256 digests are 32 bytes long. *)
Class EnvLaws (E : Env) : Prop := {
  sha256_length : ∀ b, String.length (sha256 b) = 32%nat;
}.

(** A concrete environment for examples: a polynomial checksum cut to 32 bytes,
    a JSON text for the values the examples store, a clock that advances one
    second per reading, and a database without faults. *)
Fixpoint toy_sum (acc : N) (s : string) : N :=
  match s with
  | EmptyString => acc
  | String c s' => toy_sum ((acc * 257 + byte_val c + 1) mod 2 ^ 256) s'
  end.
Definition toy_sha256 (s : string) : string := le_bytes 32 (toy_sum 7 s).

Fixpoint toy_json (v : Value) : string :=
  match v with
  | JNull => "null"
  | JBool b => if b then "true" else "false"
  | JNumber (NInt z) => pretty z
  | JNumber (NFloat b) => "f" +:+ pretty b
  | JString s => dquote +:+ s +:+ dquote
  | JArray l => "[" +:+ str_concat "," (toy_json <$> l) +:+ "]"
  | JObject m => "{" +:+ str_concat "," ((λ kv, dquote +:+ kv.1 +:+ dquote +:+ ":" +:+ toy_json kv.2) <$> m) +:+ "}"
  end.

Definition toy_env_with (texts : list (string * Value)) (fault : nat → bool) : Env := {|
  sha256 := toy_sha256;
  json_to_string := toy_json;
  struct_to_string := toy_json;
  json_from_str := λ s, obj_find s texts;
  ts_format := pretty;
  ts_parse := λ s, if decide (s = "1000") then inl 1000%Z else inr "unparseable";
  ts_serde := pretty;
  f32_number := NFloat;
  clock := λ n, (1000 * Z.of_nat (S n))%Z;
  db_fault := fault;
  task_fault := λ _, false |}.

(** The lines the examples parse; a text that is not here is not JSON. *)
Definition toy_texts : list (string * Value) :=
  [("null", JNull);
   ("[approval]", jstrs ["approval"]);
   ("call", JObject [("method", JString "tools/call"); ("id", jint 1);
                     ("params", JObject [("name", JString "shell")])]);
   ("list", JObject [("method", JString "tools/list"); ("id", jint 2)]);
   ("subscribe", JObject [("method", JString "resources/subscribe"); ("id", jint 3);
                          ("params", JObject [("uri", JString "file:///x")])]);
   ("updated", JObject [("method", JString "notifications/resources/updated");
                        ("params", JObject [("uri", JString "file:///y")])]);
   ("response", JObject [("id", jint 2); ("result", JObject [("capabilities", JObject [])])])].

Definition toy_env : Env := toy_env_with toy_texts (λ _, false).

#[export] Instance toy_env_laws texts fault : EnvLaws (toy_env_with texts fault).
Proof. constructor. intros b. apply le_bytes_length. Qed.
