(* ===== verification/Timestamps.v ===== *)
(** Timestamps as the tables keep them: text that sorts as the times do and reads
    back ([%Y-%m-%dT%H:%M:%S%.3fZ] for the years 0 to 9999), with environments in
    which this holds. *)
From S2P Require Import Prelude Json.

(** chrono's timestamps with milliseconds: for the years 0 to 9999 their text is as
    wide as it is and parses back, so its order is that of the times. *)
Definition ts_range (t : Z) : Prop := (-62167219200000 ≤ t ≤ 253402300799999)%Z.
Definition FAR_FUTURE : string := "9999-12-31T23:59:59.999Z".
Class TsLaws (E : Env) : Prop := {
  ts_order a b : ts_range a → ts_range b → String.ltb (ts_format a) (ts_format b) = bool_decide (a < b)%Z;
  ts_roundtrip a : ts_range a → ts_parse (ts_format a) = inl a;
  ts_last : ts_format 253402300799999 = FAR_FUTURE;
}.

(** Timestamps as 8 big-endian bytes: as wide as each other and in order. *)
Fixpoint be_bytes (n : nat) (v : N) : string :=
  match n with
  | O => ""
  | S n' => String (Ascii.ascii_of_N (v / 256 ^ N.of_nat n')) (be_bytes n' (v mod 256 ^ N.of_nat n'))
  end.
Fixpoint be_val (s : string) : N :=
  match s with
  | EmptyString => 0
  | String c s' => byte_val c * 256 ^ N.of_nat (String.length s') + be_val s'
  end.

Lemma be_bytes_length n v : String.length (be_bytes n v) = n.
Proof. revert v. induction n; intros; simpl; auto. Qed.
Lemma be_top n v : (v < 256 ^ N.of_nat (S n))%N → byte_val (Ascii.ascii_of_N (v / 256 ^ N.of_nat n)) = (v / 256 ^ N.of_nat n)%N.
Proof.
  intros Hv. unfold byte_val. apply Ascii.N_ascii_embedding. apply N.Div0.div_lt_upper_bound.
  replace (N.of_nat (S n)) with (N.succ (N.of_nat n)) in Hv by lia. rewrite N.pow_succ_r' in Hv. lia.
Qed.
Lemma be_val_bytes n v : (v < 256 ^ N.of_nat n)%N → be_val (be_bytes n v) = v.
Proof.
  revert v. induction n as [|n IH]; intros v Hv; [simpl in *; lia|]. cbn [be_bytes be_val].
  rewrite be_bytes_length, be_top, IH by (try apply N.mod_lt; try apply N.pow_nonzero; done || lia).
  pose proof (N.div_mod v (256 ^ N.of_nat n)). rewrite N.mul_comm. symmetry. apply H. by apply N.pow_nonzero.
Qed.
Lemma be_bytes_compare n a b : (a < 256 ^ N.of_nat n)%N → (b < 256 ^ N.of_nat n)%N →
  String.compare (be_bytes n a) (be_bytes n b) = (a ?= b)%N.
Proof.
  revert a b. induction n as [|n IH]; intros a b Ha Hb; [simpl in *; by replace a with b by lia; rewrite N.compare_refl|].
  cbn [be_bytes String.compare]. unfold Ascii.compare. fold (byte_val (Ascii.ascii_of_N (a / 256 ^ N.of_nat n))).
  fold (byte_val (Ascii.ascii_of_N (b / 256 ^ N.of_nat n))). rewrite !be_top by done.
  set (P := (256 ^ N.of_nat n)%N) in *. assert (P ≠ 0%N) as HP by (by apply N.pow_nonzero).
  pose proof (N.div_mod a P HP). pose proof (N.div_mod b P HP). pose proof (N.mod_lt a P HP). pose proof (N.mod_lt b P HP).
  rewrite IH by done. symmetry. generalize dependent (a / P)%N. generalize dependent (b / P)%N.
  generalize dependent (a mod P)%N. generalize dependent (b mod P)%N. clear IH Ha Hb. clearbody P. intros rb Hrb ra Hra qb Hqb qa Hqa.
  destruct (N.compare_spec qa qb) as [->|Hq|Hq]; [destruct (N.compare_spec ra rb)|..].
  - apply N.compare_eq_iff. lia.
  - apply N.compare_lt_iff. lia.
  - apply N.compare_gt_iff. lia.
  - apply N.compare_lt_iff. assert (P * (qa + 1) ≤ P * qb)%N by (apply N.mul_le_mono_l; lia). nia.
  - apply N.compare_gt_iff. assert (P * (qb + 1) ≤ P * qa)%N by (apply N.mul_le_mono_l; lia). nia.
Qed.

(** Environments with such timestamps: a clock that advances a second per
    reading. *)
Definition clock_env : Env := {|
  sha256 := toy_sha256; json_to_string := toy_json; struct_to_string := toy_json; json_from_str := λ _, None;
  ts_format := λ t, if decide (t = 253402300799999)%Z then FAR_FUTURE else be_bytes 8 (Z.to_N (t + 62167219200000));
  ts_parse := λ s, inl (if decide (s = FAR_FUTURE) then 253402300799999 else Z.of_N (be_val s) - 62167219200000)%Z;
  ts_serde := pretty; f32_number := NFloat; clock := λ n, (1000 * Z.of_nat (S n))%Z;
  db_fault := λ _, false; task_fault := λ _, false |}.
Lemma be_before_last n : (n < 2 ^ 56)%N → String.compare (be_bytes 8 n) FAR_FUTURE = Lt.
Proof.
  intros Hn. cbn [be_bytes String.compare FAR_FUTURE]. rewrite (N.div_small n) by (simpl; lia). reflexivity.
Qed.

#[export] Instance clock_env_laws : TsLaws clock_env.
Proof.
  assert (∀ a, ts_range a → (Z.to_N (a + 62167219200000) < 256 ^ N.of_nat 8)%N) as Hr by (unfold ts_range; intros; simpl; lia).
  assert (∀ a, ts_range a → String.compare (be_bytes 8 (Z.to_N (a + 62167219200000))) FAR_FUTURE = Lt) as Hl.
  { intros a Ha. apply be_before_last. unfold ts_range in Ha. lia. }
  split; unfold ts_format, ts_parse; cbn [clock_env].
  - intros a b Ha Hb. unfold String.ltb. unfold ts_range in *.
    destruct (decide (a = 253402300799999%Z)) as [->|Ha'], (decide (b = 253402300799999%Z)) as [->|Hb'].
    + done.
    + rewrite String.compare_antisym, Hl, bool_decide_false by (done || lia). done.
    + by rewrite Hl, bool_decide_true by (done || lia).
    + rewrite be_bytes_compare by auto. case_bool_decide; [by rewrite (proj2 (N.compare_lt_iff _ _)) by lia|].
      destruct (N.compare_spec (Z.to_N (a + 62167219200000)) (Z.to_N (b + 62167219200000))); done || lia.
  - intros a Ha. destruct (decide (a = 253402300799999%Z)) as [->|Ha']; [done|].
    rewrite decide_False by (intros Hs; pose proof (Hl a Ha) as Hc; by rewrite Hs in Hc).
    rewrite be_val_bytes by auto. f_equal. unfold ts_range in *. lia.
  - done.
Qed.

(** The same with a clock that stands still after a minute. *)
Definition clock_slow_env : Env := {|
  sha256 := toy_sha256; json_to_string := toy_json; struct_to_string := toy_json; json_from_str := λ _, None;
  ts_format := ts_format (Env := clock_env); ts_parse := ts_parse (Env := clock_env);
  ts_serde := pretty; f32_number := NFloat; clock := λ n, Z.min 60000 (1000 * Z.of_nat n);
  db_fault := λ _, false; task_fault := λ _, false |}.
#[export] Instance clock_slow_env_laws : TsLaws clock_slow_env.
Proof. split; [apply (ts_order (E := clock_env))|apply (ts_roundtrip (E := clock_env))|done]. Qed.
