(* ===== verification/Common.v ===== *)
(** The shared vocabulary of [linpodx-common]: errors, approval requests and
    outcomes, egress rules, passthrough grants, the container creation options
    and the MCP policy rows that the daemon, the sandbox, the MCP bridge and the
    runtime exchange. *)
From S2P Require Import Prelude Json.

(** * error.rs *)

(** The errors of foreign crates ([Io], [Json], [Sqlx], [Migrate]) carry no
    information the modelled code looks at. *)
Inductive Error : Type :=
| Runtime (message : string)
| PodmanNotFound (s : string)
| PodmanVersionMismatch (found required : string)
| Ipc (s : string)
| NotFound (s : string)
| InvalidArgument (s : string)
| PermissionDenied (s : string)
| Conflict (s : string)
| Timeout (s : string)
| Unsupported (s : string)
| Unavailable (s : string)
| Internal (s : string)
| Io
| Json
| Sqlx
| Migrate.

#[export] Instance Error_eq_dec : EqDecision Error.
Proof. solve_decision. Defined.

(** How an effectful operation can stop early: with an [Err] that callers
    propagate or match on, or by a panic, which no [match] on a [Result]
    catches. *)
Inductive Fault : Type :=
| Fail (e : Error)
| Panic (msg : string).

#[export] Instance Fault_eq_dec : EqDecision Fault.
Proof. solve_decision. Defined.

(** * approval.rs *)

Inductive ApprovalCategory : Type :=
| MountHostPath
| CapAdd
| McpTool.

#[export] Instance ApprovalCategory_eq_dec : EqDecision ApprovalCategory.
Proof. solve_decision. Defined.

Definition category_as_str (c : ApprovalCategory) : string :=
  match c with
  | MountHostPath => "mount_host_path"
  | CapAdd => "cap_add"
  | McpTool => "mcp_tool"
  end.

Record ApprovalRequest : Type := {
  request_id : string;
  category : ApprovalCategory;
  profile_name : string;
  timeout_secs : Z;
  created_at : Z;
  payload : Value;
  container_hint : option string;
}.

Inductive ApprovalOutcome : Type :=
| Granted (by_ : string) (reason : option string)
| Denied (by_ : string) (reason : option string)
| TimedOut
| NoListener.

#[export] Instance ApprovalOutcome_eq_dec : EqDecision ApprovalOutcome.
Proof. solve_decision. Defined.

Definition is_granted (o : ApprovalOutcome) : bool :=
  match o with Granted _ _ => true | _ => false end.

Record ApprovalResolved : Type := {
  res_request_id : string;
  res_outcome : ApprovalOutcome;
}.

(** The derived [Serialize] of the two: [#[serde(tag = "outcome")]] puts the
    variant's name next to its fields, [skip_serializing_if] leaves a [None]
    out. *)
Definition skip_none (k : string) (o : option string) : list (string * Value) :=
  match o with Some s => [(k, JString s)] | None => [] end.

Definition request_to_value {E : Env} (r : ApprovalRequest) : Value :=
  JObject ([("request_id", JString (request_id r));
            ("category", JString (category_as_str (category r)));
            ("profile_name", JString (profile_name r));
            ("timeout_secs", jint (timeout_secs r));
            ("created_at", JString (ts_serde (created_at r)));
            ("payload", payload r)] ++ skip_none "container_hint" (container_hint r)).

Definition outcome_to_value (o : ApprovalOutcome) : Value :=
  match o with
  | Granted b r =>
      JObject ([("outcome", JString "granted"); ("by", JString b)] ++ skip_none "reason" r)
  | Denied b r =>
      JObject ([("outcome", JString "denied"); ("by", JString b)] ++ skip_none "reason" r)
  | TimedOut => JObject [("outcome", JString "timed_out")]
  | NoListener => JObject [("outcome", JString "no_listener")]
  end.

(** * network.rs *)

Inductive EgressProto : Type := ProtoAny | ProtoTcp | ProtoUdp.

Record EgressRule : Type := {
  proto : EgressProto;
  addr : string;
  port : option Z;
  note : option string;
}.

(** * passthrough.rs *)

Inductive AudioMode : Type := AudioNone | PipeWire | Pulse.
Inductive DistroKind : Type := Ubuntu | Fedora | Arch | Debian | Alpine | NixOS.
Inductive SnapshotBackendKind : Type := PodmanCommit | Overlayfs | Btrfs.

Record PassthroughSpec : Type := {
  wayland : bool;
  x11 : bool;
  audio : AudioMode;
  gpu : bool;
  dbus_session : bool;
  clipboard : bool;
  hidpi_inherit : bool;
  register_app_menu : option string;
}.

(** * state.rs *)

Inductive ContainerState : Type :=
| CsCreated | CsRunning | CsPaused | CsExited | CsDead | CsUnknown.

Record ContainerSummary : Type := {
  cs_id : string;
  cs_names : list string;
  cs_image : string;
  cs_state : ContainerState;
  cs_status : string;
  cs_created : Z;
  cs_command : option string;
  cs_ports : list string;
  cs_labels : gmap string string;
}.

Inductive PortProtocol : Type := PortTcp | PortUdp | PortSctp.

Record PortMapping : Type := {
  host_port : Z;
  container_port : Z;
  protocol : PortProtocol;
  host_ip : option string;
}.

Record VolumeMount : Type := {
  source : string;
  destination : string;
  vm_read_only : bool;
}.

#[export] Instance VolumeMount_eq_dec : EqDecision VolumeMount.
Proof. solve_decision. Defined.

(** * ipc.rs *)

(** [f32] values are carried as their bit patterns. *)
Record CreateOptions : Type := {
  image : string;
  co_name : option string;
  command : list string;
  env : list (string * string);
  labels : list (string * string);
  rm : bool;
  detach : bool;
  port_mappings : list PortMapping;
  volumes : list VolumeMount;
  networks : list string;
  cap_drop : list string;
  cap_add : list string;
  read_only : bool;
  cpus : option Z;
  memory_mb : option Z;
  sandbox_profile : option string;
  co_passthrough : option PassthroughSpec;
  co_systemd : bool;
  auto_restart : bool;
  keep_user_id : bool;
  rootfs : option string;
  security_opts : list string;
}.

Inductive McpPolicyDecision : Type := AutoAllow | Prompt | Deny | AuditOnly.

#[export] Instance McpPolicyDecision_eq_dec : EqDecision McpPolicyDecision.
Proof. solve_decision. Defined.

Record McpPolicyRule : Type := {
  method : string;
  tool_name : option string;
  decision : McpPolicyDecision;
  rule_note : option string;
}.

#[export] Instance McpPolicyRule_eq_dec : EqDecision McpPolicyRule.
Proof. solve_decision. Defined.

Record McpCapabilities : Type := {
  tools : bool;
  resources : bool;
  prompts : bool;
  logging : bool;
  experimental : Value;
}.

Inductive EventTopic : Type :=
| TContainer | TImage | TVolume | TNetwork | TSandbox | TAudit | TSnapshot
| TSession | TMcp | TDistro | TMetrics | TSecret.

Inductive EventKind : Type :=
| Created | Started | Stopped | Removed | Renamed | Pulled | Tagged | Progress
| Log | Succeeded | Failed.

Record Event : Type := {
  topic : EventTopic;
  ev_kind : EventKind;
  resource_id : string;
  timestamp : Z;
  details : Value;
}.
