(* ===== verification/Schema.v ===== *)
(** The sandbox profile: [linpodx-sandbox/src/schema.rs] (the YAML schema) and
    [profile.rs] (validation and the directory loader). The YAML parser and the
    file system are outside the repository: the parser is the variable
    [yaml_from_str], a directory listing is an argument. *)
From S2P Require Import Prelude Json Common.

Definition PROFILE_SCHEMA_VERSION : Z := 1.

Record AppArmorExtras : Type := {
  aa_deny : list string;
  aa_allow : list string;
}.

Inductive NetworkPolicy : Type :=
| NetNone
| Allowlist (domains : list string) (l4_rules : list EgressRule)
| Full.

Inductive SourcePattern : Type :=
| Named (name : string)
| HostPath (path : string).

Record MountRule : Type := {
  rule_source : SourcePattern;
  rule_destination : string;
  rule_read_only : bool;
}.

Record Limits : Type := {
  lim_cpu : option Z;
  lim_memory_mb : option Z;
  lim_disk_mb : option Z;
  lim_time_secs : option Z;
}.

Record Capabilities : Type := {
  drop : list string;
  add : list string;
}.

Definition default_drop : list string := ["ALL"].
Definition default_capabilities : Capabilities := {| drop := default_drop; add := [] |}.

Record SandboxProfile : Type := {
  version : Z;
  sp_name : string;
  description : string;
  network : NetworkPolicy;
  mounts : list MountRule;
  limits : Limits;
  capabilities : Capabilities;
  read_only_rootfs : bool;
  approval_gates : list ApprovalCategory;
  approval_timeout_secs : option Z;
  snapshot_before_run : bool;
  passthrough : option PassthroughSpec;
  distro_kind : option DistroKind;
  systemd : bool;
  snapshot_backend : option SnapshotBackendKind;
  syscall_allowlist : option (list string);
  apparmor_extra : option AppArmorExtras;
  selinux_label : option string;
  selinux_type : option string;
  auto_encrypt_snapshots : bool;
}.

(** * profile.rs *)

(** [source] is the path as [Path::display] prints it. *)
Definition validate (profile : SandboxProfile) (source : string) : Result Error unit :=
  if negb (bool_decide (version profile = PROFILE_SCHEMA_VERSION)) then
    Err (InvalidArgument (source +:+ " declares version " +:+ pretty (version profile) +:+
         " but only " +:+ pretty PROFILE_SCHEMA_VERSION +:+ " is supported in this build"))
  else if is_blank (sp_name profile) then
    Err (InvalidArgument (source +:+ ": profile name is empty"))
  else if is_some (selinux_label profile) && is_some (selinux_type profile) then
    Err (InvalidArgument (source +:+ ": selinux_label and selinux_type are mutually exclusive — pick one (selinux_label for a static system label like " +:+
         dquote +:+ "container_t" +:+ dquote +:+
         ", selinux_type when you want linpodx to synthesize a per-profile module)"))
  else Ok tt.

Section Loader.
(** [serde_norway::from_str]: the profile, or the parser's message. *)
Variable yaml_from_str : string → SandboxProfile + string.

Definition parse_profile (content source : string) : Result Error SandboxProfile :=
  match yaml_from_str content with
  | inr e => Err (Runtime ("invalid sandbox profile " +:+ source +:+ ": " +:+ e))
  | inl profile =>
      match validate profile source with
      | Ok _ => Ok profile
      | Err e => Err e
      end
  end.

(** A directory entry: its path, the extension [Path::extension] sees and the
    outcome of reading it as UTF-8 text. *)
Record DirEntry : Type := {
  path : string;
  extension : option string;
  read_to_string : option string;
}.

Definition is_yaml (e : DirEntry) : bool :=
  bool_decide (extension e = Some "yaml") || bool_decide (extension e = Some "yml").

(** One pass of the [while let] loop body. *)
Fixpoint load_entries (es : list DirEntry) : Result Error (list (SandboxProfile * string)) :=
  match es with
  | [] => Ok []
  | e :: es' =>
      if negb (is_yaml e) then load_entries es'
      else match read_to_string e with
           | None => Err Io
           | Some content =>
               match parse_profile content (path e) with
               | Err err => Err err
               | Ok profile =>
                   match load_entries es' with
                   | Err err => Err err
                   | Ok out => Ok ((profile, content) :: out)
                   end
               end
           end
  end.

Definition name_le (a b : SandboxProfile * string) : Prop :=
  String.le (sp_name a.1) (sp_name b.1).
#[global] Instance name_le_dec : RelDecision name_le.
Proof. intros a b. unfold name_le. apply _. Defined.

(** [sort_by] is a stable sort, and so is stdpp's [merge_sort]. *)
Definition sort_by_name (l : list (SandboxProfile * string)) : list (SandboxProfile * string) :=
  merge_sort name_le l.

Inductive ReadDir : Type :=
| DirMissing
| DirError
| DirEntries (es : list DirEntry).

Definition load_profiles_from_dir (dir : ReadDir) : Result Error (list (SandboxProfile * string)) :=
  match dir with
  | DirMissing => Ok []
  | DirError => Err Io
  | DirEntries es =>
      match load_entries es with
      | Err e => Err e
      | Ok out => Ok (sort_by_name out)
      end
  end.

#[global] Instance name_le_total : Total name_le.
Proof. intros a b. unfold name_le. apply (total String.le). Qed.
#[global] Instance name_le_trans : Transitive name_le.
Proof. intros a b c. unfold name_le. apply transitivity. Qed.

Definition profile_valid (p : SandboxProfile) : Prop :=
  version p = PROFILE_SCHEMA_VERSION ∧ is_blank (sp_name p) = false ∧
  ¬ (is_Some (selinux_label p) ∧ is_Some (selinux_type p)).

Lemma validate_ok p src : validate p src = Ok tt ↔ profile_valid p.
Proof.
  unfold validate, profile_valid.
  destruct (bool_decide_reflect (version p = PROFILE_SCHEMA_VERSION)) as [Hv|Hv]; simpl; [|naive_solver].
  destruct (is_blank (sp_name p)); [naive_solver|].
  destruct (selinux_label p), (selinux_type p); simpl; unfold is_Some; naive_solver.
Qed.

Lemma parse_profile_ok c src p :
  parse_profile c src = Ok p ↔ yaml_from_str c = inl p ∧ profile_valid p.
Proof.
  unfold parse_profile. rewrite <-(validate_ok p src). destruct (yaml_from_str c) as [q|]; [|naive_solver].
  destruct (validate q src) as [[]|] eqn:Hv;
    (split; [intros ?; simplify_eq; done | intros [? ?]; simplify_eq; congruence]).
Qed.

Lemma load_entries_ok es out :
  load_entries es = Ok out →
  Forall (λ pc, profile_valid pc.1 ∧ yaml_from_str pc.2 = inl pc.1) out ∧
  out.*2 = omap read_to_string (filter is_yaml es).
Proof.
  revert out. induction es as [|e es IH]; intros out H; simpl in H.
  { simplify_eq. by split. }
  rewrite filter_cons.
  destruct (is_yaml e) eqn:Hy; simpl in H.
  - destruct (read_to_string e) as [c|] eqn:Hr; [|done].
    destruct (parse_profile c (path e)) as [p|] eqn:Hp; [|done].
    destruct (load_entries es) as [out'|]; [|done]. simplify_eq.
    destruct (IH out' eq_refl) as [HF Heq]. apply parse_profile_ok in Hp as [Hyaml Hval].
    split; [by constructor|]. rewrite decide_True by done. simpl. rewrite Hr. by f_equal/=.
  - rewrite decide_False by (by intros ?). by apply IH.
Qed.

Lemma load_entries_length es out :
  load_entries es = Ok out → length out = length (filter is_yaml es).
Proof.
  revert out. induction es as [|e es IH]; intros out H; simpl in H; [by simplify_eq|].
  rewrite filter_cons. destruct (is_yaml e) eqn:Hy; simpl in H.
  - rewrite decide_True by done. repeat (case_match; simplify_eq/=). f_equal. by apply IH.
  - rewrite decide_False by (by intros ?). by apply IH.
Qed.

Lemma load_dir_ok dir out :
  load_profiles_from_dir dir = Ok out →
  match dir with
  | DirMissing => out = []
  | DirError => False
  | DirEntries es =>
      StronglySorted name_le out ∧
      Forall (λ pc, profile_valid pc.1 ∧ yaml_from_str pc.2 = inl pc.1) out ∧
      out.*2 ≡ₚ omap read_to_string (filter is_yaml es) ∧
      length out = length (filter is_yaml es)
  end.
Proof.
  destruct dir as [| |es]; simpl; intros H; [by simplify_eq|done|].
  destruct (load_entries es) as [l|] eqn:Hl; [|done]. simplify_eq.
  pose proof (load_entries_ok _ _ Hl) as [HF Heq]. pose proof (load_entries_length _ _ Hl) as Hlen.
  pose proof (merge_sort_Permutation name_le l) as Hperm. unfold sort_by_name. split_and!.
  - apply (StronglySorted_merge_sort name_le).
  - by rewrite Hperm.
  - rewrite <-Heq. by apply fmap_Permutation.
  - by rewrite Hperm.
Qed.

(** What the loader returns. A missing directory gives no profile; otherwise
    success means that every [.yaml]/[.yml] file was read and parsed, that each
    resulting profile passes the validation (supported version, a name, at most
    one of the two SELinux fields), and that they come sorted by name with the
    text they were parsed from. *)
Theorem loaded_profiles_valid_and_sorted dir out :
  load_profiles_from_dir dir = Ok out →
  match dir with
  | DirMissing => out = []
  | DirError => False
  | DirEntries es =>
      StronglySorted name_le out ∧
      Forall (λ pc, profile_valid pc.1 ∧ yaml_from_str pc.2 = inl pc.1) out ∧
      out.*2 ≡ₚ omap read_to_string (filter is_yaml es) ∧
      length out = length (filter is_yaml es)
  end.
Proof. apply load_dir_ok. Qed.
End Loader.

(** * Examples *)

Definition plain_profile (name : string) : SandboxProfile :=
  {| version := 1; sp_name := name; description := ""; network := NetNone; mounts := [];
     limits := {| lim_cpu := None; lim_memory_mb := None; lim_disk_mb := None; lim_time_secs := None |};
     capabilities := default_capabilities; read_only_rootfs := true; approval_gates := [];
     approval_timeout_secs := None; snapshot_before_run := false; passthrough := None; distro_kind := None;
     systemd := false; snapshot_backend := None; syscall_allowlist := None; apparmor_extra := None;
     selinux_label := None; selinux_type := None; auto_encrypt_snapshots := false |}.
Definition plain_yaml (text : string) : SandboxProfile + string := inl (plain_profile text).
Definition example_dir : ReadDir := DirEntries
  [{| path := "p/b.yaml"; extension := Some "yaml"; read_to_string := Some "web" |};
   {| path := "p/README"; extension := None; read_to_string := Some "text" |};
   {| path := "p/a.yml"; extension := Some "yml"; read_to_string := Some "agent" |}].

Lemma loaded_profiles_valid_and_sorted_witness :
  StronglySorted name_le [(plain_profile "agent", "agent"); (plain_profile "web", "web")].
Proof.
  apply (loaded_profiles_valid_and_sorted plain_yaml example_dir). vm_compute. reflexivity.
Defined.
