(* ===== verification/Policy.v ===== *)
(** The sandbox policy engine, [linpodx-sandbox/src/policy.rs]: applying a
    profile to the options of a container about to be created. *)
From S2P Require Import Prelude Json Common Schema.

Record AppliedPolicy : Type := {
  ap_profile_name : string;
  ap_network : string;
  ap_mounts_allowed : list string;
  ap_cap_drop : list string;
  ap_cap_add : list string;
  ap_read_only_rootfs : bool;
  ap_cpus : option Z;
  ap_memory_mb : option Z;
  ap_deferred : list string;
}.

Record PendingGate : Type := {
  gate_category : ApprovalCategory;
  gate_payload : Value;
}.

Inductive PolicyDecision : Type :=
| Allow (opts : CreateOptions) (applied : AppliedPolicy)
| PDeny (reason : string)
| NeedsApproval (gates : list PendingGate) (opts : CreateOptions) (applied : AppliedPolicy).

Inductive MountVerdict : Type :=
| NotAllowed
| Allowed
| DowngradeToReadOnly.

#[export] Instance MountVerdict_eq_dec : EqDecision MountVerdict.
Proof. solve_decision. Defined.

(** * Operations *)

(** [src_match && dst_match] of the loop in [mount_verdict]. *)
Definition rule_matches (rule : MountRule) (vm : VolumeMount) : bool :=
  let src_match := match rule_source rule with
                   | Named name => bool_decide (source vm = name)
                   | HostPath path => bool_decide (source vm = path)
                   end in
  let dst_match := bool_decide (rule_destination rule = destination vm) in
  src_match && dst_match.

Fixpoint mount_verdict_rules (rules : list MountRule) (vm : VolumeMount) : MountVerdict :=
  match rules with
  | [] => NotAllowed
  | rule :: rules' =>
      if rule_matches rule vm then
        if rule_read_only rule && negb (vm_read_only vm) then DowngradeToReadOnly
        else Allowed
      else mount_verdict_rules rules' vm
  end.
Definition mount_verdict (profile : SandboxProfile) (vm : VolumeMount) : MountVerdict :=
  mount_verdict_rules (mounts profile) vm.

(** A [HashSet<String>] put in a [Vec] and sorted. *)
Definition sorted (s : gset string) : list string := merge_sort String.le (elements s).

Definition mount_payload (vm : VolumeMount) : Value :=
  JObject [("source", JString (source vm)); ("destination", JString (destination vm));
           ("read_only", JBool (vm_read_only vm))].
Definition mount_gate (vm : VolumeMount) : PendingGate :=
  {| gate_category := MountHostPath; gate_payload := mount_payload vm |}.
Definition cap_gate (cap : string) : PendingGate :=
  {| gate_category := CapAdd; gate_payload := JObject [("cap", JString cap)] |}.
Definition arrow (vm : VolumeMount) : string := source vm +:+ "->" +:+ destination vm.
Definition set_read_only (vm : VolumeMount) : VolumeMount :=
  {| source := source vm; destination := destination vm; vm_read_only := true |}.

(** Step 1 of [apply], the loop over [opts.volumes]: the rewritten volumes, the
    audit strings and the pending gates, or the reason of the early [Deny]. *)
Fixpoint mounts_loop (profile : SandboxProfile) (gate_mounts : bool) (vs : list VolumeMount) :
    (list VolumeMount * list string * list PendingGate) + string :=
  match vs with
  | [] => inl ([], [], [])
  | vm :: vs' =>
      match mount_verdict profile vm with
      | NotAllowed =>
          if gate_mounts then
            match mounts_loop profile gate_mounts vs' with
            | inl (vols, allowed, gates) =>
                inl (vm :: vols, (arrow vm +:+ " (pending)") :: allowed, mount_gate vm :: gates)
            | inr reason => inr reason
            end
          else inr ("mount '" +:+ arrow vm +:+ "' is not permitted by profile '" +:+
                    sp_name profile +:+ "'")
      | DowngradeToReadOnly =>
          match mounts_loop profile gate_mounts vs' with
          | inl (vols, allowed, gates) =>
              inl (set_read_only vm :: vols, (arrow vm +:+ " (ro-enforced)") :: allowed, gates)
          | inr reason => inr reason
          end
      | Allowed =>
          match mounts_loop profile gate_mounts vs' with
          | inl (vols, allowed, gates) => inl (vm :: vols, arrow vm :: allowed, gates)
          | inr reason => inr reason
          end
      end
  end.

(** Step 2: the network label, what is recorded as not enforced, the networks. *)
Definition network_step (profile : SandboxProfile) (nets : list string) :
    string * list string * list string :=
  match network profile with
  | NetNone => ("none", [], ["none"])
  | Allowlist domains _ =>
      ("allowlist",
       ["network egress allowlist not enforced in v0.1 (" +:+ pretty (length domains) +:+
        " domains recorded)"], nets)
  | Full => ("full", [], nets)
  end.

(** Steps 3 to 5 on the options: capabilities, read-only rootfs, limits; the
    volumes and networks are those of steps 1 and 2. *)
Definition constrain (profile : SandboxProfile) (vols : list VolumeMount) (nets : list string)
    (opts : CreateOptions) : CreateOptions :=
  let profile_add : gset string := list_to_set (add (capabilities profile)) in
  let drop_set : gset string :=
    list_to_set (drop (capabilities profile)) ∪ list_to_set (cap_drop opts) in
  let add_set : gset string := profile_add ∪ list_to_set (cap_add opts) in
  {| image := image opts; co_name := co_name opts; command := command opts;
     env := env opts; labels := labels opts; rm := rm opts; detach := detach opts;
     port_mappings := port_mappings opts;
     volumes := vols; networks := nets;
     cap_drop := sorted drop_set; cap_add := sorted add_set;
     read_only := if read_only_rootfs profile then true else read_only opts;
     cpus := or_else (lim_cpu (limits profile)) (cpus opts);
     memory_mb := or_else (lim_memory_mb (limits profile)) (memory_mb opts);
     sandbox_profile := sandbox_profile opts; co_passthrough := co_passthrough opts;
     co_systemd := co_systemd opts; auto_restart := auto_restart opts;
     keep_user_id := keep_user_id opts; rootfs := rootfs opts;
     security_opts := security_opts opts |}.

(** The capability gates of step 3, over the caller's list. *)
Definition cap_gates (profile : SandboxProfile) (opts : CreateOptions) : list PendingGate :=
  let profile_add : gset string := list_to_set (add (capabilities profile)) in
  let gate_caps := bool_decide (CapAdd ∈ approval_gates profile) in
  cap_gate <$> filter (λ cap, (cap ∉ profile_add) ∧ gate_caps) (cap_add opts).

Definition deferred_limits (profile : SandboxProfile) : list string :=
  (if is_some (lim_disk_mb (limits profile)) then ["limits.disk_mb not enforced in v0.1"] else [])
  ++ (if is_some (lim_time_secs (limits profile)) then ["limits.time_secs not enforced in v0.1"] else []).

Definition apply (profile : SandboxProfile) (opts : CreateOptions) : PolicyDecision :=
  let gate_mounts := bool_decide (MountHostPath ∈ approval_gates profile) in
  match mounts_loop profile gate_mounts (volumes opts) with
  | inr reason => PDeny reason
  | inl (vols, mounts_allowed, mount_gates) =>
      let '(network_label, net_deferred, nets) := network_step profile (networks opts) in
      let pending_gates := mount_gates ++ cap_gates profile opts in
      let opts' := constrain profile vols nets opts in
      let applied := {|
        ap_profile_name := sp_name profile; ap_network := network_label;
        ap_mounts_allowed := mounts_allowed;
        ap_cap_drop := cap_drop opts'; ap_cap_add := cap_add opts';
        ap_read_only_rootfs := read_only opts'; ap_cpus := cpus opts';
        ap_memory_mb := memory_mb opts';
        ap_deferred := net_deferred ++ deferred_limits profile |} in
      match pending_gates with
      | [] => Allow opts' applied
      | _ => NeedsApproval pending_gates opts' applied
      end
  end.

(** [serde_json::to_value(applied)]. *)
Definition applied_to_value {E : Env} (a : AppliedPolicy) : Value :=
  JObject [("profile_name", JString (ap_profile_name a)); ("network", JString (ap_network a));
           ("mounts_allowed", jstrs (ap_mounts_allowed a)); ("cap_drop", jstrs (ap_cap_drop a));
           ("cap_add", jstrs (ap_cap_add a)); ("read_only_rootfs", JBool (ap_read_only_rootfs a));
           ("cpus", jopt (λ b, JNumber (f32_number b)) (ap_cpus a));
           ("memory_mb", jopt jint (ap_memory_mb a)); ("deferred", jstrs (ap_deferred a))].

(** * What the profile asks of a mount *)

(** The rule that decides [vm]: the first whose source and destination match. *)
Definition deciding_rule (profile : SandboxProfile) (vm : VolumeMount) : option MountRule :=
  snd <$> list_find (λ r, rule_matches r vm) (mounts profile).

Definition off_whitelist (profile : SandboxProfile) (vm : VolumeMount) : Prop :=
  deciding_rule profile vm = None.
#[export] Instance off_whitelist_dec p vm : Decision (off_whitelist p vm).
Proof. unfold off_whitelist. destruct (deciding_rule p vm); [right|left]; done. Defined.

(** What the engine may turn [vm] into: same source and destination, never more
    access, and the access its deciding rule pins. *)
Definition enforced (profile : SandboxProfile) (vm vm' : VolumeMount) : Prop :=
  source vm' = source vm ∧ destination vm' = destination vm ∧
  (vm_read_only vm = true → vm_read_only vm' = true) ∧
  ∀ r, deciding_rule profile vm = Some r → rule_read_only r = true → vm_read_only vm' = true.

(** A capability outside the profile's [capabilities.add]. *)
Definition extra_cap (profile : SandboxProfile) (cap : string) : Prop :=
  cap ∉ add (capabilities profile).
#[export] Instance extra_cap_dec p cap : Decision (extra_cap p cap).
Proof. unfold extra_cap. apply _. Defined.

(** * Lemmas *)

Lemma mount_verdict_spec profile vm :
  mount_verdict profile vm =
  match deciding_rule profile vm with
  | None => NotAllowed
  | Some r => if rule_read_only r && negb (vm_read_only vm) then DowngradeToReadOnly else Allowed
  end.
Proof.
  unfold mount_verdict, deciding_rule. induction (mounts profile) as [|r rs IH]; [done|]. simpl.
  destruct (rule_matches r vm) eqn:Hr; simpl.
  - done.
  - rewrite IH. by destruct (list_find _ rs) as [[i r']|].
Qed.

Lemma off_whitelist_verdict profile vm :
  off_whitelist profile vm ↔ mount_verdict profile vm = NotAllowed.
Proof.
  unfold off_whitelist. rewrite mount_verdict_spec.
  destruct (deciding_rule profile vm) as [r|]; [|done]. by destruct (_ && _).
Qed.

Lemma set_read_only_verdict profile vm :
  mount_verdict profile vm = DowngradeToReadOnly →
  mount_verdict profile (set_read_only vm) = Allowed.
Proof.
  assert (deciding_rule profile (set_read_only vm) = deciding_rule profile vm) as Hd by done.
  rewrite !mount_verdict_spec, Hd. destruct (deciding_rule profile vm); [|done].
  simpl. by rewrite andb_false_r.
Qed.

Lemma verdict_enforced profile vm :
  mount_verdict profile vm = DowngradeToReadOnly → enforced profile vm (set_read_only vm).
Proof. done. Qed.

Lemma verdict_keep_enforced profile vm :
  mount_verdict profile vm ≠ DowngradeToReadOnly → enforced profile vm vm.
Proof.
  rewrite mount_verdict_spec. intros H. repeat split; [done|]. intros r Hr Hro.
  rewrite Hr, Hro in H. by destruct (vm_read_only vm).
Qed.

Lemma mounts_loop_deny profile gate vs :
  (∃ reason, mounts_loop profile gate vs = inr reason) ↔
  gate = false ∧ Exists (off_whitelist profile) vs.
Proof.
  induction vs as [|vm vs IH]; simpl.
  { split; [by intros [? ?]|]. intros [_ H]. by inversion H. }
  rewrite Exists_cons, off_whitelist_verdict.
  destruct (mount_verdict profile vm), gate; repeat case_match; naive_solver.
Qed.

Lemma mounts_loop_ok profile gate vs vols allowed gates :
  mounts_loop profile gate vs = inl (vols, allowed, gates) →
  Forall2 (enforced profile) vs vols ∧
  gates = mount_gate <$> filter (off_whitelist profile) vs.
Proof.
  revert vols allowed gates. induction vs as [|vm vs IH]; intros vols allowed gates H; simpl in H.
  { simplify_eq. by split. }
  pose proof (verdict_enforced profile vm) as He. pose proof (verdict_keep_enforced profile vm) as Hk.
  pose proof (off_whitelist_verdict profile vm) as Ho. rewrite filter_cons.
  destruct (mount_verdict profile vm);
    [rewrite decide_True by naive_solver | rewrite decide_False by naive_solver..].
  - destruct gate; [|done].
    destruct (mounts_loop profile true vs) as [[[vols' al'] g']|]; simplify_eq.
    destruct (IH _ _ _ eq_refl) as [? ->]. auto using Forall2.
  - destruct (mounts_loop profile gate vs) as [[[vols' al'] g']|]; simplify_eq.
    destruct (IH _ _ _ eq_refl) as [? ->]. auto using Forall2.
  - destruct (mounts_loop profile gate vs) as [[[vols' al'] g']|]; simplify_eq.
    destruct (IH _ _ _ eq_refl) as [? ->]. auto using Forall2.
Qed.

(** Running the loop again on volumes it let through changes nothing. *)
Lemma mounts_loop_stable profile gate vs vols allowed :
  mounts_loop profile gate vs = inl (vols, allowed, []) →
  ∃ allowed', mounts_loop profile gate vols = inl (vols, allowed', []).
Proof.
  revert vols allowed. induction vs as [|vm vs IH]; intros vols allowed H; simpl in H.
  { simplify_eq. by eexists. }
  destruct (mount_verdict profile vm) eqn:Hv.
  - destruct gate, (mounts_loop profile _ vs) as [[[? ?] ?]|]; by simplify_eq.
  - destruct (mounts_loop profile gate vs) as [[[vols' al'] g']|]; simplify_eq.
    destruct (IH _ _ eq_refl) as [al'' Hal]. simpl. rewrite Hv, Hal. by eexists.
  - destruct (mounts_loop profile gate vs) as [[[vols' al'] g']|]; simplify_eq.
    destruct (IH _ _ eq_refl) as [al'' Hal]. simpl.
    rewrite (set_read_only_verdict _ _ Hv), Hal. by eexists.
Qed.

Lemma elem_of_sorted (s : gset string) x : x ∈ sorted s ↔ x ∈ s.
Proof. unfold sorted. rewrite merge_sort_Permutation. apply elem_of_elements. Qed.

Lemma sorted_Sorted (s : gset string) : Sorted String.le (sorted s).
Proof. apply Sorted_merge_sort. apply _. Qed.

Lemma sorted_NoDup (s : gset string) : NoDup (sorted s).
Proof. unfold sorted. rewrite merge_sort_Permutation. apply NoDup_elements. Qed.

Lemma list_to_set_sorted (s : gset string) : list_to_set (sorted s) = s.
Proof. apply set_eq. intros x. by rewrite elem_of_list_to_set, elem_of_sorted. Qed.

(** The options of a decision that is not a denial. *)
Definition decided_opts (d : PolicyDecision) : option CreateOptions :=
  match d with Allow o _ | NeedsApproval _ o _ => Some o | PDeny _ => None end.
Definition decided_gates (d : PolicyDecision) : list PendingGate :=
  match d with NeedsApproval gs _ _ => gs | _ => [] end.

Lemma cap_gates_spec (p : SandboxProfile) (o : CreateOptions) :
  cap_gates p o = if bool_decide (CapAdd ∈ approval_gates p)
                  then cap_gate <$> filter (extra_cap p) (cap_add o) else [].
Proof.
  unfold cap_gates. destruct (bool_decide _).
  - f_equal. apply list_filter_iff. intros cap. unfold extra_cap. rewrite elem_of_list_to_set. naive_solver.
  - induction (cap_add o) as [|c cs IH]; [done|]. rewrite filter_cons, decide_False by naive_solver. done.
Qed.

Lemma cap_gates_nil p o :
  cap_gates p o = [] ↔
  (CapAdd ∈ approval_gates p → Forall (λ c, c ∈ add (capabilities p)) (cap_add o)).
Proof.
  rewrite cap_gates_spec. case_bool_decide as Hc; [|naive_solver].
  rewrite fmap_nil_iff, filter_nil_Forall. unfold extra_cap.
  assert (Forall (λ c, ¬ (c ∉ add (capabilities p))) (cap_add o) ↔
          Forall (λ c, c ∈ add (capabilities p)) (cap_add o)) as ->; [|naive_solver].
  apply Forall_iff. intros c. split; [apply dec_stable|auto].
Qed.

Lemma network_step_stable p nets :
  (network_step p (network_step p nets).2).2 = (network_step p nets).2.
Proof. unfold network_step. by destruct (network p). Qed.

Lemma constrain_stable p vols nets o :
  constrain p vols nets (constrain p vols nets o) = constrain p vols nets o.
Proof.
  unfold constrain; simpl. rewrite !list_to_set_sorted, !(assoc_L (∪)), !(idemp_L (∪)).
  f_equal; by destruct (read_only_rootfs p), (lim_cpu (limits p)), (lim_memory_mb (limits p)).
Qed.

Lemma cap_gates_constrain p vols nets o :
  cap_gates p o = [] → cap_gates p (constrain p vols nets o) = [].
Proof.
  rewrite !cap_gates_nil. intros H Hc. specialize (H Hc). rewrite Forall_forall in H |- *.
  intros c. simpl. rewrite elem_of_sorted. set_solver.
Qed.

(** The shape of a decision that is not a denial. *)
Lemma apply_shape p o o' :
  decided_opts (apply p o) = Some o' →
  ∃ vols allowed,
    mounts_loop p (bool_decide (MountHostPath ∈ approval_gates p)) (volumes o)
      = inl (vols, allowed, mount_gate <$> filter (off_whitelist p) (volumes o)) ∧
    o' = constrain p vols (network_step p (networks o)).2 o ∧
    decided_gates (apply p o) = (mount_gate <$> filter (off_whitelist p) (volumes o)) ++ cap_gates p o.
Proof.
  unfold apply.
  destruct (mounts_loop p _ (volumes o)) as [[[vols allowed] gs]|] eqn:Hm; [|done].
  destruct (network_step p (networks o)) as [[lab def] nets].
  destruct (mounts_loop_ok _ _ _ _ _ _ Hm) as [_ ->].
  intros H. exists vols, allowed. split; [done|].
  destruct (_ ++ cap_gates p o) as [|g gs']; simpl in H; by simplify_eq.
Qed.

(** Where no gate is left the decision is [Allow], otherwise [NeedsApproval]. *)
Lemma apply_kind p o :
  match apply p o with
  | Allow _ _ => decided_gates (apply p o) = []
  | PDeny _ => True
  | NeedsApproval gs _ _ => gs ≠ []
  end.
Proof.
  unfold apply. destruct (mounts_loop p _ (volumes o)) as [[[vols allowed] gs]|]; [|done].
  destruct (network_step p (networks o)) as [[lab def] nets]. by destruct (_ ++ cap_gates p o).
Qed.

Lemma apply_deny_iff p o :
  (∃ reason, apply p o = PDeny reason) ↔
  (MountHostPath ∉ approval_gates p) ∧ Exists (off_whitelist p) (volumes o).
Proof.
  rewrite <-(bool_decide_eq_false (MountHostPath ∈ approval_gates p)), <-mounts_loop_deny. unfold apply.
  destruct (mounts_loop p _ (volumes o)) as [[[vols al] gs]|]; [|naive_solver].
  destruct (network_step p (networks o)) as [[lab def] nets]. destruct (_ ++ cap_gates p o); naive_solver.
Qed.

Lemma apply_allow_gates p o o' a : apply p o = Allow o' a → decided_gates (apply p o) = [].
Proof. by intros ->. Qed.

Lemma apply_gates_nil p o :
  (mount_gate <$> filter (off_whitelist p) (volumes o)) ++ cap_gates p o = [] ↔
  Forall (λ vm, is_Some (deciding_rule p vm)) (volumes o) ∧
  (CapAdd ∈ approval_gates p → Forall (λ c, c ∈ add (capabilities p)) (cap_add o)).
Proof.
  rewrite app_nil, fmap_nil_iff, filter_nil_Forall, cap_gates_nil. f_equiv.
  apply Forall_iff. intros vm. unfold off_whitelist. by rewrite <-not_eq_None_Some.
Qed.

(** * Theorems *)


(** A rule covers a volume when both its source and its destination are the volume's;
    no rule covers a volume off the list. *)
Definition covers (r : MountRule) (vm : VolumeMount) : Prop :=
  rule_destination r = destination vm ∧
  match rule_source r with Named name => name = source vm | HostPath path => path = source vm end.
#[export] Instance covers_dec r vm : Decision (covers r vm).
Proof. unfold covers. destruct (rule_source r); apply _. Defined.
Definition uncovered (p : SandboxProfile) (vm : VolumeMount) : Prop := Forall (λ r, ¬ covers r vm) (mounts p).
#[export] Instance uncovered_dec p vm : Decision (uncovered p vm).
Proof. unfold uncovered. apply _. Defined.

Lemma rule_matches_covers r vm : rule_matches r vm = true ↔ covers r vm.
Proof. unfold rule_matches, covers. destruct (rule_source r); rewrite andb_true_iff, !bool_decide_eq_true; naive_solver. Qed.
Lemma off_whitelist_uncovered p vm : off_whitelist p vm ↔ uncovered p vm.
Proof.
  unfold off_whitelist, uncovered, deciding_rule. rewrite fmap_None, list_find_None. apply Forall_iff. intros r.
  by rewrite <-rule_matches_covers, Is_true_true.
Qed.
Lemma filter_off_whitelist p (vs : list VolumeMount) : filter (off_whitelist p) vs = filter (uncovered p) vs.
Proof. apply list_filter_iff. apply off_whitelist_uncovered. Qed.
Lemma decided_uncovered p vm : is_Some (deciding_rule p vm) ↔ ¬ uncovered p vm.
Proof. rewrite <-off_whitelist_uncovered. unfold off_whitelist. by rewrite <-not_eq_None_Some. Qed.

(** C11: Which decision the engine takes. It denies exactly when a volume is covered
    by no mount rule of the profile and the profile has no mount gate; it asks for
    approval with exactly one gate per uncovered volume, which names its source,
    destination and access, followed (when the profile gates capabilities) by one
    per requested capability outside [capabilities.add], which names it, both in the
    order of the request; it allows only when every volume is covered and no
    capability is left to ask for. *)
Theorem apply_decision p o :
  match apply p o with
  | PDeny _ => (MountHostPath ∉ approval_gates p) ∧ Exists (uncovered p) (volumes o)
  | Allow _ _ =>
      Forall (λ vm, ¬ uncovered p vm) (volumes o) ∧
      (CapAdd ∈ approval_gates p → Forall (λ c, c ∈ add (capabilities p)) (cap_add o))
  | NeedsApproval gs _ _ =>
      gs = ((λ vm, {| gate_category := MountHostPath;
                      gate_payload := JObject [("source", JString (source vm)); ("destination", JString (destination vm));
                                               ("read_only", JBool (vm_read_only vm))] |}) <$> filter (uncovered p) (volumes o))
           ++ (if decide (CapAdd ∈ approval_gates p)
               then (λ c, {| gate_category := CapAdd; gate_payload := JObject [("cap", JString c)] |})
                      <$> filter (λ c, c ∉ add (capabilities p)) (cap_add o)
               else []) ∧
      gs ≠ [] ∧
      (Exists (uncovered p) (volumes o) → MountHostPath ∈ approval_gates p)
  end.
Proof.
  pose proof (apply_deny_iff p o) as Hd. pose proof (apply_shape p o) as Ho.
  pose proof (apply_kind p o) as Hk.
  assert (Exists (off_whitelist p) (volumes o) ↔ Exists (uncovered p) (volumes o)) as He.
  { split; intros Hx; apply (Exists_impl _ _ _ Hx); apply off_whitelist_uncovered. }
  rewrite He in Hd. destruct (apply p o) as [o' a|reason|gs o' a].
  - destruct (Ho o' eq_refl) as (? & ? & _ & _ & Hg). symmetry in Hg. apply apply_gates_nil in Hg as [Hv Hc].
    split; [|done]. apply (Forall_impl _ _ _ Hv). intros vm. apply decided_uncovered.
  - apply Hd. by eexists.
  - destruct (Ho o' eq_refl) as (? & ? & _ & _ & Hg). split_and!; [|done|].
    + cbn in Hg. rewrite Hg, cap_gates_spec, filter_off_whitelist. f_equal.
      destruct (decide (CapAdd ∈ approval_gates p)); [rewrite bool_decide_true by done|by rewrite bool_decide_false by done].
      done.
    + intros Hx. apply dec_stable. intros Hn. destruct Hd as [_ [? ?]]; done.
Qed.

(** Whatever the decision lets through carries the profile's constraints:
    [network: none] leaves only the [none] network, a read-only rootfs and the
    CPU and memory limits of the profile win over the caller's, nothing the
    profile or the caller drops is lost, and both capability lists come out
    sorted without duplicates. *)
Theorem apply_hardens p o o' :
  decided_opts (apply p o) = Some o' →
  (network p = NetNone → networks o' = ["none"]) ∧
  (read_only_rootfs p = true → read_only o' = true) ∧
  (∀ c, lim_cpu (limits p) = Some c → cpus o' = Some c) ∧
  (∀ m, lim_memory_mb (limits p) = Some m → memory_mb o' = Some m) ∧
  (∀ c, c ∈ cap_drop o' ↔ c ∈ drop (capabilities p) ∨ c ∈ cap_drop o) ∧
  (∀ c, c ∈ cap_add o' ↔ c ∈ add (capabilities p) ∨ c ∈ cap_add o) ∧
  Sorted String.le (cap_drop o') ∧ NoDup (cap_drop o') ∧
  Sorted String.le (cap_add o') ∧ NoDup (cap_add o').
Proof.
  intros H. destruct (apply_shape _ _ _ H) as (vols & al & _ & -> & _). simpl.
  repeat split; try apply sorted_Sorted; try apply sorted_NoDup.
  - intros Hnone. unfold network_step. by rewrite Hnone.
  - by intros ->.
  - by intros c ->.
  - by intros m ->.
  - rewrite elem_of_sorted. set_solver.
  - rewrite elem_of_sorted. set_solver.
  - rewrite elem_of_sorted. set_solver.
  - rewrite elem_of_sorted. set_solver.
Qed.

(** The engine is stable: the options of an [Allow] are accepted by the same
    profile again and come out unchanged. *)
Theorem apply_idempotent p o o' a :
  apply p o = Allow o' a → ∃ a', apply p o' = Allow o' a'.
Proof.
  intros H. destruct (apply_shape p o o') as (vols & al & Hm & -> & Hg); [by rewrite H|].
  rewrite (apply_allow_gates _ _ _ _ H) in Hg. symmetry in Hg. apply app_nil in Hg as [Hg Hc].
  rewrite Hg in Hm. destruct (mounts_loop_stable _ _ _ _ _ Hm) as [al' Hm'].
  unfold apply. simpl volumes. simpl networks. rewrite Hm'.
  destruct (network_step p (network_step p (networks o)).2) as [[lab def] nets] eqn:Hnet.
  assert (nets = (network_step p (networks o)).2) as ->.
  { rewrite <-(network_step_stable p (networks o)). by rewrite Hnet. }
  rewrite constrain_stable, cap_gates_constrain by done. by eexists.
Qed.

(** Capabilities are gated, never denied: without [cap_add] among the
    profile's gates, a capability the profile does not list goes through with no
    gate at all, whatever the rest of the profile says. *)
Theorem ungated_capability_passes p o o' cap :
  CapAdd ∉ approval_gates p → cap ∈ cap_add o → extra_cap p cap →
  decided_opts (apply p o) = Some o' →
  cap ∈ cap_add o' ∧ cap_gate cap ∉ decided_gates (apply p o).
Proof.
  intros Hg Hin Hx H. destruct (apply_shape _ _ _ H) as (vols & al & _ & -> & Hgs).
  split; [simpl; rewrite elem_of_sorted; set_solver|]. rewrite Hgs, cap_gates_spec.
  rewrite bool_decide_eq_false_2, app_nil_r by done. intros Hc.
  apply list_elem_of_fmap in Hc as (vm & Heq & _). discriminate Heq.
Qed.

(** * A concrete profile

    [/data] is pinned read-only, [/work] is read-write, mounts are gated. *)
Definition example_profile : SandboxProfile := {|
  version := 1; sp_name := "agent"; description := ""; network := NetNone;
  mounts := [ {| rule_source := HostPath "/data"; rule_destination := "/data"; rule_read_only := true |};
              {| rule_source := Named "work"; rule_destination := "/work"; rule_read_only := false |} ];
  limits := {| lim_cpu := None; lim_memory_mb := Some 512%Z; lim_disk_mb := Some 10%Z; lim_time_secs := None |};
  capabilities := {| drop := ["ALL"]; add := ["SETUID"] |};
  read_only_rootfs := true; approval_gates := [MountHostPath]; approval_timeout_secs := None;
  snapshot_before_run := false; passthrough := None; distro_kind := None; systemd := false;
  snapshot_backend := None; syscall_allowlist := None; apparmor_extra := None;
  selinux_label := None; selinux_type := None; auto_encrypt_snapshots := true |}.

Definition example_opts (vols : list VolumeMount) (caps : list string) : CreateOptions := {|
  image := "alpine"; co_name := None; command := []; env := []; labels := []; rm := false;
  detach := true; port_mappings := []; volumes := vols; networks := ["web"]; cap_drop := [];
  cap_add := caps; read_only := false; cpus := None; memory_mb := Some 4096%Z;
  sandbox_profile := Some "agent"; co_passthrough := None; co_systemd := false;
  auto_restart := false; keep_user_id := false; rootfs := None; security_opts := [] |}.

Definition rw (s d : string) : VolumeMount :=
  {| source := s; destination := d; vm_read_only := false |}.


Lemma apply_hardens_witness :
  ∃ o', decided_opts (apply example_profile (example_opts [rw "/etc" "/conf"] ["SYS_ADMIN"])) = Some o' ∧
    networks o' = ["none"] ∧ read_only o' = true ∧ memory_mb o' = Some 512%Z.
Proof.
  eexists. split; [reflexivity|].
  edestruct (apply_hardens example_profile (example_opts [rw "/etc" "/conf"] ["SYS_ADMIN"]))
    as (Hn & Hr & _ & Hm & _); [reflexivity|].
  exact (conj (Hn eq_refl) (conj (Hr eq_refl) (Hm 512%Z eq_refl))).
Defined.

Lemma apply_idempotent_witness :
  ∃ o' a', apply example_profile (example_opts [rw "/data" "/data"] []) = Allow o' a' ∧
           ∃ a'', apply example_profile o' = Allow o' a''.
Proof.
  eexists _, _. split; [reflexivity|].
  eapply (apply_idempotent example_profile (example_opts [rw "/data" "/data"] [])). reflexivity.
Defined.

Lemma ungated_capability_passes_witness :
  ∃ o', decided_opts (apply example_profile (example_opts [] ["SYS_ADMIN"])) = Some o' ∧ "SYS_ADMIN" ∈ cap_add o'.
Proof.
  eexists. split; [reflexivity|].
  eapply (ungated_capability_passes example_profile (example_opts [] ["SYS_ADMIN"])); [..|reflexivity];
    apply (bool_decide_unpack _); vm_compute; exact I.
Defined.
