(* ===== verification/Plugin.v ===== *)
(** The WASM plugin host, [linpodx-plugin]: the host functions a guest calls
    ([host_api.rs]), loading and invoking one plugin ([loader.rs]), and chaining
    the plugins of a registry ([registry.rs]), including the filter on what a
    [runtime_injector] plugin may add to a container's creation options.

    The guest is outside the repository: an invocation of a guest export is a
    finite tree of host calls ([Run]), finite because the engine meters fuel
    ([CALL_FUEL_BUDGET], re-armed before each call), ending in a return or a
    trap. Nothing is assumed of it. *)
From S2P Require Import Prelude Json Common.

(** * lib.rs *)

Inductive PluginError : Type :=
| NotImplemented (s : string)
| PIo (s : string)
| Manifest (s : string)
| WasmLoad (s : string)
| HostRejected (s : string)
| PNotFound (s : string)
| Duplicate (s : string).

(** The [#[error(...)]] texts. *)
Definition plugin_error_to_string (e : PluginError) : string :=
  match e with
  | NotImplemented s => "not yet implemented (Stage 2-A): " +:+ s
  | PIo s => "io error: " +:+ s
  | Manifest s => "manifest parse error: " +:+ s
  | WasmLoad s => "wasm load error: " +:+ s
  | HostRejected s => "host call rejected: " +:+ s
  | PNotFound s => "plugin '" +:+ s +:+ "' not found"
  | Duplicate s => "plugin '" +:+ s +:+ "' already installed"
  end.

Inductive PluginDecision : Type := PluginAllow | PluginDeny | PluginDefer.
#[export] Instance PluginDecision_eq_dec : EqDecision PluginDecision.
Proof. solve_decision. Defined.

Definition decision_as_u8 (d : PluginDecision) : Z :=
  match d with PluginAllow => 1 | PluginDeny => 2 | PluginDefer => 0 end.
Definition decision_from_u8 (v : Z) : PluginDecision :=
  if decide (v = 1)%Z then PluginAllow else if decide (v = 2)%Z then PluginDeny else PluginDefer.

Inductive FilterDecision : Type :=
| Forward
| Transform (new_payload : string)
| Drop.
#[export] Instance FilterDecision_eq_dec : EqDecision FilterDecision.
Proof. solve_decision. Defined.

Inductive ValidatorDecision : Type :=
| Pass
| Reject (why : string).
#[export] Instance ValidatorDecision_eq_dec : EqDecision ValidatorDecision.
Proof. solve_decision. Defined.

Inductive NetworkDecision : Type := NetAllow | NetDeny | NetAuditOnly.
#[export] Instance NetworkDecision_eq_dec : EqDecision NetworkDecision.
Proof. solve_decision. Defined.

Definition network_from_i32 (v : Z) : NetworkDecision :=
  if decide (v = 1)%Z then NetDeny else if decide (v = 2)%Z then NetAuditOnly else NetAllow.

Record NetworkTraceEvent : Type := {
  nt_kind : string;
  nt_host : string;
  nt_port : option Z;
}.

Definition trace_event_to_value (e : NetworkTraceEvent) : Value :=
  JObject [("kind", JString (nt_kind e)); ("host", JString (nt_host e));
           ("port", jopt jint (nt_port e))].

Record InjectorPayload : Type := {
  env_add : list (string * string);
  args_append : list string;
  security_opts_add : list string;
}.
Definition empty_injector : InjectorPayload :=
  {| env_add := []; args_append := []; security_opts_add := [] |}.
Definition extend_from (self other : InjectorPayload) : InjectorPayload :=
  {| env_add := env_add self ++ env_add other;
     args_append := args_append self ++ args_append other;
     security_opts_add := security_opts_add self ++ security_opts_add other |}.
Definition injector_is_empty (p : InjectorPayload) : bool :=
  match env_add p, args_append p, security_opts_add p with [], [], [] => true | _, _, _ => false end.

(** * The guest *)

(** What a WASM instance keeps between calls: its exported [memory], when it has
    one, and its globals and tables in an encoding of its own. *)
Record GuestState : Type := {
  g_memory : option string;
  g_rest : string;
}.

(** The functions of the [linpodx_host] namespace with their arguments. *)
Inductive HostCall : Type :=
| HostLog (level ptr len : Z)
| HostGetPayload (ptr max : Z)
| HostReturnDecision (decision reason_ptr reason_len : Z)
| HostReturnPayload (ptr len : Z)
| HostReturnFilterDecision (decision reason_ptr reason_len : Z)
| HostReturnValidatorDecision (decision reason_ptr reason_len : Z)
| HostReturnNetworkDecision (decision reason_ptr reason_len : Z)
| HostReturnInjectorPayload (ptr len : Z).

(** One invocation of an export: the guest runs to a host call, gets the [i32]
    answer and its memory as the host left it, and so on until it returns or
    traps (out of fuel, over a resource limit, unreachable, ...). *)
Inductive Run : Type :=
| RReturn (g : GuestState)
| RTrap (msg : string) (g : GuestState)
| RCall (c : HostCall) (g : GuestState) (k : Z → GuestState → Run).

Inductive Entry : Type :=
| EApproval | EAuditFilter | EProfileValidator | ENetworkTrace | ERuntimeInjector.

Definition entry_export (e : Entry) : string :=
  match e with
  | EApproval => "evaluate_approval"
  | EAuditFilter => "evaluate_audit_filter"
  | EProfileValidator => "evaluate_profile_validator"
  | ENetworkTrace => "evaluate_network_trace"
  | ERuntimeInjector => "evaluate_runtime_injector"
  end.
Definition entry_hook (e : Entry) : string :=
  match e with
  | EApproval => "approval"
  | EAuditFilter => "audit_filter"
  | EProfileValidator => "profile_validator"
  | ENetworkTrace => "network_trace"
  | ERuntimeInjector => "runtime_injector"
  end.

Definition Exports : Type := Entry → option (GuestState → Run).

(** wasmtime and serde: the engine may fail to start; compiling a module file gives the run of its
    instantiation (memory, data segments, start function) and its exports;
    [injector_from_slice] is [serde_json::from_slice::<InjectorPayload>]. *)
Class Wasm := {
  engine_new : Result string unit;
  module_from_file : string → Result string (Run * Exports);
  injector_from_slice : string → option InjectorPayload;
}.

(** * host_api.rs *)

Record HostState : Type := {
  request_payload : string;
  hs_decision : PluginDecision;
  hs_reason : string;
  raw_decision : Z;
  transformed_payload : option string;
  network_decision : NetworkDecision;
  injector_payload : option InjectorPayload;
  plugin_name : string;
}.

Definition host_state_new (name : string) : HostState :=
  {| request_payload := ""; hs_decision := PluginDefer; hs_reason := ""; raw_decision := 0;
     transformed_payload := None; network_decision := NetAllow; injector_payload := None;
     plugin_name := name |}.

Definition reset (bytes : string) (h : HostState) : HostState :=
  {| request_payload := bytes; hs_decision := PluginDefer; hs_reason := ""; raw_decision := 0;
     transformed_payload := None; network_decision := NetAllow; injector_payload := None;
     plugin_name := plugin_name h |}.

Definition take_decision (h : HostState) : PluginDecision * string := (hs_decision h, hs_reason h).
Definition take_filter_outputs (h : HostState) : (Z * string * option string) * HostState :=
  ((raw_decision h, hs_reason h, transformed_payload h),
   {| request_payload := request_payload h; hs_decision := hs_decision h; hs_reason := hs_reason h;
      raw_decision := raw_decision h; transformed_payload := None;
      network_decision := network_decision h; injector_payload := injector_payload h;
      plugin_name := plugin_name h |}).
Definition take_validator_outputs (h : HostState) : Z * string := (raw_decision h, hs_reason h).
Definition take_network_outputs (h : HostState) : NetworkDecision * string :=
  (network_decision h, hs_reason h).
Definition take_injector_payload (h : HostState) : option InjectorPayload * HostState :=
  (injector_payload h,
   {| request_payload := request_payload h; hs_decision := hs_decision h; hs_reason := hs_reason h;
      raw_decision := raw_decision h; transformed_payload := transformed_payload h;
      network_decision := network_decision h; injector_payload := None;
      plugin_name := plugin_name h |}).

Definition str_len (s : string) : Z := Z.of_nat (String.length s).

Definition read_memory_bytes (mem : option string) (ptr len : Z) : string :=
  if (len <=? 0)%Z then ""
  else match mem with
       | None => ""
       | Some data =>
           let start := i32_as_usize ptr in
           let end_ := usize_saturating_add start len in
           if (str_len data <? end_)%Z then ""
           else String.substring (Z.to_nat start) (Z.to_nat (end_ - start)) data
       end.

(** [None] is the [false] of the source. *)
Definition write_memory_bytes (mem : option string) (ptr : Z) (bytes : string) : option string :=
  match mem with
  | None => None
  | Some data =>
      let start := i32_as_usize ptr in
      let end_ := usize_saturating_add start (str_len bytes) in
      if (str_len data <? end_)%Z then None
      else Some (str_take (Z.to_nat start) data +:+ bytes +:+
                 String.substring (Z.to_nat end_) (Z.to_nat (str_len data - end_)) data)
  end.

Definition host_get_payload (ptr max : Z) (h : HostState) (g : GuestState) : Z * GuestState :=
  let needed := str_len (request_payload h) in
  if bool_decide (max < 0)%Z || bool_decide (max < needed)%Z then (usize_as_i32 needed, g)
  else if decide (needed = 0)%Z then (0%Z, g)
  else match write_memory_bytes (g_memory g) ptr (request_payload h) with
       | Some mem => (usize_as_i32 needed, {| g_memory := Some mem; g_rest := g_rest g |})
       | None => ((-1)%Z, g)
       end.

Definition host_return_decision (decision : Z) (reason : string) (h : HostState) : HostState :=
  let mapped := if bool_decide (0 ≤ decision ≤ 255)%Z then decision_from_u8 decision else PluginDefer in
  {| request_payload := request_payload h; hs_decision := mapped; hs_reason := reason;
     raw_decision := raw_decision h; transformed_payload := transformed_payload h;
     network_decision := network_decision h; injector_payload := injector_payload h;
     plugin_name := plugin_name h |}.

Definition host_return_payload (bytes : string) (h : HostState) : HostState :=
  {| request_payload := request_payload h; hs_decision := hs_decision h; hs_reason := hs_reason h;
     raw_decision := raw_decision h; transformed_payload := Some bytes;
     network_decision := network_decision h; injector_payload := injector_payload h;
     plugin_name := plugin_name h |}.

(** [host_return_filter_decision] and [host_return_validator_decision]. *)
Definition host_return_raw_decision (decision : Z) (reason : string) (h : HostState) : HostState :=
  {| request_payload := request_payload h; hs_decision := hs_decision h; hs_reason := reason;
     raw_decision := decision; transformed_payload := transformed_payload h;
     network_decision := network_decision h; injector_payload := injector_payload h;
     plugin_name := plugin_name h |}.

Definition host_return_network_decision (decision : Z) (reason : string) (h : HostState) : HostState :=
  {| request_payload := request_payload h; hs_decision := hs_decision h; hs_reason := reason;
     raw_decision := raw_decision h; transformed_payload := transformed_payload h;
     network_decision := network_from_i32 decision; injector_payload := injector_payload h;
     plugin_name := plugin_name h |}.

Section Host.
Context {W : Wasm}.

Definition host_return_injector_payload (bytes : string) (h : HostState) : HostState :=
  if decide (bytes = "") then h
  else match injector_from_slice bytes with
       | None => h
       | Some p =>
           {| request_payload := request_payload h; hs_decision := hs_decision h; hs_reason := hs_reason h;
              raw_decision := raw_decision h; transformed_payload := transformed_payload h;
              network_decision := network_decision h; injector_payload := Some p;
              plugin_name := plugin_name h |}
       end.

(** The [linpodx_host] import namespace the linker fills. The functions without
    a result answer 0. *)
Definition host_call (c : HostCall) (h : HostState) (g : GuestState) : Z * GuestState * HostState :=
  let read ptr len := read_memory_bytes (g_memory g) ptr len in
  match c with
  | HostLog _ _ _ => (0%Z, g, h)
  | HostGetPayload ptr max => (host_get_payload ptr max h g, h)
  | HostReturnDecision d ptr len => (0%Z, g, host_return_decision d (from_utf8_lossy (read ptr len)) h)
  | HostReturnPayload ptr len => (0%Z, g, host_return_payload (read ptr len) h)
  | HostReturnFilterDecision d ptr len | HostReturnValidatorDecision d ptr len =>
      (0%Z, g, host_return_raw_decision d (from_utf8_lossy (read ptr len)) h)
  | HostReturnNetworkDecision d ptr len =>
      (0%Z, g, host_return_network_decision d (from_utf8_lossy (read ptr len)) h)
  | HostReturnInjectorPayload ptr len => (0%Z, g, host_return_injector_payload (read ptr len) h)
  end.

(** [TypedFunc::call]: the trap message, if any, and the states it leaves. *)
Fixpoint run_guest (r : Run) (h : HostState) : option string * GuestState * HostState :=
  match r with
  | RReturn g => (None, g, h)
  | RTrap msg g => (Some msg, g, h)
  | RCall c g k => let '(v, g', h') := host_call c h g in run_guest (k v g') h'
  end.

End Host.

(** * manifest.rs and loader.rs *)

Record PluginManifest : Type := {
  mf_name : string;
  mf_version : string;
  mf_hooks : list string;
  mf_wasm : string;
  mf_publisher : option string;
  mf_signature_b64 : option string;
}.
Record PluginSpec : Type := {
  ps_manifest : PluginManifest;
  ps_wasm_path : string;
}.

(** [lp_has e] are the five [has_*] flags, [lp_entry e] the five [entry_*]
    handles. *)
Record LoadedPlugin : Type := {
  lp_name : string;
  lp_version : string;
  lp_hooks : list string;
  lp_has : Entry → bool;
  lp_store : HostState;
  lp_instance : GuestState;
  lp_entry : Exports;
}.

Definition set_state (h : HostState) (g : GuestState) (p : LoadedPlugin) : LoadedPlugin :=
  {| lp_name := lp_name p; lp_version := lp_version p; lp_hooks := lp_hooks p; lp_has := lp_has p;
     lp_store := h; lp_instance := g; lp_entry := lp_entry p |}.

Section Loader.
Context {W : Wasm}.

(** [load]: the store starts from [HostState::new] and instantiation may already
    run guest code; a module without any of the five exports is refused. *)
Definition load (manifest : PluginManifest) (wasm_path : string) : Result PluginError LoadedPlugin :=
  match module_from_file wasm_path with
  | Err e => Err (WasmLoad (wasm_path +:+ ": " +:+ e))
  | Ok (start, exports) =>
      match run_guest start (host_state_new (mf_name manifest)) with
      | (Some trap, _, _) => Err (WasmLoad ("instantiate " +:+ mf_name manifest +:+ ": " +:+ trap))
      | (None, g, h) =>
          let has e := is_some (exports e) in
          if negb (has EApproval) && negb (has EAuditFilter) && negb (has EProfileValidator)
             && negb (has ENetworkTrace) && negb (has ERuntimeInjector)
          then Err (WasmLoad ("plugin " +:+ mf_name manifest +:+
                 " exports none of the supported entries (evaluate_approval, " +:+
                 "evaluate_audit_filter, evaluate_profile_validator, evaluate_network_trace, " +:+
                 "evaluate_runtime_injector)"))
          else Ok {| lp_name := mf_name manifest; lp_version := mf_version manifest;
                     lp_hooks := mf_hooks manifest; lp_has := has; lp_store := h;
                     lp_instance := g; lp_entry := exports |}
      end
  end.

(** The part the five evaluation functions share: look the export up, reset the
    host state, arm the fuel (which cannot fail on an engine that meters it) and
    call. *)
Definition invoke (e : Entry) (bytes : string) (p : LoadedPlugin) :
    Result PluginError unit * LoadedPlugin :=
  match lp_entry p e with
  | None => (Err (WasmLoad ("plugin " +:+ lp_name p +:+ " has no " +:+ entry_export e +:+ " export")), p)
  | Some f =>
      let '(trap, g, h) := run_guest (f (lp_instance p)) (reset bytes (lp_store p)) in
      (match trap with
       | Some msg => Err (HostRejected ("plugin " +:+ lp_name p +:+ ": " +:+ msg))
       | None => Ok tt
       end, set_state h g p)
  end.

Definition evaluate (p : LoadedPlugin) (bytes : string) :
    Result PluginError (PluginDecision * string) * LoadedPlugin :=
  let '(r, p') := invoke EApproval bytes p in
  (match r with Ok _ => Ok (take_decision (lp_store p')) | Err e => Err e end, p').

Definition filter_decision_of (raw : Z) (transformed : option string) : FilterDecision :=
  if decide (raw = 1)%Z then Drop
  else if decide (raw = 2)%Z then
    match transformed with Some p => Transform p | None => Forward end
  else Forward.

Definition evaluate_audit_filter (p : LoadedPlugin) (bytes : string) :
    Result PluginError FilterDecision * LoadedPlugin :=
  let '(r, p') := invoke EAuditFilter bytes p in
  match r with
  | Err e => (Err e, p')
  | Ok _ =>
      let '((raw, _, transformed), h) := take_filter_outputs (lp_store p') in
      (Ok (filter_decision_of raw transformed), set_state h (lp_instance p') p')
  end.

Definition evaluate_profile_validator (p : LoadedPlugin) (yaml : string) :
    Result PluginError ValidatorDecision * LoadedPlugin :=
  let '(r, p') := invoke EProfileValidator yaml p in
  (match r with
   | Err e => Err e
   | Ok _ => let '(raw, reason) := take_validator_outputs (lp_store p') in
             Ok (if decide (raw = 1)%Z then Reject reason else Pass)
   end, p').

Definition evaluate_network_trace {E : Env} (p : LoadedPlugin) (event : NetworkTraceEvent) :
    Result PluginError NetworkDecision * LoadedPlugin :=
  let '(r, p') := invoke ENetworkTrace (struct_to_string (trace_event_to_value event)) p in
  (match r with Ok _ => Ok (take_network_outputs (lp_store p')).1 | Err e => Err e end, p').

Definition evaluate_runtime_injector (p : LoadedPlugin) (opts_json : string) :
    Result PluginError InjectorPayload * LoadedPlugin :=
  let '(r, p') := invoke ERuntimeInjector opts_json p in
  match r with
  | Err e => (Err e, p')
  | Ok _ =>
      let '(o, h) := take_injector_payload (lp_store p') in
      (Ok (unwrap_or empty_injector o), set_state h (lp_instance p') p')
  end.
End Loader.

(** * registry.rs *)

Definition MAX_INJECT_ENTRIES : nat := 64.
Definition MAX_INJECT_LEN : nat := 1024.

Definition security_opt_weakens_confinement (opt : string) : bool :=
  let o := strip_ws (to_lower opt) in
  contains o "seccomp=unconfined"
  || contains o "apparmor=unconfined"
  || contains o "label=disable"
  || contains o "systempaths=unconfined"
  || contains o "unmask=all"
  || contains o "no-new-privileges=false"
  || contains o "no-new-privileges=0"
  || bool_decide (o = "privileged").

Definition arg_weakens_confinement (arg : string) : bool :=
  let a := to_lower (trim arg) in
  let compact := strip_ws a in
  starts_with a "--privileged"
  || starts_with a "--security-opt"
  || starts_with a "--cap-add"
  || (ends_with compact "=host"
      && (starts_with a "--pid" || starts_with a "--net" || starts_with a "--ipc"
          || starts_with a "--uts" || starts_with a "--userns"))
  || security_opt_weakens_confinement a.

(** The three loops of [sanitize_injector_payload]: [break] at the cap, else
    [continue] past a rejected entry, else push. *)
Fixpoint sanitize_loop {A} (reject : A → bool) (l clean : list A) : list A :=
  match l with
  | [] => clean
  | x :: l' =>
      if MAX_INJECT_ENTRIES <=? length clean then clean
      else if reject x then sanitize_loop reject l' clean
      else sanitize_loop reject l' (clean ++ [x])
  end.

Definition too_long (s : string) : bool := MAX_INJECT_LEN <? String.length s.

Definition sanitize_injector_payload (p : InjectorPayload) : InjectorPayload :=
  {| security_opts_add :=
       sanitize_loop (λ o, too_long o || security_opt_weakens_confinement o) (security_opts_add p) [];
     args_append := sanitize_loop (λ a, too_long a || arg_weakens_confinement a) (args_append p) [];
     env_add := sanitize_loop (λ kv, too_long kv.1 || too_long kv.2) (env_add p) [] |}.

Definition subscribes (e : Entry) (p : LoadedPlugin) : bool :=
  bool_decide (entry_hook e ∈ lp_hooks p) && lp_has p e.

Record AuditFilterChainResult : Type := {
  outcome : FilterDecision;
  chain_payload : string;
  steps : list (string * FilterDecision);
}.

Section Registry.
Context {W : Wasm}.

(** [PluginRegistry::new] starts without plugins. *)
Definition plugin_registry_new : Result PluginError (list LoadedPlugin) :=
  match engine_new with
  | Ok _ => Ok []
  | Err e => Err (WasmLoad ("wasmtime engine init failed: " +:+ e))
  end.

(** [PluginRegistry::load_all] onto the plugins already there: a plugin that
    fails to load is skipped. *)
Definition load_all (plugins : list LoadedPlugin) (specs : list PluginSpec) : list LoadedPlugin :=
  plugins ++ omap (λ s, match load (ps_manifest s) (ps_wasm_path s) with
                        | Ok p => Some p
                        | Err _ => None
                        end) specs.

Fixpoint evaluate_approval (plugins : list LoadedPlugin) (bytes : string) :
    list (string * PluginDecision * string) * list LoadedPlugin :=
  match plugins with
  | [] => ([], [])
  | p :: ps =>
      if subscribes EApproval p then
        let '(r, p') := evaluate p bytes in
        let d := match r with
                 | Ok (d, reason) => (lp_name p, d, reason)
                 | Err e => (lp_name p, PluginDefer, plugin_error_to_string e)
                 end in
        let '(out, ps') := evaluate_approval ps bytes in (d :: out, p' :: ps')
      else let '(out, ps') := evaluate_approval ps bytes in (out, p :: ps')
  end.

(** The loop of [PluginRegistry::evaluate_audit_filter], from the payload and the
    steps so far. *)
Fixpoint audit_filter_loop (plugins : list LoadedPlugin) (current : string)
    (done : list (string * FilterDecision)) : AuditFilterChainResult * list LoadedPlugin :=
  match plugins with
  | [] => ({| outcome := Forward; chain_payload := current; steps := done |}, [])
  | p :: ps =>
      if subscribes EAuditFilter p then
        match evaluate_audit_filter p current with
        | (Ok Drop, p') =>
            ({| outcome := Drop; chain_payload := current; steps := done ++ [(lp_name p, Drop)] |}, p' :: ps)
        | (Ok (Transform new), p') =>
            let '(r, ps') := audit_filter_loop ps new (done ++ [(lp_name p, Transform new)]) in (r, p' :: ps')
        | (Ok Forward, p') =>
            let '(r, ps') := audit_filter_loop ps current (done ++ [(lp_name p, Forward)]) in (r, p' :: ps')
        | (Err _, p') => let '(r, ps') := audit_filter_loop ps current done in (r, p' :: ps')
        end
      else let '(r, ps') := audit_filter_loop ps current done in (r, p :: ps')
  end.
Definition registry_audit_filter (plugins : list LoadedPlugin) (bytes : string) :
    AuditFilterChainResult * list LoadedPlugin := audit_filter_loop plugins bytes [].

Fixpoint registry_profile_validator (plugins : list LoadedPlugin) (yaml : string) :
    list (string * ValidatorDecision) * list LoadedPlugin :=
  match plugins with
  | [] => ([], [])
  | p :: ps =>
      if subscribes EProfileValidator p then
        let '(r, p') := evaluate_profile_validator p yaml in
        let d := match r with
                 | Ok d => (lp_name p, d)
                 | Err e => (lp_name p, Reject ("plugin trap: " +:+ plugin_error_to_string e))
                 end in
        let '(out, ps') := registry_profile_validator ps yaml in (d :: out, p' :: ps')
      else let '(out, ps') := registry_profile_validator ps yaml in (out, p :: ps')
  end.

Fixpoint network_trace_loop {E : Env} (any_audit : bool) (plugins : list LoadedPlugin)
    (event : NetworkTraceEvent) : NetworkDecision * list LoadedPlugin :=
  match plugins with
  | [] => (if any_audit then NetAuditOnly else NetAllow, [])
  | p :: ps =>
      if subscribes ENetworkTrace p then
        match evaluate_network_trace p event with
        | (Ok NetDeny, p') => (NetDeny, p' :: ps)
        | (Ok NetAuditOnly, p') =>
            let '(d, ps') := network_trace_loop true ps event in (d, p' :: ps')
        | (Ok NetAllow, p') | (Err _, p') =>
            let '(d, ps') := network_trace_loop any_audit ps event in (d, p' :: ps')
        end
      else let '(d, ps') := network_trace_loop any_audit ps event in (d, p :: ps')
  end.
Definition registry_network_trace {E : Env} (plugins : list LoadedPlugin) (event : NetworkTraceEvent) :
    NetworkDecision * list LoadedPlugin := network_trace_loop false plugins event.

Fixpoint injector_loop (merged : InjectorPayload) (plugins : list LoadedPlugin) (opts_json : string) :
    InjectorPayload * list LoadedPlugin :=
  match plugins with
  | [] => (merged, [])
  | p :: ps =>
      if subscribes ERuntimeInjector p then
        let '(r, p') := evaluate_runtime_injector p opts_json in
        let merged' := match r with
                       | Ok payload => extend_from merged (sanitize_injector_payload payload)
                       | Err _ => merged
                       end in
        let '(m, ps') := injector_loop merged' ps opts_json in (m, p' :: ps')
      else let '(m, ps') := injector_loop merged ps opts_json in (m, p :: ps')
  end.
Definition registry_runtime_injector (plugins : list LoadedPlugin) (opts_json : string) :
    InjectorPayload * list LoadedPlugin := injector_loop empty_injector plugins opts_json.
End Registry.

(** * Lemmas *)

Lemma sanitize_loop_spec {A} (reject : A → bool) (l clean : list A) :
  length clean ≤ MAX_INJECT_ENTRIES →
  sanitize_loop reject l clean =
  clean ++ take (MAX_INJECT_ENTRIES - length clean) (filter (λ x, reject x = false) l).
Proof.
  revert clean. induction l as [|x l IH]; intros clean Hc.
  { by rewrite filter_nil, take_nil, app_nil_r. }
  change (sanitize_loop reject (x :: l) clean) with
    (if MAX_INJECT_ENTRIES <=? length clean then clean
     else if reject x then sanitize_loop reject l clean
     else sanitize_loop reject l (clean ++ [x])).
  destruct (Nat.leb_spec MAX_INJECT_ENTRIES (length clean)).
  { replace (MAX_INJECT_ENTRIES - length clean) with 0 by lia. by rewrite take_0, app_nil_r. }
  rewrite filter_cons. destruct (reject x).
  - rewrite decide_False by done. by apply IH.
  - rewrite decide_True by done. rewrite IH by (rewrite length_app; simpl; lia).
    rewrite length_app, <-(assoc_L app). simpl.
    replace (MAX_INJECT_ENTRIES - length clean) with (S (MAX_INJECT_ENTRIES - (length clean + 1))) by lia.
    done.
Qed.

(** What one entry has to satisfy to survive. *)
Definition opt_ok (o : string) : bool := negb (too_long o || security_opt_weakens_confinement o).
Definition arg_ok (a : string) : bool := negb (too_long a || arg_weakens_confinement a).
Definition env_ok (kv : string * string) : bool := negb (too_long kv.1 || too_long kv.2).

Lemma sanitize_loop_negb {A} (ok reject : A → bool) (l : list A) :
  (∀ x, ok x = negb (reject x)) →
  sanitize_loop reject l [] = take MAX_INJECT_ENTRIES (filter (λ x, ok x = true) l).
Proof.
  intros H. rewrite sanitize_loop_spec by (simpl; unfold MAX_INJECT_ENTRIES; lia).
  rewrite Nat.sub_0_r. simpl. f_equal. apply list_filter_iff. intros x. rewrite H.
  by destruct (reject x).
Qed.

Lemma too_long_false s : too_long s = false ↔ String.length s ≤ MAX_INJECT_LEN.
Proof. apply Nat.ltb_ge. Qed.

Lemma opt_ok_true o :
  opt_ok o = true ↔ String.length o ≤ MAX_INJECT_LEN ∧ security_opt_weakens_confinement o = false.
Proof. unfold opt_ok. by rewrite negb_true_iff, orb_false_iff, too_long_false. Qed.
Lemma arg_ok_true a :
  arg_ok a = true ↔ String.length a ≤ MAX_INJECT_LEN ∧ arg_weakens_confinement a = false.
Proof. unfold arg_ok. by rewrite negb_true_iff, orb_false_iff, too_long_false. Qed.
Lemma env_ok_true k v :
  env_ok (k, v) = true ↔ String.length k ≤ MAX_INJECT_LEN ∧ String.length v ≤ MAX_INJECT_LEN.
Proof. unfold env_ok. by rewrite negb_true_iff, orb_false_iff, !too_long_false. Qed.

Lemma sanitize_fields p :
  security_opts_add (sanitize_injector_payload p) =
    take MAX_INJECT_ENTRIES (filter (λ o, opt_ok o = true) (security_opts_add p)) ∧
  args_append (sanitize_injector_payload p) =
    take MAX_INJECT_ENTRIES (filter (λ a, arg_ok a = true) (args_append p)) ∧
  env_add (sanitize_injector_payload p) =
    take MAX_INJECT_ENTRIES (filter (λ kv, env_ok kv = true) (env_add p)).
Proof. split_and!; by apply sanitize_loop_negb. Qed.

(** The entries a field of the merged payload can have, for any of the three
    fields [f] whose sanitised value is the first accepted ones. *)
Section Merged.
Context {A : Type} (f : InjectorPayload → list A) (ok : A → bool).
Hypothesis Hf : ∀ i, f (sanitize_injector_payload i) = take MAX_INJECT_ENTRIES (filter (λ x, ok x = true) (f i)).

Lemma sanitized_merged (R : A → Prop) `{!∀ x, Decision (R x)} (l : list InjectorPayload) :
  (∀ x, ok x = true ↔ R x) →
  concat (f <$> (sanitize_injector_payload <$> l)) = l ≫= (λ i, take MAX_INJECT_ENTRIES (filter R (f i))).
Proof.
  intros HR. induction l as [|i l IH]; [done|]. cbn. rewrite IH, Hf. f_equal. f_equal. by apply list_filter_iff.
Qed.
End Merged.

Section Votes.
Context {W : Wasm} {E : Env}.

Lemma reset_forgets bytes h1 h2 : plugin_name h1 = plugin_name h2 → reset bytes h1 = reset bytes h2.
Proof. unfold reset. by intros ->. Qed.

(** What each plugin answers when it is asked on its own. *)
Definition approval_answer (bytes : string) (p : LoadedPlugin) : string * PluginDecision * string :=
  match (evaluate p bytes).1 with
  | Ok (d, reason) => (lp_name p, d, reason)
  | Err e => (lp_name p, PluginDefer, plugin_error_to_string e)
  end.
Definition validator_answer (yaml : string) (p : LoadedPlugin) : string * ValidatorDecision :=
  match (evaluate_profile_validator p yaml).1 with
  | Ok d => (lp_name p, d)
  | Err e => (lp_name p, Reject ("plugin trap: " +:+ plugin_error_to_string e))
  end.
Definition network_answer (event : NetworkTraceEvent) (p : LoadedPlugin) : option NetworkDecision :=
  if subscribes ENetworkTrace p then
    match (evaluate_network_trace p event).1 with Ok d => Some d | Err _ => None end
  else None.
Definition injector_answer (opts_json : string) (p : LoadedPlugin) : option InjectorPayload :=
  if subscribes ERuntimeInjector p then
    match (evaluate_runtime_injector p opts_json).1 with Ok i => Some i | Err _ => None end
  else None.

(** Deny, then AuditOnly, then Allow, wherever in the chain a vote stands. *)
Definition network_verdict (any_audit : bool) (votes : list NetworkDecision) : NetworkDecision :=
  if decide (NetDeny ∈ votes) then NetDeny
  else if any_audit || bool_decide (NetAuditOnly ∈ votes) then NetAuditOnly else NetAllow.

Lemma network_verdict_cons any v votes :
  network_verdict any (v :: votes) =
  match v with
  | NetDeny => NetDeny
  | NetAuditOnly => network_verdict true votes
  | NetAllow => network_verdict any votes
  end.
Proof.
  unfold network_verdict. destruct v, any; simpl;
    repeat (case_decide || case_bool_decide); set_solver.
Qed.

Lemma network_trace_loop_spec any ps event :
  (network_trace_loop any ps event).1 = network_verdict any (omap (network_answer event) ps).
Proof.
  revert any. induction ps as [|p ps IH]; intros any.
  { by destruct any. }
  change (omap (network_answer event) (p :: ps)) with
    (match network_answer event p with
     | Some v => v :: omap (network_answer event) ps
     | None => omap (network_answer event) ps
     end).
  simpl network_trace_loop. unfold network_answer at 1.
  destruct (subscribes ENetworkTrace p).
  - destruct (evaluate_network_trace p event) as [[[| |]|e] p']; cbv beta iota; simpl fst; cbv beta iota;
      rewrite ?network_verdict_cons; rewrite <-?IH;
      by try destruct (network_trace_loop _ ps event).
  - rewrite <-IH. by destruct (network_trace_loop _ ps event).
Qed.

Lemma injector_loop_spec merged ps o :
  (injector_loop merged ps o).1 =
  foldl extend_from merged (sanitize_injector_payload <$> omap (injector_answer o) ps).
Proof.
  revert merged. induction ps as [|p ps IH]; intros merged; [done|].
  change (omap (injector_answer o) (p :: ps)) with
    (match injector_answer o p with
     | Some i => i :: omap (injector_answer o) ps
     | None => omap (injector_answer o) ps
     end).
  simpl injector_loop. unfold injector_answer at 1. destruct (subscribes ERuntimeInjector p).
  - destruct (evaluate_runtime_injector p o) as [[i|e] p']; simpl; rewrite <-IH;
      by destruct (injector_loop _ ps o).
  - rewrite <-IH. by destruct (injector_loop _ ps o).
Qed.

Lemma foldl_extend_from m l :
  foldl extend_from m l =
  {| env_add := env_add m ++ concat (env_add <$> l);
     args_append := args_append m ++ concat (args_append <$> l);
     security_opts_add := security_opts_add m ++ concat (security_opts_add <$> l) |}.
Proof.
  revert m. induction l as [|i l IH]; intros m; simpl.
  - rewrite !app_nil_r. by destruct m.
  - rewrite IH. unfold extend_from. simpl. by rewrite !(assoc_L app).
Qed.
End Votes.

(** * Theorems *)

(** The payload after the rewrites of [steps]. *)
Definition replay (bytes : string) (l : list (string * FilterDecision)) : string :=
  foldl (λ cur s, match s.2 with Transform new => new | _ => cur end) bytes l.

Section FilterChain.
Context {W : Wasm}.

(** What [audit_filter_loop] leaves, related to the payload and the steps it
    started from. *)
Definition chain_spec (ps : list LoadedPlugin) (bytes : string)
    (done : list (string * FilterDecision)) (r : AuditFilterChainResult) : Prop :=
  ∃ new, steps r = done ++ new ∧ chain_payload r = replay bytes new ∧
    new.*1 `sublist_of` lp_name <$> filter (λ p, subscribes EAuditFilter p) ps ∧
    match outcome r with
    | Forward => Forall (λ s, s.2 ≠ Drop) new
    | Drop => ∃ before name, new = before ++ [(name, Drop)] ∧ Forall (λ s, s.2 ≠ Drop) before
    | Transform _ => False
    end.

Lemma chain_spec_skip p ps bytes done r : chain_spec ps bytes done r → chain_spec (p :: ps) bytes done r.
Proof.
  intros (new & ? & ? & Hs & ?). exists new. split_and!; try done.
  etrans; [exact Hs|]. rewrite filter_cons. case_decide; [by constructor|done].
Qed.

Lemma chain_spec_step p ps bytes bytes' done d r :
  subscribes EAuditFilter p = true → d ≠ Drop →
  bytes' = replay bytes [(lp_name p, d)] →
  chain_spec ps bytes' (done ++ [(lp_name p, d)]) r → chain_spec (p :: ps) bytes done r.
Proof.
  intros Hsub Hd -> (new & Hst & Hpl & Hs & Ho). exists ((lp_name p, d) :: new). split_and!.
  - rewrite Hst, <-(assoc_L app). done.
  - done.
  - rewrite filter_cons, decide_True by (by rewrite Hsub). simpl. by constructor.
  - destruct (outcome r); [by constructor|done|]. destruct Ho as (before & name & -> & HF).
    exists ((lp_name p, d) :: before), name. split; [done|by constructor].
Qed.

Lemma audit_filter_loop_spec ps bytes done :
  chain_spec ps bytes done (audit_filter_loop ps bytes done).1.
Proof.
  revert bytes done. induction ps as [|p ps IH]; intros bytes done.
  { exists []. rewrite app_nil_r. split_and!; done || constructor. }
  simpl audit_filter_loop. destruct (subscribes EAuditFilter p) eqn:Hsub.
  - destruct (evaluate_audit_filter p bytes) as [[[|new|]|e] p'].
    + specialize (IH bytes (done ++ [(lp_name p, Forward)])). destruct (audit_filter_loop _ _ _).
      by apply (chain_spec_step _ _ _ bytes _ Forward).
    + specialize (IH new (done ++ [(lp_name p, Transform new)])). destruct (audit_filter_loop _ _ _).
      by apply (chain_spec_step _ _ _ new _ (Transform new)).
    + exists [(lp_name p, Drop)]. split_and!; try done.
      * rewrite filter_cons, decide_True by (by rewrite Hsub). simpl. apply sublist_skip, sublist_nil_l.
      * exists [], (lp_name p). done.
    + specialize (IH bytes done). destruct (audit_filter_loop _ _ _). by apply chain_spec_skip.
  - specialize (IH bytes done). destruct (audit_filter_loop _ _ _). by apply chain_spec_skip.
Qed.
End FilterChain.

Section Theorems.
Context {W : Wasm} {E : Env}.

(** An invocation cannot see the previous one through the host. Whatever the
    host state was left as by an earlier call of the same plugin (answered,
    trapped half way, payload never collected), all five hooks give the same
    answer and leave the same plugin behind. *)
Theorem evaluation_forgets_previous_calls p h bytes event :
  plugin_name h = plugin_name (lp_store p) →
  let q := set_state h (lp_instance p) p in
  (evaluate q bytes).1 = (evaluate p bytes).1 ∧
  (evaluate_audit_filter q bytes).1 = (evaluate_audit_filter p bytes).1 ∧
  (evaluate_profile_validator q bytes).1 = (evaluate_profile_validator p bytes).1 ∧
  (evaluate_network_trace q event).1 = (evaluate_network_trace p event).1 ∧
  (evaluate_runtime_injector q bytes).1 = (evaluate_runtime_injector p bytes).1 ∧
  ∀ e, is_Some (lp_entry p e) → (invoke e bytes q).2 = (invoke e bytes p).2.
Proof.
  intros Hn q.
  assert (∀ e b, (invoke e b q).1 = (invoke e b p).1 ∧
            (is_Some (lp_entry p e) → (invoke e b q).2 = (invoke e b p).2) ∧
            ((invoke e b p).1 = Ok tt → (invoke e b q).2 = (invoke e b p).2)) as H.
  { intros e b. unfold invoke, q. simpl. destruct (lp_entry p e) as [f|]; simpl.
    - rewrite (reset_forgets b h (lp_store p)) by done.
      by destruct (run_guest _ _) as [[? ?] ?].
    - split_and!; done. }
  unfold evaluate, evaluate_audit_filter, evaluate_profile_validator, evaluate_network_trace,
    evaluate_runtime_injector.
  split_and!; [..|intros e; apply H];
    match goal with |- context [invoke ?e ?b q] =>
      destruct (H e b) as (H1 & _ & H2); destruct (invoke e b q) as [r q'], (invoke e b p) as [r' p'];
      simpl in H1, H2; subst r'; destruct r as [[]|]; [rewrite H2 by done|] end;
    done.
Qed.

(** The approval and validator chains ask every subscribed plugin, in
    registry order, and each answer is the one that plugin gives on its own; a
    trapping plugin defers in the first and rejects in the second. *)
Theorem chains_ask_each_plugin_alone ps bytes :
  (evaluate_approval ps bytes).1 = approval_answer bytes <$> filter (λ p, subscribes EApproval p) ps ∧
  (registry_profile_validator ps bytes).1 =
    validator_answer bytes <$> filter (λ p, subscribes EProfileValidator p) ps.
Proof.
  induction ps as [|p ps [IHa IHv]]; [done|]. rewrite !filter_cons. simpl. split.
  - unfold approval_answer in *. rewrite <-?IHa. destruct (subscribes EApproval p); simpl.
    + destruct (evaluate p bytes) as [[[??]|?] ?], (evaluate_approval ps bytes); simpl in *; by rewrite IHa.
    + by destruct (evaluate_approval ps bytes).
  - unfold validator_answer in *. destruct (subscribes EProfileValidator p); simpl.
    + destruct (evaluate_profile_validator p bytes) as [[?|?] ?], (registry_profile_validator ps bytes);
        simpl in *; by rewrite IHv.
    + by destruct (registry_profile_validator ps bytes).
Qed.

(** The audit-filter chain. Its verdict is [Drop] exactly when its last step
    is a plugin's [Drop], which no other step is, and [Forward] otherwise; the
    payload it hands back is the original one with the recorded rewrites applied
    in order; and the steps name subscribed plugins, in registry order. *)
Theorem audit_filter_chain_result ps bytes :
  let r := (registry_audit_filter ps bytes).1 in
  chain_payload r = replay bytes (steps r) ∧
  (steps r).*1 `sublist_of` lp_name <$> filter (λ p, subscribes EAuditFilter p) ps ∧
  match outcome r with
  | Forward => Forall (λ s, s.2 ≠ Drop) (steps r)
  | Drop => ∃ before name, steps r = before ++ [(name, Drop)] ∧ Forall (λ s, s.2 ≠ Drop) before
  | Transform _ => False
  end.
Proof.
  intros r. destruct (audit_filter_loop_spec ps bytes []) as (new & Hst & H).
  change (audit_filter_loop ps bytes []).1 with r in *. simpl in Hst. by rewrite Hst.
Qed.

(** The network-trace chain denies when any subscribed plugin denies,
    wherever it stands in the registry, else audits when any asks to, else
    allows; a trapping plugin has no vote. *)
Theorem network_trace_deny_wins ps event :
  let votes := omap (network_answer event) ps in
  let verdict := (registry_network_trace ps event).1 in
  (verdict = NetDeny ↔ NetDeny ∈ votes) ∧
  (verdict = NetAuditOnly ↔ (NetDeny ∉ votes) ∧ NetAuditOnly ∈ votes) ∧
  (verdict = NetAllow ↔ Forall (λ v, v = NetAllow) votes).
Proof.
  intros votes verdict. subst verdict. unfold registry_network_trace.
  rewrite network_trace_loop_spec. fold votes. unfold network_verdict. rewrite orb_false_l.
  assert (Forall (λ v, v = NetAllow) votes ↔ (NetDeny ∉ votes) ∧ NetAuditOnly ∉ votes) as ->.
  { rewrite Forall_forall. split.
    - intros H. split; intros Hin; by specialize (H _ Hin).
    - intros [H1 H2] [] Hin; done. }
  case_decide; [|case_bool_decide]; naive_solver.
Qed.

(** Sanitising a plugin's injection keeps, in order, the first 64 entries of
    each field among those that are short enough and do not weaken the
    confinement, and nothing else. *)
Theorem sanitize_keeps_first_safe p :
  let q := sanitize_injector_payload p in
  security_opts_add q = take MAX_INJECT_ENTRIES (filter (λ o, opt_ok o = true) (security_opts_add p)) ∧
  args_append q = take MAX_INJECT_ENTRIES (filter (λ a, arg_ok a = true) (args_append p)) ∧
  env_add q = take MAX_INJECT_ENTRIES (filter (λ kv, env_ok kv = true) (env_add p)).
Proof. apply sanitize_fields. Qed.

(** The entries that must not reach a container. Case and white space do not matter;
    a security option must neither contain one of the listed settings nor be
    [privileged], an argument must not be one of the listed options or give one of the
    namespaces the value [host] after [=], nor contain one of the listed settings. *)
Definition squeezed (s : string) : string := strip_ws (to_lower s).
Definition weakening_settings : list string :=
  ["seccomp=unconfined"; "apparmor=unconfined"; "label=disable"; "systempaths=unconfined"; "unmask=all";
   "no-new-privileges=false"; "no-new-privileges=0"].
Definition opt_weakens (o : string) : Prop :=
  Exists (λ w, ∃ a b, squeezed o = a +:+ w +:+ b) weakening_settings ∨ squeezed o = "privileged".
Definition arg_weakens (arg : string) : Prop :=
  let a := to_lower (trim arg) in
  Exists (λ w, ∃ t, a = w +:+ t) ["--privileged"; "--security-opt"; "--cap-add"] ∨
  Exists (λ w, ∃ t, a = w +:+ t) ["--pid"; "--net"; "--ipc"; "--uts"; "--userns"] ∧ (∃ u, strip_ws a = u +:+ "=host") ∨
  opt_weakens a.

Lemma opt_weakens_iff o : security_opt_weakens_confinement o = true ↔ opt_weakens o.
Proof.
  unfold security_opt_weakens_confinement, opt_weakens, squeezed, weakening_settings.
  rewrite !orb_true_iff, !contains_iff, bool_decide_eq_true, !Exists_cons, Exists_nil. tauto.
Qed.
Lemma arg_weakens_iff a : arg_weakens_confinement a = true ↔ arg_weakens a.
Proof.
  unfold arg_weakens_confinement, arg_weakens. rewrite !orb_true_iff, andb_true_iff, !orb_true_iff, opt_weakens_iff, ends_with_iff, !starts_with_iff,
    !Exists_cons, !Exists_nil. tauto.
Qed.
#[export] Instance opt_weakens_dec o : Decision (opt_weakens o).
Proof. destruct (security_opt_weakens_confinement o) eqn:H; [left|right]; rewrite <-opt_weakens_iff; [done|by rewrite H]. Defined.
#[export] Instance arg_weakens_dec a : Decision (arg_weakens a).
Proof. destruct (arg_weakens_confinement a) eqn:H; [left|right]; rewrite <-arg_weakens_iff; [done|by rewrite H]. Defined.

(** C14: What the whole injector chain adds to a container: the answers of the
    subscribed plugins in their order, of each answer and field the first 64 entries
    that are at most 1024 bytes long and, for security options and arguments, do
    not weaken the confinement by the lists of [opt_weakens] and [arg_weakens].
    Whatever else a plugin answers is dropped. *)
Theorem injected_options_confined ps o :
  let out := (registry_runtime_injector ps o).1 in
  let answers := omap (injector_answer o) ps in
  security_opts_add out =
    answers ≫= (λ i, take 64 (filter (λ s, String.length s ≤ 1024 ∧ ¬ opt_weakens s) (security_opts_add i))) ∧
  args_append out =
    answers ≫= (λ i, take 64 (filter (λ a, String.length a ≤ 1024 ∧ ¬ arg_weakens a) (args_append i))) ∧
  env_add out =
    answers ≫= (λ i, take 64 (filter (λ kv, String.length kv.1 ≤ 1024 ∧ String.length kv.2 ≤ 1024) (env_add i))).
Proof.
  intros out answers. subst out. unfold registry_runtime_injector.
  rewrite injector_loop_spec, foldl_extend_from. fold answers. cbn [security_opts_add args_append env_add empty_injector app].
  split_and!.
  - apply (sanitized_merged _ opt_ok (λ i, proj1 (sanitize_fields i))). intros s. rewrite opt_ok_true, <-opt_weakens_iff, not_true_iff_false. naive_solver.
  - apply (sanitized_merged _ arg_ok (λ i, proj1 (proj2 (sanitize_fields i)))). intros s. rewrite arg_ok_true, <-arg_weakens_iff, not_true_iff_false. naive_solver.
  - apply (sanitized_merged _ env_ok (λ i, proj2 (proj2 (sanitize_fields i)))). intros [k v]. by rewrite env_ok_true.
Qed.

(** A host namespace asked for in two arguments is not recognised. *)
Example two_token_host_passes :
  args_append (sanitize_injector_payload {| env_add := []; args_append := ["--net"; "host"; "--pid=host"]; security_opts_add := [] |}) = ["--net"; "host"].
Proof. by vm_compute. Qed.

(** A guest that hands back a transform outside its memory. [host_return_payload]
    stores an empty payload for it, so the chain sees a [Transform] to the empty
    string, not the [Forward] of a transform without a payload. *)
Theorem out_of_range_transform_is_empty p bytes g g' g'' ptr len mem rptr rlen :
  lp_entry p EAuditFilter =
    Some (λ _, RCall (HostReturnPayload ptr len) g
                 (λ _ _, RCall (HostReturnFilterDecision 2 rptr rlen) g' (λ _ _, RReturn g''))) →
  g_memory g = Some mem → (0 ≤ ptr)%Z → (str_len mem < ptr + len)%Z → (ptr + len ≤ u64_max)%Z →
  (evaluate_audit_filter p bytes).1 = Ok (Transform "").
Proof.
  intros He Hg Hp Hlen Hmax. unfold evaluate_audit_filter, invoke. rewrite He. simpl.
  unfold filter_decision_of. simpl. unfold read_memory_bytes. rewrite Hg.
  destruct (Z.leb_spec len 0); [done|].
  unfold i32_as_usize, usize_saturating_add, u64_max in *. rewrite Z.mod_small by lia.
  destruct (Z.ltb_spec (str_len mem) (Z.min (2 ^ 64 - 1) (ptr + len))); [done|lia].
Qed.
End Theorems.

(** * Examples *)

(** A guest with one page of memory that answers every hook: it denies, asks for
    a transform it places out of range, and injects a fixed payload. *)
Definition example_guest : GuestState := {| g_memory := Some "reason"; g_rest := "" |}.
Definition example_exports : Exports := λ e,
  match e with
  | EApproval => Some (λ g, RCall (HostReturnDecision 2 0 6) g (λ _ g', RReturn g'))
  | EAuditFilter =>
      Some (λ _, RCall (HostReturnPayload 4 4) example_guest
                   (λ _ _, RCall (HostReturnFilterDecision 2 0 0) example_guest
                              (λ _ _, RReturn example_guest)))
  | ENetworkTrace => Some (λ g, RTrap "out of fuel" g)
  | _ => None
  end.
Definition example_wasm : Wasm := {|
  engine_new := Ok tt;
  module_from_file := λ _, Ok (RReturn example_guest, example_exports);
  injector_from_slice := λ _, None |}.
Definition example_plugin (h : HostState) : LoadedPlugin :=
  {| lp_name := "veto"; lp_version := "1"; lp_hooks := ["approval"; "audit_filter"; "network_trace"];
     lp_has := λ e, is_some (example_exports e); lp_store := h; lp_instance := example_guest;
     lp_entry := example_exports |}.

Example veto_denies :
  (evaluate_approval (W := example_wasm) [example_plugin (host_state_new "veto")] "{}").1
  = [("veto", PluginDeny, "reason")].
Proof. reflexivity. Qed.

Lemma evaluation_forgets_previous_calls_witness :
  let dirty := {| request_payload := "old"; hs_decision := PluginAllow; hs_reason := "stale"; raw_decision := 1;
                  transformed_payload := Some "x"; network_decision := NetDeny;
                  injector_payload := Some empty_injector; plugin_name := "veto" |} in
  (evaluate (W := example_wasm) (example_plugin dirty) "{}").1 = Ok (PluginDeny, "reason").
Proof.
  intros dirty.
  destruct (evaluation_forgets_previous_calls (W := example_wasm) (E := toy_env)
    (example_plugin (host_state_new "veto")) dirty "{}"
    {| nt_kind := "dns_query"; nt_host := "h"; nt_port := None |} eq_refl) as [H _].
  etransitivity; [exact H|reflexivity].
Defined.

Lemma out_of_range_transform_is_empty_witness :
  (evaluate_audit_filter (W := example_wasm) (example_plugin (host_state_new "veto")) "{}").1 = Ok (Transform "").
Proof.
  eapply (out_of_range_transform_is_empty (W := example_wasm) (example_plugin (host_state_new "veto")) "{}"
    example_guest example_guest example_guest 4 4 "reason" 0 0);
    [reflexivity|reflexivity|lia|reflexivity|vm_compute; discriminate].
Defined.
