(* ===== verification/Database.v ===== *)
(** The daemon's shared mutable state as the modelled components see it: the
    tables of the SQLite database ([linpodx-common/migrations]), the events
    handed to the [EventPublisher], the process-wide request counter, and how far
    the run has got in the environment's clock readings and database faults. *)
From S2P Require Import Prelude Json Common Schema Plugin.

(** One row of [audit_log] (migrations 0003 and 0018). *)
Record AuditRow : Type := {
  ar_seq : Z;
  ar_ts : string;
  ar_kind : string;
  ar_profile : option string;
  ar_container : option string;
  ar_payload : string;
  ar_prev : string;
  ar_this : string;
  ar_version : Z;
}.

#[export] Instance AuditRow_eq_dec : EqDecision AuditRow.
Proof. solve_decision. Defined.

(** One row of [sandbox_profile] (migration 0002), keyed by name. *)
Record ProfileRow : Type := {
  pf_yaml : string;
  pf_hash : string;
  pf_updated_at : string;
}.

(** One row of [mcp_policies] (migration 0009). *)
Record PolicyRow : Type := {
  pr_id : Z;
  pr_method : string;
  pr_tool_name : option string;
  pr_decision : string;
  pr_note : option string;
}.

(** One row of [plugins] (migration 0011); [pl_hooks] is a JSON array. *)
Record PluginRow : Type := {
  pl_id : Z;
  pl_name : string;
  pl_version : string;
  pl_manifest_path : string;
  pl_wasm_path : string;
  pl_hooks : string;
  pl_enabled : bool;
  pl_installed_at : string;
}.

(** An entry of the sandbox manager's profile cache. *)
Record LoadedProfile : Type := {
  lpf_profile : SandboxProfile;
  lpf_yaml : string;
  lpf_yaml_hash : string;
  lpf_last_updated : Z;
}.

(** The cache directory of the security-profile compiler: its files by path, and
    how many writes and how many helper processes there have been. *)
Record CacheFiles : Type := {
  cf_files : gmap string string;
  cf_writes : nat;
  cf_runs : nat;
}.
Definition no_files : CacheFiles := {| cf_files := ∅; cf_writes := 0; cf_runs := 0 |}.

(** [w_audit], [w_policies] and [w_plugins] are kept in primary-key order; the
    two counters are SQLite's [AUTOINCREMENT] high-water marks. [w_registry] is
    the long-lived [PluginRegistry] the audit sink and the sandbox manager share,
    [w_policy_store] the in-memory rules the bridges read, [w_cache] the sandbox
    manager's profiles, [w_requests] and [w_mcp_requests] the counters behind the
    two [new_request_id] functions, [w_sec] the compiled security profiles. *)
Record World : Type := {
  w_audit : list AuditRow;
  w_audit_seq : Z;
  w_profiles : gmap string ProfileRow;
  w_policies : list PolicyRow;
  w_policies_seq : Z;
  w_plugins : list PluginRow;
  w_registry : list LoadedPlugin;
  w_policy_store : list McpPolicyRule;
  w_cache : gmap string LoadedProfile;
  w_events : list Event;
  w_requests : Z;
  w_mcp_requests : Z;
  w_ticks : nat;
  w_stmts : nat;
  w_tasks : nat;
  w_sec : CacheFiles;
}.

Definition set_audit (rows : list AuditRow) (seq : Z) (w : World) : World :=
  {| w_audit := rows; w_audit_seq := seq; w_profiles := w_profiles w; w_policies := w_policies w;
     w_policies_seq := w_policies_seq w; w_plugins := w_plugins w; w_registry := w_registry w;
     w_policy_store := w_policy_store w; w_cache := w_cache w; w_events := w_events w; w_requests := w_requests w; w_mcp_requests := w_mcp_requests w;
     w_ticks := w_ticks w; w_stmts := w_stmts w; w_tasks := w_tasks w; w_sec := w_sec w |}.
Definition set_profiles (m : gmap string ProfileRow) (w : World) : World :=
  {| w_audit := w_audit w; w_audit_seq := w_audit_seq w; w_profiles := m;
     w_policies := w_policies w; w_policies_seq := w_policies_seq w; w_plugins := w_plugins w;
     w_registry := w_registry w; w_policy_store := w_policy_store w; w_cache := w_cache w; w_events := w_events w;
     w_requests := w_requests w; w_mcp_requests := w_mcp_requests w; w_ticks := w_ticks w; w_stmts := w_stmts w;
     w_tasks := w_tasks w; w_sec := w_sec w |}.
Definition set_policies (rows : list PolicyRow) (seq : Z) (w : World) : World :=
  {| w_audit := w_audit w; w_audit_seq := w_audit_seq w; w_profiles := w_profiles w;
     w_policies := rows; w_policies_seq := seq; w_plugins := w_plugins w;
     w_registry := w_registry w; w_policy_store := w_policy_store w; w_cache := w_cache w; w_events := w_events w;
     w_requests := w_requests w; w_mcp_requests := w_mcp_requests w; w_ticks := w_ticks w; w_stmts := w_stmts w;
     w_tasks := w_tasks w; w_sec := w_sec w |}.
Definition set_plugins (rows : list PluginRow) (w : World) : World :=
  {| w_audit := w_audit w; w_audit_seq := w_audit_seq w; w_profiles := w_profiles w;
     w_policies := w_policies w; w_policies_seq := w_policies_seq w; w_plugins := rows;
     w_registry := w_registry w; w_policy_store := w_policy_store w; w_cache := w_cache w; w_events := w_events w;
     w_requests := w_requests w; w_mcp_requests := w_mcp_requests w; w_ticks := w_ticks w; w_stmts := w_stmts w;
     w_tasks := w_tasks w; w_sec := w_sec w |}.
Definition set_registry (ps : list LoadedPlugin) (w : World) : World :=
  {| w_audit := w_audit w; w_audit_seq := w_audit_seq w; w_profiles := w_profiles w;
     w_policies := w_policies w; w_policies_seq := w_policies_seq w; w_plugins := w_plugins w;
     w_registry := ps; w_policy_store := w_policy_store w; w_cache := w_cache w; w_events := w_events w;
     w_requests := w_requests w; w_mcp_requests := w_mcp_requests w; w_ticks := w_ticks w; w_stmts := w_stmts w;
     w_tasks := w_tasks w; w_sec := w_sec w |}.
Definition set_policy_store (rules : list McpPolicyRule) (w : World) : World :=
  {| w_audit := w_audit w; w_audit_seq := w_audit_seq w; w_profiles := w_profiles w;
     w_policies := w_policies w; w_policies_seq := w_policies_seq w; w_plugins := w_plugins w;
     w_registry := w_registry w; w_policy_store := rules; w_cache := w_cache w; w_events := w_events w;
     w_requests := w_requests w; w_mcp_requests := w_mcp_requests w; w_ticks := w_ticks w; w_stmts := w_stmts w;
     w_tasks := w_tasks w; w_sec := w_sec w |}.
Definition set_cache (m : gmap string LoadedProfile) (w : World) : World :=
  {| w_audit := w_audit w; w_audit_seq := w_audit_seq w; w_profiles := w_profiles w;
     w_policies := w_policies w; w_policies_seq := w_policies_seq w; w_plugins := w_plugins w;
     w_registry := w_registry w; w_policy_store := w_policy_store w; w_cache := m; w_events := w_events w;
     w_requests := w_requests w; w_mcp_requests := w_mcp_requests w; w_ticks := w_ticks w; w_stmts := w_stmts w;
     w_tasks := w_tasks w; w_sec := w_sec w |}.
Definition set_sec (c : CacheFiles) (w : World) : World :=
  {| w_audit := w_audit w; w_audit_seq := w_audit_seq w; w_profiles := w_profiles w;
     w_policies := w_policies w; w_policies_seq := w_policies_seq w; w_plugins := w_plugins w;
     w_registry := w_registry w; w_policy_store := w_policy_store w; w_cache := w_cache w; w_events := w_events w;
     w_requests := w_requests w; w_mcp_requests := w_mcp_requests w; w_ticks := w_ticks w; w_stmts := w_stmts w;
     w_tasks := w_tasks w; w_sec := c |}.
Definition push_event (e : Event) (w : World) : World :=
  {| w_audit := w_audit w; w_audit_seq := w_audit_seq w; w_profiles := w_profiles w;
     w_policies := w_policies w; w_policies_seq := w_policies_seq w; w_plugins := w_plugins w;
     w_registry := w_registry w; w_policy_store := w_policy_store w; w_cache := w_cache w; w_events := w_events w ++ [e];
     w_requests := w_requests w; w_mcp_requests := w_mcp_requests w; w_ticks := w_ticks w; w_stmts := w_stmts w;
     w_tasks := w_tasks w; w_sec := w_sec w |}.
Definition bump_requests (w : World) : World :=
  {| w_audit := w_audit w; w_audit_seq := w_audit_seq w; w_profiles := w_profiles w;
     w_policies := w_policies w; w_policies_seq := w_policies_seq w; w_plugins := w_plugins w;
     w_registry := w_registry w; w_policy_store := w_policy_store w; w_cache := w_cache w; w_events := w_events w;
     w_requests := wrap_u64 (w_requests w + 1); w_mcp_requests := w_mcp_requests w; w_ticks := w_ticks w; w_stmts := w_stmts w;
     w_tasks := w_tasks w; w_sec := w_sec w |}.
Definition bump_mcp_requests (w : World) : World :=
  {| w_audit := w_audit w; w_audit_seq := w_audit_seq w; w_profiles := w_profiles w;
     w_policies := w_policies w; w_policies_seq := w_policies_seq w; w_plugins := w_plugins w;
     w_registry := w_registry w; w_policy_store := w_policy_store w; w_cache := w_cache w; w_events := w_events w;
     w_requests := w_requests w; w_mcp_requests := wrap_u64 (w_mcp_requests w + 1);
     w_ticks := w_ticks w; w_stmts := w_stmts w;
     w_tasks := w_tasks w; w_sec := w_sec w |}.
Definition tick (w : World) : World :=
  {| w_audit := w_audit w; w_audit_seq := w_audit_seq w; w_profiles := w_profiles w;
     w_policies := w_policies w; w_policies_seq := w_policies_seq w; w_plugins := w_plugins w;
     w_registry := w_registry w; w_policy_store := w_policy_store w; w_cache := w_cache w; w_events := w_events w;
     w_requests := w_requests w; w_mcp_requests := w_mcp_requests w; w_ticks := S (w_ticks w); w_stmts := w_stmts w;
     w_tasks := w_tasks w; w_sec := w_sec w |}.
Definition bump_stmts (w : World) : World :=
  {| w_audit := w_audit w; w_audit_seq := w_audit_seq w; w_profiles := w_profiles w;
     w_policies := w_policies w; w_policies_seq := w_policies_seq w; w_plugins := w_plugins w;
     w_registry := w_registry w; w_policy_store := w_policy_store w; w_cache := w_cache w; w_events := w_events w;
     w_requests := w_requests w; w_mcp_requests := w_mcp_requests w; w_ticks := w_ticks w; w_stmts := S (w_stmts w);
     w_tasks := w_tasks w; w_sec := w_sec w |}.
Definition bump_tasks (w : World) : World :=
  {| w_audit := w_audit w; w_audit_seq := w_audit_seq w; w_profiles := w_profiles w;
     w_policies := w_policies w; w_policies_seq := w_policies_seq w; w_plugins := w_plugins w;
     w_registry := w_registry w; w_policy_store := w_policy_store w; w_cache := w_cache w; w_events := w_events w;
     w_requests := w_requests w; w_mcp_requests := w_mcp_requests w; w_ticks := w_ticks w; w_stmts := w_stmts w;
     w_tasks := S (w_tasks w); w_sec := w_sec w |}.

Definition empty_world : World :=
  {| w_audit := []; w_audit_seq := 0; w_profiles := ∅; w_policies := []; w_policies_seq := 0;
     w_plugins := []; w_registry := []; w_policy_store := []; w_cache := ∅; w_events := []; w_requests := 0; w_mcp_requests := 0;
     w_ticks := 0; w_stmts := 0; w_tasks := 0; w_sec := no_files |}.

(** The daemon's operations: state passing over [World], errors of
    [linpodx_common::error] and panics. *)
Abbreviation D := (M World Fault).

(** Match on the [Result] of a call instead of propagating it with [?]. *)
Definition attempt {A} (c : D A) : D (Result Error A) := λ w,
  match c w with
  | (Ok a, w') => (Ok (Ok a), w')
  | (Err (Fail e), w') => (Ok (Err e), w')
  | (Err (Panic m), w') => (Err (Panic m), w')
  end.

(** Lift a pure [Result]. *)
Definition lift {A} (r : Result Error A) : D A :=
  match r with Ok a => mret a | Err e => throw (Fail e) end.

Section Primitives.
Context {E : Env}.

(** [Utc::now()]. *)
Definition now : D Z := λ w, (Ok (clock (w_ticks w)), tick w).

(** One round trip to SQLite; a fault surfaces as [Error::Sqlx]. *)
Definition stmt : D unit := λ w,
  if db_fault (w_stmts w) then (Err (Fail Sqlx), bump_stmts w) else (Ok tt, bump_stmts w).

(** [tokio::task::spawn_blocking]: [None] is a task that could not be joined
    (cancelled before it ran); [with_registry] is a task that makes one pass over
    the shared registry. *)
Definition spawn_blocking {A} (a : A) : D (option A) := λ w,
  (Ok (if task_fault (w_tasks w) then None else Some a), bump_tasks w).
Definition with_registry {A} (f : list LoadedPlugin → A * list LoadedPlugin) : D (option A) := λ w,
  if task_fault (w_tasks w) then (Ok None, bump_tasks w)
  else let '(a, ps) := f (w_registry w) in (Ok (Some a), set_registry ps (bump_tasks w)).

(** [EventPublisher::publish]. *)
Definition publish (t : EventTopic) (k : EventKind) (id : string) (d : Value) : D unit :=
  ts ← now;
  modify (push_event {| topic := t; ev_kind := k; resource_id := id; timestamp := ts; details := d |}).
End Primitives.
