(* ===== verification/AuditKinds.v ===== *)
(** The vocabulary of the audit log: [AuditKind]
    ([linpodx-sandbox/src/audit.rs]), the subset other subsystems may write
    ([AuditSinkKind], [linpodx-common/src/audit_sink.rs]) and the adapter between
    them ([map_kind], [linpodx-sandbox/src/mcp_audit.rs]). *)
From S2P Require Import Prelude.

Inductive AuditKind : Type :=
| ProfileLoaded
| ProfileApplied
| ProfileDenied
| ProfilesReloaded
| ChainVerified
| ApprovalRequested
| ApprovalGranted
| ApprovalDenied
| ApprovalTimedOut
| ApprovalNoListener
| SnapshotCreated
| SnapshotRolledBack
| SnapshotRemoved
| SessionStarted
| SessionEnded
| McpBridgeStarted
| McpBridgeStopped
| McpToolCalled
| McpToolDenied
| DistroCreated
| DistroBuilt
| DistroEntered
| DistroRemoved
| PassthroughGranted
| SnapshotJobStarted
| SnapshotJobFinished
| McpPolicyChanged
| NetworkEgressApplied
| NetworkEgressFailed
| McpResourceSubscribed
| McpResourceUnsubscribed
| McpResourceUpdated
| McpListChanged
| SnapshotBranched
| PluginInstalled
| PluginEnabled
| PluginDisabled
| PluginRemoved
| PluginInvoked
| MetricsCollectorStarted
| MetricsCollectorStopped
| SnapshotBackendUsed
| RemoteSessionStarted
| RemoteAuthFailed
| AuditFiltered
| ProfileValidatorRejected
| WebUiSessionStarted
| WebUiAccessDenied
| RemoteMtlsAccepted
| RemoteMtlsRejected
| ClusterPeerJoined
| ClusterPeerLeft
| ClusterViewServed
| SnapshotMounted
| SnapshotUnmounted
| K8sQueryServed
| SeccompCompiled
| ApparmorCompiled
| SeccompApplied
| ApparmorApplied
| ContainerExecCalled
| ContainerLogsStreamed
| ImagePullStarted
| ImagePushed
| ImageManifestCreated
| SelinuxCompiled
| SelinuxApplied
| ContainerExecPtyOpened
| ContainerExecPtyClosed
| K8sPodCreated
| K8sPodDeleted
| K8sNamespaceCreated
| K8sDeploymentScaled
| PluginNetworkTraceCalled
| PluginRuntimeInjectorCalled
| EgressDenyEnforced
| SelinuxStaticLabelApplied
| WsAuthSubprotocol
| ImagePushTls
| ClusterLeaderElected
| ClusterLeaderLost
| ClusterRaftPromoted
| ClusterRaftDemoted
| PluginSignatureVerified
| PluginSignatureRejected
| WsClientCertPinned
| SelinuxLabelRuntimeFallback
| ClusterStateApplied
| ClusterStateProposeFailed
| SnapshotEncrypted
| SnapshotDecryptFailed
| PluginKeyRevoked
| WsClientCertTofuEnrolled
| SnapshotKeyRotated
| SnapshotReEncryptCompleted
| SandboxSnapshotAutoTriggered
| TofuExpired
| PluginKeyRevokePropagated
| SecretCreated
| SecretRemoved
| ContainerUpdated.

Definition kind_as_str (k : AuditKind) : string :=
  match k with
  | ProfileLoaded => "profile_loaded"
  | ProfileApplied => "profile_applied"
  | ProfileDenied => "profile_denied"
  | ProfilesReloaded => "profiles_reloaded"
  | ChainVerified => "chain_verified"
  | ApprovalRequested => "approval_requested"
  | ApprovalGranted => "approval_granted"
  | ApprovalDenied => "approval_denied"
  | ApprovalTimedOut => "approval_timed_out"
  | ApprovalNoListener => "approval_no_listener"
  | SnapshotCreated => "snapshot_created"
  | SnapshotRolledBack => "snapshot_rolled_back"
  | SnapshotRemoved => "snapshot_removed"
  | SessionStarted => "session_started"
  | SessionEnded => "session_ended"
  | McpBridgeStarted => "mcp_bridge_started"
  | McpBridgeStopped => "mcp_bridge_stopped"
  | McpToolCalled => "mcp_tool_called"
  | McpToolDenied => "mcp_tool_denied"
  | DistroCreated => "distro_created"
  | DistroBuilt => "distro_built"
  | DistroEntered => "distro_entered"
  | DistroRemoved => "distro_removed"
  | PassthroughGranted => "passthrough_granted"
  | SnapshotJobStarted => "snapshot_job_started"
  | SnapshotJobFinished => "snapshot_job_finished"
  | McpPolicyChanged => "mcp_policy_changed"
  | NetworkEgressApplied => "network_egress_applied"
  | NetworkEgressFailed => "network_egress_failed"
  | McpResourceSubscribed => "mcp_resource_subscribed"
  | McpResourceUnsubscribed => "mcp_resource_unsubscribed"
  | McpResourceUpdated => "mcp_resource_updated"
  | McpListChanged => "mcp_list_changed"
  | SnapshotBranched => "snapshot_branched"
  | PluginInstalled => "plugin_installed"
  | PluginEnabled => "plugin_enabled"
  | PluginDisabled => "plugin_disabled"
  | PluginRemoved => "plugin_removed"
  | PluginInvoked => "plugin_invoked"
  | MetricsCollectorStarted => "metrics_collector_started"
  | MetricsCollectorStopped => "metrics_collector_stopped"
  | SnapshotBackendUsed => "snapshot_backend_used"
  | RemoteSessionStarted => "remote_session_started"
  | RemoteAuthFailed => "remote_auth_failed"
  | AuditFiltered => "audit_filtered"
  | ProfileValidatorRejected => "profile_validator_rejected"
  | WebUiSessionStarted => "web_ui_session_started"
  | WebUiAccessDenied => "web_ui_access_denied"
  | RemoteMtlsAccepted => "remote_mtls_accepted"
  | RemoteMtlsRejected => "remote_mtls_rejected"
  | ClusterPeerJoined => "cluster_peer_joined"
  | ClusterPeerLeft => "cluster_peer_left"
  | ClusterViewServed => "cluster_view_served"
  | SnapshotMounted => "snapshot_mounted"
  | SnapshotUnmounted => "snapshot_unmounted"
  | K8sQueryServed => "k8s_query_served"
  | SeccompCompiled => "seccomp_compiled"
  | ApparmorCompiled => "apparmor_compiled"
  | SeccompApplied => "seccomp_applied"
  | ApparmorApplied => "apparmor_applied"
  | ContainerExecCalled => "container_exec_called"
  | ContainerLogsStreamed => "container_logs_streamed"
  | ImagePullStarted => "image_pull_started"
  | ImagePushed => "image_pushed"
  | ImageManifestCreated => "image_manifest_created"
  | SelinuxCompiled => "selinux_compiled"
  | SelinuxApplied => "selinux_applied"
  | ContainerExecPtyOpened => "container_exec_pty_opened"
  | ContainerExecPtyClosed => "container_exec_pty_closed"
  | K8sPodCreated => "k8s_pod_created"
  | K8sPodDeleted => "k8s_pod_deleted"
  | K8sNamespaceCreated => "k8s_namespace_created"
  | K8sDeploymentScaled => "k8s_deployment_scaled"
  | PluginNetworkTraceCalled => "plugin_network_trace_called"
  | PluginRuntimeInjectorCalled => "plugin_runtime_injector_called"
  | EgressDenyEnforced => "egress_deny_enforced"
  | SelinuxStaticLabelApplied => "selinux_static_label_applied"
  | WsAuthSubprotocol => "ws_auth_subprotocol"
  | ImagePushTls => "image_push_tls"
  | ClusterLeaderElected => "cluster_leader_elected"
  | ClusterLeaderLost => "cluster_leader_lost"
  | ClusterRaftPromoted => "cluster_raft_promoted"
  | ClusterRaftDemoted => "cluster_raft_demoted"
  | PluginSignatureVerified => "plugin_signature_verified"
  | PluginSignatureRejected => "plugin_signature_rejected"
  | WsClientCertPinned => "ws_client_cert_pinned"
  | SelinuxLabelRuntimeFallback => "selinux_label_runtime_fallback"
  | ClusterStateApplied => "cluster_state_applied"
  | ClusterStateProposeFailed => "cluster_state_propose_failed"
  | SnapshotEncrypted => "snapshot_encrypted"
  | SnapshotDecryptFailed => "snapshot_decrypt_failed"
  | PluginKeyRevoked => "plugin_key_revoked"
  | WsClientCertTofuEnrolled => "ws_client_cert_tofu_enrolled"
  | SnapshotKeyRotated => "snapshot_key_rotated"
  | SnapshotReEncryptCompleted => "snapshot_re_encrypt_completed"
  | SandboxSnapshotAutoTriggered => "sandbox_snapshot_auto_triggered"
  | TofuExpired => "tofu_expired"
  | PluginKeyRevokePropagated => "plugin_key_revoke_propagated"
  | SecretCreated => "secret_created"
  | SecretRemoved => "secret_removed"
  | ContainerUpdated => "container_updated"
  end.

Inductive AuditSinkKind : Type :=
| SinkSnapshotCreated
| SinkSnapshotRolledBack
| SinkSnapshotRemoved
| SinkSessionStarted
| SinkSessionEnded
| SinkMcpBridgeStarted
| SinkMcpBridgeStopped
| SinkMcpToolCalled
| SinkMcpToolDenied
| SinkDistroCreated
| SinkDistroBuilt
| SinkDistroEntered
| SinkDistroRemoved
| SinkPassthroughGranted
| SinkSnapshotJobStarted
| SinkSnapshotJobFinished
| SinkMcpPolicyChanged
| SinkNetworkEgressApplied
| SinkNetworkEgressFailed
| SinkMcpResourceSubscribed
| SinkMcpResourceUnsubscribed
| SinkMcpResourceUpdated
| SinkMcpListChanged
| SinkSnapshotBranched
| SinkPluginInstalled
| SinkPluginEnabled
| SinkPluginDisabled
| SinkPluginRemoved
| SinkPluginInvoked
| SinkMetricsCollectorStarted
| SinkMetricsCollectorStopped
| SinkSnapshotBackendUsed
| SinkRemoteSessionStarted
| SinkRemoteAuthFailed
| SinkAuditFiltered
| SinkProfileValidatorRejected
| SinkWebUiSessionStarted
| SinkWebUiAccessDenied
| SinkRemoteMtlsAccepted
| SinkRemoteMtlsRejected
| SinkClusterPeerJoined
| SinkClusterPeerLeft
| SinkClusterViewServed
| SinkSnapshotMounted
| SinkSnapshotUnmounted
| SinkK8sQueryServed
| SinkSeccompCompiled
| SinkApparmorCompiled
| SinkSeccompApplied
| SinkApparmorApplied
| SinkContainerExecCalled
| SinkContainerLogsStreamed
| SinkImagePullStarted
| SinkImagePushed
| SinkImageManifestCreated
| SinkSelinuxCompiled
| SinkSelinuxApplied
| SinkContainerExecPtyOpened
| SinkContainerExecPtyClosed
| SinkK8sPodCreated
| SinkK8sPodDeleted
| SinkK8sNamespaceCreated
| SinkK8sDeploymentScaled
| SinkPluginNetworkTraceCalled
| SinkPluginRuntimeInjectorCalled
| SinkEgressDenyEnforced
| SinkSelinuxStaticLabelApplied
| SinkWsAuthSubprotocol
| SinkImagePushTls
| SinkClusterLeaderElected
| SinkClusterLeaderLost
| SinkClusterRaftPromoted
| SinkClusterRaftDemoted
| SinkPluginSignatureVerified
| SinkPluginSignatureRejected
| SinkWsClientCertPinned
| SinkSelinuxLabelRuntimeFallback
| SinkClusterStateApplied
| SinkClusterStateProposeFailed
| SinkSnapshotEncrypted
| SinkSnapshotDecryptFailed
| SinkPluginKeyRevoked
| SinkWsClientCertTofuEnrolled
| SinkSnapshotKeyRotated
| SinkSnapshotReEncryptCompleted
| SinkSandboxSnapshotAutoTriggered
| SinkTofuExpired
| SinkPluginKeyRevokePropagated
| SinkSecretCreated
| SinkSecretRemoved
| SinkContainerUpdated.

Definition sink_kind_as_str (k : AuditSinkKind) : string :=
  match k with
  | SinkSnapshotCreated => "snapshot_created"
  | SinkSnapshotRolledBack => "snapshot_rolled_back"
  | SinkSnapshotRemoved => "snapshot_removed"
  | SinkSessionStarted => "session_started"
  | SinkSessionEnded => "session_ended"
  | SinkMcpBridgeStarted => "mcp_bridge_started"
  | SinkMcpBridgeStopped => "mcp_bridge_stopped"
  | SinkMcpToolCalled => "mcp_tool_called"
  | SinkMcpToolDenied => "mcp_tool_denied"
  | SinkDistroCreated => "distro_created"
  | SinkDistroBuilt => "distro_built"
  | SinkDistroEntered => "distro_entered"
  | SinkDistroRemoved => "distro_removed"
  | SinkPassthroughGranted => "passthrough_granted"
  | SinkSnapshotJobStarted => "snapshot_job_started"
  | SinkSnapshotJobFinished => "snapshot_job_finished"
  | SinkMcpPolicyChanged => "mcp_policy_changed"
  | SinkNetworkEgressApplied => "network_egress_applied"
  | SinkNetworkEgressFailed => "network_egress_failed"
  | SinkMcpResourceSubscribed => "mcp_resource_subscribed"
  | SinkMcpResourceUnsubscribed => "mcp_resource_unsubscribed"
  | SinkMcpResourceUpdated => "mcp_resource_updated"
  | SinkMcpListChanged => "mcp_list_changed"
  | SinkSnapshotBranched => "snapshot_branched"
  | SinkPluginInstalled => "plugin_installed"
  | SinkPluginEnabled => "plugin_enabled"
  | SinkPluginDisabled => "plugin_disabled"
  | SinkPluginRemoved => "plugin_removed"
  | SinkPluginInvoked => "plugin_invoked"
  | SinkMetricsCollectorStarted => "metrics_collector_started"
  | SinkMetricsCollectorStopped => "metrics_collector_stopped"
  | SinkSnapshotBackendUsed => "snapshot_backend_used"
  | SinkRemoteSessionStarted => "remote_session_started"
  | SinkRemoteAuthFailed => "remote_auth_failed"
  | SinkAuditFiltered => "audit_filtered"
  | SinkProfileValidatorRejected => "profile_validator_rejected"
  | SinkWebUiSessionStarted => "web_ui_session_started"
  | SinkWebUiAccessDenied => "web_ui_access_denied"
  | SinkRemoteMtlsAccepted => "remote_mtls_accepted"
  | SinkRemoteMtlsRejected => "remote_mtls_rejected"
  | SinkClusterPeerJoined => "cluster_peer_joined"
  | SinkClusterPeerLeft => "cluster_peer_left"
  | SinkClusterViewServed => "cluster_view_served"
  | SinkSnapshotMounted => "snapshot_mounted"
  | SinkSnapshotUnmounted => "snapshot_unmounted"
  | SinkK8sQueryServed => "k8s_query_served"
  | SinkSeccompCompiled => "seccomp_compiled"
  | SinkApparmorCompiled => "apparmor_compiled"
  | SinkSeccompApplied => "seccomp_applied"
  | SinkApparmorApplied => "apparmor_applied"
  | SinkContainerExecCalled => "container_exec_called"
  | SinkContainerLogsStreamed => "container_logs_streamed"
  | SinkImagePullStarted => "image_pull_started"
  | SinkImagePushed => "image_pushed"
  | SinkImageManifestCreated => "image_manifest_created"
  | SinkSelinuxCompiled => "selinux_compiled"
  | SinkSelinuxApplied => "selinux_applied"
  | SinkContainerExecPtyOpened => "container_exec_pty_opened"
  | SinkContainerExecPtyClosed => "container_exec_pty_closed"
  | SinkK8sPodCreated => "k8s_pod_created"
  | SinkK8sPodDeleted => "k8s_pod_deleted"
  | SinkK8sNamespaceCreated => "k8s_namespace_created"
  | SinkK8sDeploymentScaled => "k8s_deployment_scaled"
  | SinkPluginNetworkTraceCalled => "plugin_network_trace_called"
  | SinkPluginRuntimeInjectorCalled => "plugin_runtime_injector_called"
  | SinkEgressDenyEnforced => "egress_deny_enforced"
  | SinkSelinuxStaticLabelApplied => "selinux_static_label_applied"
  | SinkWsAuthSubprotocol => "ws_auth_subprotocol"
  | SinkImagePushTls => "image_push_tls"
  | SinkClusterLeaderElected => "cluster_leader_elected"
  | SinkClusterLeaderLost => "cluster_leader_lost"
  | SinkClusterRaftPromoted => "cluster_raft_promoted"
  | SinkClusterRaftDemoted => "cluster_raft_demoted"
  | SinkPluginSignatureVerified => "plugin_signature_verified"
  | SinkPluginSignatureRejected => "plugin_signature_rejected"
  | SinkWsClientCertPinned => "ws_client_cert_pinned"
  | SinkSelinuxLabelRuntimeFallback => "selinux_label_runtime_fallback"
  | SinkClusterStateApplied => "cluster_state_applied"
  | SinkClusterStateProposeFailed => "cluster_state_propose_failed"
  | SinkSnapshotEncrypted => "snapshot_encrypted"
  | SinkSnapshotDecryptFailed => "snapshot_decrypt_failed"
  | SinkPluginKeyRevoked => "plugin_key_revoked"
  | SinkWsClientCertTofuEnrolled => "ws_client_cert_tofu_enrolled"
  | SinkSnapshotKeyRotated => "snapshot_key_rotated"
  | SinkSnapshotReEncryptCompleted => "snapshot_re_encrypt_completed"
  | SinkSandboxSnapshotAutoTriggered => "sandbox_snapshot_auto_triggered"
  | SinkTofuExpired => "tofu_expired"
  | SinkPluginKeyRevokePropagated => "plugin_key_revoke_propagated"
  | SinkSecretCreated => "secret_created"
  | SinkSecretRemoved => "secret_removed"
  | SinkContainerUpdated => "container_updated"
  end.

Definition map_kind (k : AuditSinkKind) : AuditKind :=
  match k with
  | SinkSnapshotCreated => SnapshotCreated
  | SinkSnapshotRolledBack => SnapshotRolledBack
  | SinkSnapshotRemoved => SnapshotRemoved
  | SinkSessionStarted => SessionStarted
  | SinkSessionEnded => SessionEnded
  | SinkMcpBridgeStarted => McpBridgeStarted
  | SinkMcpBridgeStopped => McpBridgeStopped
  | SinkMcpToolCalled => McpToolCalled
  | SinkMcpToolDenied => McpToolDenied
  | SinkDistroCreated => DistroCreated
  | SinkDistroBuilt => DistroBuilt
  | SinkDistroEntered => DistroEntered
  | SinkDistroRemoved => DistroRemoved
  | SinkPassthroughGranted => PassthroughGranted
  | SinkSnapshotJobStarted => SnapshotJobStarted
  | SinkSnapshotJobFinished => SnapshotJobFinished
  | SinkMcpPolicyChanged => McpPolicyChanged
  | SinkNetworkEgressApplied => NetworkEgressApplied
  | SinkNetworkEgressFailed => NetworkEgressFailed
  | SinkMcpResourceSubscribed => McpResourceSubscribed
  | SinkMcpResourceUnsubscribed => McpResourceUnsubscribed
  | SinkMcpResourceUpdated => McpResourceUpdated
  | SinkMcpListChanged => McpListChanged
  | SinkSnapshotBranched => SnapshotBranched
  | SinkPluginInstalled => PluginInstalled
  | SinkPluginEnabled => PluginEnabled
  | SinkPluginDisabled => PluginDisabled
  | SinkPluginRemoved => PluginRemoved
  | SinkPluginInvoked => PluginInvoked
  | SinkMetricsCollectorStarted => MetricsCollectorStarted
  | SinkMetricsCollectorStopped => MetricsCollectorStopped
  | SinkSnapshotBackendUsed => SnapshotBackendUsed
  | SinkRemoteSessionStarted => RemoteSessionStarted
  | SinkRemoteAuthFailed => RemoteAuthFailed
  | SinkAuditFiltered => AuditFiltered
  | SinkProfileValidatorRejected => ProfileValidatorRejected
  | SinkWebUiSessionStarted => WebUiSessionStarted
  | SinkWebUiAccessDenied => WebUiAccessDenied
  | SinkRemoteMtlsAccepted => RemoteMtlsAccepted
  | SinkRemoteMtlsRejected => RemoteMtlsRejected
  | SinkClusterPeerJoined => ClusterPeerJoined
  | SinkClusterPeerLeft => ClusterPeerLeft
  | SinkClusterViewServed => ClusterViewServed
  | SinkSnapshotMounted => SnapshotMounted
  | SinkSnapshotUnmounted => SnapshotUnmounted
  | SinkK8sQueryServed => K8sQueryServed
  | SinkSeccompCompiled => SeccompCompiled
  | SinkApparmorCompiled => ApparmorCompiled
  | SinkSeccompApplied => SeccompApplied
  | SinkApparmorApplied => ApparmorApplied
  | SinkContainerExecCalled => ContainerExecCalled
  | SinkContainerLogsStreamed => ContainerLogsStreamed
  | SinkImagePullStarted => ImagePullStarted
  | SinkImagePushed => ImagePushed
  | SinkImageManifestCreated => ImageManifestCreated
  | SinkSelinuxCompiled => SelinuxCompiled
  | SinkSelinuxApplied => SelinuxApplied
  | SinkContainerExecPtyOpened => ContainerExecPtyOpened
  | SinkContainerExecPtyClosed => ContainerExecPtyClosed
  | SinkK8sPodCreated => K8sPodCreated
  | SinkK8sPodDeleted => K8sPodDeleted
  | SinkK8sNamespaceCreated => K8sNamespaceCreated
  | SinkK8sDeploymentScaled => K8sDeploymentScaled
  | SinkPluginNetworkTraceCalled => PluginNetworkTraceCalled
  | SinkPluginRuntimeInjectorCalled => PluginRuntimeInjectorCalled
  | SinkEgressDenyEnforced => EgressDenyEnforced
  | SinkSelinuxStaticLabelApplied => SelinuxStaticLabelApplied
  | SinkWsAuthSubprotocol => WsAuthSubprotocol
  | SinkImagePushTls => ImagePushTls
  | SinkClusterLeaderElected => ClusterLeaderElected
  | SinkClusterLeaderLost => ClusterLeaderLost
  | SinkClusterRaftPromoted => ClusterRaftPromoted
  | SinkClusterRaftDemoted => ClusterRaftDemoted
  | SinkPluginSignatureVerified => PluginSignatureVerified
  | SinkPluginSignatureRejected => PluginSignatureRejected
  | SinkWsClientCertPinned => WsClientCertPinned
  | SinkSelinuxLabelRuntimeFallback => SelinuxLabelRuntimeFallback
  | SinkClusterStateApplied => ClusterStateApplied
  | SinkClusterStateProposeFailed => ClusterStateProposeFailed
  | SinkSnapshotEncrypted => SnapshotEncrypted
  | SinkSnapshotDecryptFailed => SnapshotDecryptFailed
  | SinkPluginKeyRevoked => PluginKeyRevoked
  | SinkWsClientCertTofuEnrolled => WsClientCertTofuEnrolled
  | SinkSnapshotKeyRotated => SnapshotKeyRotated
  | SinkSnapshotReEncryptCompleted => SnapshotReEncryptCompleted
  | SinkSandboxSnapshotAutoTriggered => SandboxSnapshotAutoTriggered
  | SinkTofuExpired => TofuExpired
  | SinkPluginKeyRevokePropagated => PluginKeyRevokePropagated
  | SinkSecretCreated => SecretCreated
  | SinkSecretRemoved => SecretRemoved
  | SinkContainerUpdated => ContainerUpdated
  end.

Definition all_kinds : list AuditKind :=
  [ProfileLoaded; ProfileApplied; ProfileDenied; ProfilesReloaded; ChainVerified;
   ApprovalRequested; ApprovalGranted; ApprovalDenied; ApprovalTimedOut; ApprovalNoListener;
   SnapshotCreated; SnapshotRolledBack; SnapshotRemoved; SessionStarted; SessionEnded;
   McpBridgeStarted; McpBridgeStopped; McpToolCalled; McpToolDenied; DistroCreated;
   DistroBuilt; DistroEntered; DistroRemoved; PassthroughGranted; SnapshotJobStarted;
   SnapshotJobFinished; McpPolicyChanged; NetworkEgressApplied; NetworkEgressFailed;
   McpResourceSubscribed; McpResourceUnsubscribed; McpResourceUpdated; McpListChanged;
   SnapshotBranched; PluginInstalled; PluginEnabled; PluginDisabled; PluginRemoved;
   PluginInvoked; MetricsCollectorStarted; MetricsCollectorStopped; SnapshotBackendUsed;
   RemoteSessionStarted; RemoteAuthFailed; AuditFiltered; ProfileValidatorRejected;
   WebUiSessionStarted; WebUiAccessDenied; RemoteMtlsAccepted; RemoteMtlsRejected;
   ClusterPeerJoined; ClusterPeerLeft; ClusterViewServed; SnapshotMounted; SnapshotUnmounted;
   K8sQueryServed; SeccompCompiled; ApparmorCompiled; SeccompApplied; ApparmorApplied;
   ContainerExecCalled; ContainerLogsStreamed; ImagePullStarted; ImagePushed;
   ImageManifestCreated; SelinuxCompiled; SelinuxApplied; ContainerExecPtyOpened;
   ContainerExecPtyClosed; K8sPodCreated; K8sPodDeleted; K8sNamespaceCreated;
   K8sDeploymentScaled; PluginNetworkTraceCalled; PluginRuntimeInjectorCalled;
   EgressDenyEnforced; SelinuxStaticLabelApplied; WsAuthSubprotocol; ImagePushTls;
   ClusterLeaderElected; ClusterLeaderLost; ClusterRaftPromoted; ClusterRaftDemoted;
   PluginSignatureVerified; PluginSignatureRejected; WsClientCertPinned;
   SelinuxLabelRuntimeFallback; ClusterStateApplied; ClusterStateProposeFailed;
   SnapshotEncrypted; SnapshotDecryptFailed; PluginKeyRevoked; WsClientCertTofuEnrolled;
   SnapshotKeyRotated; SnapshotReEncryptCompleted; SandboxSnapshotAutoTriggered; TofuExpired;
   PluginKeyRevokePropagated; SecretCreated; SecretRemoved; ContainerUpdated].

Definition all_sink_kinds : list AuditSinkKind :=
  [SinkSnapshotCreated; SinkSnapshotRolledBack; SinkSnapshotRemoved; SinkSessionStarted;
   SinkSessionEnded; SinkMcpBridgeStarted; SinkMcpBridgeStopped; SinkMcpToolCalled;
   SinkMcpToolDenied; SinkDistroCreated; SinkDistroBuilt; SinkDistroEntered;
   SinkDistroRemoved; SinkPassthroughGranted; SinkSnapshotJobStarted; SinkSnapshotJobFinished;
   SinkMcpPolicyChanged; SinkNetworkEgressApplied; SinkNetworkEgressFailed;
   SinkMcpResourceSubscribed; SinkMcpResourceUnsubscribed; SinkMcpResourceUpdated;
   SinkMcpListChanged; SinkSnapshotBranched; SinkPluginInstalled; SinkPluginEnabled;
   SinkPluginDisabled; SinkPluginRemoved; SinkPluginInvoked; SinkMetricsCollectorStarted;
   SinkMetricsCollectorStopped; SinkSnapshotBackendUsed; SinkRemoteSessionStarted;
   SinkRemoteAuthFailed; SinkAuditFiltered; SinkProfileValidatorRejected;
   SinkWebUiSessionStarted; SinkWebUiAccessDenied; SinkRemoteMtlsAccepted;
   SinkRemoteMtlsRejected; SinkClusterPeerJoined; SinkClusterPeerLeft; SinkClusterViewServed;
   SinkSnapshotMounted; SinkSnapshotUnmounted; SinkK8sQueryServed; SinkSeccompCompiled;
   SinkApparmorCompiled; SinkSeccompApplied; SinkApparmorApplied; SinkContainerExecCalled;
   SinkContainerLogsStreamed; SinkImagePullStarted; SinkImagePushed; SinkImageManifestCreated;
   SinkSelinuxCompiled; SinkSelinuxApplied; SinkContainerExecPtyOpened;
   SinkContainerExecPtyClosed; SinkK8sPodCreated; SinkK8sPodDeleted; SinkK8sNamespaceCreated;
   SinkK8sDeploymentScaled; SinkPluginNetworkTraceCalled; SinkPluginRuntimeInjectorCalled;
   SinkEgressDenyEnforced; SinkSelinuxStaticLabelApplied; SinkWsAuthSubprotocol;
   SinkImagePushTls; SinkClusterLeaderElected; SinkClusterLeaderLost; SinkClusterRaftPromoted;
   SinkClusterRaftDemoted; SinkPluginSignatureVerified; SinkPluginSignatureRejected;
   SinkWsClientCertPinned; SinkSelinuxLabelRuntimeFallback; SinkClusterStateApplied;
   SinkClusterStateProposeFailed; SinkSnapshotEncrypted; SinkSnapshotDecryptFailed;
   SinkPluginKeyRevoked; SinkWsClientCertTofuEnrolled; SinkSnapshotKeyRotated;
   SinkSnapshotReEncryptCompleted; SinkSandboxSnapshotAutoTriggered; SinkTofuExpired;
   SinkPluginKeyRevokePropagated; SinkSecretCreated; SinkSecretRemoved; SinkContainerUpdated].

(** Decoding a stored kind: the kind of that name. *)
Definition kind_of_str (s : string) : option AuditKind :=
  snd <$> list_find (λ k, kind_as_str k = s) all_kinds.

Lemma kind_of_as_str k : kind_of_str (kind_as_str k) = Some k.
Proof. destruct k; vm_compute; reflexivity. Qed.

#[export] Instance kind_as_str_inj : Inj (=) (=) kind_as_str.
Proof.
  intros k1 k2 H. apply (f_equal kind_of_str) in H. rewrite !kind_of_as_str in H. by simplify_eq.
Qed.

#[export] Instance AuditKind_eq_dec : EqDecision AuditKind.
Proof.
  intros k1 k2. destruct (decide (kind_as_str k1 = kind_as_str k2)) as [H|H].
  - left. by apply (inj kind_as_str).
  - right. by intros ->.
Defined.

Lemma map_kind_as_str k : kind_as_str (map_kind k) = sink_kind_as_str k.
Proof. by destruct k. Qed.

Definition sink_kind_of_str (s : string) : option AuditSinkKind :=
  snd <$> list_find (λ k, sink_kind_as_str k = s) all_sink_kinds.

Lemma sink_kind_of_as_str k : sink_kind_of_str (sink_kind_as_str k) = Some k.
Proof. destruct k; vm_compute; reflexivity. Qed.

#[export] Instance sink_kind_as_str_inj : Inj (=) (=) sink_kind_as_str.
Proof.
  intros k1 k2 H. apply (f_equal sink_kind_of_str) in H. rewrite !sink_kind_of_as_str in H.
  by simplify_eq.
Qed.

#[export] Instance AuditSinkKind_eq_dec : EqDecision AuditSinkKind.
Proof.
  intros k1 k2. destruct (decide (sink_kind_as_str k1 = sink_kind_as_str k2)) as [H|H].
  - left. by apply (inj sink_kind_as_str).
  - right. by intros ->.
Defined.

#[export] Instance map_kind_inj : Inj (=) (=) map_kind.
Proof. intros k1 k2 H. apply (inj sink_kind_as_str). rewrite <-!map_kind_as_str. by f_equal. Qed.

(** The two vocabularies agree: the name a subsystem's kind prints under is
    the name the audit row carries after the adapter, and distinct kinds never
    share a row name, so a row's [kind] column identifies what was recorded. *)
Theorem audit_kind_names k1 k2 :
  kind_as_str (map_kind k1) = sink_kind_as_str k1 ∧
  (sink_kind_as_str k1 = sink_kind_as_str k2 ↔ k1 = k2).
Proof.
  split; [apply map_kind_as_str|]. split; [apply (inj _)|by intros ->].
Qed.
