(* ===== verification/AuditLog.v ===== *)
(** The tamper-evident audit log, [linpodx-sandbox/src/audit.rs]: hashing a row,
    appending in a transaction, querying, and re-computing the chain.

    [sha256] is a parameter; no theorem assumes it collision-free. The
    tamper-evidence theorem hands back a collision between two of the rows instead. *)
From S2P Require Import Prelude Json Common Database AuditKinds.

Definition ZERO_HASH : string :=
  "0000000000000000000000000000000000000000000000000000000000000000".

Record AuditEntry : Type := {
  ae_seq : Z;
  ae_ts : Z;
  ae_kind : string;
  ae_profile : option string;
  ae_container : option string;
  ae_payload : Value;
  ae_prev : string;
  ae_this : string;
}.

Record AuditFilters : Type := {
  f_profile : option string;
  f_kind : option string;
  f_since : option Z;
  f_until : option Z;
  f_limit : option Z;
}.

Record VerifyReport : Type := {
  vr_total : Z;
  vr_last_seq : option Z;
  vr_broken_at : option Z;
}.

Definition HASH_VERSION_V2 : Z := 2.

(** * Hashing *)

Definition hex_digit (n : N) : ascii :=
  Ascii.ascii_of_N (if (n <? 10)%N then 48 + n else 87 + n)%N.

(** [format!("{:02x}", b)] for each byte. *)
Fixpoint hex_encode (bytes : string) : string :=
  match bytes with
  | EmptyString => EmptyString
  | String b bytes' =>
      String (hex_digit (byte_val b / 16)) (String (hex_digit (byte_val b mod 16)) (hex_encode bytes'))
  end.

(** The bytes [hash_link] and [hash_link_v2] feed to the hasher. *)
Definition preimage_v1 (prev_hash_hex payload_json : string) : string :=
  prev_hash_hex +:+ payload_json.

Definition feed (bytes : string) : string :=
  u64_to_le_bytes (N.of_nat (String.length bytes)) +:+ bytes.
Definition feed_opt (v : option string) : string :=
  match v with
  | Some s => String (Ascii.ascii_of_N 1) (feed s)
  | None => String (Ascii.ascii_of_N 0) EmptyString
  end.

Definition preimage_v2 (prev_hash_hex kind ts : string) (profile_name container_id : option string)
    (payload_json : string) : string :=
  "linpodx.audit.v2" +:+ feed prev_hash_hex +:+ feed kind +:+ feed ts +:+
  feed_opt profile_name +:+ feed_opt container_id +:+ feed payload_json.

Section Chain.
Context {E : Env}.

Definition hash_link (prev_hash_hex payload_json : string) : string :=
  hex_encode (sha256 (preimage_v1 prev_hash_hex payload_json)).

Definition hash_link_v2 (prev_hash_hex kind ts : string) (profile_name container_id : option string)
    (payload_json : string) : string :=
  hex_encode (sha256 (preimage_v2 prev_hash_hex kind ts profile_name container_id payload_json)).

(** * Appending *)

(** The transaction of [append]: the statements run one by one and the rows
    change only when the commit goes through. *)
Definition append (kind : AuditKind) (profile_name container_id : option string)
    (payload : Value) : D AuditEntry :=
  let payload_json := json_to_string payload in
  ts ← now;
  let ts_str := ts_format ts in
  let kind_str := kind_as_str kind in
  _ ← stmt; (* BEGIN *)
  _ ← stmt; (* SELECT this_hash ... ORDER BY seq DESC LIMIT 1 *)
  rows ← gets w_audit;
  let prev_hash := unwrap_or ZERO_HASH (ar_this <$> last rows) in
  let this_hash := hash_link_v2 prev_hash kind_str ts_str profile_name container_id payload_json in
  _ ← stmt; (* INSERT ... RETURNING seq *)
  hi ← gets w_audit_seq;
  if bool_decide (this_hash ∈ ar_this <$> rows) (* this_hash is UNIQUE *)
     || bool_decide (hi = i64_max) (* SQLITE_FULL *)
  then throw (Fail Sqlx)
  else
    let row := {| ar_seq := hi + 1; ar_ts := ts_str; ar_kind := kind_str;
                  ar_profile := profile_name; ar_container := container_id;
                  ar_payload := payload_json; ar_prev := prev_hash; ar_this := this_hash;
                  ar_version := HASH_VERSION_V2 |} in
    _ ← stmt; (* COMMIT *)
    _ ← modify (set_audit (rows ++ [row]) (hi + 1));
    mret {| ae_seq := hi + 1; ae_ts := ts; ae_kind := kind_str; ae_profile := profile_name;
            ae_container := container_id; ae_payload := payload; ae_prev := prev_hash;
            ae_this := this_hash |}.

(** * Querying *)

(** The [WHERE] clause: text columns compare bytewise. *)
Definition row_selected (filters : AuditFilters) (r : AuditRow) : bool :=
  match f_profile filters with Some p => bool_decide (ar_profile r = Some p) | None => true end
  && match f_kind filters with Some k => bool_decide (ar_kind r = k) | None => true end
  && match f_since filters with Some t => String.leb (ts_format t) (ar_ts r) | None => true end
  && match f_until filters with Some t => String.ltb (ar_ts r) (ts_format t) | None => true end.

Definition decode_row (r : AuditRow) : Result Error AuditEntry :=
  match ts_parse (ar_ts r) with
  | inr e => Err (Runtime ("invalid audit ts '" +:+ ar_ts r +:+ "': " +:+ e))
  | inl ts =>
      match json_from_str (ar_payload r) with
      | None => Err Json
      | Some payload =>
          Ok {| ae_seq := ar_seq r; ae_ts := ts; ae_kind := ar_kind r; ae_profile := ar_profile r;
                ae_container := ar_container r; ae_payload := payload; ae_prev := ar_prev r;
                ae_this := ar_this r |}
      end
  end.

Definition query_rows (filters : AuditFilters) (rows : list AuditRow) : list AuditRow :=
  let hits := filter (λ r, row_selected filters r) (reverse rows) in
  match f_limit filters with
  | Some limit => take (Z.to_nat limit) hits
  | None => hits
  end.

Definition query (filters : AuditFilters) : D (list AuditEntry) :=
  _ ← stmt;
  rows ← gets w_audit;
  lift (collect (decode_row <$> query_rows filters rows)).

(** * Verifying *)

Definition row_hash (prev_hash : string) (r : AuditRow) : string :=
  if (HASH_VERSION_V2 <=? ar_version r)%Z
  then hash_link_v2 prev_hash (ar_kind r) (ar_ts r) (ar_profile r) (ar_container r) (ar_payload r)
  else hash_link prev_hash (ar_payload r).

(** The loop of [verify_chain]: the last good seq and the first broken one. *)
Fixpoint verify_loop (prev_hash : string) (last_seq : option Z) (rows : list AuditRow) :
    option Z * option Z :=
  match rows with
  | [] => (last_seq, None)
  | r :: rows' =>
      if negb (bool_decide (ar_prev r = prev_hash)) then (last_seq, Some (ar_seq r))
      else if negb (bool_decide (row_hash prev_hash r = ar_this r)) then (last_seq, Some (ar_seq r))
      else verify_loop (ar_this r) (Some (ar_seq r)) rows'
  end.

(** The hash the first verified row has to chain from. *)
Definition start_hash (start : Z) (rows : list AuditRow) : string :=
  if (start <=? 1)%Z then ZERO_HASH
  else unwrap_or ZERO_HASH ((λ p, ar_this p.2) <$> list_find (λ r, ar_seq r = (start - 1)%Z) rows).

Definition verify_rows (since_seq : option Z) (rows : list AuditRow) : VerifyReport :=
  let start := unwrap_or 1%Z since_seq in
  let scanned := filter (λ r, (start ≤ ar_seq r)%Z) rows in
  let '(last_seq, broken_at) := verify_loop (start_hash start rows) None scanned in
  {| vr_total := Z.of_nat (length scanned); vr_last_seq := last_seq; vr_broken_at := broken_at |}.

Definition verify_chain (since_seq : option Z) : D VerifyReport :=
  _ ← (if (unwrap_or 1 since_seq <=? 1)%Z then mret tt else stmt);
  _ ← stmt;
  rows ← gets w_audit;
  mret (verify_rows since_seq rows).
End Chain.

(** * Hex strings *)

Definition is_hex (c : ascii) : bool :=
  bool_decide (48 ≤ byte_val c ≤ 57)%N || bool_decide (97 ≤ byte_val c ≤ 102)%N.

Lemma byte_val_bound c : (byte_val c < 256)%N.
Proof. apply Ascii.N_ascii_bounded. Qed.

Lemma byte_val_inj c1 c2 : byte_val c1 = byte_val c2 → c1 = c2.
Proof.
  intros H. rewrite <-(Ascii.ascii_N_embedding c1), <-(Ascii.ascii_N_embedding c2).
  by f_equal.
Qed.

Lemma hex_digit_val n : (n < 16)%N →
  byte_val (hex_digit n) = (if (n <? 10)%N then 48 + n else 87 + n)%N.
Proof.
  intros H. unfold hex_digit, byte_val. apply Ascii.N_ascii_embedding. case_match; lia.
Qed.

Lemma hex_digit_inj n m : (n < 16)%N → (m < 16)%N → hex_digit n = hex_digit m → n = m.
Proof.
  intros Hn Hm H. apply (f_equal byte_val) in H. rewrite !hex_digit_val in H by done.
  destruct (N.ltb_spec n 10), (N.ltb_spec m 10); lia.
Qed.

Lemma hex_digit_is_hex n : (n < 16)%N → is_hex (hex_digit n) = true.
Proof.
  intros H. unfold is_hex. rewrite hex_digit_val by done.
  destruct (N.ltb_spec n 10); apply orb_true_iff; [left|right]; apply bool_decide_eq_true; lia.
Qed.

Lemma byte_nibbles c : (byte_val c / 16 < 16)%N ∧ (byte_val c mod 16 < 16)%N.
Proof.
  pose proof (byte_val_bound c). split; [apply N.Div0.div_lt_upper_bound; lia|apply N.mod_lt; lia].
Qed.

Lemma hex_encode_inj s1 s2 : hex_encode s1 = hex_encode s2 → s1 = s2.
Proof.
  revert s2. induction s1 as [|c1 s1 IH]; intros [|c2 s2] H; simpl in H; [done..|].
  injection H as Hhi Hlo H. destruct (byte_nibbles c1), (byte_nibbles c2).
  apply hex_digit_inj in Hhi, Hlo; [|done..]. rewrite (IH _ H). f_equal. apply byte_val_inj.
  rewrite (N.div_mod (byte_val c1) 16), (N.div_mod (byte_val c2) 16) by lia. congruence.
Qed.

Lemma hex_encode_all s : str_all is_hex (hex_encode s) = true.
Proof.
  induction s as [|c s IH]; [done|]. simpl. destruct (byte_nibbles c).
  by rewrite !hex_digit_is_hex, IH by done.
Qed.

Lemma hex_encode_length s : String.length (hex_encode s) = 2 * String.length s.
Proof. induction s as [|c s IH]; simpl; lia. Qed.

(** * The v2 encoding is unambiguous *)

Definition fits_u64 (s : string) : Prop := (N.of_nat (String.length s) < 2 ^ 64)%N.
#[export] Instance fits_u64_dec s : Decision (fits_u64 s).
Proof. unfold fits_u64. apply _. Defined.

Lemma feed_app_inj s1 s2 t1 t2 :
  fits_u64 s1 → fits_u64 s2 → feed s1 +:+ t1 = feed s2 +:+ t2 → s1 = s2 ∧ t1 = t2.
Proof.
  unfold feed, fits_u64. intros H1 H2 H. rewrite !str_app_assoc in H.
  apply str_app_inj in H as [Hlen H]; [|by unfold u64_to_le_bytes; autorewrite with linpodx_str].
  apply u64_to_le_bytes_inj in Hlen; [|done..]. apply str_app_inj in H; [done|lia].
Qed.

Lemma feed_opt_app_inj o1 o2 t1 t2 :
  from_option fits_u64 True o1 → from_option fits_u64 True o2 →
  feed_opt o1 +:+ t1 = feed_opt o2 +:+ t2 → o1 = o2 ∧ t1 = t2.
Proof.
  destruct o1 as [s1|], o2 as [s2|]; simpl; intros H1 H2 H;
    rewrite !str_app_cons_l in H; apply str_cons_inj in H as [Hc H]; try discriminate Hc; [|done].
  apply feed_app_inj in H as [-> ->]; done.
Qed.

(** The columns a v2 hash covers. *)
Definition fields_fit (kind ts : string) (profile container : option string) (payload : string) : Prop :=
  fits_u64 kind ∧ fits_u64 ts ∧ from_option fits_u64 True profile ∧
  from_option fits_u64 True container ∧ fits_u64 payload.

Lemma preimage_v2_inj p1 k1 t1 pr1 c1 pl1 p2 k2 t2 pr2 c2 pl2 :
  fits_u64 p1 → fits_u64 p2 →
  fields_fit k1 t1 pr1 c1 pl1 → fields_fit k2 t2 pr2 c2 pl2 →
  preimage_v2 p1 k1 t1 pr1 c1 pl1 = preimage_v2 p2 k2 t2 pr2 c2 pl2 →
  p1 = p2 ∧ k1 = k2 ∧ t1 = t2 ∧ pr1 = pr2 ∧ c1 = c2 ∧ pl1 = pl2.
Proof.
  intros Hp1 Hp2 (? & ? & ? & ? & ?) (? & ? & ? & ? & ?) Heq. unfold preimage_v2 in Heq.
  apply str_app_inj_l in Heq.
  apply feed_app_inj in Heq as [-> Heq]; [|done..]. apply feed_app_inj in Heq as [-> Heq]; [|done..].
  apply feed_app_inj in Heq as [-> Heq]; [|done..]. apply feed_opt_app_inj in Heq as [-> Heq]; [|done..].
  apply feed_opt_app_inj in Heq as [-> Heq]; [|done..].
  apply (f_equal (λ s, s +:+ "")) in Heq. by apply feed_app_inj in Heq as [-> _].
Qed.

(** A v1 preimage starts with the previous hash, a hex digit; a v2 preimage
    starts with the domain tag. *)
Lemma preimage_v1_v2 prev payload p k t pr c pl :
  str_all is_hex prev = true → prev ≠ "" →
  preimage_v1 prev payload ≠ preimage_v2 p k t pr c pl.
Proof.
  unfold preimage_v1, preimage_v2. destruct prev as [|a prev]; [done|]. intros Hhex _ H.
  change "linpodx.audit.v2" with (String "l" "inpodx.audit.v2") in H.
  rewrite !str_app_cons_l in H. apply str_cons_inj in H as [-> _]. by vm_compute in Hhex.
Qed.

Section ChainFacts.
Context {E : Env}.

(** One link, and a chain of links from [prev]. *)
Definition linked (prev : string) (r : AuditRow) : Prop :=
  ar_prev r = prev ∧ ar_this r = row_hash prev r.
Fixpoint chained (prev : string) (rows : list AuditRow) : Prop :=
  match rows with
  | [] => True
  | r :: rows' => linked prev r ∧ chained (ar_this r) rows'
  end.

#[global] Instance linked_dec prev r : Decision (linked prev r).
Proof. unfold linked. apply _. Defined.

Definition head_hash (prev : string) (rows : list AuditRow) : string :=
  unwrap_or prev (ar_this <$> last rows).

Lemma head_hash_cons prev r rows : head_hash prev (r :: rows) = head_hash (ar_this r) rows.
Proof. unfold head_hash. rewrite last_cons. by destruct (last rows). Qed.

Lemma chained_app prev rows1 rows2 :
  chained prev (rows1 ++ rows2) ↔ chained prev rows1 ∧ chained (head_hash prev rows1) rows2.
Proof.
  revert prev. induction rows1 as [|r rows1 IH]; intros prev; simpl.
  - naive_solver.
  - rewrite head_hash_cons, IH. naive_solver.
Qed.

Lemma verify_loop_cons prev l r rows :
  verify_loop prev l (r :: rows) =
  if decide (linked prev r) then verify_loop (ar_this r) (Some (ar_seq r)) rows
  else (l, Some (ar_seq r)).
Proof.
  simpl. unfold linked.
  do 2 case_bool_decide; simpl; case_decide; naive_solver.
Qed.

(** What the loop returns: all rows are linked, or the first row that is not
    splits them. *)
Lemma verify_loop_spec prev l rows :
  match verify_loop prev l rows with
  | (last_seq, None) => chained prev rows ∧ last_seq = or_else (ar_seq <$> last rows) l
  | (last_seq, Some seq) => ∃ good r rest, rows = good ++ r :: rest ∧ chained prev good ∧
      ¬ linked (head_hash prev good) r ∧ seq = ar_seq r ∧
      last_seq = or_else (ar_seq <$> last good) l
  end.
Proof.
  revert prev l. induction rows as [|r rows IH]; intros prev l; [done|].
  rewrite verify_loop_cons. case_decide as Hl; [|by exists [], r, rows].
  specialize (IH (ar_this r) (Some (ar_seq r))).
  destruct (verify_loop _ _ rows) as [ls [seq|]].
  - destruct IH as (good & r' & rest & -> & Hg & Hn & -> & ->).
    exists (r :: good), r', rest. rewrite head_hash_cons, last_cons. do 4 (split; [done|]).
    by destruct (last good).
  - destruct IH as [? ->]. rewrite last_cons. split; [done|]. by destruct (last rows).
Qed.

Lemma verify_loop_none prev l rows :
  (verify_loop prev l rows).2 = None ↔ chained prev rows.
Proof.
  pose proof (verify_loop_spec prev l rows) as H.
  destruct (verify_loop prev l rows) as [ls [seq|]]; simpl; [|naive_solver].
  split; [done|]. intros Hc. destruct H as (good & r & rest & -> & _ & Hn & _).
  apply chained_app in Hc as [_ [? _]]. done.
Qed.

(** Every hash of a chain is the hex of a digest. *)
Lemma row_hash_hex prev r : ∃ d, row_hash prev r = hex_encode (sha256 d).
Proof. unfold row_hash. case_match; by eexists. Qed.

(** * Appending keeps the chain *)

Definition new_row (w : World) (kind : AuditKind) (profile container : option string) (p : Value)
    : AuditRow :=
  let prev := head_hash ZERO_HASH (w_audit w) in
  {| ar_seq := w_audit_seq w + 1; ar_ts := ts_format (clock (w_ticks w)); ar_kind := kind_as_str kind;
     ar_profile := profile; ar_container := container; ar_payload := json_to_string p;
     ar_prev := prev;
     ar_this := hash_link_v2 prev (kind_as_str kind) (ts_format (clock (w_ticks w))) profile container
                  (json_to_string p);
     ar_version := HASH_VERSION_V2 |}.

(** [w'] is [w] but for the clock, the statement counter and, when [rows] is
    not empty, rows added at the end of the audit log. *)
Definition audit_grows (w : World) (rows : list AuditRow) (w' : World) : Prop :=
  w_audit w' = w_audit w ++ rows ∧ w_profiles w' = w_profiles w ∧
  w_policies w' = w_policies w ∧ w_policies_seq w' = w_policies_seq w ∧
  w_events w' = w_events w ∧ w_requests w' = w_requests w ∧ w_plugins w' = w_plugins w ∧
  w_registry w' = w_registry w ∧ w_policy_store w' = w_policy_store w ∧
  w_cache w' = w_cache w ∧ w_tasks w' = w_tasks w ∧ w_sec w' = w_sec w.

Lemma append_spec kind profile container p w r w' :
  append kind profile container p w = (r, w') →
  match r with
  | Ok e => audit_grows w [new_row w kind profile container p] w' ∧
            w_audit_seq w' = (w_audit_seq w + 1)%Z ∧
            ae_seq e = (w_audit_seq w + 1)%Z ∧ ae_this e = ar_this (new_row w kind profile container p)
  | Err e => e = Fail Sqlx ∧ audit_grows w [] w' ∧ w_audit_seq w' = w_audit_seq w
  end.
Proof.
  unfold append, stmt, now, audit_grows. unfold mbind, M_bind, mret, M_ret, gets, throw, modify. simpl.
  rewrite !app_nil_r. intros H.
  repeat (case_match; simplify_eq/=; try naive_solver).
Qed.

(** The table as [append] builds it: rows numbered 1, 2, ... and chained. *)
Definition audit_inv (w : World) : Prop :=
  chained ZERO_HASH (w_audit w) ∧
  ar_seq <$> w_audit w = seqZ 1 (Z.of_nat (length (w_audit w))) ∧
  w_audit_seq w = Z.of_nat (length (w_audit w)).

Lemma audit_inv_empty : audit_inv empty_world.
Proof. done. Qed.

Lemma audit_inv_append kind profile container p w :
  audit_inv w → audit_inv (append kind profile container p w).2.
Proof.
  intros (Hc & Hs & Hn). destruct (append kind profile container p w) as [r w'] eqn:H.
  apply append_spec in H. unfold audit_inv. simpl. destruct r as [e|e].
  - destruct H as ([Ha _] & Hq & _). rewrite Ha, Hq, length_app, Nat2Z.inj_add, fmap_app, Hs, Hn. simpl.
    split; [apply chained_app; repeat split; done|]. split; [|lia].
    rewrite seqZ_app by lia. rewrite Hn. f_equal. by rewrite Z.add_comm.
  - destruct H as (_ & [Ha _] & Hq). by rewrite Ha, Hq, app_nil_r.
Qed.

(** With rows numbered from 1, the rows from [start] on are a suffix. *)
Lemma filter_from_seq (rows : list AuditRow) (k : Z) (start : Z) :
  ar_seq <$> rows = seqZ k (Z.of_nat (length rows)) →
  filter (λ r, (start ≤ ar_seq r)%Z) rows = drop (Z.to_nat (start - k)) rows.
Proof.
  revert k. induction rows as [|r rows IH]; intros k H; [by rewrite drop_nil|].
  simpl in H. rewrite Nat2Z.inj_succ, seqZ_cons in H by lia. rewrite Z.pred_succ in H.
  injection H as Hr H. rewrite filter_cons, (IH (Z.succ k) H). case_decide.
  - replace (Z.to_nat (start - k)) with 0 by lia. by replace (Z.to_nat (start - Z.succ k)) with 0 by lia.
  - by replace (Z.to_nat (start - k)) with (S (Z.to_nat (start - Z.succ k))) by lia.
Qed.

Lemma seq_lookup (rows : list AuditRow) k i r :
  ar_seq <$> rows = seqZ k (Z.of_nat (length rows)) → rows !! i = Some r → ar_seq r = (k + Z.of_nat i)%Z.
Proof.
  intros H Hi. assert ((ar_seq <$> rows) !! i = Some (ar_seq r)) as Hl by by rewrite list_lookup_fmap, Hi.
  rewrite H in Hl. by apply lookup_seqZ in Hl as [-> _].
Qed.

Lemma start_hash_head (rows : list AuditRow) (start : Z) :
  ar_seq <$> rows = seqZ 1 (Z.of_nat (length rows)) → (start - 1 ≤ Z.of_nat (length rows))%Z →
  start_hash start rows = head_hash ZERO_HASH (take (Z.to_nat (start - 1)) rows).
Proof.
  intros H Hlen. unfold start_hash. destruct (Z.leb_spec start 1) as [Hle|Hlt].
  { by replace (Z.to_nat (start - 1)) with 0 by lia. }
  set (i := Z.to_nat (start - 2)). replace (Z.to_nat (start - 1)) with (S i) by lia.
  destruct (lookup_lt_is_Some_2 rows i) as [r Hr]; [lia|].
  assert (list_find (λ r, ar_seq r = (start - 1)%Z) rows = Some (i, r)) as ->.
  { apply list_find_Some. split; [done|]. rewrite (seq_lookup _ _ _ _ H Hr). split; [lia|].
    intros j y Hj Hlt'. rewrite (seq_lookup _ _ _ _ H Hj). lia. }
  unfold head_hash. by rewrite (take_S_r _ _ _ Hr), last_snoc.
Qed.
End ChainFacts.

(** * Tamper evidence *)

Section Tamper.
Context {E : Env} {L : EnvLaws E}.

Definition row_fits (r : AuditRow) : Prop :=
  fields_fit (ar_kind r) (ar_ts r) (ar_profile r) (ar_container r) (ar_payload r).
Definition is_v2 (r : AuditRow) : Prop := (HASH_VERSION_V2 ≤ ar_version r)%Z.

#[global] Instance fields_fit_dec k t p c pl : Decision (fields_fit k t p c pl).
Proof. unfold fields_fit, fits_u64. destruct p, c; simpl; apply _. Defined.
#[global] Instance row_fits_dec r : Decision (row_fits r).
Proof. unfold row_fits. apply _. Defined.
#[global] Instance is_v2_dec r : Decision (is_v2 r).
Proof. unfold is_v2. apply _. Defined.

(** Equal in every column a v2 hash covers, the stored hashes included. *)
Definition same_content (r r' : AuditRow) : Prop :=
  ar_kind r = ar_kind r' ∧ ar_ts r = ar_ts r' ∧ ar_profile r = ar_profile r' ∧
  ar_container r = ar_container r' ∧ ar_payload r = ar_payload r' ∧
  ar_prev r = ar_prev r' ∧ ar_this r = ar_this r' ∧ is_v2 r'.

(** The bytes the hash of a row is of, by its version. *)
Definition row_input (r : AuditRow) : string :=
  if (HASH_VERSION_V2 <=? ar_version r)%Z
  then preimage_v2 (ar_prev r) (ar_kind r) (ar_ts r) (ar_profile r) (ar_container r) (ar_payload r)
  else preimage_v1 (ar_prev r) (ar_payload r).
(** The two rows are a collision: different bytes were hashed, to the same digest. *)
Definition rows_collide (r r' : AuditRow) : Prop :=
  row_input r ≠ row_input r' ∧ sha256 (row_input r) = sha256 (row_input r').
(** Two logs with a collision at the same place. *)
Definition logs_collide (rows rows' : list AuditRow) : Prop :=
  ∃ i r r', rows !! i = Some r ∧ rows' !! i = Some r' ∧ rows_collide r r'.

Lemma row_hash_input prev r : ar_prev r = prev → row_hash prev r = hex_encode (sha256 (row_input r)).
Proof. intros <-. unfold row_hash, row_input. by case_match. Qed.
Lemma hash_collision r r' : hex_encode (sha256 (row_input r)) = hex_encode (sha256 (row_input r')) →
  row_input r = row_input r' ∨ rows_collide r r'.
Proof. intros H%hex_encode_inj. destruct (decide (row_input r = row_input r')); [by left|by right]. Qed.
Lemma logs_collide_app rows rows' r r' : logs_collide rows rows' → logs_collide (rows ++ [r]) (rows' ++ [r']).
Proof. intros (i & x & x' & Hx & Hx' & Hc). exists i, x, x'. split_and!; [by apply lookup_app_l_Some..|done]. Qed.

(** The hash before any row of a chain: 64 hex digits. *)
Lemma head_hash_hex rows :
  chained ZERO_HASH rows →
  str_all is_hex (head_hash ZERO_HASH rows) = true ∧ String.length (head_hash ZERO_HASH rows) = 64%nat.
Proof.
  destruct rows as [|r rows _] using rev_ind; [done|]. intros [_ [[_ Ht] _]]%chained_app.
  unfold head_hash at 1 2. rewrite last_snoc. simpl. rewrite Ht.
  destruct (row_hash_hex (head_hash ZERO_HASH rows) r) as [d ->].
  split; [apply hex_encode_all|]. by rewrite hex_encode_length, sha256_length.
Qed.

Lemma head_hash_fits rows : chained ZERO_HASH rows → fits_u64 (head_hash ZERO_HASH rows).
Proof. intros [_ H]%head_hash_hex. unfold fits_u64. rewrite H. by vm_compute. Qed.

(** Two rows with the same hash, the first written by [append]: they hold the
    same columns and chain from the same hash, or they are a collision. *)
Lemma row_hash_inj prev prev' r r' :
  fits_u64 prev → fits_u64 prev' → row_fits r → row_fits r' → is_v2 r →
  str_all is_hex prev' = true → prev' ≠ "" → ar_prev r = prev → ar_prev r' = prev' →
  row_hash prev r = row_hash prev' r' →
  (is_v2 r' ∧ prev = prev' ∧ ar_kind r = ar_kind r' ∧ ar_ts r = ar_ts r' ∧
   ar_profile r = ar_profile r' ∧ ar_container r = ar_container r' ∧ ar_payload r = ar_payload r') ∨ rows_collide r r'.
Proof.
  intros Hp Hp' Hr Hr' Hv Hhex Hne Hpr Hpr'. rewrite !row_hash_input by done.
  intros [Heq|?]%hash_collision; [|by right]. left. unfold row_input, is_v2 in *. rewrite Hpr, Hpr' in Heq.
  destruct (Z.leb_spec HASH_VERSION_V2 (ar_version r)); [|lia].
  destruct (Z.leb_spec HASH_VERSION_V2 (ar_version r')).
  - split; [done|]. by eapply preimage_v2_inj.
  - symmetry in Heq. by apply preimage_v1_v2 in Heq.
Qed.

Lemma tamper_evident_aux rows rows' :
  chained ZERO_HASH rows → chained ZERO_HASH rows' → length rows = length rows' →
  head_hash ZERO_HASH rows = head_hash ZERO_HASH rows' →
  Forall is_v2 rows → Forall row_fits rows → Forall row_fits rows' →
  Forall2 same_content rows rows' ∨ logs_collide rows rows'.
Proof.
  revert rows'. induction rows as [|r rows IH] using rev_ind; intros rows' Hc Hc' Hlen Hh Hv Hf Hf'.
  { left. destruct rows'; [constructor|done]. }
  destruct rows' as [|r' rows' _] using rev_ind; [rewrite length_app in Hlen; simpl in Hlen; lia|].
  rewrite !length_app in Hlen. simpl in Hlen.
  apply chained_app in Hc as [Hc [[Hp Ht] _]]. apply chained_app in Hc' as [Hc' [[Hp' Ht'] _]].
  apply Forall_app in Hv as [Hv Hvr]. apply Forall_app in Hf as [Hf Hfr].
  apply Forall_app in Hf' as [Hf' Hfr']. rewrite Forall_singleton in Hvr, Hfr, Hfr'.
  unfold head_hash in Hh. rewrite !last_snoc in Hh. simpl in Hh. rewrite Ht, Ht' in Hh.
  destruct (head_hash_hex _ Hc') as [Hhex Hhlen].
  assert (head_hash ZERO_HASH rows' ≠ "") as Hne by (intros He; by rewrite He in Hhlen).
  destruct (row_hash_inj _ _ _ _ (head_hash_fits _ Hc) (head_hash_fits _ Hc') Hfr Hfr' Hvr Hhex Hne Hp Hp' Hh)
    as [(Hv' & Hprev & Hk & Hts & Hpr & Hco & Hpl)|Hcol].
  2:{ right. exists (length rows), r, r'. split_and!; [by rewrite list_lookup_middle| |done]. by rewrite list_lookup_middle by lia. }
  destruct (IH rows' Hc Hc' ltac:(lia) Hprev Hv Hf Hf') as [HF|?]; [|right; by apply logs_collide_app].
  left. apply Forall2_app; [done|]. constructor; [|constructor].
  repeat split; try done; [congruence|]. rewrite Ht, Ht'. unfold row_hash.
  destruct (Z.leb_spec HASH_VERSION_V2 (ar_version r)), (Z.leb_spec HASH_VERSION_V2 (ar_version r'));
    unfold is_v2 in *; try lia. congruence.
Qed.
End Tamper.

(** * Queries *)

Section QueryFacts.
Context {E : Env}.

(** What a filter asks of a row; timestamps are compared as text, bytewise. *)
Definition matches (f : AuditFilters) (r : AuditRow) : Prop :=
  (∀ p, f_profile f = Some p → ar_profile r = Some p) ∧
  (∀ k, f_kind f = Some k → ar_kind r = k) ∧
  (∀ t, f_since f = Some t → String.le (ts_format t) (ar_ts r)) ∧
  (∀ t, f_until f = Some t → ¬ String.le (ts_format t) (ar_ts r)).

Lemma string_ltb_le s t : String.ltb s t = true ↔ ¬ String.le t s.
Proof.
  unfold String.le, String.leb, String.ltb. rewrite (String.compare_antisym t s).
  destruct (String.compare s t); simpl; (split; [by intros ? []|]); intros H; try done; by destruct H.
Qed.

Lemma row_selected_spec f r : row_selected f r = true ↔ matches f r.
Proof.
  assert (∀ P Q R S P' Q' R' S' : Prop, (P ↔ P') → (Q ↔ Q') → (R ↔ R') → (S ↔ S') →
    (((P ∧ Q) ∧ R) ∧ S ↔ P' ∧ Q' ∧ R' ∧ S')) as Hcong by tauto.
  unfold row_selected, matches. rewrite !andb_true_iff. apply Hcong.
  - destruct (f_profile f); [rewrite bool_decide_eq_true|]; naive_solver.
  - destruct (f_kind f); [rewrite bool_decide_eq_true|]; naive_solver.
  - destruct (f_since f) as [t|]; [|naive_solver]. unfold String.le.
    split; [intros H t' [= <-]; by rewrite H|]. intros H. specialize (H t eq_refl).
    by destruct (String.leb _ _).
  - destruct (f_until f) as [t|]; [|naive_solver]. rewrite string_ltb_le. naive_solver.
Qed.

Definition newer (a b : AuditRow) : Prop := (ar_seq b < ar_seq a)%Z.

Lemma seqZ_strongly_sorted (rows : list AuditRow) k :
  ar_seq <$> rows = seqZ k (Z.of_nat (length rows)) → StronglySorted (flip newer) rows.
Proof.
  revert k. induction rows as [|r rows IH]; intros k H; [constructor|].
  simpl in H. rewrite Nat2Z.inj_succ, seqZ_cons in H by lia. rewrite Z.pred_succ in H.
  injection H as Hr H. constructor; [by eapply IH|]. apply Forall_forall. intros r' Hin.
  unfold flip, newer. apply (list_elem_of_fmap_2 ar_seq) in Hin.
  rewrite (H : ar_seq <$> rows = seqZ (Z.succ k) (Z.of_nat (length rows))) in Hin.
  apply elem_of_seqZ in Hin. lia.
Qed.

Lemma StronglySorted_reverse {A} (R : relation A) l :
  StronglySorted (flip R) l → StronglySorted R (reverse l).
Proof.
  induction 1 as [|x l Hl IH HF]; [constructor|]. rewrite reverse_cons.
  apply StronglySorted_app_2; [|done|repeat constructor].
  intros y z Hy ->%list_elem_of_singleton. rewrite elem_of_reverse in Hy.
  rewrite Forall_forall in HF. by apply HF.
Qed.

Lemma StronglySorted_filter {A} (R : relation A) (P : A → Prop) `{∀ x, Decision (P x)} l :
  StronglySorted R l → StronglySorted R (filter P l).
Proof.
  induction 1 as [|x l Hl IH HF]; [constructor|]. rewrite filter_cons. case_decide; [|done].
  constructor; [done|]. apply Forall_forall. intros y [_ Hy]%list_elem_of_filter.
  rewrite Forall_forall in HF. by apply HF.
Qed.
End QueryFacts.

(** * Theorems *)

Section Theorems.
Context {E : Env}.

(** A log in this shape verifies from any starting seq. *)
Lemma audit_inv_verifies since w :
  audit_inv w → vr_broken_at (verify_rows since (w_audit w)) = None.
Proof.
  intros (Hc & Hs & _). unfold verify_rows. set (start := unwrap_or 1%Z since).
  rewrite (filter_from_seq _ 1) by done.
  enough (chained (start_hash start (w_audit w)) (drop (Z.to_nat (start - 1)) (w_audit w))) as Hd.
  { apply (verify_loop_none _ None) in Hd. by destruct (verify_loop _ _ _) as [? [?|]]. }
  destruct (decide (start - 1 ≤ Z.of_nat (length (w_audit w))))%Z as [Hle|Hgt].
  - rewrite start_hash_head by done.
    rewrite <-(take_drop (Z.to_nat (start - 1)) (w_audit w)) in Hc. by apply chained_app in Hc as [_ ?].
  - rewrite drop_ge by lia. done.
Qed.

(** The bytes hashed for a row determine the row: no two combinations of
    previous hash, kind, timestamp, profile, container and payload are fed to
    SHA-256 as the same bytes (lengths below 2^64, as [u64] holds them). *)
Theorem hash_encoding_unambiguous p1 k1 t1 pr1 c1 pl1 p2 k2 t2 pr2 c2 pl2 :
  fits_u64 p1 → fits_u64 p2 →
  fields_fit k1 t1 pr1 c1 pl1 → fields_fit k2 t2 pr2 c2 pl2 →
  preimage_v2 p1 k1 t1 pr1 c1 pl1 = preimage_v2 p2 k2 t2 pr2 c2 pl2 →
  p1 = p2 ∧ k1 = k2 ∧ t1 = t2 ∧ pr1 = pr2 ∧ c1 = c2 ∧ pl1 = pl2.
Proof. apply preimage_v2_inj. Qed.

(** C1: Tamper evidence. Take a log written by [append] and any other log of
    the same length that also verifies from the zero hash and ends in the same
    hash, whatever its rows claim as their hash version. Either both hold the
    same kind, timestamp, profile, container, payload and hashes row by row,
    or at some place the two rows themselves are a collision: the bytes hashed for
    the one and for the other differ and have the same SHA-256. *)
Theorem tamper_evident (L : EnvLaws E) rows rows' :
  (verify_loop ZERO_HASH None rows).2 = None → (verify_loop ZERO_HASH None rows').2 = None →
  length rows = length rows' → head_hash ZERO_HASH rows = head_hash ZERO_HASH rows' →
  Forall is_v2 rows → Forall row_fits rows → Forall row_fits rows' →
  Forall2 same_content rows rows' ∨ logs_collide rows rows'.
Proof. rewrite !verify_loop_none. intros. by apply tamper_evident_aux. Qed.

(** What [verify_chain] reports: the number of rows scanned, and either no
    break, exactly when every scanned row links to its predecessor, or the seq
    of the first row that does not, with the last good seq before it. *)
Theorem verify_reports_first_break since rows :
  let start := unwrap_or 1%Z since in
  let scanned := filter (λ r, (start ≤ ar_seq r)%Z) rows in
  let report := verify_rows since rows in
  vr_total report = Z.of_nat (length scanned) ∧
  match vr_broken_at report with
  | None => chained (start_hash start rows) scanned ∧ vr_last_seq report = ar_seq <$> last scanned
  | Some seq => ∃ good r rest, scanned = good ++ r :: rest ∧
      chained (start_hash start rows) good ∧ ¬ linked (head_hash (start_hash start rows) good) r ∧
      seq = ar_seq r ∧ vr_last_seq report = ar_seq <$> last good
  end.
Proof.
  intros start scanned report. subst report. unfold verify_rows.
  change (filter _ rows) with scanned. change (unwrap_or 1%Z since) with start.
  pose proof (verify_loop_spec (start_hash start rows) None scanned) as H.
  destruct (verify_loop _ _ scanned) as [ls [seq|]]; simpl; split; try done.
  - destruct H as (good & r & rest & H1 & H2 & H3 & H4 & ->).
    exists good, r, rest. repeat split; try done. by destruct (last good).
  - destruct H as [? ->]. split; [done|]. by destruct (last scanned).
Qed.

(** C9: Appending never breaks the log. Every append, successful or failing at
    any statement of its transaction, keeps the rows already written, and from
    the empty table on the log stays numbered and verifies: the whole chain and
    every verification that starts at a later seq report no break. *)
Theorem append_keeps_log_verifiable kind profile container p since w :
  audit_inv w →
  let w' := (append kind profile container p w).2 in
  w_audit w `prefix_of` w_audit w' ∧ audit_inv w' ∧
  vr_broken_at (verify_rows since (w_audit w')) = None.
Proof.
  intros Hinv w'. pose proof (audit_inv_append kind profile container p w Hinv) as Hinv'.
  change (audit_inv w') in Hinv'. split; [|split; [done|]].
  - subst w'. destruct (append kind profile container p w) as [r w1] eqn:H. apply append_spec in H.
    simpl. destruct r as [e|e]; [destruct H as ([-> _] & _)|destruct H as (_ & [-> _] & _)]; by eexists.
  - by apply audit_inv_verifies.
Qed.

(** [query] answers with matching rows only, newest first, at most [limit]
    of them, and what it leaves out is either not matching or older than
    everything returned. *)
Theorem query_newest_first f w :
  audit_inv w →
  let out := query_rows f (w_audit w) in
  (∀ r, r ∈ out → r ∈ w_audit w ∧ matches f r) ∧
  StronglySorted newer out ∧
  (∀ n, f_limit f = Some n → (0 ≤ n)%Z → (Z.of_nat (length out) ≤ n)%Z) ∧
  (∀ r, r ∈ w_audit w → matches f r → r ∈ out ∨ ∀ r', r' ∈ out → newer r' r).
Proof.
  intros (_ & Hs & _) out. set (hits := filter (λ r, row_selected f r) (reverse (w_audit w))).
  assert (∃ n, out = take n hits ∧ ∀ l, f_limit f = Some l → n = Z.to_nat l) as (n & Ho & Hn).
  { unfold out, query_rows. fold hits. destruct (f_limit f) as [l|].
    - exists (Z.to_nat l). naive_solver.
    - exists (length hits). rewrite take_ge by done. done. }
  assert (StronglySorted newer hits) as Hsort.
  { apply StronglySorted_filter, StronglySorted_reverse. by eapply seqZ_strongly_sorted. }
  assert (∀ r, r ∈ hits ↔ r ∈ w_audit w ∧ matches f r) as Hin.
  { intros r. unfold hits. rewrite list_elem_of_filter, elem_of_reverse, <-row_selected_spec.
    destruct (row_selected f r); naive_solver. }
  rewrite <-(take_drop n hits) in Hsort. apply StronglySorted_app in Hsort as (Hcross & Hl & _).
  rewrite Ho. split; [|split; [done|split]].
  - intros r Hr. apply Hin. rewrite <-(take_drop n hits). set_solver.
  - intros l Hlim Hl0. rewrite length_take, (Hn l Hlim). lia.
  - intros r Hr Hm. assert (r ∈ take n hits ++ drop n hits) as Hr' by (rewrite take_drop; by apply Hin).
    apply elem_of_app in Hr' as [?|Hd]; [by left|]. right. intros r' Hr'. by apply Hcross.
Qed.

(** Write then read. An entry [append] returned is what [query] for its
    kind, limited to one, gives back: same seq, timestamp, columns, payload
    and hashes, provided JSON text and timestamps read back as written. *)
Theorem append_query_roundtrip kind profile container p w e w1 :
  ts_parse (ts_format (clock (w_ticks w))) = inl (clock (w_ticks w)) → json_from_str (json_to_string p) = Some p →
  append kind profile container p w = (Ok e, w1) → db_fault (w_stmts w1) = false →
  (query {| f_profile := None; f_kind := Some (kind_as_str kind); f_since := None;
            f_until := None; f_limit := Some 1%Z |} w1).1 = Ok [e].
Proof.
  intros Hts Hjs Happ Hf.
  assert (e = {| ae_seq := w_audit_seq w + 1; ae_ts := clock (w_ticks w); ae_kind := kind_as_str kind;
                 ae_profile := profile; ae_container := container; ae_payload := p;
                 ae_prev := head_hash ZERO_HASH (w_audit w);
                 ae_this := ar_this (new_row w kind profile container p) |}) as ->.
  { unfold append, stmt, now in Happ. unfold mbind, M_bind, mret, M_ret, gets, throw, modify in Happ.
    simpl in Happ. repeat (case_match; simplify_eq/=). done. }
  apply append_spec in Happ as ([Ha _] & _). unfold query, stmt.
  unfold mbind, M_bind, mret, M_ret, gets, throw. rewrite Hf. simpl. rewrite Ha.
  unfold query_rows. rewrite reverse_snoc, filter_cons, decide_True.
  - simpl. unfold decode_row. simpl. by rewrite Hts, Hjs.
  - unfold row_selected. simpl. by rewrite bool_decide_eq_true_2.
Qed.
End Theorems.

(** * Examples *)

Definition example_world (E : Env) : World :=
  (append (E := E) ApprovalGranted (Some "agent") None JNull
     (append (E := E) ProfileApplied None (Some "c1") JNull empty_world).2).2.

Lemma example_world_inv (E : Env) : audit_inv (example_world E).
Proof. unfold example_world. apply audit_inv_append, audit_inv_append, audit_inv_empty. Qed.

Lemma hash_encoding_unambiguous_witness :
  preimage_v2 ZERO_HASH "k" "t" None (Some "c") "p" = preimage_v2 ZERO_HASH "k" "t" None (Some "c") "p" ∧
  Some "c" = Some "c".
Proof.
  split; [reflexivity|].
  edestruct (hash_encoding_unambiguous ZERO_HASH "k" "t" None (Some "c") "p" ZERO_HASH "k" "t" None (Some "c") "p")
    as (_ & _ & _ & _ & Hc & _); [..|reflexivity|exact Hc];
    apply (bool_decide_unpack _); vm_compute; exact I.
Defined.

Lemma tamper_evident_witness :
  let rows := w_audit (example_world toy_env) in
  Forall2 same_content rows rows ∨ logs_collide (E := toy_env) rows rows.
Proof.
  intros rows. apply (tamper_evident (E := toy_env) (toy_env_laws _ _)); [vm_compute; reflexivity..| | |];
    apply (bool_decide_unpack _); vm_compute; exact I.
Defined.

Lemma append_keeps_log_verifiable_witness :
  vr_broken_at (verify_rows (E := toy_env) (Some 2%Z) (w_audit (example_world toy_env))) = None.
Proof.
  apply (append_keeps_log_verifiable (E := toy_env) ApprovalGranted (Some "agent") None JNull (Some 2%Z)
           (append (E := toy_env) ProfileApplied None (Some "c1") JNull empty_world).2).
  apply audit_inv_append, audit_inv_empty.
Defined.

Lemma query_newest_first_witness :
  StronglySorted newer
    (query_rows (E := toy_env) {| f_profile := None; f_kind := None; f_since := None; f_until := None;
                   f_limit := Some 1%Z |} (w_audit (example_world toy_env))).
Proof.
  apply (query_newest_first (E := toy_env) {| f_profile := None; f_kind := None; f_since := None;
    f_until := None; f_limit := Some 1%Z |} (example_world toy_env)).
  apply example_world_inv.
Defined.

Lemma append_query_roundtrip_witness :
  let '(r, w1) := append (E := toy_env) ProfileApplied (Some "agent") None JNull empty_world in
  match r with
  | Ok e => (query (E := toy_env) {| f_profile := None; f_kind := Some (kind_as_str ProfileApplied);
               f_since := None; f_until := None; f_limit := Some 1%Z |} w1).1 = Ok [e]
  | Err _ => False
  end.
Proof.
  destruct (append (E := toy_env) ProfileApplied (Some "agent") None JNull empty_world) as [r w1] eqn:H.
  destruct r as [e|e].
  - apply (append_query_roundtrip (E := toy_env) ProfileApplied (Some "agent") None JNull empty_world e w1);
      [vm_compute; reflexivity..|exact H|reflexivity].
  - vm_compute in H. discriminate H.
Defined.
