(* ===== verification/Logging.v ===== *)
(** Writing to the audit log through the [AuditSink] trait.

    [LogSafe] is what every operation of the daemon owes the log: whatever it
    does, it only adds rows at the end and keeps the chain valid. It is a class
    over the operations of the [D] monad, with instances for the monad's
    combinators and for [append], so that it is derived for a whole handler by
    instance search. [AuditSink] is the trait of [audit_sink.rs], with the law its
    clients rely on; [SandboxSink] is [mcp_audit.rs]'s implementation, which runs
    the [audit_filter] plugins before it appends. *)
From S2P Require Import Prelude Json Common Plugin Database AuditKinds AuditLog.

(** * Operations that respect the log *)

Section LogSafe.
Context {E : Env}.

Definition log_extends (w w' : World) : Prop :=
  w_audit w `prefix_of` w_audit w' ∧ (audit_inv w → audit_inv w').

Notation "w ⊑ₗ w'" := (log_extends w w') (at level 70) : linpodx_scope.
#[local] Open Scope linpodx_scope.

#[export] Instance log_extends_preorder : PreOrder log_extends.
Proof.
  split; [by intros w|]. intros w1 w2 w3 [? ?] [? ?]. split; [by etrans|auto].
Qed.

Class LogSafe {A} (c : D A) : Prop := log_safe w : w ⊑ₗ (c w).2.

(** A change of the world that leaves the audit table alone. *)
Class KeepsLog (f : World → World) : Prop :=
  keeps_log w : w_audit (f w) = w_audit w ∧ w_audit_seq (f w) = w_audit_seq w.

Lemma keeps_log_extends f w : KeepsLog f → w ⊑ₗ f w.
Proof.
  intros Hf. destruct (Hf w) as [Ha Hs]. unfold log_extends, audit_inv. by rewrite Ha, Hs.
Qed.

(** What it buys: a valid log only grows, and still verifies. *)
Lemma log_extends_valid w w' from :
  log_extends w w' → audit_inv w →
  w_audit w `prefix_of` w_audit w' ∧ audit_inv w' ∧ vr_broken_at (verify_rows from (w_audit w')) = None.
Proof. intros [Hp Hi] Hw. split; [done|]. split; [by apply Hi|]. by apply audit_inv_verifies, Hi. Qed.

#[export] Instance log_safe_ret {A} (a : A) : LogSafe (mret a).
Proof. by intros w. Qed.
#[export] Instance log_safe_throw {A} (e : Fault) : LogSafe (throw e : D A).
Proof. by intros w. Qed.
#[export] Instance log_safe_gets {A} (f : World → A) : LogSafe (gets f).
Proof. by intros w. Qed.
#[export] Instance log_safe_modify f : KeepsLog f → LogSafe (modify f).
Proof. intros Hf w. by apply keeps_log_extends. Qed.
#[export] Instance log_safe_bind {A B} (c : D A) (k : A → D B) :
  LogSafe c → (∀ a, LogSafe (k a)) → LogSafe (c ≫= k).
Proof.
  intros Hc Hk w. unfold mbind, M_bind. specialize (Hc w).
  destruct (c w) as [[a|e] w']; simpl in *; [|done]. etrans; [done|apply Hk].
Qed.
#[export] Instance log_safe_attempt {A} (c : D A) : LogSafe c → LogSafe (attempt c).
Proof.
  intros Hc w. unfold attempt. specialize (Hc w). by destruct (c w) as [[a|[]] w'].
Qed.
#[export] Instance log_safe_lift {A} (r : Result Error A) : LogSafe (lift r).
Proof. by destruct r. Qed.
#[export] Instance log_safe_for_each {A} (body : A → D unit) l :
  (∀ a, LogSafe (body a)) → LogSafe (for_each body l).
Proof. intros Hb. induction l; apply _. Qed.

#[export] Instance keeps_log_tick : KeepsLog tick. Proof. done. Qed.
#[export] Instance keeps_log_stmts : KeepsLog bump_stmts. Proof. done. Qed.
#[export] Instance keeps_log_tasks : KeepsLog bump_tasks. Proof. done. Qed.
#[export] Instance keeps_log_event e : KeepsLog (push_event e). Proof. done. Qed.
#[export] Instance keeps_log_requests : KeepsLog bump_requests. Proof. done. Qed.
#[export] Instance keeps_log_profiles m : KeepsLog (set_profiles m). Proof. done. Qed.
#[export] Instance keeps_log_policies r n : KeepsLog (set_policies r n). Proof. done. Qed.
#[export] Instance keeps_log_mcp_requests : KeepsLog bump_mcp_requests. Proof. done. Qed.
#[export] Instance keeps_log_plugins r : KeepsLog (set_plugins r). Proof. done. Qed.
#[export] Instance keeps_log_sec c : KeepsLog (set_sec c). Proof. done. Qed.
#[export] Instance keeps_log_cache m : KeepsLog (set_cache m). Proof. done. Qed.
#[export] Instance keeps_log_policy_store r : KeepsLog (set_policy_store r). Proof. done. Qed.

#[export] Instance log_safe_now : LogSafe now.
Proof. intros w. apply (keeps_log_extends tick w _). Qed.
#[export] Instance log_safe_stmt : LogSafe stmt.
Proof. intros w. unfold stmt. case_match; apply (keeps_log_extends bump_stmts w _). Qed.
#[export] Instance log_safe_publish t k id d : LogSafe (publish t k id d).
Proof. unfold publish. apply _. Qed.
#[export] Instance log_safe_spawn_blocking {A} (a : A) : LogSafe (spawn_blocking a).
Proof. intros w. apply (keeps_log_extends bump_tasks w _). Qed.
#[export] Instance log_safe_with_registry {A} (f : list LoadedPlugin → A * list LoadedPlugin) :
  LogSafe (with_registry f).
Proof.
  intros w. unfold with_registry. case_match; [by split|]. destruct (f (w_registry w)). by split.
Qed.
#[export] Instance log_safe_append kind profile container p : LogSafe (append kind profile container p).
Proof.
  intros w. split; [|apply audit_inv_append].
  destruct (append kind profile container p w) as [r w'] eqn:H. apply append_spec in H. simpl.
  destruct r as [e|e]; [destruct H as ([-> _] & _)|destruct H as (_ & [-> _] & _)]; by eexists.
Qed.
End LogSafe.

#[export] Hint Resolve log_extends_valid log_safe : linpodx.

(** Instance search goes by the name of an operation, never by its body: the
    instance of a composite operation is proved by unfolding it once. *)
#[global] Typeclasses Opaque now stmt publish append attempt lift with_registry spawn_blocking
  for_each gets modify throw.

(** * audit_sink.rs: the trait *)

(** [record] has no result: its errors are logged and swallowed, so the only way
    for it not to return is a panic. *)
Class AuditSink := {
  record : AuditSinkKind → option string → option string → Value → D unit;
}.

Class AuditSinkLaws {E : Env} (S : AuditSink) : Prop := {
  record_log_safe kind profile container p :: LogSafe (record kind profile container p);
  record_never_fails kind profile container p w e :
    (record kind profile container p w).1 ≠ Err (Fail e);
}.

Definition NoopAuditSink : AuditSink := {| record := λ _ _ _ _, mret tt |}.
#[export] Instance NoopAuditSink_laws {E : Env} : AuditSinkLaws NoopAuditSink.
Proof. split; [apply _|done]. Qed.

(** The sink leaves a part of the state alone. *)
Class SinkKeeps {A} (f : World → A) (S : AuditSink) : Prop :=
  record_keeps kind profile container p w : f (record kind profile container p w).2 = f w.
#[export] Instance NoopAuditSink_keeps {A} (f : World → A) : SinkKeeps f NoopAuditSink.
Proof. done. Qed.

(** * mcp_audit.rs: the implementation *)

Section SandboxSink.
Context {E : Env} {W : Wasm}.

Definition payload_preview (v : Value) : D Value :=
  let s := json_to_string v in
  if String.length s <=? 256 then mret v
  else match slice_to s 256 with
       | Some t => mret (JString (t +:+ "…(truncated)"))
       | None => throw (Panic "byte index 256 is not a char boundary")
       end.

(** [wired] says that a plugin registry was given ([new_with_plugins]). *)
Definition run_audit_filter_chain (wired : bool) (kind : AuditSinkKind) (mapped : AuditKind)
    (p : Value) (bypass : bool) : D (AuditKind * Value) :=
  if bypass then mret (mapped, p)
  else if negb wired then mret (mapped, p)
  else
    joined ← with_registry (λ ps, registry_audit_filter ps (json_to_string p));
    match joined with
    | None => mret (mapped, p)
    | Some res =>
        match outcome res with
        | Drop =>
            preview ← payload_preview p;
            mret (AuditFiltered,
                  JObject [("filtered_kind", JString (sink_kind_as_str kind));
                           ("original_payload_preview", preview);
                           ("steps", jstrs ((steps res).*1))])
        | Transform _ | Forward =>
            mret (mapped, unwrap_or p (json_from_str (chain_payload res)))
        end
    end.

Definition is_filter_meta (kind : AuditSinkKind) : bool :=
  match kind with SinkAuditFiltered | SinkProfileValidatorRejected => true | _ => false end.

Definition sandbox_record (wired : bool) (kind : AuditSinkKind) (profile container : option string)
    (p : Value) : D unit :=
  '(effective_kind, effective_payload) ←
    run_audit_filter_chain wired kind (map_kind kind) p (is_filter_meta kind);
  _ ← attempt (append effective_kind profile container effective_payload);
  mret tt.

Definition SandboxAuditSink (wired : bool) : AuditSink := {| record := sandbox_record wired |}.

#[export] Instance log_safe_preview v : LogSafe (payload_preview v).
Proof. unfold payload_preview. repeat case_match; apply _. Qed.
#[export] Instance log_safe_chain wired kind mapped p bypass :
  LogSafe (run_audit_filter_chain wired kind mapped p bypass).
Proof.
  unfold run_audit_filter_chain. repeat (case_match; try apply _).
  apply log_safe_bind; [apply _|]. intros [res|]; [|apply _]. case_match; apply _.
Qed.

#[export] Instance SandboxAuditSink_laws wired : AuditSinkLaws (SandboxAuditSink wired).
Proof.
  split.
  - intros kind profile container p. simpl. unfold sandbox_record.
    apply log_safe_bind; [apply _|]. intros [k q]. apply _.
  - intros kind profile container p w e. simpl. unfold sandbox_record, run_audit_filter_chain.
    unfold attempt, payload_preview, with_registry. unfold mbind, M_bind, mret, M_ret, throw.
    repeat (case_match; simplify_eq/=; try done).
Qed.

Lemma sandbox_record_frame wired kind profile container p w :
  let w' := (sandbox_record wired kind profile container p w).2 in
  w_plugins w' = w_plugins w ∧ w_sec w' = w_sec w.
Proof.
  unfold sandbox_record, mbind, M_bind.
  assert (∀ b, let w' := (run_audit_filter_chain wired kind (map_kind kind) p b w).2 in
               w_plugins w' = w_plugins w ∧ w_sec w' = w_sec w) as Hc.
  { intros b. unfold run_audit_filter_chain, with_registry, payload_preview, mbind, M_bind, mret, M_ret, throw.
    repeat (case_match; simplify_eq/=; try done). }
  specialize (Hc (is_filter_meta kind)). destruct (run_audit_filter_chain _ _ _ _ _ w) as [[[k q]|e] w1]; simpl in *; [|done].
  unfold attempt. destruct (append k profile container q w1) as [r w2] eqn:Ha. apply append_spec in Ha.
  destruct Hc, r as [e|e].
  - destruct Ha as ((_ & _ & _ & _ & _ & _ & Hp & _ & _ & _ & _ & Hs) & _). simpl. split; congruence.
  - destruct Ha as (-> & (_ & _ & _ & _ & _ & _ & Hp & _ & _ & _ & _ & Hs) & _). simpl. split; congruence.
Qed.
#[export] Instance SandboxAuditSink_keeps_plugins wired : SinkKeeps w_plugins (SandboxAuditSink wired).
Proof. intros kind profile container p w. apply sandbox_record_frame. Qed.
#[export] Instance SandboxAuditSink_keeps_sec wired : SinkKeeps w_sec (SandboxAuditSink wired).
Proof. intros kind profile container p w. apply sandbox_record_frame. Qed.
End SandboxSink.

(** * Theorems *)

Section SinkTheorems.
Context {E : Env} {W : Wasm}.

(** The chain changes nothing but the plugins, and what it hands on is either the
    entry (its payload possibly rewritten) or a note of what was dropped. *)
Lemma chain_result wired kind p bypass w r w1 :
  run_audit_filter_chain wired kind (map_kind kind) p bypass w = (r, w1) →
  w_audit w1 = w_audit w ∧
  match r with
  | Ok (k, q) =>
      (k = map_kind kind ∨ k = AuditFiltered ∧ get q "filtered_kind" = Some (JString (sink_kind_as_str kind))) ∧
      (bypass = true ∨ wired = false → k = map_kind kind ∧ q = p)
  | Err _ => True
  end.
Proof.
  unfold run_audit_filter_chain, with_registry, payload_preview.
  unfold mbind, M_bind, mret, M_ret, throw. intros H.
  repeat (case_match; simplify_eq/=; try naive_solver).
Qed.

(** One audit entry per [record] call. A call that returns has either been
    refused by the database or added exactly one row, for the same profile and
    container; an [audit_filter] plugin can rewrite the payload, or replace the
    row by an [audit_filtered] one that names the dropped kind, but not more; and
    the filters never touch their own meta entries or a sink without plugins. *)
Theorem sink_writes_one_row wired kind profile container p w w' :
  sandbox_record wired kind profile container p w = (Ok tt, w') →
  ∃ k q w1, w_audit w1 = w_audit w ∧
    (k = map_kind kind ∨ k = AuditFiltered ∧ get q "filtered_kind" = Some (JString (sink_kind_as_str kind))) ∧
    (is_filter_meta kind = true ∨ wired = false → k = map_kind kind ∧ q = p) ∧
    match append k profile container q w1 with
    | (Ok _, _) => w_audit w' = w_audit w ++ [new_row w1 k profile container q]
    | (Err e, _) => e = Fail Sqlx ∧ w_audit w' = w_audit w
    end.
Proof.
  unfold sandbox_record. unfold mbind, M_bind, mret, M_ret, attempt.
  destruct (run_audit_filter_chain _ _ _ _ _ w) as [[[k q]|e] w1] eqn:Hc; [|done].
  apply chain_result in Hc as (Ha & Hk & Hm). intros H. exists k, q, w1.
  split; [done|]. split; [done|]. split; [done|].
  destruct (append k profile container q w1) as [r w2] eqn:Happ. apply append_spec in Happ.
  destruct r as [e|e].
  - destruct Happ as ([Hw _] & _). simplify_eq/=. by rewrite Hw, Ha.
  - destruct Happ as (-> & [Hw _] & _). simplify_eq/=. by rewrite Hw, app_nil_r, Ha.
Qed.

(** When a filter drops an entry and the preview of its payload cuts a character
    in two. *)
Definition preview_panics (wired : bool) (kind : AuditSinkKind) (p : Value) (w : World) : bool :=
  wired && negb (is_filter_meta kind) && negb (task_fault (w_tasks w))
  && bool_decide (outcome (registry_audit_filter (w_registry w) (json_to_string p)).1 = Drop)
  && (256 <? String.length (json_to_string p)) && negb (is_char_boundary (json_to_string p) 256).

Lemma chain_panics wired kind mapped p w :
  let res := run_audit_filter_chain wired kind mapped p (is_filter_meta kind) w in
  if preview_panics wired kind p w
  then res.1 = Err (Panic "byte index 256 is not a char boundary") ∧ w_audit res.2 = w_audit w
  else ∃ kq, res.1 = Ok kq.
Proof.
  intros res. subst res. unfold run_audit_filter_chain, with_registry, payload_preview, preview_panics, slice_to.
  unfold mbind, M_bind, mret, M_ret, throw. rewrite Nat.leb_antisym.
  generalize (256 <? String.length (json_to_string p)) (is_char_boundary (json_to_string p) 256).
  intros long whole.
  destruct (is_filter_meta kind), wired; try (by eexists).
  cbv beta iota delta [negb]. destruct (task_fault (w_tasks w)); [by eexists|]. destruct (registry_audit_filter _ _) as [res ps]. simpl.
  destruct (outcome res), long, whole; by try eexists.
Qed.

Lemma attempt_append_returns kind profile container p w :
  ∃ r w', attempt (append kind profile container p) w = (Ok r, w').
Proof.
  unfold attempt. destruct (append _ _ _ _ w) as [[e|e] w'] eqn:H; [by eauto|].
  apply append_spec in H as [-> _]. eauto.
Qed.

(** [record] returns, except in one case: a plugin drops the entry and byte
    256 of its JSON text is inside a multi-byte character. Then the preview
    panics and neither the entry nor its [audit_filtered] note is written. *)
Theorem record_panics_exactly_on_split_preview wired kind profile container p w :
  let res := sandbox_record wired kind profile container p w in
  if preview_panics wired kind p w
  then res.1 = Err (Panic "byte index 256 is not a char boundary") ∧ w_audit res.2 = w_audit w
  else res.1 = Ok tt.
Proof.
  intros res. subst res. unfold sandbox_record. unfold mbind, M_bind.
  pose proof (chain_panics wired kind (map_kind kind) p w) as H.
  destruct (run_audit_filter_chain _ _ _ _ _ w) as [r w1]. simpl in H.
  case_match; [by destruct H as [-> ?]|]. destruct H as [[k q] ->].
  by destruct (attempt_append_returns k profile container q w1) as (? & ? & ->).
Qed.
End SinkTheorems.

(** * Examples *)

(** A plugin that drops every entry, and an entry whose text has a two-byte
    character at bytes 255 and 256. *)
Definition drop_all : LoadedPlugin :=
  {| lp_name := "drop-all"; lp_version := "1"; lp_hooks := ["audit_filter"]; lp_has := λ _, true;
     lp_store := host_state_new "drop-all"; lp_instance := example_guest;
     lp_entry := λ _, Some (λ g, RCall (HostReturnFilterDecision 1 0 0) g (λ _ g', RReturn g')) |}.
Definition split_payload : Value := JString (String.concat "" (replicate 254 "a") +:+ "é").

Example split_payload_panics :
  (sandbox_record (E := toy_env) (W := example_wasm) true SinkMcpToolCalled None None split_payload
     (set_registry [drop_all] empty_world)).1 = Err (Panic "byte index 256 is not a char boundary").
Proof. vm_compute. reflexivity. Qed.

Lemma sink_writes_one_row_witness :
  ∃ k q w1, w_audit w1 = [] ∧ (k = map_kind SinkMcpToolCalled ∨
    k = AuditFiltered ∧ get q "filtered_kind" = Some (JString (sink_kind_as_str SinkMcpToolCalled))) ∧
    (is_filter_meta SinkMcpToolCalled = true ∨ true = false → k = map_kind SinkMcpToolCalled ∧ q = JNull) ∧
    match append (E := toy_env) k None (Some "c1") q w1 with
    | (Ok _, _) => w_audit (sandbox_record (E := toy_env) (W := example_wasm) true SinkMcpToolCalled None
                     (Some "c1") JNull (set_registry [drop_all] empty_world)).2
                   = [] ++ [new_row (E := toy_env) w1 k None (Some "c1") q]
    | (Err e, _) => e = Fail Sqlx ∧ w_audit (sandbox_record (E := toy_env) (W := example_wasm) true
                     SinkMcpToolCalled None (Some "c1") JNull (set_registry [drop_all] empty_world)).2 = []
    end.
Proof.
  apply (sink_writes_one_row (E := toy_env) (W := example_wasm) true SinkMcpToolCalled None (Some "c1") JNull
           (set_registry [drop_all] empty_world)).
  vm_compute. reflexivity.
Defined.
