(* ===== verification/Embedding.v ===== *)
(** Components that keep state of their own beside the daemon's tables.

    A component's state [S] contains the shared [World] ([HasWorld]); the
    daemon's operations run inside it ([on_world]), and [SafeIn] is [LogSafe] for
    the component's own operations, derived by instance search in the same way. *)
From S2P Require Import Prelude Json Common Database AuditKinds AuditLog Logging.

Class HasWorld (S : Type) := {
  world_of : S → World;
  put_world : World → S → S;
}.
Class HasWorldLaws (S : Type) {H : HasWorld S} : Prop := {
  world_of_put w (s : S) : world_of (put_world w s) = w;
  put_world_of (s : S) : put_world (world_of s) s = s;
}.

#[export] Instance World_HasWorld : HasWorld World := {| world_of := λ w, w; put_world := λ w _, w |}.
#[export] Instance World_HasWorldLaws : HasWorldLaws World.
Proof. by split. Qed.

Section Embedding.
Context {S : Type} {H : HasWorld S}.

Definition on_world {A} (c : D A) : M S Fault A := λ s,
  let '(r, w) := c (world_of s) in (r, put_world w s).

(** Match on the [Result] of a call instead of propagating it with [?]. *)
Definition attempt_in {A} (c : M S Fault A) : M S Fault (Result Error A) := λ s,
  match c s with
  | (Ok a, s') => (Ok (Ok a), s')
  | (Err (Fail e), s') => (Ok (Err e), s')
  | (Err (Panic m), s') => (Err (Panic m), s')
  end.
End Embedding.

(** An entry for the sink and then for the local chain; a failure of the latter is
    only logged. *)
Definition audit_both {S : Type} {H : HasWorld S} {E : Env} {K : AuditSink} (kind : AuditSinkKind) (local : AuditKind)
    (payload : Value) : M S Fault unit :=
  _ ← on_world (record kind None None payload);
  _ ← attempt_in (on_world (append local None None payload));
  mret tt.

(** * Runs by their outcomes

    [wp c s Q]: the run of [c] from [s] ends in a result and a state with [Q]. *)
Definition wp {S E A} (c : M S E A) (s : S) (Q : Result E A → S → Prop) : Prop := Q (c s).1 (c s).2.

Section Wp.
Context {S E : Type}.

Lemma wp_mono {A} (c : M S E A) s (Q Q' : Result E A → S → Prop) : wp c s Q → (∀ r s', Q r s' → Q' r s') → wp c s Q'.
Proof. unfold wp. auto. Qed.
Lemma wp_ret {A} (a : A) s (Q : Result E A → S → Prop) : Q (Ok a) s → wp (mret a) s Q.
Proof. done. Qed.
Lemma wp_throw {A} e s (Q : Result E A → S → Prop) : Q (Err e) s → wp (throw e) s Q.
Proof. done. Qed.
Lemma wp_bind {A B} (c : M S E A) (k : A → M S E B) s Q :
  wp c s (λ r s', match r with Ok a => wp (k a) s' Q | Err e => Q (Err e) s' end) → wp (c ≫= k) s Q.
Proof. unfold wp. cbv [mbind M_bind]. by destruct (c s) as [[a|e] s']. Qed.
Lemma wp_eq {A} (c : M S E A) s Q r s' : wp c s Q → c s = (r, s') → Q r s'.
Proof. unfold wp. intros H Hc. by rewrite Hc in H. Qed.
End Wp.

Section Safety.
Context {E : Env} {S : Type} {H : HasWorld S} {L : HasWorldLaws S}.

Class SafeIn {A} (c : M S Fault A) : Prop := safe_in s : log_extends (world_of s) (world_of (c s).2).

(** A change of the component's state that leaves the tables alone. *)
Class KeepsWorld (f : S → S) : Prop := keeps_world s : world_of (f s) = world_of s.

#[export] Instance safe_in_ret {A} (a : A) : SafeIn (mret a).
Proof. intros s. reflexivity. Qed.
#[export] Instance safe_in_throw {A} (e : Fault) : SafeIn (throw e : M S Fault A).
Proof. intros s. reflexivity. Qed.
#[export] Instance safe_in_gets {A} (f : S → A) : SafeIn (gets f).
Proof. intros s. reflexivity. Qed.
#[export] Instance safe_in_modify f : KeepsWorld f → SafeIn (modify f).
Proof. intros Hf s. simpl. rewrite (Hf s). reflexivity. Qed.
#[export] Instance safe_in_bind {A B} (c : M S Fault A) (k : A → M S Fault B) :
  SafeIn c → (∀ a, SafeIn (k a)) → SafeIn (c ≫= k).
Proof.
  intros Hc Hk s. unfold mbind, M_bind. specialize (Hc s).
  destruct (c s) as [[a|e] s']; simpl in *; [|done]. etrans; [done|apply Hk].
Qed.
#[export] Instance safe_in_on_world {A} (c : D A) : LogSafe c → SafeIn (on_world c).
Proof.
  intros Hc s. unfold on_world. specialize (Hc (world_of s)). destruct (c (world_of s)) as [r w].
  simpl in *. by rewrite world_of_put.
Qed.
#[export] Instance safe_in_attempt {A} (c : M S Fault A) : SafeIn c → SafeIn (attempt_in c).
Proof. intros Hc s. unfold attempt_in. specialize (Hc s). by destruct (c s) as [[a|[]] s']. Qed.
#[export] Instance safe_in_for_each {A} (body : A → M S Fault unit) l :
  (∀ a, SafeIn (body a)) → SafeIn (for_each body l).
Proof. intros Hb. induction l; cbn [for_each]; apply _. Qed.
#[export] Instance safe_in_audit_both {K : AuditSink} {KL : AuditSinkLaws K} kind local p : SafeIn (audit_both kind local p).
Proof. unfold audit_both. apply _. Qed.
End Safety.

#[export] Hint Extern 2 (KeepsWorld _) => (intros ?; reflexivity) : typeclass_instances.
#[export] Hint Resolve safe_in : linpodx.
#[global] Typeclasses Opaque on_world attempt_in audit_both.

(** [SafeIn] of a composite operation: instance search, with the matches of its
    body taken case by case. *)
Ltac solve_safe :=
  repeat first
    [ solve [apply _]
    | match goal with |- SafeIn (match ?x with _ => _ end) => destruct x end
    | apply safe_in_bind; [solve_safe|intros ?] ].
