(* ===== verification/Rpc.v ===== *)
(** The JSON-RPC surface: the envelopes and error codes of
    [linpodx-common/src/ipc.rs] and [Dispatcher::dispatch] of
    [linpodx-daemon/src/dispatch.rs].

    Of the methods, the two subscriptions are told apart from the rest, because
    the servers treat them specially; the handlers of the rest are the interface
    [Handlers] over whatever state they act on. *)
From S2P Require Import Prelude Text Json Common Database Logging Embedding.

(** * Envelopes *)

Inductive RequestId : Type :=
| IdNumber (n : Z)
| IdString (s : string).

#[export] Instance RequestId_eq_dec : EqDecision RequestId.
Proof. solve_decision. Defined.

Record RpcError : Type := {
  re_code : Z;
  re_message : string;
  re_data : option Value;
}.

Inductive ResponsePayload : Type :=
| Success (result : Value)
| RpcFailure (error : RpcError).

Record RpcResponse : Type := {
  rr_id : option RequestId;
  rr_payload : ResponsePayload;
}.

Definition rpc_success (id : option RequestId) (result : Value) : RpcResponse :=
  {| rr_id := id; rr_payload := Success result |}.
Definition rpc_error (id : option RequestId) (e : RpcError) : RpcResponse :=
  {| rr_id := id; rr_payload := RpcFailure e |}.

(** * error_codes *)

Definition PARSE_ERROR : Z := -32700.
Definition INVALID_REQUEST : Z := -32600.
Definition METHOD_NOT_FOUND : Z := -32601.
Definition INVALID_PARAMS : Z := -32602.
Definition INTERNAL_ERROR : Z := -32603.
Definition RUNTIME_ERROR : Z := -32000.
Definition NOT_FOUND : Z := -32001.
Definition INVALID_ARGUMENT : Z := -32002.
Definition PODMAN_UNAVAILABLE : Z := -32003.
Definition PERMISSION_DENIED : Z := -32004.
Definition CONFLICT : Z := -32005.
Definition TIMEOUT : Z := -32006.
Definition UNSUPPORTED : Z := -32007.
Definition UNAVAILABLE : Z := -32008.
Definition INTERNAL : Z := -32009.

Definition code_table : list (Z * string) :=
  [(PARSE_ERROR, "PARSE_ERROR"); (INVALID_REQUEST, "INVALID_REQUEST"); (METHOD_NOT_FOUND, "METHOD_NOT_FOUND");
   (INVALID_PARAMS, "INVALID_PARAMS"); (INTERNAL_ERROR, "INTERNAL_ERROR"); (RUNTIME_ERROR, "RUNTIME_ERROR");
   (NOT_FOUND, "NOT_FOUND"); (INVALID_ARGUMENT, "INVALID_ARGUMENT"); (PODMAN_UNAVAILABLE, "PODMAN_UNAVAILABLE");
   (PERMISSION_DENIED, "PERMISSION_DENIED"); (CONFLICT, "CONFLICT"); (TIMEOUT, "TIMEOUT");
   (UNSUPPORTED, "UNSUPPORTED"); (UNAVAILABLE, "UNAVAILABLE"); (INTERNAL, "INTERNAL")].
Definition code_name (code : Z) : string :=
  match find (λ e, bool_decide (e.1 = code)) code_table with Some e => e.2 | None => "ERROR" end.

(** * error.rs and error_to_code *)

(** [Display for Error]; the texts of foreign errors are the argument. *)
Definition error_to_string (foreign : Error → string) (e : Error) : string :=
  match e with
  | Runtime m => "runtime error: " +:+ m
  | PodmanNotFound s => "podman not found: " +:+ s
  | PodmanVersionMismatch found required =>
      "podman version " +:+ found +:+ " is below minimum required " +:+ required
  | Ipc s => "IPC error: " +:+ s
  | NotFound s => "not found: " +:+ s
  | InvalidArgument s => "invalid argument: " +:+ s
  | PermissionDenied s => "permission denied: " +:+ s
  | Conflict s => "conflict: " +:+ s
  | Timeout s => "timeout: " +:+ s
  | Unsupported s => "unsupported: " +:+ s
  | Unavailable s => "unavailable: " +:+ s
  | Internal s => "internal error: " +:+ s
  | Io | Json | Sqlx | Migrate => foreign e
  end.

Definition error_code (e : Error) : Z :=
  match e with
  | PodmanNotFound _ | PodmanVersionMismatch _ _ => PODMAN_UNAVAILABLE
  | NotFound _ => NOT_FOUND
  | InvalidArgument _ => INVALID_ARGUMENT
  | PermissionDenied _ => PERMISSION_DENIED
  | Conflict _ => CONFLICT
  | Timeout _ => TIMEOUT
  | Unsupported _ => UNSUPPORTED
  | Unavailable _ => UNAVAILABLE
  | Internal _ | Ipc _ | Sqlx | Migrate => INTERNAL
  | Runtime _ | Io | Json => RUNTIME_ERROR
  end.
Definition error_to_code (foreign : Error → string) (e : Error) : Z * string :=
  (error_code e, error_to_string foreign e).

(** * Events *)

#[export] Instance EventTopic_eq_dec : EqDecision EventTopic.
Proof. solve_decision. Defined.

Definition all_topics : list EventTopic :=
  [TContainer; TImage; TVolume; TNetwork; TSandbox; TAudit; TSnapshot; TSession; TMcp; TDistro; TMetrics; TSecret].

Definition topic_as_str (t : EventTopic) : string :=
  match t with
  | TContainer => "container" | TImage => "image" | TVolume => "volume" | TNetwork => "network"
  | TSandbox => "sandbox" | TAudit => "audit" | TSnapshot => "snapshot" | TSession => "session"
  | TMcp => "mcp" | TDistro => "distro" | TMetrics => "metrics" | TSecret => "secret"
  end.

Definition topic_names : list (string * EventTopic) :=
  [("container", TContainer); ("containers", TContainer); ("image", TImage); ("images", TImage);
   ("volume", TVolume); ("volumes", TVolume); ("network", TNetwork); ("networks", TNetwork);
   ("sandbox", TSandbox); ("sandboxes", TSandbox); ("audit", TAudit); ("snapshot", TSnapshot);
   ("snapshots", TSnapshot); ("session", TSession); ("sessions", TSession); ("mcp", TMcp);
   ("distro", TDistro); ("distros", TDistro); ("distribution", TDistro); ("metrics", TMetrics);
   ("metric", TMetrics); ("secret", TSecret); ("secrets", TSecret)].
Definition topic_parse (raw : string) : Result string EventTopic :=
  let s := to_lower (trim raw) in
  match obj_find s topic_names with
  | Some t => Ok t
  | None => Err ("unknown event topic '" +:+ s +:+ "' (expected: container, image, volume, network, sandbox, audit, snapshot, session, mcp, distro, metrics, secret)")
  end.

(** * Dispatch *)

(** The handlers behind the other methods, the JSON of requests and responses
    ([serde_json]), and the texts of foreign errors. *)
Class Handlers (S : Type) := {
  OtherMethod : Type;
  handle_other : OtherMethod → M S Fault Value;
}.
Arguments OtherMethod {S _}.

Inductive Method (S : Type) {H : Handlers S} : Type :=
| Subscribe (topics : list EventTopic)
| ApprovalsSubscribe
| Other (m : OtherMethod).
Arguments Subscribe {S H} topics.
Arguments ApprovalsSubscribe {S H}.
Arguments Other {S H} m.

Record RpcRequest (S : Type) {H : Handlers S} : Type := {
  rq_id : option RequestId;
  rq_method : Method S;
}.
Arguments rq_id {S H} r.
Arguments rq_method {S H} r.

Class RpcCodec (S : Type) {H : Handlers S} := {
  rpc_from_str : string → Result string (RpcRequest S);
  rpc_to_string : RpcResponse → option string;
  foreign_error : Error → string;
}.

Section Dispatch.
Context {S : Type} {HW : HasWorld S} {H : Handlers S} {C : RpcCodec S}.

Definition handle_method (m : Method S) : M S Fault Value :=
  match m with
  | Subscribe _ => throw (Fail (Internal "Subscribe must be handled at the server layer, not dispatch"))
  | ApprovalsSubscribe =>
      throw (Fail (Internal "ApprovalsSubscribe must be handled at the server layer, not dispatch"))
  | Other m => handle_other m
  end.

Definition dispatch (req : RpcRequest S) : M S Fault RpcResponse :=
  r ← attempt_in (handle_method (rq_method req));
  match r with
  | Ok v => mret (rpc_success (rq_id req) v)
  | Err e =>
      let '(code, message) := error_to_code foreign_error e in
      mret (rpc_error (rq_id req) {| re_code := code; re_message := message; re_data := None |})
  end.

(** The answer to a line that is not a request. *)
Definition parse_failure (msg : string) : RpcResponse :=
  rpc_error None {| re_code := PARSE_ERROR; re_message := "parse error: " +:+ msg; re_data := None |}.

(** What the interface owes the log. *)
Class HandlersLaws {E : Env} : Prop := {
  handle_other_safe m :: SafeIn (handle_other m);
}.

#[export] Instance safe_in_dispatch {E : Env} {L : HasWorldLaws S} {HL : HandlersLaws} req : SafeIn (dispatch req).
Proof.
  unfold dispatch. apply safe_in_bind; [|intros []; solve_safe].
  apply safe_in_attempt. unfold handle_method. solve_safe.
Qed.
End Dispatch.
Arguments HandlersLaws S {HW H E}.
#[global] Typeclasses Opaque dispatch.

(** * Theorems *)

(** Dispatch never fails: a handler's result becomes a success and each error a
    failure with the code of its class, under the request's own id; the only
    thing that does not come back as a response is a panic, and the handler's
    effects are all that happens. *)
Theorem dispatch_answers {S} {HW : HasWorld S} {H : Handlers S} {C : RpcCodec S} req s :
  match handle_method (rq_method req) s with
  | (Ok v, s') => dispatch req s = (Ok (rpc_success (rq_id req) v), s')
  | (Err (Fail e), s') =>
      dispatch req s = (Ok (rpc_error (rq_id req)
        {| re_code := error_code e; re_message := error_to_string foreign_error e; re_data := None |}), s')
  | (Err (Panic m), s') => dispatch req s = (Err (Panic m), s')
  end.
Proof.
  unfold dispatch, attempt_in, mbind, M_bind. destruct (handle_method _ s) as [[v|[e|m]] s']; reflexivity.
Qed.

(** The codes are a stable wire contract: every error has a code in the
    server-defined range with a name of its own, two codes of the table never
    share a name, and only the four classes that are not the caller's fault, the
    two podman errors and the three unclassified ones are merged. *)
Theorem error_codes_name_errors e e' :
  (INTERNAL ≤ error_code e ≤ RUNTIME_ERROR)%Z ∧ code_name (error_code e) ≠ "ERROR" ∧
  (error_code e = error_code e' ↔ code_name (error_code e) = code_name (error_code e')) ∧
  NoDup code_table.*1 ∧ NoDup code_table.*2.
Proof.
  split; [|split; [|split; [|split]]].
  - by destruct e.
  - by destruct e.
  - by destruct e, e'.
  - apply (bool_decide_unpack _). vm_compute. exact I.
  - apply (bool_decide_unpack _). vm_compute. exact I.
Qed.

(** Topics survive their text: parsing the name of a topic, in any case and
    with surrounding spaces, gives the topic, and whatever parses is one of the
    twelve. *)
Theorem topic_roundtrip t :
  topic_parse (topic_as_str t) = Ok t ∧ topic_parse (" " +:+ topic_as_str t +:+ " ") = Ok t ∧
  t ∈ all_topics ∧ ∀ raw, topic_parse raw = Ok t → ∃ name, (name, t) ∈ topic_names ∧ to_lower (trim raw) = name.
Proof.
  split; [by destruct t|]. split; [by destruct t|]. split; [destruct t; set_solver|].
  intros raw. unfold topic_parse. destruct (obj_find _ _) as [t'|] eqn:Hf; [|done]. intros [= ->].
  exists (to_lower (trim raw)). split; [|done]. revert Hf. generalize topic_names (to_lower (trim raw)). clear.
  intros l k. induction l as [|[k' v] l IH]; simpl; [done|]. case_decide; [intros [= ->]; subst; left|].
  intros Hf. right. by apply IH.
Qed.
