(* ===== verification/PinStore.v ===== *)
(** Pinned client certificates and trust on first use,
    [linpodx-daemon/src/pin_store.rs] and [dispatch/pin_clients.rs].

    [Remote] is the state the remote listener, the Web UI and the pin handlers
    share ([RemoteState] and the [pinned_clients] table, migration 0015). Its
    mutexes are never poisoned: no section that holds one can panic, so [lock()]
    always succeeds and the sections are single steps. *)
From S2P Require Import Prelude Json Common Database AuditKinds AuditLog Logging Embedding.

(** * Data *)

Record TofuMode : Type := {
  tf_enabled : bool;
  tf_max_enrollments : option Z;
  tf_current_count : Z;
  tf_enabled_at : option Z;
  tf_max_age_secs : option Z;
}.

#[export] Instance TofuMode_eq_dec : EqDecision TofuMode.
Proof. solve_decision. Defined.

(** One row of [pinned_clients], keyed by fingerprint. *)
Record PinRow : Type := {
  pin_fingerprint : string;
  pin_label : string;
  pin_enrolled_at : string;
}.

#[export] Instance PinRow_eq_dec : EqDecision PinRow.
Proof. solve_decision. Defined.

Record PinnedClientSummary : Type := {
  pcs_fingerprint : string;
  pcs_label : string;
  pcs_enrolled_at : Z;
}.

(** [std::net::SocketAddr], with the text of its IP address. *)
Record SocketAddr : Type := {
  sa_v6 : bool;
  sa_ip : string;
  sa_port : N;
}.

#[export] Instance SocketAddr_eq_dec : EqDecision SocketAddr.
Proof. solve_decision. Defined.
#[export] Instance SocketAddr_countable : Countable SocketAddr.
Proof.
  apply (inj_countable' (λ a, (sa_v6 a, sa_ip a, sa_port a))
           (λ t, {| sa_v6 := t.1.1; sa_ip := t.1.2; sa_port := t.2 |})).
  by intros [].
Defined.

Definition addr_to_string (a : SocketAddr) : string :=
  (if sa_v6 a then "[" +:+ sa_ip a +:+ "]" else sa_ip a) +:+ ":" +:+ pretty (sa_port a).

Record MtlsPeerInfo : Type := {
  mp_cn : option string;
  mp_fingerprint : option string;
}.

(** [rm_ptys] has the bridge ids of the allocated [PtyHandle]s. *)
Record Remote : Type := {
  rm_world : World;
  rm_pins : list PinRow;
  rm_tofu : TofuMode;
  rm_peers : gmap SocketAddr MtlsPeerInfo;
  rm_sessions : Z;
  rm_seen : gset string;
  rm_ptys : gset string;
}.

#[export] Instance Remote_HasWorld : HasWorld Remote := {|
  world_of := rm_world;
  put_world := λ w r, {| rm_world := w; rm_pins := rm_pins r; rm_tofu := rm_tofu r; rm_peers := rm_peers r;
    rm_sessions := rm_sessions r; rm_seen := rm_seen r; rm_ptys := rm_ptys r |} |}.
#[export] Instance Remote_HasWorldLaws : HasWorldLaws Remote.
Proof. split; [done|]. by intros []. Qed.

Definition set_pins (l : list PinRow) (r : Remote) : Remote :=
  {| rm_world := rm_world r; rm_pins := l; rm_tofu := rm_tofu r; rm_peers := rm_peers r;
     rm_sessions := rm_sessions r; rm_seen := rm_seen r; rm_ptys := rm_ptys r |}.
Definition set_tofu (m : TofuMode) (r : Remote) : Remote :=
  {| rm_world := rm_world r; rm_pins := rm_pins r; rm_tofu := m; rm_peers := rm_peers r;
     rm_sessions := rm_sessions r; rm_seen := rm_seen r; rm_ptys := rm_ptys r |}.
Definition set_peers (p : gmap SocketAddr MtlsPeerInfo) (r : Remote) : Remote :=
  {| rm_world := rm_world r; rm_pins := rm_pins r; rm_tofu := rm_tofu r; rm_peers := p;
     rm_sessions := rm_sessions r; rm_seen := rm_seen r; rm_ptys := rm_ptys r |}.
Definition set_sessions (n : Z) (r : Remote) : Remote :=
  {| rm_world := rm_world r; rm_pins := rm_pins r; rm_tofu := rm_tofu r; rm_peers := rm_peers r;
     rm_sessions := n; rm_seen := rm_seen r; rm_ptys := rm_ptys r |}.
Definition set_seen (x : gset string) (r : Remote) : Remote :=
  {| rm_world := rm_world r; rm_pins := rm_pins r; rm_tofu := rm_tofu r; rm_peers := rm_peers r;
     rm_sessions := rm_sessions r; rm_seen := x; rm_ptys := rm_ptys r |}.
Definition set_ptys (x : gset string) (r : Remote) : Remote :=
  {| rm_world := rm_world r; rm_pins := rm_pins r; rm_tofu := rm_tofu r; rm_peers := rm_peers r;
     rm_sessions := rm_sessions r; rm_seen := rm_seen r; rm_ptys := x |}.

Abbreviation R := (M Remote Fault).

(** * TofuMode *)

Definition disabled : TofuMode :=
  {| tf_enabled := false; tf_max_enrollments := None; tf_current_count := 0; tf_enabled_at := None;
     tf_max_age_secs := None |}.

Definition should_enroll (m : TofuMode) : bool :=
  if negb (tf_enabled m) then false
  else match tf_max_enrollments m with
       | Some max => bool_decide (tf_current_count m < max)%Z
       | None => true
       end.

Definition should_enroll_at (m : TofuMode) (now_secs : Z) : bool :=
  if negb (should_enroll m) then false
  else match tf_max_age_secs m with
       | None => true
       | Some max_age =>
           match tf_enabled_at m with
           | None => false
           | Some enabled_at =>
               let elapsed := i64_saturating_sub now_secs enabled_at in
               if bool_decide (elapsed < 0)%Z then true else bool_decide (elapsed ≤ max_age)%Z
           end
       end.

Definition is_expired_at (m : TofuMode) (now_secs : Z) : bool :=
  if negb (tf_enabled m) then false
  else match tf_max_age_secs m with
       | None => false
       | Some max_age =>
           match tf_enabled_at m with
           | None => true
           | Some enabled_at =>
               let elapsed := i64_saturating_sub now_secs enabled_at in
               if bool_decide (elapsed < 0)%Z then false else bool_decide (max_age < elapsed)%Z
           end
       end.

Definition record_enrollment (m : TofuMode) : TofuMode :=
  {| tf_enabled := tf_enabled m; tf_max_enrollments := tf_max_enrollments m;
     tf_current_count := u32_saturating_add (tf_current_count m) 1; tf_enabled_at := tf_enabled_at m;
     tf_max_age_secs := tf_max_age_secs m |}.

Definition record_expiry (m : TofuMode) : option Z * TofuMode :=
  (tf_enabled_at m,
   {| tf_enabled := false; tf_max_enrollments := tf_max_enrollments m; tf_current_count := 0;
      tf_enabled_at := None; tf_max_age_secs := None |}).

(** The locked section of [daemon_pin_client_tofu_enable]. *)
Definition tofu_set_enabled (enable : bool) (max_enrollments : option Z) (now_secs : Z) (m : TofuMode) : TofuMode :=
  if enable then
    if negb (tf_enabled m) then
      {| tf_enabled := true; tf_max_enrollments := max_enrollments; tf_current_count := 0;
         tf_enabled_at := Some now_secs; tf_max_age_secs := tf_max_age_secs m |}
    else
      {| tf_enabled := true; tf_max_enrollments := max_enrollments; tf_current_count := tf_current_count m;
         tf_enabled_at := tf_enabled_at m; tf_max_age_secs := tf_max_age_secs m |}
  else
    {| tf_enabled := false; tf_max_enrollments := max_enrollments; tf_current_count := 0;
       tf_enabled_at := None; tf_max_age_secs := None |}.

(** The locked section of [daemon_pin_client_tofu_expiry_set]. *)
Definition tofu_set_expiry (max_age_secs : option Z) (now_secs : Z) (m : TofuMode) : Result Error TofuMode :=
  if negb (tf_enabled m) then
    Err (InvalidArgument "tofu mode is currently disabled; enable it first via daemon pin-client tofu --enable")
  else
    Ok {| tf_enabled := tf_enabled m; tf_max_enrollments := tf_max_enrollments m;
          tf_current_count := tf_current_count m;
          tf_enabled_at := match tf_enabled_at m with Some t => Some t | None => Some now_secs end;
          tf_max_age_secs := max_age_secs |}.

(** * The store *)

(** [rustls_pemfile] (the DER bytes of the first certificate of a PEM bundle),
    SQLite's [strftime] of the current time, and chrono's RFC 3339 parser. *)
Class PinEnv := {
  pem_first_cert : string → option string;
  sqlite_ts : Z → string;
  parse_rfc3339 : string → option Z;
}.

Section Store.
Context {E : Env} {P : PinEnv}.

Definition fingerprint_der (der : string) : string := hex_encode (sha256 der).

Definition fingerprint_from_pem (pem : string) : Result Error string :=
  match pem_first_cert pem with
  | Some der => Ok (fingerprint_der der)
  | None => Err (InvalidArgument "no PEM-encoded certificate found")
  end.

Definition pinned (fp : string) (rows : list PinRow) : bool := bool_decide (fp ∈ pin_fingerprint <$> rows).

(** [INSERT OR IGNORE]. *)
Definition insert_row (fp label at_ : string) (rows : list PinRow) : bool * list PinRow :=
  if pinned fp rows then (false, rows)
  else (true, rows ++ [{| pin_fingerprint := fp; pin_label := label; pin_enrolled_at := at_ |}]).
Definition remove_rows (fp : string) (rows : list PinRow) : bool * list PinRow :=
  (pinned fp rows, filter (λ r, pin_fingerprint r ≠ fp) rows).

Definition pin_insert (fp label : string) : R bool :=
  _ ← on_world stmt;
  t ← on_world now;
  rows ← gets rm_pins;
  let '(inserted, rows') := insert_row fp label (sqlite_ts t) rows in
  _ ← modify (set_pins rows');
  mret inserted.

Definition pin_remove (fp : string) : R bool :=
  _ ← on_world stmt;
  rows ← gets rm_pins;
  let '(removed, rows') := remove_rows fp rows in
  _ ← modify (set_pins rows');
  mret removed.

Definition enrolled_le (a b : PinRow) : Prop := String.le (pin_enrolled_at a) (pin_enrolled_at b).
#[global] Instance enrolled_le_dec : RelDecision enrolled_le.
Proof. intros a b. unfold enrolled_le. apply _. Defined.

Fixpoint summaries (rows : list PinRow) : R (list PinnedClientSummary) :=
  match rows with
  | [] => mret []
  | r :: rows' =>
      ts ← match parse_rfc3339 (pin_enrolled_at r) with
           | Some t => mret t
           | None => on_world now
           end;
      l ← summaries rows';
      mret ({| pcs_fingerprint := pin_fingerprint r; pcs_label := pin_label r; pcs_enrolled_at := ts |} :: l)
  end.
Definition pin_list : R (list PinnedClientSummary) :=
  _ ← on_world stmt;
  rows ← gets rm_pins;
  summaries (merge_sort enrolled_le rows).

(** A failed query counts as not pinned. *)
Definition pin_contains (fp : string) : R bool :=
  r ← attempt_in (_ ← on_world stmt; gets (λ s, pinned fp (rm_pins s)));
  match r with
  | Ok b => mret b
  | Err _ => mret false
  end.

Definition add_from_pem (pem label : string) : R (string * bool) :=
  match fingerprint_from_pem pem with
  | Err e => throw (Fail e)
  | Ok fp => inserted ← pin_insert fp label; mret (fp, inserted)
  end.

(** * dispatch/pin_clients.rs *)

(** [Utc::now().timestamp()]: whole seconds. *)
Definition now_timestamp : R Z := t ← on_world now; mret (t / 1000)%Z.

Definition daemon_pin_client_tofu_enable (enable : bool) (max_enrollments : option Z) : R (bool * option Z) :=
  m ← gets rm_tofu;
  t ← (if enable && negb (tf_enabled m) then now_timestamp else mret 0%Z);
  _ ← modify (set_tofu (tofu_set_enabled enable max_enrollments t m));
  mret (enable, max_enrollments).

Definition daemon_pin_client_tofu_expiry_status : R (bool * option Z * option Z) :=
  gets (λ s, (tf_enabled (rm_tofu s), tf_max_age_secs (rm_tofu s), tf_enabled_at (rm_tofu s))).

Definition daemon_pin_client_tofu_expiry_set (max_age_secs : option Z) : R (option Z) :=
  m ← gets rm_tofu;
  t ← (if tf_enabled m && negb (is_some (tf_enabled_at m)) then now_timestamp else mret 0%Z);
  match tofu_set_expiry max_age_secs t m with
  | Err e => throw (Fail e)
  | Ok m' => _ ← modify (set_tofu m'); mret max_age_secs
  end.

Definition daemon_pin_client_add (cert_pem label : string) : R (string * bool) := add_from_pem cert_pem label.
Definition daemon_pin_client_list : R (list PinnedClientSummary) := pin_list.
Definition daemon_pin_client_remove (fp : string) : R (string * bool) :=
  removed ← pin_remove fp; mret (fp, removed).
End Store.

(** * Lemmas *)

#[global] Typeclasses Opaque pin_insert pin_remove pin_contains pin_list add_from_pem now_timestamp.

Section StoreSafe.
Context {E : Env} {P : PinEnv}.

#[export] Instance safe_in_pin_insert fp label : SafeIn (pin_insert fp label).
Proof. unfold pin_insert. solve_safe. Qed.
#[export] Instance safe_in_pin_remove fp : SafeIn (pin_remove fp).
Proof. unfold pin_remove. solve_safe. Qed.
#[export] Instance safe_in_pin_contains fp : SafeIn (pin_contains fp).
Proof. unfold pin_contains. solve_safe. Qed.
#[export] Instance safe_in_now_timestamp : SafeIn now_timestamp.
Proof. unfold now_timestamp. apply _. Qed.
#[export] Instance safe_in_tofu_enable e mx : SafeIn (daemon_pin_client_tofu_enable e mx).
Proof. unfold daemon_pin_client_tofu_enable. solve_safe. Qed.
#[export] Instance safe_in_expiry_set age : SafeIn (daemon_pin_client_tofu_expiry_set age).
Proof. unfold daemon_pin_client_tofu_expiry_set. solve_safe. Qed.
#[export] Instance safe_in_pin_client_add pem label : SafeIn (daemon_pin_client_add pem label).
Proof. unfold daemon_pin_client_add, add_from_pem. solve_safe. Qed.
#[export] Instance safe_in_pin_client_remove fp : SafeIn (daemon_pin_client_remove fp).
Proof. unfold daemon_pin_client_remove. solve_safe. Qed.
End StoreSafe.

(** What a well-formed mode is: the machine widths, an anchor exactly while trust
    on first use is on, and no deadline while it is off. *)
Definition opt_ok (P : Z → Prop) (o : option Z) : Prop := match o with Some z => P z | None => True end.
Record tofu_wf (m : TofuMode) : Prop := {
  wf_count : is_u32 (tf_current_count m);
  wf_max : opt_ok is_u32 (tf_max_enrollments m);
  wf_anchor : is_some (tf_enabled_at m) = tf_enabled m;
  wf_anchor_range : opt_ok is_i64 (tf_enabled_at m);
  wf_age : opt_ok is_u64 (tf_max_age_secs m);
  wf_age_off : tf_enabled m = false → tf_max_age_secs m = None;
}.

(** What happens to the mode: the two handlers and the two ends of an upgrade. *)
Inductive TofuOp : Type :=
| TofuSetEnabled (enable : bool) (max_enrollments : option Z) (now_secs : Z)
| TofuSetExpiry (max_age_secs : option Z) (now_secs : Z)
| TofuEnrolled
| TofuExpiry.
Definition tofu_op (op : TofuOp) (m : TofuMode) : TofuMode :=
  match op with
  | TofuSetEnabled e mx t => tofu_set_enabled e mx t m
  | TofuSetExpiry a t => match tofu_set_expiry a t m with Ok m' => m' | Err _ => m end
  | TofuEnrolled => record_enrollment m
  | TofuExpiry => (record_expiry m).2
  end.
Definition tofu_op_ok (op : TofuOp) : Prop :=
  match op with
  | TofuSetEnabled _ mx t => opt_ok is_u32 mx ∧ is_i64 t
  | TofuSetExpiry a t => opt_ok is_u64 a ∧ is_i64 t
  | TofuEnrolled | TofuExpiry => True
  end.

Lemma tofu_op_wf op m : tofu_op_ok op → tofu_wf m → tofu_wf (tofu_op op m).
Proof.
  intros Hop [Hc Hm Ha Hr Hg Ho]. destruct op as [e mx t|a t| |]; simpl in *.
  - destruct Hop as [Hmx Ht]. unfold tofu_set_enabled.
    destruct e; [destruct (tf_enabled m) eqn:He|]; split; simpl; auto; unfold is_u32, u32_max; rewrite ?He; (done || lia || auto).
  - destruct Hop as [Hage Ht]. unfold tofu_set_expiry. destruct (tf_enabled m) eqn:He; simpl; [|by split; rewrite ?He].
    destruct (tf_enabled_at m) eqn:Hat; [|done]. by split; simpl; rewrite ?He.
  - split; simpl; auto. unfold u32_saturating_add, is_u32, u32_max in *. lia.
  - split; simpl; auto. unfold is_u32, u32_max. lia.
Qed.

(** * Theorems *)

(** The trust-on-first-use window has one definition although the code
    computes it twice: at every instant, with any fields and at any distance from
    the anchor (the subtraction saturates), a new certificate is enrolled exactly
    when the mode is on, the cap is not reached and the window has not expired. *)
Theorem enroll_iff_not_expired m now_secs :
  should_enroll_at m now_secs = should_enroll m && negb (is_expired_at m now_secs).
Proof.
  unfold should_enroll_at, is_expired_at. destruct (should_enroll m) eqn:Hs; [|done].
  unfold should_enroll in Hs. destruct (tf_enabled m); [|done]. simpl.
  destruct (tf_max_age_secs m) as [age|]; [|done]. destruct (tf_enabled_at m) as [t0|]; [|done].
  case_bool_decide; [done|]. repeat case_bool_decide; done || lia.
Qed.

(** Expiry is one-way and on time. Once the window has expired it stays
    expired at every later instant until an operator acts; for a window anchored
    at a non-negative timestamp it expires exactly one second after
    [enabled_at + max_age_secs], without overflow whatever the two values are. *)
Theorem expiry_is_exact m t t' :
  tofu_wf m → is_i64 t → is_i64 t' → (t ≤ t')%Z →
  (is_expired_at m t = true → is_expired_at m t' = true) ∧
  (∀ t0 age, tf_enabled_at m = Some t0 → (0 ≤ t0)%Z → tf_max_age_secs m = Some age →
     is_expired_at m t = true ↔ (t0 + age < t)%Z).
Proof.
  intros [_ _ Ha Hr Hg _] Ht Ht' Hle. unfold is_expired_at.
  destruct (tf_enabled m) eqn:He; simpl; last first.
  { split; [done|]. intros t0 age H0. by rewrite H0 in Ha. }
  destruct (tf_max_age_secs m) as [a|]; [|split; [done|naive_solver]].
  destruct (tf_enabled_at m) as [t0|]; [|done]. simpl in *. unfold i64_saturating_sub, is_i64, is_u64, i64_min, i64_max in *.
  split.
  - repeat case_bool_decide; (done || lia).
  - intros t1 age [= <-] Hpos [= <-]. repeat case_bool_decide; split; (done || lia).
Qed.

(** C31: Every value the shared trust-on-first-use mode takes is well-formed: from
    the disabled mode, any sequence of operator commands, enrolments and expiries
    keeps the counter and the caps within [u32] and [u64], has an anchor exactly
    while the mode is on, and no deadline while it is off. So the branches that
    guard against a missing anchor are never taken. *)
Theorem tofu_stays_wellformed ops :
  Forall tofu_op_ok ops → tofu_wf (foldl (λ m op, tofu_op op m) disabled ops).
Proof.
  intros Hops. assert (tofu_wf disabled) as Hd by (split; simpl; unfold is_u32, u32_max; done || lia).
  revert Hd. generalize disabled. induction Hops as [|op ops Hop Hops IH]; intros m Hm; [done|].
  apply IH. by apply tofu_op_wf.
Qed.

(** ** The table *)

Lemma insert_row_pins fp label at_ rows :
  pin_fingerprint <$> (insert_row fp label at_ rows).2 =
  (pin_fingerprint <$> rows) ++ (if pinned fp rows then [] else [fp]).
Proof. unfold insert_row. destruct (pinned fp rows); simpl; [by rewrite app_nil_r|]. by rewrite fmap_app. Qed.

Lemma remove_rows_pins fp rows :
  pin_fingerprint <$> (remove_rows fp rows).2 = filter (λ x, x ≠ fp) (pin_fingerprint <$> rows).
Proof.
  unfold remove_rows. simpl. induction rows as [|r rows IH]; [done|]. rewrite fmap_cons, !filter_cons.
  destruct (decide (pin_fingerprint r ≠ fp)); [rewrite fmap_cons; by f_equal|done].
Qed.

Definition pin_set (rows : list PinRow) : gset string := list_to_set (pin_fingerprint <$> rows).

Lemma pinned_set fp rows : pinned fp rows = bool_decide (fp ∈ pin_set rows).
Proof. unfold pinned, pin_set. apply bool_decide_ext. set_solver. Qed.

Lemma insert_row_set fp label at_ rows :
  let '(new, rows') := insert_row fp label at_ rows in
  new = negb (bool_decide (fp ∈ pin_set rows)) ∧ pin_set rows' = pin_set rows ∪ {[fp]} ∧
  (NoDup (pin_fingerprint <$> rows) → NoDup (pin_fingerprint <$> rows')).
Proof.
  rewrite <-pinned_set. pose proof (insert_row_pins fp label at_ rows) as H. unfold insert_row, pin_set in *.
  destruct (pinned fp rows) eqn:Hp; simpl in *; repeat split; auto.
  - apply bool_decide_eq_true in Hp. set_solver.
  - rewrite H. set_solver.
  - intros Hn. rewrite H. apply bool_decide_eq_false in Hp. apply NoDup_app. split; [done|].
    split; [set_solver|apply NoDup_singleton].
Qed.

Lemma remove_rows_set fp rows :
  let '(old, rows') := remove_rows fp rows in
  old = bool_decide (fp ∈ pin_set rows) ∧ pin_set rows' = pin_set rows ∖ {[fp]} ∧
  (NoDup (pin_fingerprint <$> rows) → NoDup (pin_fingerprint <$> rows')).
Proof.
  rewrite <-pinned_set. pose proof (remove_rows_pins fp rows) as H. unfold remove_rows, pin_set in *. simpl in *.
  rewrite H. repeat split; [|apply NoDup_filter].
  apply set_eq. intros x. rewrite elem_of_difference, !elem_of_list_to_set, list_elem_of_filter. set_solver.
Qed.

(** Pins added from a certificate are 64 hexadecimal digits. *)
Lemma fingerprint_is_hex {E : Env} {P : PinEnv} {L : EnvLaws E} pem fp :
  fingerprint_from_pem pem = Ok fp → String.length fp = 64 ∧ str_all is_hex fp = true.
Proof.
  unfold fingerprint_from_pem. destruct (pem_first_cert pem); [|done]. intros [= <-]. unfold fingerprint_der.
  by rewrite hex_encode_length, hex_encode_all, sha256_length.
Qed.

(** The operations of the store, and what they do to a set of fingerprints. *)
Inductive PinOp : Type :=
| PinAdd (fp label : string)
| PinDrop (fp : string)
| PinAsk (fp : string).
Definition pin_op {E : Env} {P : PinEnv} (op : PinOp) : R bool :=
  match op with
  | PinAdd fp label => pin_insert fp label
  | PinDrop fp => pin_remove fp
  | PinAsk fp => pin_contains fp
  end.
Definition set_op (op : PinOp) (pins : gset string) : bool * gset string :=
  match op with
  | PinAdd fp _ => (negb (bool_decide (fp ∈ pins)), pins ∪ {[fp]})
  | PinDrop fp => (bool_decide (fp ∈ pins), pins ∖ {[fp]})
  | PinAsk fp => (bool_decide (fp ∈ pins), pins)
  end.

(** The pin store is a set of fingerprints. An operation whose statement
    succeeds returns what the set operation returns (insertion whether the
    fingerprint is new, removal whether it was there, the query whether it is a
    member) and leaves the set that operation leaves; one whose statement fails
    changes nothing, and a query that fails answers no. The key column stays
    unique. *)
Theorem pins_refine_set {E : Env} {P : PinEnv} op s r s' :
  pin_op op s = (r, s') →
  (NoDup (pin_fingerprint <$> rm_pins s) → NoDup (pin_fingerprint <$> rm_pins s')) ∧
  if db_fault (w_stmts (rm_world s)) then
    pin_set (rm_pins s') = pin_set (rm_pins s) ∧
    r = match op with PinAsk _ => Ok false | _ => Err (Fail Sqlx) end
  else
    r = Ok (set_op op (pin_set (rm_pins s))).1 ∧ pin_set (rm_pins s') = (set_op op (pin_set (rm_pins s))).2.
Proof.
  destruct op as [fp label|fp|fp]; unfold pin_op, pin_insert, pin_remove, pin_contains, attempt_in, mbind, M_bind, on_world,
    stmt, now, gets, modify, mret, M_ret; simpl; destruct (db_fault _); simpl; try by intros; simplify_eq/=.
  - match goal with |- context [insert_row fp label ?t ?rows] => pose proof (insert_row_set fp label t rows) as H end.
    destruct (insert_row _ _ _ _) as [new rows']. destruct H as (-> & Hs & Hn). intros. simplify_eq/=. done.
  - pose proof (remove_rows_set fp (rm_pins s)) as (Ho & Hs & Hn).
    intros. simplify_eq/=. by rewrite Ho.
  - intros. simplify_eq/=. by rewrite pinned_set.
Qed.

(** * Examples *)

#[export] Instance toy_pin_env : PinEnv := {|
  pem_first_cert := λ pem, if decide (pem = "") then None else Some pem;
  sqlite_ts := pretty;
  parse_rfc3339 := λ _, Some 0%Z |}.

Definition hour_window : TofuMode :=
  {| tf_enabled := true; tf_max_enrollments := Some 2%Z; tf_current_count := 1; tf_enabled_at := Some 1000%Z;
     tf_max_age_secs := Some 3600%Z |}.

Lemma expiry_is_exact_witness :
  (is_expired_at hour_window 4601 = true → is_expired_at hour_window 9000 = true) ∧
  (∀ t0 age, tf_enabled_at hour_window = Some t0 → (0 ≤ t0)%Z → tf_max_age_secs hour_window = Some age →
     is_expired_at hour_window 4601 = true ↔ (t0 + age < 4601)%Z).
Proof.
  apply (expiry_is_exact hour_window 4601 9000); [|unfold is_i64, i64_min, i64_max; lia..].
  split; simpl; unfold is_u32, is_i64, is_u64, u32_max, u64_max, i64_min, i64_max; done || lia.
Defined.

Lemma tofu_stays_wellformed_witness :
  tofu_wf (foldl (λ m op, tofu_op op m) disabled
    [TofuSetEnabled true (Some 2%Z) 1000; TofuSetExpiry (Some 3600%Z) 1001; TofuEnrolled; TofuExpiry; TofuEnrolled]).
Proof.
  apply tofu_stays_wellformed. unfold tofu_op_ok, opt_ok, is_u32, is_u64, is_i64, u32_max, u64_max, i64_min, i64_max.
  repeat constructor; lia.
Defined.

Definition pinned_remote : Remote :=
  {| rm_world := empty_world; rm_pins := [{| pin_fingerprint := "aa"; pin_label := "laptop"; pin_enrolled_at := "0" |}];
     rm_tofu := disabled; rm_peers := ∅; rm_sessions := 0; rm_seen := ∅; rm_ptys := ∅ |}.

Lemma pins_refine_set_witness :
  let p := pin_op (E := toy_env) (PinAdd "aa" "phone") pinned_remote in
  p.1 = Ok (negb (bool_decide ("aa" ∈ pin_set (rm_pins pinned_remote)))).
Proof.
  intros p. destruct p as [r s'] eqn:Hp. exact (proj1 (proj2 (pins_refine_set (E := toy_env) _ _ _ _ Hp))).
Defined.
