(* ===== verification/Remote.v ===== *)
(** The remote listener, [linpodx-daemon/src/remote.rs], with the bearer checks of
    the Web UI ([web_ui.rs]) and of the Raft transport
    ([linpodx-cluster/src/raft_http.rs]).

    An upgrade of [/ipc] goes through [ws_handler] with awaits in between, and many
    run at once: [upgrade_step] is what one of them does between two points where
    others can run, and [Listener] is all of them over the shared state. A
    session ([handle_socket]) is a function of the frames that arrive. *)
From S2P Require Import Prelude Text Json Common Plugin Database AuditKinds AuditLog Logging Embedding Rpc PinStore.

(** * Tokens *)

(** The loop of [constant_eq]: [diff |= a[i] ^ b[i]]. *)
Fixpoint diff_from (diff : N) (a b : string) : N :=
  match a, b with
  | String x a', String y b' => diff_from (N.lor diff (N.lxor (byte_val x) (byte_val y))) a' b'
  | _, _ => diff
  end.
Definition constant_eq (a b : string) : bool :=
  if negb (String.length a =? String.length b) then false else bool_decide (diff_from 0 a b = 0%N).

(** [constant_time_eq] of [raft_http.rs] is the same loop on byte slices. *)
Definition constant_time_eq (a b : string) : bool :=
  if negb (String.length a =? String.length b) then false else bool_decide (diff_from 0 a b = 0%N).

(** [HeaderMap]: lower-case names, values as bytes, in the order received. *)
Definition Headers : Type := list (string * string).
Definition get_all (h : Headers) (name : string) : list string := (filter (λ kv, kv.1 = name) h).*2.
(** [HeaderValue::to_str]: visible ASCII and tabs. *)
Definition to_str (v : string) : option string :=
  if str_all (λ c, bool_decide (32 ≤ byte_val c < 127)%N || bool_decide (byte_val c = 9)%N) v
  then Some v else None.

Definition bearer_entry (entry : string) : option (string * string) :=
  let trimmed := trim entry in
  match strip_prefix "Bearer." trimmed with
  | Some rest => if decide (rest = "") then None else Some (trimmed, rest)
  | None =>
      match strip_prefix "Bearer " trimmed with
      | Some rest =>
          let token := trim_start rest in
          if decide (token = "") then None else Some (trimmed, token)
      | None => None
      end
  end.

(** The first value of a list the function accepts. *)
Fixpoint first_some {A B} (f : A → option B) (l : list A) : option B :=
  match l with
  | [] => None
  | x :: l' => match f x with Some y => Some y | None => first_some f l' end
  end.

Definition parse_bearer_subprotocol (h : Headers) : option (string * string) :=
  first_some (λ v, raw ← to_str v; first_some bearer_entry (split comma raw))
    (get_all h "sec-websocket-protocol").

Definition extract_bearer (h : Headers) : option string :=
  v ← head (get_all h "authorization");
  raw ← to_str v;
  '(scheme, value) ← split_once space (trim raw);
  if negb (eq_ignore_ascii_case scheme "bearer") then None
  else let token := trim value in if decide (token = "") then None else Some token.

Definition bearer_from_headers (h : Headers) : option string :=
  v ← head (get_all h "authorization");
  raw ← to_str v;
  rest ← or_else (strip_prefix "Bearer " raw) (strip_prefix "bearer " raw);
  let token := trim rest in if decide (token = "") then None else Some token.

Section Legacy.
Context {E : Env}.
Definition is_legacy_auth_frame (raw : string) : bool :=
  match json_from_str raw with
  | Some (JObject obj) =>
      let has_auth_str := match obj_find "auth" obj with Some (JString _) => true | _ => false end in
      has_auth_str && negb (is_some (obj_find "jsonrpc" obj)) && negb (is_some (obj_find "method" obj))
  | _ => false
  end.
End Legacy.

(** * Configuration *)

Record TlsOptions : Type := {
  cert_path : string;
  key_path : string;
  client_ca : option string;
}.

Record RemoteConfig : Type := {
  rc_token : string;
  rc_tls : bool;
  rc_mtls : bool;
  rc_pin : bool;
}.

(** The settings [spawn] derives from its arguments. *)
Definition spawn_config (token : string) (tls : option TlsOptions) (pin_clients : bool) : RemoteConfig :=
  let mtls_enabled := match tls with Some t => is_some (client_ca t) | None => false end in
  {| rc_token := token; rc_tls := is_some tls; rc_mtls := mtls_enabled; rc_pin := pin_clients && mtls_enabled |}.

(** * Upgrades *)

(** Where an upgrade is in [ws_handler]. *)
Inductive Upgrade : Type :=
| UStart
| UQuery (fp : string)
| UPinned (fp : string)
| UTofu (fp : string)
| UExpired (fp : string) (anchor now_secs : Z)
| UEnroll (fp : string)
| UCount (fp : string)
| UEnrolled (fp : string)
| URefuse (fp : option string)
| UAccepted
| URejected.

#[export] Instance Upgrade_eq_dec : EqDecision Upgrade.
Proof. solve_decision. Defined.

(** [x509_parser]: the first common name of a certificate that parses. *)
Class X509 := { x509_common_name : string → option string }.

Section Upgrades.
Context {E : Env} {P : PinEnv} {K : AuditSink} (cfg : RemoteConfig).

Definition extract_cn {X : X509} (cert_der : string) : option string := x509_common_name cert_der.

(** [MtlsAcceptor::accept] once the TLS handshake is over: the leaf certificate
    the client presented, or the reason it failed. *)
Definition accept {X : X509} (peer_addr : option SocketAddr) (outcome : Result string (option string)) : R bool :=
  match outcome with
  | Ok leaf =>
      if rc_mtls cfg then
        match peer_addr with
        | Some addr =>
            _ ← modify (λ s, set_peers (<[addr := {| mp_cn := leaf ≫= extract_cn;
                                                     mp_fingerprint := fingerprint_der <$> leaf |}]> (rm_peers s)) s);
            mret true
        | None => mret true
        end
      else mret true
  | Err reason =>
      if rc_mtls cfg then
        _ ← on_world (record SinkRemoteMtlsRejected None None
              (JObject [("peer", JString (match peer_addr with Some a => addr_to_string a | None => "?" end));
                        ("reason", JString reason)]));
        mret false
      else mret false
  end.

Definition audit_failure_pin (peer : SocketAddr) (fp : option string) : R unit :=
  on_world (record SinkRemoteAuthFailed None None
    (JObject [("peer", JString (addr_to_string peer)); ("reason", JString "pin_mismatch");
              ("fingerprint", jopt JString fp)])).

Definition peer_fingerprint (peer : SocketAddr) (s : Remote) : option string :=
  info ← rm_peers s !! peer; mp_fingerprint info.

Definition upgrade_step (peer : SocketAddr) (u : Upgrade) : R Upgrade :=
  match u with
  | UStart =>
      if rc_pin cfg then
        fingerprint ← gets (peer_fingerprint peer);
        match fingerprint with
        | Some fp => mret (UQuery fp)
        | None => mret (URefuse None)
        end
      else mret UAccepted
  | UQuery fp => pin_ok ← pin_contains fp; mret (if pin_ok : bool then UPinned fp else UTofu fp)
  | UPinned fp =>
      _ ← on_world (record SinkWsClientCertPinned None None
            (JObject [("peer", JString (addr_to_string peer)); ("fingerprint", JString fp)]));
      mret UAccepted
  | UTofu fp =>
      now_secs ← now_timestamp;
      m ← gets rm_tofu;
      if is_expired_at m now_secs then
        let '(anchor, m') := record_expiry m in
        _ ← modify (set_tofu m');
        match anchor with
        | Some a => mret (UExpired fp a now_secs)
        | None => mret (URefuse (Some fp))
        end
      else mret (if should_enroll_at m now_secs then UEnroll fp else URefuse (Some fp))
  | UExpired fp anchor now_secs =>
      _ ← on_world (record SinkTofuExpired None None
            (JObject [("peer", JString (addr_to_string peer)); ("fingerprint", JString fp);
                      ("enabled_at", jint anchor); ("expired_at", jint now_secs)]));
      mret (URefuse (Some fp))
  | UEnroll fp =>
      r ← attempt_in (pin_insert fp "tofu-auto");
      match r with
      | Ok true => mret (UCount fp)
      | _ => mret UAccepted
      end
  | UCount fp =>
      _ ← modify (λ s, set_tofu (record_enrollment (rm_tofu s)) s);
      mret (UEnrolled fp)
  | UEnrolled fp =>
      _ ← on_world (record SinkWsClientCertTofuEnrolled None None
            (JObject [("peer", JString (addr_to_string peer)); ("fingerprint", JString fp)]));
      mret UAccepted
  | URefuse fp => _ ← audit_failure_pin peer fp; mret URejected
  | UAccepted => mret UAccepted
  | URejected => mret URejected
  end.

Definition settled (u : Upgrade) : bool := match u with UAccepted | URejected => true | _ => false end.

(** How many steps an upgrade has left at most. *)
Definition rank (u : Upgrade) : nat :=
  match u with
  | UStart => 6 | UQuery _ => 5 | UTofu _ => 4 | UEnroll _ => 3 | UCount _ => 2 | UExpired _ _ _ => 2
  | UPinned _ => 1 | UEnrolled _ => 1 | URefuse _ => 1 | UAccepted | URejected => 0
  end.

(** [ws_handler] up to the upgrade, run without interruption. *)
Fixpoint run_upgrade (fuel : nat) (peer : SocketAddr) (u : Upgrade) : R Upgrade :=
  match fuel with
  | O => mret u
  | S n => if settled u then mret u else u' ← upgrade_step peer u; run_upgrade n peer u'
  end.
Definition ws_handler (peer : SocketAddr) : R Upgrade := run_upgrade 6 peer UStart.

(** ** All upgrades together *)

Record Listener : Type := {
  li_shared : Remote;
  li_conns : gmap nat (SocketAddr * Upgrade);
}.

(** What can happen to the listener: a handshake, a new upgrade request, a step of
    one that is running, and an operator's command. *)
Inductive Action : Type :=
| AHandshake (peer : SocketAddr) (leaf : option string)
| ARequest (n : nat) (peer : SocketAddr)
| AStep (n : nat)
| ATofuEnable (enable : bool) (max_enrollments : option Z)
| AExpirySet (max_age_secs : option Z)
| APinAdd (pem label : string)
| APinRemove (fp : string).

#[export] Instance Action_eq_dec : EqDecision Action.
Proof. solve_decision. Defined.

Definition set_shared (s : Remote) (l : Listener) : Listener := {| li_shared := s; li_conns := li_conns l |}.

Definition listener_step {X : X509} (l : Listener) (a : Action) : Listener :=
  match a with
  | AHandshake peer leaf => set_shared (accept (Some peer) (Ok leaf) (li_shared l)).2 l
  | ARequest n peer =>
      match li_conns l !! n with
      | None => {| li_shared := li_shared l; li_conns := <[n := (peer, UStart)]> (li_conns l) |}
      | Some _ => l
      end
  | AStep n =>
      match li_conns l !! n with
      | None => l
      | Some (peer, u) =>
          match upgrade_step peer u (li_shared l) with
          | (Ok u', s) => {| li_shared := s; li_conns := <[n := (peer, u')]> (li_conns l) |}
          | (Err _, s) => {| li_shared := s; li_conns := delete n (li_conns l) |}
          end
      end
  | ATofuEnable e mx => set_shared (daemon_pin_client_tofu_enable e mx (li_shared l)).2 l
  | AExpirySet age => set_shared (daemon_pin_client_tofu_expiry_set age (li_shared l)).2 l
  | APinAdd pem label => set_shared (daemon_pin_client_add pem label (li_shared l)).2 l
  | APinRemove fp => set_shared (daemon_pin_client_remove fp (li_shared l)).2 l
  end.
Definition run {X : X509} (l : Listener) (acts : list Action) : Listener := foldl listener_step l acts.
End Upgrades.

(** * Sessions *)

Inductive Inbound : Type :=
| InText (s : string)
| InBinary (s : string)
| InPingPong
| InClose
| InError.

Inductive Outbound : Type :=
| OutText (s : string)
| OutClose.

(** The socket of a session: what was delivered, and how many sends were tried. *)
Record Socket : Type := {
  so_remote : Remote;
  so_sent : list Outbound;
  so_tries : nat;
}.

#[export] Instance Socket_HasWorld : HasWorld Socket := {|
  world_of := λ s, world_of (so_remote s);
  put_world := λ w s, {| so_remote := put_world w (so_remote s); so_sent := so_sent s; so_tries := so_tries s |} |}.
#[export] Instance Socket_HasWorldLaws : HasWorldLaws Socket.
Proof. split; [done|]. by intros [[] ? ?]. Qed.

Section Sessions.
Context {E : Env} {K : AuditSink} {H : Handlers Remote} {C : RpcCodec Remote}.
(** [send_fault n] says that the n-th send fails. *)
Context (cfg : RemoteConfig) (send_fault : nat → bool).

Definition on_remote {A} (c : R A) : M Socket Fault A := λ s,
  let '(r, s') := c (so_remote s) in
  (r, {| so_remote := s'; so_sent := so_sent s; so_tries := so_tries s |}).

(** [sender.send]: whether it worked. *)
Definition send (m : Outbound) : M Socket Fault bool := λ s,
  let ok := negb (send_fault (so_tries s)) in
  (Ok ok, {| so_remote := so_remote s; so_sent := if ok then so_sent s ++ [m] else so_sent s;
             so_tries := S (so_tries s) |}).

Definition audit_failure (peer : SocketAddr) (reason : string) : M Socket Fault unit :=
  on_world (record SinkRemoteAuthFailed None None
    (JObject [("peer", JString (addr_to_string peer)); ("reason", JString reason)])).

Definition token_ok (t : option string) : bool :=
  match t with Some t => constant_eq t (rc_token cfg) | None => false end.

(** The token of a first frame. *)
Definition presented_token (auth_msg : string) : option string :=
  v ← json_from_str auth_msg; t ← get v "auth"; as_str t.

(** The request loop. [shutdown_at = Some k] is a shutdown that is noticed before
    the k-th further message; a stream that ends is a client that left. *)
Fixpoint rpc_loop (may_drain : bool) (shutdown_at : option nat) (stream : list Inbound) : M Socket Fault unit :=
  match shutdown_at with
  | Some O => _ ← send OutClose; mret tt
  | _ =>
      let later := pred <$> shutdown_at in
      match stream with
      | [] => mret tt
      | InText raw :: rest =>
          if may_drain && is_legacy_auth_frame raw then rpc_loop false later rest
          else
            resp ← match rpc_from_str raw with
                   | Ok req => on_remote (dispatch req)
                   | Err e => mret (parse_failure e)
                   end;
            match rpc_to_string resp with
            | None => rpc_loop false later rest
            | Some payload =>
                sent ← send (OutText payload);
                if sent : bool then rpc_loop false later rest else mret tt
            end
      | InBinary _ :: rest | InPingPong :: rest => rpc_loop may_drain later rest
      | InClose :: _ | InError :: _ => mret tt
      end
  end.

(** The first-frame handshake: the rest of the stream if the token matches.
    [timed_out] says that no frame arrives within ten seconds. *)
Definition auth_handshake (peer : SocketAddr) (timed_out : bool) (stream : list Inbound) :
    M Socket Fault (option (list Inbound)) :=
  match timed_out, stream with
  | false, InText auth_msg :: rest =>
      if token_ok (presented_token auth_msg) then mret (Some rest)
      else
        _ ← audit_failure peer "token mismatch";
        _ ← send (OutText (json_to_string (JObject [("error",
              JObject [("code", jint INVALID_REQUEST); ("message", JString "auth failed")])])));
        _ ← send OutClose;
        mret None
  | _, _ => _ ← audit_failure peer "no auth frame"; mret None
  end.

(** The information of the TLS handshake is taken out of the table. *)
Definition take_peer (peer : SocketAddr) : M Socket Fault (option MtlsPeerInfo) :=
  if rc_mtls cfg then
    info ← gets (λ s, rm_peers (so_remote s) !! peer);
    _ ← on_remote (modify (λ s, set_peers (delete peer (rm_peers s)) s));
    match info with
    | Some i =>
        _ ← on_world (record SinkRemoteMtlsAccepted None None
              (JObject [("peer", JString (addr_to_string peer)); ("cn", jopt JString (mp_cn i))]));
        mret (Some i)
    | None => mret None
    end
  else mret None.

(** From the token to the request loop. *)
Definition open_session (peer : SocketAddr) (mtls_peer : option MtlsPeerInfo) (may_drain : bool)
    (shutdown_at : option nat) (stream : list Inbound) : M Socket Fault unit :=
  seq ← gets (λ s, wrap_u64 (rm_sessions (so_remote s) + 1));
  _ ← on_remote (modify (set_sessions seq));
  _ ← on_world (record SinkRemoteSessionStarted None None
        (JObject [("peer", JString (addr_to_string peer)); ("session_seq", jint seq); ("tls", JBool (rc_tls cfg));
                  ("mtls_cn", jopt JString (p ← mtls_peer; mp_cn p))]));
  t ← on_world now;
  sent ← send (OutText (json_to_string (JObject [("auth", JString "ok"); ("since", JString (ts_serde t))])));
  if negb sent then mret tt else rpc_loop may_drain shutdown_at stream.

Definition handle_socket (peer : SocketAddr) (query_token : option string) (header_token_ok timed_out : bool)
    (shutdown_at : option nat) (stream : list Inbound) : M Socket Fault unit :=
  mtls_peer ← take_peer peer;
  _ ← (if header_token_ok
       then on_world (record SinkWsAuthSubprotocol None None (JObject [("peer", JString (addr_to_string peer))]))
       else mret tt);
  let query_token_ok := token_ok query_token in
  if negb header_token_ok && negb query_token_ok then
    rest ← auth_handshake peer timed_out stream;
    match rest with
    | None => mret tt
    | Some stream' => open_session peer mtls_peer false shutdown_at stream'
    end
  else open_session peer mtls_peer true shutdown_at stream.

(** The header check of [ws_handler] and [pty_ws_handler]. *)
Definition header_token_ok (h : Headers) : bool := token_ok (snd <$> parse_bearer_subprotocol h).
Definition echoed_protocol (h : Headers) : option string :=
  if header_token_ok h then fst <$> parse_bearer_subprotocol h else None.

(** * The other surfaces *)

Inductive HttpOutcome : Type :=
| Unauthorized
| NotFoundResponse
| Upgraded (protocol : option string)
| Served.

(** [/pty/:bridge_id] up to the upgrade. *)
Definition pty_ws_handler (bridge_id : string) (h : Headers) (query_token : option string) : R HttpOutcome :=
  if negb (header_token_ok h) && negb (token_ok query_token) then mret Unauthorized
  else
    _ ← (if header_token_ok h
         then on_world (record SinkWsAuthSubprotocol None None (JObject [("bridge_id", JString bridge_id)]))
         else mret tt);
    known ← gets (λ s, bool_decide (bridge_id ∈ rm_ptys s));
    if negb known then mret NotFoundResponse else mret (Upgraded (echoed_protocol h)).

(** The first socket to attach takes the handle. *)
Definition pty_attach (bridge_id : string) : R bool :=
  known ← gets (λ s, bool_decide (bridge_id ∈ rm_ptys s));
  if negb known then mret false
  else _ ← modify (λ s, set_ptys (rm_ptys s ∖ {[bridge_id]}) s); mret true.

Definition audit_pty_closed (bridge_id reason : string) : R unit :=
  on_world (record SinkContainerExecPtyClosed None None
    (JObject [("bridge_id", JString bridge_id); ("reason", JString reason)])).

(** The middleware before every [/api/v1] handler. *)
Definition bearer_auth (peer : SocketAddr) (path : string) (h : Headers) : R HttpOutcome :=
  let presented := extract_bearer h in
  if negb (token_ok presented) then
    _ ← on_world (record SinkWebUiAccessDenied None None
          (JObject [("peer", JString (addr_to_string peer)); ("path", JString path);
                    ("reason", JString (if is_some presented then "token mismatch" else "missing bearer"))]));
    mret Unauthorized
  else
    let peer_key := sa_ip peer in
    new ← gets (λ s, bool_decide (peer_key ∉ rm_seen s));
    _ ← modify (λ s, set_seen (rm_seen s ∪ {[peer_key]}) s);
    _ ← (if new : bool
         then on_world (record SinkWebUiSessionStarted None None
                (JObject [("peer", JString (addr_to_string peer)); ("path", JString path)]))
         else mret tt);
    mret Served.

(** The middleware before the Raft handlers; without a token there is none. *)
Definition raft_auth_middleware (token : option string) (audited : bool) (peer : option SocketAddr) (h : Headers) :
    R HttpOutcome :=
  match token with
  | None => mret Served
  | Some tok =>
      let ok := match bearer_from_headers h with Some t => constant_time_eq t tok | None => false end in
      if ok then mret Served
      else
        _ ← (if audited
             then on_world (record SinkRemoteAuthFailed None None
                    (JObject [("peer", jopt (λ a, JString (addr_to_string a)) peer); ("reason", JString "raft_auth");
                              ("surface", JString "cluster_raft")]))
             else mret tt);
        mret Unauthorized
  end.
End Sessions.

(** The header [reqwest]'s [bearer_auth] sends. *)
Definition bearer_header (tok : string) : Headers := [("authorization", "Bearer " +:+ tok)].

Definition normalize_base_url (addr : string) : string :=
  let trimmed := trim_end_char slash (trim addr) in
  match strip_prefix "wss://" trimmed with
  | Some rest => "https://" +:+ rest
  | None =>
      match strip_prefix "ws://" trimmed with
      | Some rest => "http://" +:+ rest
      | None =>
          if starts_with trimmed "http://" || starts_with trimmed "https://" then trimmed
          else "http://" +:+ trimmed
      end
  end.

(** * Lemmas *)

(** ** Tokens *)

Lemma diff_from_zero d a b :
  String.length a = String.length b → diff_from d a b = 0%N ↔ d = 0%N ∧ a = b.
Proof.
  revert d b. induction a as [|x a IH]; intros d [|y b] Hlen; simpl in *; try done; [naive_solver|].
  injection Hlen as Hlen. rewrite IH by done. rewrite N.lor_eq_0_iff, N.lxor_eq_0_iff.
  split; [|intros [-> [= -> ->]]; done]. intros [[-> Hxy] ->]. split; [done|]. f_equal.
  unfold byte_val in Hxy. rewrite <-(Ascii.ascii_N_embedding x), <-(Ascii.ascii_N_embedding y). by rewrite Hxy.
Qed.

Lemma constant_eq_spec a b : constant_eq a b = bool_decide (a = b).
Proof.
  unfold constant_eq. destruct (String.length a =? String.length b) eqn:Hlen; simpl.
  - apply Nat.eqb_eq in Hlen. apply bool_decide_ext. rewrite (diff_from_zero 0 a b Hlen). naive_solver.
  - apply Nat.eqb_neq in Hlen. symmetry. apply bool_decide_eq_false. by intros ->.
Qed.

Lemma token_ok_spec cfg t : token_ok cfg t = bool_decide (t = Some (rc_token cfg)).
Proof.
  destruct t as [t|]; simpl; [|done]. rewrite constant_eq_spec. apply bool_decide_ext. naive_solver.
Qed.

(** ** Headers *)

Lemma to_str_bearer tok : str_all visible tok = true → to_str ("Bearer " +:+ tok) = Some ("Bearer " +:+ tok).
Proof.
  intros Ht. unfold to_str. rewrite str_all_app. rewrite (str_all_impl visible _ tok); [done| |done].
  unfold visible. intros c Hc%bool_decide_eq_true. rewrite bool_decide_true by lia. done.
Qed.

Lemma trim_bearer tok :
  str_all visible tok = true → tok ≠ "" → trim ("Bearer " +:+ tok) = "Bearer " +:+ tok.
Proof.
  intros Ht Hne. unfold trim. change ("Bearer " +:+ tok) with (String "B" ("earer " +:+ tok)).
  rewrite trim_start_visible by done. rewrite <-str_app_cons_l. change (String "B" "earer ") with "Bearer ".
  assert (∀ c t, visible c = true → trim_end t = t → trim_end (String c t) = String c t) as Hcons.
  { intros c t Hc Hend. cbn [trim_end]. unfold is_blank.
    rewrite bool_decide_false by (by apply strip_ws_visible). by rewrite Hend. }
  assert (trim_end (String space tok) = String space tok) as Hsp.
  { destruct tok as [|d tok]; [done|].
    change (trim_end (String space (String d tok))) with
      (if is_blank (String space (String d tok)) then "" else String space (trim_end (String d tok))).
    rewrite (trim_end_visible (String d tok)) by done.
    unfold is_blank. rewrite bool_decide_false; [done|]. simpl in Ht. apply andb_prop in Ht as [Hd _].
    change (strip_ws (String d tok) ≠ ""). by apply strip_ws_visible. }
  change ("Bearer " +:+ tok) with (String "B" (String "e" (String "a" (String "r" (String "e" (String "r" (String space tok))))))).
  by repeat (apply Hcons; [done|]).
Qed.

(** ** What each operation leaves alone *)

Section UpgradeFacts.
Context {E : Env} {P : PinEnv} {K : AuditSink} (cfg : RemoteConfig).

Lemma on_world_frame {A} (c : D A) (s : Remote) :
  ∃ w, (on_world c s).2 = put_world w s ∧ (c (world_of s)).2 = w ∧ (on_world c s).1 = (c (world_of s)).1.
Proof. unfold on_world. destruct (c (world_of s)) as [r w]. eauto. Qed.

Lemma pin_contains_spec fp s :
  ∃ b w, pin_contains fp s = (Ok b, put_world w s) ∧ (b = true → pinned fp (rm_pins s) = true).
Proof.
  unfold pin_contains, attempt_in, mbind, M_bind, on_world, stmt, gets, mret, M_ret. simpl.
  destruct (db_fault _); simpl; eexists _, _; (split; [done|]); done.
Qed.

Definition now_secs (s : Remote) : Z := (clock (w_ticks (rm_world s)) / 1000)%Z.

(** What an upgrade can turn into, and what was true when it did. *)
Lemma upgrade_step_inv peer u s u' s' :
  upgrade_step cfg peer u s = (Ok u', s') →
  match u' with
  | UStart => False
  | UQuery fp => u = UStart ∧ peer_fingerprint peer s = Some fp
  | UPinned fp => u = UQuery fp ∧ pinned fp (rm_pins s) = true
  | UTofu fp => u = UQuery fp
  | UExpired fp _ _ => u = UTofu fp
  | UEnroll fp => u = UTofu fp ∧ should_enroll_at (rm_tofu s) (now_secs s) = true
  | UCount fp => u = UEnroll fp
  | UEnrolled fp => u = UCount fp
  | UAccepted => rc_pin cfg = false ∨ u = UAccepted ∨ ∃ fp, u = UPinned fp ∨ u = UEnroll fp ∨ u = UEnrolled fp
  | URefuse _ => u = UStart ∨ ∃ fp, u = UTofu fp ∨ ∃ a t, u = UExpired fp a t
  | URejected => u = URejected ∨ ∃ fp, u = URefuse fp
  end.
Proof.
  destruct u; simpl; intros H.
  - destruct (rc_pin cfg) eqn:Hpin; [|run_simpl H; auto]. inv_bind H a s1 Ha. run_simpl Ha.
    destruct (peer_fingerprint peer s1) eqn:Hf; run_simpl H; eauto.
  - inv_bind H b s1 Hb. destruct (pin_contains_spec fp s) as (b' & w & Hc & Hp). rewrite Hc in Hb. simplify_eq.
    destruct b; run_simpl H; auto.
  - inv_bind H a s1 Ha. run_simpl H; eauto 6.
  - unfold now_timestamp, on_world, now, mbind, M_bind, gets, modify, mret, M_ret in H. simpl in H.
    destruct (is_expired_at _ _) eqn:Hex; simpl in H.
    + destruct (tf_enabled_at (rm_tofu s)); simplify_eq/=; eauto.
    + destruct (should_enroll_at _ _) eqn:Hs; simplify_eq/=; eauto.
  - inv_bind H a s1 Ha. run_simpl H; eauto 6.
  - inv_bind H a s1 Ha. destruct a as [[]|]; run_simpl H; eauto 8.
  - inv_bind H a s1 Ha. run_simpl H; eauto 6.
  - inv_bind H a s1 Ha. run_simpl H; eauto 6.
  - inv_bind H a s1 Ha. run_simpl H; eauto 6.
  - run_simpl H; auto.
  - run_simpl H; auto.
Qed.

(** No step of an upgrade touches the peer table. *)
Lemma pin_insert_frame fp label s :
  rm_tofu (pin_insert fp label s).2 = rm_tofu s ∧ rm_peers (pin_insert fp label s).2 = rm_peers s.
Proof.
  unfold pin_insert, mbind, M_bind, on_world, stmt, now, gets, modify, mret, M_ret.
  destruct (db_fault _); simpl; [done|]. by destruct (insert_row _ _ _ _).
Qed.
Lemma upgrade_step_peers peer u s : rm_peers (upgrade_step cfg peer u s).2 = rm_peers s.
Proof.
  assert (∀ (c : D unit), rm_peers (on_world c s).2 = rm_peers s) as Hw.
  { intros c. by destruct (on_world_frame c s) as (w & -> & _). }
  destruct u; simpl; unfold mbind, M_bind, attempt_in, audit_failure_pin, gets, modify, mret, M_ret; try done;
    try match goal with |- context [on_world (record ?k ?p ?c ?d) s] => specialize (Hw (record k p c d)); by destruct (on_world _ s) as [[] ?] end.
  - destruct (rc_pin cfg); [by destruct (peer_fingerprint peer s)|done].
  - destruct (pin_contains_spec fp s) as (b & w & -> & _). by destruct b.
  - unfold now_timestamp, on_world, now, mbind, M_bind, mret, M_ret. simpl.
    destruct (is_expired_at _ _); [by destruct (tf_enabled_at (rm_tofu s))|by destruct (should_enroll_at _ _)].
  - destruct (pin_insert_frame fp "tofu-auto" s) as [_ Hp]. by destruct (pin_insert fp "tofu-auto" s) as [[[]|[]] ?].
Qed.

Lemma upgrade_step_rank peer u s u' s' :
  upgrade_step cfg peer u s = (Ok u', s') → settled u = false → rank u' < rank u.
Proof.
  intros H%upgrade_step_inv Hu. destruct u'; simpl in *; destruct u; simpl in *; naive_solver lia.
Qed.
End UpgradeFacts.

(** ** Histories *)

Section Histories.
Context {E : Env} {P : PinEnv} {K : AuditSink} {X : X509} (cfg : RemoteConfig) (l0 : Listener).

Abbreviation after acts := (run cfg l0 acts).

(** The client at [peer] presented the certificate [leaf] in a TLS handshake, the last
    one from that address before the first step of upgrade [n], a request from that
    address; [fp] is its fingerprint. *)
Definition handshake_of (peer : SocketAddr) (a : Action) : Prop := match a with AHandshake p _ => p = peer | _ => False end.
Definition presented (acts : list Action) (n : nat) (peer : SocketAddr) (fp : string) : Prop :=
  ∃ a1 leaf a2 a3,
    acts = a1 ++ AHandshake peer (Some leaf) :: a2 ++ AStep n :: a3 ∧ Forall (λ a, ¬ handshake_of peer a) a2 ∧
    fp = hex_encode (sha256 leaf) ∧
    li_conns (after (a1 ++ AHandshake peer (Some leaf) :: a2)) !! n = Some (peer, UStart).

(** First-use trust accepts an unknown certificate at [t]: it is on, below its cap
    and within its window. *)
Definition open_at (m : TofuMode) (t : Z) : Prop :=
  tf_enabled m = true ∧ (∀ mx, tf_max_enrollments m = Some mx → (tf_current_count m < mx)%Z) ∧
  (∀ age, tf_max_age_secs m = Some age → ∃ t0, tf_enabled_at m = Some t0 ∧
     (i64_saturating_sub t t0 < 0 ∨ i64_saturating_sub t t0 ≤ age)%Z).
(** [fp] was trusted when upgrade [n] asked: it was in the table, or first-use trust
    accepted it. *)
Definition trusted (acts : list Action) (n : nat) (fp : string) : Prop :=
  ∃ a1 a2 peer, acts = a1 ++ AStep n :: a2 ∧
    (li_conns (after a1) !! n = Some (peer, UQuery fp) ∧ fp ∈ pin_fingerprint <$> rm_pins (li_shared (after a1)) ∨
     li_conns (after a1) !! n = Some (peer, UTofu fp) ∧
       open_at (rm_tofu (li_shared (after a1))) (now_secs (li_shared (after a1)))).

Lemma should_enroll_open m t : should_enroll_at m t = true → open_at m t.
Proof.
  unfold should_enroll_at, should_enroll, open_at. destruct (tf_enabled m); [|done]. cbn [negb].
  destruct (tf_max_enrollments m) as [mx|]; cbn; [case_bool_decide; [|done]; cbn|]; intros Ha; (split; [done|]); (split; [naive_solver|]);
    intros age Hage; rewrite Hage in Ha; destruct (tf_enabled_at m) as [t0|]; try done; exists t0; (split; [done|]);
    repeat case_bool_decide; auto; done.
Qed.

Lemma run_snoc acts a : after (acts ++ [a]) = listener_step cfg (after acts) a.
Proof. unfold run. by rewrite foldl_snoc. Qed.

Lemma presented_snoc acts a n peer fp : presented acts n peer fp → presented (acts ++ [a]) n peer fp.
Proof.
  intros (a1 & leaf & a2 & a3 & -> & H). exists a1, leaf, a2, (a3 ++ [a]). split; [|done].
  by rewrite <-app_assoc, <-!app_comm_cons, <-app_assoc.
Qed.
Lemma trusted_snoc acts a n fp : trusted acts n fp → trusted (acts ++ [a]) n fp.
Proof. intros (a1 & a2 & peer & -> & H). exists a1, (a2 ++ [a]), peer. split; [|done]. by rewrite <-app_assoc. Qed.
Hint Resolve presented_snoc trusted_snoc : core.

(** The peer table changes in handshakes only, and only for the address of the client. *)
Lemma listener_step_peers l a peer :
  ¬ handshake_of peer a ∨ rc_mtls cfg = false →
  rm_peers (li_shared (listener_step cfg l a)) !! peer = rm_peers (li_shared l) !! peer.
Proof.
  intros Ha. destruct a as [p leaf|m p|m|e mx|age|pem label|fp]; cbn [listener_step].
  - unfold accept. cbn in Ha. destruct (rc_mtls cfg); [|done]. destruct Ha as [Ha|]; [|done]. simpl. by rewrite lookup_insert_ne.
  - by destruct (li_conns l !! m).
  - destruct (li_conns l !! m) as [[p u]|]; [|done].
    pose proof (upgrade_step_peers cfg p u (li_shared l)) as Hs. destruct (upgrade_step cfg p u (li_shared l)) as [[] s']; cbn in *; by rewrite Hs.
  - unfold daemon_pin_client_tofu_enable, mbind, M_bind, gets, modify, mret, M_ret, now_timestamp, on_world. simpl.
    by destruct e, (tf_enabled (rm_tofu (li_shared l))).
  - unfold daemon_pin_client_tofu_expiry_set, mbind, M_bind, gets, modify, mret, M_ret, throw, now_timestamp, on_world, tofu_set_expiry. simpl.
    by destruct (tf_enabled (rm_tofu (li_shared l))), (tf_enabled_at (rm_tofu (li_shared l))).
  - unfold set_shared, daemon_pin_client_add, add_from_pem, mbind, M_bind, throw. cbn [li_shared].
    destruct (fingerprint_from_pem pem) as [fp|]; [|done]. pose proof (pin_insert_frame fp label (li_shared l)) as [_ Hs].
    destruct (pin_insert fp label (li_shared l)) as [[] s']; cbn in *; by rewrite Hs.
  - unfold set_shared, daemon_pin_client_remove, pin_remove, mbind, M_bind, on_world, stmt, gets, modify, mret, M_ret.
    cbn. by destruct (db_fault _).
Qed.

(** So an entry is the certificate of the last handshake from its address. *)
Lemma fingerprint_was_presented acts peer fp :
  rm_peers (li_shared l0) = ∅ → peer_fingerprint peer (li_shared (after acts)) = Some fp →
  ∃ a1 leaf a2, acts = a1 ++ AHandshake peer (Some leaf) :: a2 ∧ Forall (λ a, ¬ handshake_of peer a) a2 ∧ fp = hex_encode (sha256 leaf).
Proof.
  intros H0. destruct (rc_mtls cfg) eqn:Hm; last first.
  { unfold peer_fingerprint. assert (rm_peers (li_shared (after acts)) !! peer = None) as ->; [|done].
    induction acts as [|a acts IH] using rev_ind; [unfold run; cbn; by rewrite H0, lookup_empty|].
    rewrite run_snoc, listener_step_peers; [done|by right]. }
  induction acts as [|a acts IH] using rev_ind; [unfold run, peer_fingerprint; cbn; by rewrite H0, lookup_empty|].
  rewrite run_snoc. unfold peer_fingerprint in *. intros Hf.
  assert (¬ handshake_of peer a → ∃ a1 leaf a2, acts ++ [a] = a1 ++ AHandshake peer (Some leaf) :: a2 ∧
    Forall (λ a, ¬ handshake_of peer a) a2 ∧ fp = hex_encode (sha256 leaf)) as Hother.
  { intros Ha. rewrite listener_step_peers in Hf by by left. destruct (IH Hf) as (a1 & leaf & a2 & -> & Ho & Hfp).
    exists a1, leaf, (a2 ++ [a]). split; [by rewrite <-app_assoc|]. split; [|done]. apply Forall_app. by split; [|repeat constructor]. }
  destruct a as [p leaf|m p|m|e mx|age|pem label|fp']; try (by apply Hother; intros ?).
  destruct (decide (p = peer)) as [->|Hne]; [|by apply Hother]. cbn [listener_step] in Hf. unfold accept in Hf.
  rewrite Hm in Hf. simpl in Hf. rewrite lookup_insert_eq in Hf. cbn in Hf. destruct leaf as [leaf|]; [|done]. injection Hf as <-.
  exists acts, leaf, []. split; [done|]. split; [by apply Forall_nil|done].
Qed.

(** What is known of an upgrade in each phase. *)
Definition phase_ok (acts : list Action) (n : nat) (peer : SocketAddr) (u : Upgrade) : Prop :=
  match u with
  | UStart | URefuse _ | URejected => True
  | UQuery fp | UTofu fp | UExpired fp _ _ => presented acts n peer fp
  | UPinned fp | UEnroll fp | UCount fp | UEnrolled fp => presented acts n peer fp ∧ trusted acts n fp
  | UAccepted => rc_pin cfg = true → ∃ fp, presented acts n peer fp ∧ trusted acts n fp
  end.

Lemma phase_ok_snoc acts a n peer u : phase_ok acts n peer u → phase_ok (acts ++ [a]) n peer u.
Proof. destruct u; simpl; naive_solver. Qed.

Lemma phase_ok_step acts n peer u u' s' :
  rm_peers (li_shared l0) = ∅ → li_conns (after acts) !! n = Some (peer, u) → phase_ok acts n peer u →
  upgrade_step cfg peer u (li_shared (after acts)) = (Ok u', s') → phase_ok (acts ++ [AStep n]) n peer u'.
Proof.
  intros H0 Hn Hu Hs. apply upgrade_step_inv in Hs.
  destruct u'; simpl in *; auto.
  - destruct Hs as [-> Hf]. apply fingerprint_was_presented in Hf as (a1 & leaf & a2 & -> & Ho & Hfp); [|done].
    exists a1, leaf, a2, []. split; [by rewrite <-app_assoc|]. done.
  - destruct Hs as [-> Hp]. split; [by eauto|]. exists acts, [], peer. split; [done|]. left. split; [done|].
    by apply bool_decide_eq_true_1 in Hp.
  - subst u. eauto.
  - subst u. eauto.
  - destruct Hs as [-> Hp]. split; [by eauto|]. exists acts, [], peer. split; [done|]. right. split; [done|].
    by apply should_enroll_open.
  - subst u. destruct Hu. eauto.
  - subst u. destruct Hu. eauto.
  - intros Hpin. destruct Hs as [Hf|[->|(fp & [-> | [-> | ->]])]]; [congruence| |exists fp; destruct Hu; eauto..].
    destruct (Hu Hpin) as (fp & ? & ?). eauto.
Qed.

Lemma phase_ok_run acts n peer u :
  li_conns l0 = ∅ → rm_peers (li_shared l0) = ∅ →
  li_conns (after acts) !! n = Some (peer, u) → phase_ok acts n peer u.
Proof.
  intros H0 Hp0. revert n peer u. induction acts as [|a acts IH] using rev_ind; intros n peer u.
  - unfold run. simpl. by rewrite H0, lookup_empty.
  - rewrite run_snoc. destruct a as [p leaf|m p|m| | | |]; simpl; intros Hn;
      try (by apply phase_ok_snoc; eapply IH).
    + destruct (li_conns (after acts) !! m) eqn:Hm; [by apply phase_ok_snoc; eapply IH|].
      simpl in Hn. apply lookup_insert_Some in Hn as [[-> [= <- <-]]|[_ Hn]]; [done|].
      apply phase_ok_snoc. by eapply IH.
    + destruct (li_conns (after acts) !! m) as [[p v]|] eqn:Hm; [|by apply phase_ok_snoc; eapply IH].
      destruct (upgrade_step cfg p v (li_shared (after acts))) as [[v'|e] s'] eqn:Hs; simpl in Hn.
      * apply lookup_insert_Some in Hn as [[-> [= <- <-]]|[_ Hn]]; [by eapply phase_ok_step; eauto|].
        apply phase_ok_snoc. by eapply IH.
      * apply lookup_delete_Some in Hn as [_ Hn]. apply phase_ok_snoc. by eapply IH.
Qed.
End Histories.

(** C4: With client pinning on, in every interleaving of handshakes, upgrades and
    operator commands, an upgrade is accepted only if the client at its address
    presented a certificate in a TLS handshake, the last one from that address
    before the upgrade looked it up, and this certificate was trusted when the
    upgrade asked: the hex SHA-256 of the certificate was pinned at that moment, or trust
    on first use was on, below its cap and within its window. *)
Theorem accepted_upgrade_was_trusted {E : Env} {P : PinEnv} {K : AuditSink} {X : X509} cfg l0 acts n peer :
  li_conns l0 = ∅ → rm_peers (li_shared l0) = ∅ → rc_pin cfg = true →
  li_conns (run cfg l0 acts) !! n = Some (peer, UAccepted) →
  ∃ fp, presented cfg l0 acts n peer fp ∧ trusted cfg l0 acts n fp.
Proof. intros H0 Hp0 Hpin Hn. exact (phase_ok_run cfg l0 acts n peer UAccepted H0 Hp0 Hn Hpin). Qed.

(** How many of the actions are steps of upgrade [n], and whether its number is
    given to a new request. *)
Definition own_steps (n : nat) (acts : list Action) : nat :=
  length (List.filter (λ a, match a with AStep m => m =? n | _ => false end) acts).
Definition requests (n : nat) (a : Action) : Prop := match a with ARequest m _ => m = n | _ => False end.

(** An action other than a step of [n] leaves [n] where it is. *)
Lemma exec_other {E : Env} {P : PinEnv} {K : AuditSink} {X : X509} cfg l a n :
  ¬ requests n a → a ≠ AStep n → li_conns (listener_step cfg l a) !! n = li_conns l !! n.
Proof.
  intros Hr Hs. destruct a as [p leaf|m p|m| | | |]; try done; simpl in *.
  - destruct (li_conns l !! m); [done|]. simpl. by rewrite lookup_insert_ne.
  - destruct (li_conns l !! m) as [[p v]|]; [|done]. assert (m ≠ n) by congruence.
    destruct (upgrade_step cfg p v (li_shared l)) as [[v'|e] s']; simpl.
    + by rewrite lookup_insert_ne.
    + by rewrite lookup_delete_ne.
Qed.

Lemma run_gone {E : Env} {P : PinEnv} {K : AuditSink} {X : X509} cfg acts n l :
  Forall (λ a, ¬ requests n a) acts → li_conns l !! n = None → li_conns (run cfg l acts) !! n = None.
Proof.
  intros Hf. revert l. induction Hf as [|a acts Ha Hf IH]; intros l Hn; [done|]. simpl. apply IH.
  destruct (decide (a = AStep n)) as [->|Hne]; [by simpl; rewrite Hn|]. by rewrite exec_other.
Qed.

(** Every upgrade is decided. Whatever else runs in between, after at most six
    of its own steps an upgrade has been accepted or rejected, or its task has
    panicked in the audit sink and is gone. *)
Theorem upgrades_settle {E : Env} {P : PinEnv} {K : AuditSink} {X : X509} cfg l acts n peer u :
  li_conns l !! n = Some (peer, u) → Forall (λ a, ¬ requests n a) acts → rank u ≤ own_steps n acts →
  match li_conns (run cfg l acts) !! n with
  | Some (_, u') => settled u' = true
  | None => True
  end.
Proof.
  intros Hn Hf. revert l u Hn. induction Hf as [|a acts Ha Hf IH]; intros l u Hn Hr.
  - unfold run, own_steps in *. simpl in *. rewrite Hn. destruct u; simpl in *; done || lia.
  - change (run cfg l (a :: acts)) with (run cfg (listener_step cfg l a) acts).
    destruct (decide (a = AStep n)) as [->|Hne]; last first.
    { apply (IH _ u); [by rewrite exec_other|]. destruct a; try done. unfold own_steps in *. simpl in Hr.
      rewrite (proj2 (Nat.eqb_neq _ _)) in Hr by congruence. done. }
    unfold own_steps in Hr. simpl in Hr. rewrite Nat.eqb_refl in Hr. simpl in Hr. fold (own_steps n acts) in Hr.
    simpl. rewrite Hn. destruct (upgrade_step cfg peer u (li_shared l)) as [[v|e] s'] eqn:Hs; last first.
    { rewrite run_gone; [done..|]. simpl. by rewrite lookup_delete_eq. }
    apply (IH _ v); [simpl; by rewrite lookup_insert_eq|].
    destruct (settled u) eqn:Hset.
    + apply upgrade_step_inv in Hs. destruct u, v; simpl in *; naive_solver lia.
    + apply upgrade_step_rank in Hs; [lia|done].
Qed.

(** ** The enrolment cap *)

(** The upgrades for which [f] holds; those between the check of the cap and the
    insertion, and those between the insertion and the count. *)
Definition counting (f : Upgrade → bool) (l : Listener) : nat :=
  length (filter (λ c, f c.2.2 = true) (map_to_list (li_conns l))).
Definition inserting (u : Upgrade) : bool := match u with UEnroll _ => true | _ => false end.
Definition uncounted (u : Upgrade) : bool := match u with UCount _ => true | _ => false end.
Definition in_flight (l : Listener) : nat := counting inserting l + counting uncounted l.

(** The most upgrades in flight at the same time along a run. *)
Fixpoint peak {E : Env} {P : PinEnv} {K : AuditSink} {X : X509} (cfg : RemoteConfig) (l : Listener)
    (acts : list Action) : nat :=
  match acts with
  | [] => in_flight l
  | a :: acts' => in_flight l `max` peak cfg (listener_step cfg l a) acts'
  end.

(** The certificates the upgrades of a run added to the table. *)
Definition rows_added (l l' : Listener) : nat := length (rm_pins (li_shared l')) - length (rm_pins (li_shared l)).
Fixpoint enrolments {E : Env} {P : PinEnv} {K : AuditSink} {X : X509} (cfg : RemoteConfig) (l : Listener)
    (acts : list Action) : nat :=
  match acts with
  | [] => 0
  | a :: acts' =>
      (match a with AStep _ => rows_added l (listener_step cfg l a) | _ => 0 end) + enrolments cfg (listener_step cfg l a) acts'
  end.

(** The operator leaves first-use trust as it is, its window apart. *)
Definition keeps_mode (a : Action) : Prop := match a with ATofuEnable _ _ => False | _ => True end.

Definition weight (f : Upgrade → bool) (u : Upgrade) : nat := if f u then 1 else 0.

Lemma counting_split f (c : gmap nat (SocketAddr * Upgrade)) s n x :
  c !! n = Some x →
  counting f {| li_shared := s; li_conns := c |} = weight f x.2 + counting f {| li_shared := s; li_conns := delete n c |}.
Proof.
  intros Hn. unfold counting, weight. simpl. rewrite <-(map_to_list_delete c n x Hn).
  rewrite filter_cons. simpl. destruct (f x.2); case_decide; simpl; done || lia.
Qed.
Lemma counting_insert f (c : gmap nat (SocketAddr * Upgrade)) s n x :
  counting f {| li_shared := s; li_conns := <[n := x]> c |} = weight f x.2 + counting f {| li_shared := s; li_conns := delete n c |}.
Proof. rewrite (counting_split _ _ s n x) by apply lookup_insert_eq. by rewrite delete_insert_eq. Qed.

Section Cap.
Context {E : Env} {P : PinEnv} {K : AuditSink} {X : X509} (cfg : RemoteConfig) (m : Z).
Context (Hu32 : (m ≤ u32_max)%Z).

(** What a step may do: [ins] and [unc] are the two weights before and after, [added]
    the rows it adds. *)
Record step_counts (t t' : TofuMode) (ins ins' unc unc' added : nat) : Prop := {
  sc_enabled : tf_enabled t' = true → tf_enabled t = true ∧ tf_max_enrollments t' = tf_max_enrollments t ∧
    (m ≤ tf_current_count t → m ≤ tf_current_count t')%Z;
  sc_counted : tf_enabled t' = true →
    (tf_current_count t' + Z.of_nat unc' = tf_current_count t + Z.of_nat unc + Z.of_nat added ∨ m ≤ tf_current_count t')%Z;
  sc_admitted : added + ins' ≤ ins ∨
    (added = 0 ∧ ins' = ins + 1 ∧ unc' = unc ∧ t' = t ∧ tf_enabled t = true ∧ (tf_max_enrollments t = Some m → (tf_current_count t ≤ m - 1)%Z));
}.

Lemma step_counts_same t ins unc : step_counts t t ins ins unc unc 0.
Proof. split; [done|intros; left; lia|left; lia]. Qed.
Lemma step_counts_frame t t' i i' u u' a x y : step_counts t t' i i' u u' a → step_counts t t' (i + x) (i' + x) (u + y) (u' + y) a.
Proof.
  intros [He Hc Ha]. split; [done| |].
  - intros Ht. destruct (Hc Ht); [left; lia|by right].
  - destruct Ha as [?|(? & ? & ? & ? & ? & ?)]; [left; lia|right; split_and!; try done; lia].
Qed.

Lemma pin_insert_rows fp label s r s' :
  pin_insert fp label s = (r, s') →
  rm_tofu s' = rm_tofu s ∧ length (rm_pins s') = length (rm_pins s) + match r with Ok true => 1 | _ => 0 end.
Proof.
  unfold pin_insert, mbind, M_bind, on_world, stmt, now, gets, modify, mret, M_ret.
  destruct (db_fault _); simpl; [intros [= <- <-]; simpl; split; [done|lia]|]. unfold insert_row.
  destruct (pinned _ _); simpl; intros [= <- <-]; simpl; rewrite ?length_app; simpl; split; (done || lia).
Qed.
Lemma upgrade_step_counts peer u s r s' :
  upgrade_step cfg peer u s = (r, s') →
  step_counts (rm_tofu s) (rm_tofu s') (weight inserting u) (match r with Ok u' => weight inserting u' | Err _ => 0 end)
    (weight uncounted u) (match r with Ok u' => weight uncounted u' | Err _ => 0 end) (length (rm_pins s') - length (rm_pins s)).
Proof.
  intros H.
  assert (∀ (c : D unit) r1 s1, on_world c s = (r1, s1) → rm_tofu s1 = rm_tofu s ∧ rm_pins s1 = rm_pins s) as Hw.
  { intros c r1 s1 Hc. destruct (on_world_frame c s) as (w & Hf & _). rewrite Hc in Hf. by simplify_eq/=. }
  assert (∀ i i' t, i' ≤ i → t = rm_tofu s → step_counts (rm_tofu s) t i i' 0 0 0) as Hsame.
  { intros i i' t Hi ->. split; [done|intros; left; lia|left; lia]. }
  assert (∀ (c : D unit) u' k, (let '(r, s') := on_world c s in match r with Ok _ => (Ok u', s') | Err e => (Err e, s') end) = (r, s') →
    weight inserting k = 0 → weight uncounted k = 0 → weight inserting u' = 0 → weight uncounted u' = 0 →
    step_counts (rm_tofu s) (rm_tofu s') (weight inserting k) (match r with Ok u' => weight inserting u' | Err _ => 0 end)
      (weight uncounted k) (match r with Ok u' => weight uncounted u' | Err _ => 0 end) (length (rm_pins s') - length (rm_pins s))) as Hrec.
  { intros c u' k Hc -> -> H3 H4. destruct (on_world c s) as [[]] eqn:Ho; apply Hw in Ho as [Hr Hp]; simplify_eq/=;
      rewrite Hp, Nat.sub_diag, ?H3, ?H4; by apply Hsame. }
  destruct u; simpl in H; unfold mbind, M_bind, audit_failure_pin in H.
  - destruct (rc_pin cfg); unfold gets, mret, M_ret in H; [destruct (peer_fingerprint peer s)|];
      simplify_eq/=; rewrite Nat.sub_diag; by apply Hsame.
  - destruct (pin_contains_spec fp s) as (b & w & Hc & _). rewrite Hc in H. unfold mret, M_ret in H.
    destruct b; simplify_eq/=; rewrite Nat.sub_diag; by apply Hsame.
  - by eapply Hrec; [exact H|..].
  - unfold now_timestamp, on_world, now, mbind, M_bind, gets, modify, mret, M_ret in H. simpl in H.
    destruct (is_expired_at _ _).
    + simpl in H. destruct (tf_enabled_at (rm_tofu s)); simplify_eq/=; rewrite Nat.sub_diag; by split; [..|left; cbn; lia].
    + destruct (should_enroll_at _ _) eqn:Hs; simplify_eq/=; rewrite Nat.sub_diag; [|by apply Hsame].
      apply should_enroll_open in Hs as (Hen & Hmx & _). split; [done|intros; left; cbn; lia|]. right. split_and!; try done.
      intros Hm. specialize (Hmx _ Hm). lia.
  - by eapply Hrec; [exact H|..].
  - unfold attempt_in in H. destruct (pin_insert fp "tofu-auto" s) as [r1 s1] eqn:Hi. apply pin_insert_rows in Hi as [Ht Hi].
    destruct r1 as [[]|[]]; unfold mret, M_ret in H; simplify_eq/=; rewrite Hi, ?Nat.add_sub_swap, ?Nat.sub_diag by done; try (apply Hsame; [cbn; lia|done]).
    rewrite Ht. split; [done|intros; left; cbn; lia|left; cbn; lia].
  - unfold modify, mret, M_ret in H. simplify_eq/=. rewrite Nat.sub_diag.
    split; simpl; unfold u32_saturating_add; [intros; split_and!; [done..|lia]|intros _; unfold weight; cbn -[u32_max Z.min]; lia|left; cbn; lia].
  - by eapply Hrec; [exact H|..].
  - by eapply Hrec; [exact H|..].
  - unfold mret, M_ret in H. simplify_eq/=. rewrite Nat.sub_diag. by apply Hsame.
  - unfold mret, M_ret in H. simplify_eq/=. rewrite Nat.sub_diag. by apply Hsame.
Qed.

(** A listener after [e] enrolments: while first-use trust is on every enrolment is in
    the counter or still to be counted, or the counter is at the cap. *)
Definition all_counted (c0 : Z) (e : nat) (l : Listener) : Prop :=
  let t := rm_tofu (li_shared l) in
  tf_enabled t = true →
  tf_max_enrollments t = Some m ∧
  (c0 + Z.of_nat e ≤ tf_current_count t + Z.of_nat (counting uncounted l) ∨ m ≤ tf_current_count t)%Z.

Lemma step_all_counted c0 e l l' added ins' :
  step_counts (rm_tofu (li_shared l)) (rm_tofu (li_shared l')) (counting inserting l) ins' (counting uncounted l) (counting uncounted l') added →
  all_counted c0 e l → all_counted c0 (e + added) l'.
Proof.
  intros [He Hc _] Ha Ht. specialize (Hc Ht). specialize (He Ht) as (He & Hmx & Hm). destruct (Ha He) as [Hmax Hcount].
  split; [by rewrite Hmx|]. lia.
Qed.
Lemma step_bound c0 e l l' added B :
  step_counts (rm_tofu (li_shared l)) (rm_tofu (li_shared l')) (counting inserting l) (counting inserting l') (counting uncounted l) (counting uncounted l') added →
  all_counted c0 e l → (c0 + Z.of_nat (e + counting inserting l) ≤ B)%Z → (m - 1 + Z.of_nat (in_flight l') ≤ B)%Z →
  (c0 + Z.of_nat (e + added + counting inserting l') ≤ B)%Z.
Proof.
  intros [_ _ Had] Ha Hb Hp. unfold in_flight in Hp. destruct Had as [?|(-> & Hi & Hu & _ & He & Hlt)]; [lia|].
  destruct (Ha He) as [Hmax Hcount]. specialize (Hlt Hmax). lia.
Qed.

Lemma listener_step_counts l a :
  keeps_mode a →
  let l' := listener_step cfg l a in
  step_counts (rm_tofu (li_shared l)) (rm_tofu (li_shared l')) (counting inserting l) (counting inserting l') (counting uncounted l) (counting uncounted l')
    (match a with AStep _ => rows_added l l' | _ => 0 end).
Proof.
  intros Ha l'. subst l'.
  assert (∀ t i u i' u' x, t = rm_tofu (li_shared l) → i' = i → u' = u → x = 0 → step_counts (rm_tofu (li_shared l)) t i i' u u' x) as Hsame.
  { intros ? ? ? ? ? ? -> -> -> ->. apply step_counts_same. }
  destruct a as [p leaf|n p|n|e mx'|age|pem label|fp]; cbn [listener_step keeps_mode] in *.
  - unfold accept. destruct (rc_mtls cfg); by apply Hsame.
  - destruct (li_conns l !! n) eqn:Hn; [by apply Hsame|]. destruct l as [s c]. cbn [li_conns li_shared] in *.
    rewrite !counting_insert, delete_id by done. by apply Hsame.
  - destruct (li_conns l !! n) as [[p u]|] eqn:Hn; [|unfold rows_added; apply Hsame; [done..|lia]].
    destruct l as [s c]. cbn [li_conns li_shared] in *. destruct (upgrade_step cfg p u s) as [r s'] eqn:Hs.
    apply upgrade_step_counts in Hs. rewrite !(counting_split _ c s n _ Hn).
    apply (step_counts_frame _ _ _ _ _ _ _ (counting inserting {| li_shared := s; li_conns := delete n c |})
      (counting uncounted {| li_shared := s; li_conns := delete n c |})) in Hs.
    destruct r as [v|]; cbn [li_shared]; rewrite ?counting_insert; exact Hs.
  - done.
  - unfold daemon_pin_client_tofu_expiry_set, mbind, M_bind, gets, modify, mret, M_ret, now_timestamp, throw, tofu_set_expiry, on_world.
    simpl. destruct (tf_enabled (rm_tofu (li_shared l))) eqn:He, (tf_enabled_at (rm_tofu (li_shared l))); simpl;
      first [ by apply Hsame | split; simpl; rewrite ?He; [done|intros; left; unfold counting; simpl; lia|left; unfold counting; simpl; lia] ].
  - unfold daemon_pin_client_add, add_from_pem, mbind, M_bind, throw.
    destruct (fingerprint_from_pem pem) as [fp|]; [|by apply Hsame].
    destruct (pin_insert fp label (li_shared l)) as [r s'] eqn:Hi. apply pin_insert_rows in Hi as [Ht _].
    destruct r; by apply Hsame.
  - unfold daemon_pin_client_remove, pin_remove, mbind, M_bind, on_world, stmt, gets, modify, mret, M_ret.
    destruct (db_fault _); by apply Hsame.
Qed.

Lemma enrolments_bound c0 B acts l e :
  Forall keeps_mode acts → all_counted c0 e l → (c0 + Z.of_nat (e + counting inserting l) ≤ B)%Z →
  (m - 1 + Z.of_nat (peak cfg l acts) ≤ B)%Z → (c0 + Z.of_nat (e + enrolments cfg l acts) ≤ B)%Z.
Proof.
  intros Hf. revert l e. induction Hf as [|a acts Ha Hf IH]; intros l e Hall Hb Hp; [cbn; lia|]. cbn [enrolments peak] in *.
  pose proof (listener_step_counts l a Ha) as Hs. cbv zeta in Hs.
  assert (in_flight (listener_step cfg l a) ≤ peak cfg (listener_step cfg l a) acts) by (destruct acts; cbn [peak]; lia).
  rewrite Nat.add_assoc. apply IH; [by eapply step_all_counted|eapply step_bound; [done..|lia]|lia].
Qed.
End Cap.

(** C20: How far the cap on first-use enrolments can be exceeded. From a moment where
    trust on first use is on with cap [m], has counted [c] certificates and no
    upgrade is enrolling one, until an operator switches it again, the certificates that
    upgrades add to the table, together with those counted before, are at most [m - 1]
    plus the largest number of upgrades that were between their check of the cap and
    their count at the same time (or [c], if the cap was already passed); so with
    one upgrade at a time the cap holds exactly. *)
Theorem cap_overshoot_bounded {E : Env} {P : PinEnv} {K : AuditSink} {X : X509} cfg m l acts :
  let t := rm_tofu (li_shared l) in
  tf_enabled t = true → tf_max_enrollments t = Some m → (m ≤ u32_max)%Z → in_flight l = 0 → Forall keeps_mode acts →
  (tf_current_count t + Z.of_nat (enrolments cfg l acts) ≤
   Z.max (tf_current_count t) (m - 1 + Z.of_nat (peak cfg l acts)))%Z.
Proof.
  intros t He Hm Hu H0 Hf. unfold in_flight in H0.
  apply (enrolments_bound cfg m Hu (tf_current_count t) _ acts l 0 Hf); [intros _; split; [done|left; fold t; lia]|lia|lia].
Qed.

(** A database fault while a certificate is being enrolled on first use still
    lets it in: the upgrade is accepted, although the certificate is not in the
    table, no enrolment is counted and nothing is written to the audit log. *)
Theorem failed_enrolment_is_accepted {E : Env} {P : PinEnv} {K : AuditSink} cfg peer fp s :
  db_fault (w_stmts (rm_world s)) = true →
  ∃ s', upgrade_step cfg peer (UEnroll fp) s = (Ok UAccepted, s') ∧ rm_pins s' = rm_pins s ∧
    rm_tofu s' = rm_tofu s ∧ w_audit (rm_world s') = w_audit (rm_world s).
Proof.
  intros Hd. eexists. simpl. unfold attempt_in, pin_insert, mbind, M_bind, on_world, stmt. simpl. rewrite Hd.
  simpl. split; [reflexivity|]. done.
Qed.

(** * Theorems on tokens and sessions *)

(** An audit entry, or none, changes nothing but the tables. *)
Lemma maybe_audit {S} {HW : HasWorld S} {L : HasWorldLaws S} {A} (b : bool) (c : D A) (a : A) (s s' : S) r :
  (if b then on_world c else mret a) s = (r, s') → ∃ w, s' = put_world w s.
Proof.
  destruct b; intros H.
  - unfold on_world in H. case_match. simplify_eq. by eexists.
  - injection H as <- <-. exists (world_of s). by rewrite put_world_of.
Qed.
Lemma on_world_audit {S} {HW : HasWorld S} {L : HasWorldLaws S} {A} (c : D A) (s s' : S) r :
  on_world c s = (r, s') → ∃ w, s' = put_world w s.
Proof. unfold on_world. case_match. intros. simplify_eq. by eexists. Qed.

(** The constant-time comparisons decide equality: both loops (the remote
    listener's and the Raft transport's) return true exactly on equal byte strings,
    whatever their lengths. *)
Theorem constant_eq_is_equality a b :
  constant_eq a b = bool_decide (a = b) ∧ constant_time_eq a b = bool_decide (a = b).
Proof. split; [apply constant_eq_spec|exact (constant_eq_spec a b)]. Qed.

(** No surface of the listener answers without the configured token. A PTY
    upgrade needs it as a subprotocol or in the query, the Web UI and the Raft
    endpoints need it as a bearer header; with it the Web UI and Raft requests go
    through, and a refusal changes nothing but the audit log. *)
Theorem surfaces_need_the_token {E : Env} {K : AuditSink} cfg bridge_id h query peer path audited s :
  (∀ r s', pty_ws_handler cfg bridge_id h query s = (Ok (Upgraded r), s') →
     (snd <$> parse_bearer_subprotocol h = Some (rc_token cfg) ∨ query = Some (rc_token cfg)) ∧
     bridge_id ∈ rm_ptys s) ∧
  (∀ o s', bearer_auth cfg peer path h s = (Ok o, s') →
     if decide (extract_bearer h = Some (rc_token cfg)) then o = Served
     else o = Unauthorized ∧ ∃ w, s' = put_world w s) ∧
  (∀ o s', raft_auth_middleware (Some (rc_token cfg)) audited (Some peer) h s = (Ok o, s') →
     if decide (bearer_from_headers h = Some (rc_token cfg)) then o = Served ∧ s' = s
     else o = Unauthorized ∧ ∃ w, s' = put_world w s).
Proof.
  split; [|split].
  - intros r s'. unfold pty_ws_handler, header_token_ok. rewrite !token_ok_spec.
    destruct (negb _ && negb _) eqn:Hn; [done|]. intros H.
    inv_bind H u s1 Ha. apply maybe_audit in Ha as [w ->]. inv_bind H known s2 Hk. run_simpl Hk.
    destruct (bool_decide (bridge_id ∈ _)) eqn:Hb; run_simpl H.
    apply bool_decide_eq_true in Hb. split; [|done].
    apply andb_false_iff in Hn as [Hn|Hn]; apply negb_false_iff, bool_decide_eq_true in Hn; auto.
  - intros o s'. unfold bearer_auth. rewrite token_ok_spec. case_bool_decide as Hb; case_decide as Hd; try done; simpl; intros H.
    + inv_bind H new s1 H1. inv_bind H u s2 H2. inv_bind H u' s3 H3. by run_simpl H.
    + inv_bind H u s1 H1. apply on_world_audit in H1 as [w ->]. run_simpl H. split; [done|]. by eexists.
  - intros o s'. unfold raft_auth_middleware.
    assert ((match bearer_from_headers h with Some t => constant_time_eq t (rc_token cfg) | None => false end)
      = bool_decide (bearer_from_headers h = Some (rc_token cfg))) as ->.
    { destruct (bearer_from_headers h) as [t|]; [|done]. change (constant_eq t (rc_token cfg) = bool_decide (Some t = Some (rc_token cfg))). rewrite constant_eq_spec.
      apply bool_decide_ext. naive_solver. }
    case_bool_decide as Hb; case_decide as Hd; try done; intros H; [by run_simpl H|].
    inv_bind H u s1 H1. apply maybe_audit in H1 as [w ->]. run_simpl H. split; [done|]. by eexists.
Qed.

(** The refusal, as a run of its own: what reaches the client and the state. *)
Lemma auth_refused {E : Env} {K : AuditSink} cfg sf peer timed_out stream (s s' : Socket) r :
  (timed_out = false → ∀ m rest, stream = InText m :: rest → presented_token m ≠ Some (rc_token cfg)) →
  auth_handshake cfg sf peer timed_out stream s = (r, s') →
  (∀ l, r ≠ Ok (Some l)) ∧ ∃ w sent, so_remote s' = put_world w (so_remote s) ∧ so_sent s' = so_sent s ++ sent ∧
    ∀ o, o ∈ sent → o = OutClose ∨ ∃ v, o = OutText (json_to_string v) ∧ get v "auth" = None.
Proof.
  intros Hno H. unfold auth_handshake in H.
  assert (∀ rsn, (_ ← audit_failure peer rsn; mret None : M Socket Fault (option (list Inbound))) s = (r, s') →
    (∀ l, r ≠ Ok (Some l)) ∧ ∃ w sent, so_remote s' = put_world w (so_remote s) ∧ so_sent s' = so_sent s ++ sent ∧
    ∀ o, o ∈ sent → o = OutClose ∨ ∃ v, o = OutText (json_to_string v) ∧ get v "auth" = None) as Hquiet.
  { intros rsn Hq. unfold mbind, M_bind, audit_failure in Hq. destruct (on_world _ s) as [[u|e] s1] eqn:Ha;
      apply on_world_audit in Ha as [w ->]; unfold mret, M_ret in Hq; simplify_eq/=; (split; [done|]);
      exists w, []; (split; [done|]); (split; [by rewrite app_nil_r|set_solver]). }
  destruct timed_out; [by apply (Hquiet _ H)|].
  destruct stream as [|[m|m| | |] rest]; [by apply (Hquiet _ H)| |by apply (Hquiet _ H)..].
  rewrite token_ok_spec, bool_decide_false in H by (by eapply Hno).
  unfold mbind, M_bind, audit_failure in H. destruct (on_world _ s) as [[u|e] s1] eqn:Ha;
    apply on_world_audit in Ha as [w ->]; unfold send, mret, M_ret in H; simplify_eq/=; (split; [done|]); exists w.
  - assert (∀ x y : bool, ∃ sent, (if y then (if x then so_sent s ++ [OutText (json_to_string (JObject [("error",
        JObject [("code", jint INVALID_REQUEST); ("message", JString "auth failed")])]))] else so_sent s) ++ [OutClose]
        else (if x then so_sent s ++ [OutText (json_to_string (JObject [("error",
        JObject [("code", jint INVALID_REQUEST); ("message", JString "auth failed")])]))] else so_sent s)) = so_sent s ++ sent ∧
        ∀ o, o ∈ sent → o = OutClose ∨ ∃ v, o = OutText (json_to_string v) ∧ get v "auth" = None) as Hs.
    { intros [] []; rewrite <-?app_assoc; eexists; (split; [try reflexivity; by rewrite app_nil_r|]); intros o Ho;
        repeat (apply elem_of_cons in Ho as [->|Ho]); try set_solver; eauto. }
    destruct (Hs (negb (sf (so_tries s))) (negb (sf (S (so_tries s))))) as (sent & Heq & Ho). by exists sent.
  - exists []. split; [done|]. split; [by rewrite app_nil_r|set_solver].
Qed.

(** C10: No session without the token. When neither the subprotocol nor the query
    carried it and the first frame does not present it in time, the socket ends
    in the handshake: no request of the stream is dispatched (the run is the same
    whatever the handlers are), no session is counted, pins, modes and terminals
    stay as they are, and nothing but the refusal is sent. *)
Theorem session_needs_the_token {E : Env} {K : AuditSink} {H : Handlers Remote} {C : RpcCodec Remote}
    cfg sf peer query timed_out shutdown stream (s s' : Socket) r :
  query ≠ Some (rc_token cfg) →
  (timed_out = false → ∀ m rest, stream = InText m :: rest → presented_token m ≠ Some (rc_token cfg)) →
  handle_socket cfg sf peer query false timed_out shutdown stream s = (r, s') →
  (_ ← take_peer cfg peer; _ ← auth_handshake cfg sf peer timed_out stream; mret tt) s = (r, s') ∧
  rm_sessions (so_remote s') = rm_sessions (so_remote s) ∧ rm_pins (so_remote s') = rm_pins (so_remote s) ∧
  rm_tofu (so_remote s') = rm_tofu (so_remote s) ∧ rm_ptys (so_remote s') = rm_ptys (so_remote s) ∧
  ∃ sent, so_sent s' = so_sent s ++ sent ∧
    ∀ o, o ∈ sent → o = OutClose ∨ ∃ v, o = OutText (json_to_string v) ∧ get v "auth" = None.
Proof.
  intros Hq Hno Hrun. unfold handle_socket in Hrun. rewrite token_ok_spec, bool_decide_false in Hrun by done.
  simpl in Hrun. unfold mbind, M_bind in Hrun |- *.
  assert (∃ w p, (take_peer cfg peer s).2 = put_world w {| so_remote := set_peers p (so_remote s); so_sent := so_sent s; so_tries := so_tries s |}) as (w & p & Htake).
  { unfold take_peer, mbind, M_bind, gets, on_remote, modify, mret, M_ret. destruct (rc_mtls cfg).
    - destruct (rm_peers (so_remote s) !! peer); simpl; [|by exists (rm_world (so_remote s)), (delete peer (rm_peers (so_remote s)))].
      destruct (on_world _ _) as [[] s1] eqn:Ha; apply on_world_audit in Ha as [w ->]; simpl;
        by exists w, (delete peer (rm_peers (so_remote s))).
    - exists (rm_world (so_remote s)), (rm_peers (so_remote s)). by destruct s as [[] ? ?]. }
  destruct (take_peer cfg peer s) as [[mp|e] s1] eqn:Ht; simpl in Htake; subst s1.
  - unfold mret, M_ret in Hrun |- *.
    match type of Hrun with context [auth_handshake cfg sf peer timed_out stream ?x] =>
      destruct (auth_handshake cfg sf peer timed_out stream x) as [o s2] eqn:Ha end.
    apply auth_refused in Ha as (Hr & w2 & sent & Hrem & Hsent & Ho); [|done].
    destruct o as [[l|]|e]; [by destruct (Hr l)|..]; simplify_eq/=; rewrite Hrem; eauto 10.
  - simplify_eq/=. repeat (split; [done|]). exists []. rewrite app_nil_r. set_solver.
Qed.

(** ** Serving requests *)

Section Serving.
Context {E : Env} {H : Handlers Remote} {C : RpcCodec Remote}.

(** One answer per request, in order. *)
Definition answer (raw : string) : R RpcResponse :=
  match rpc_from_str raw with Ok req => dispatch req | Err e => mret (parse_failure e) end.
Fixpoint answer_all (raws : list string) : R (list RpcResponse) :=
  match raws with
  | [] => mret []
  | raw :: rest => resp ← answer raw; l ← answer_all rest; mret (resp :: l)
  end.

(** The requests of a stream: its text frames, less a first one that is a stale
    authentication frame of a client that is already authenticated. *)
Definition texts (stream : list Inbound) : list string :=
  omap (λ f, match f with InText s => Some s | _ => None end) stream.
Definition requests_of (may_drain : bool) (stream : list Inbound) : list string :=
  match texts stream with
  | raw :: rest => if may_drain && is_legacy_auth_frame raw then rest else raw :: rest
  | [] => []
  end.
Definition ends_session (f : Inbound) : bool := match f with InClose | InError => true | _ => false end.

(** A session serves its requests: on a working connection, the stream up to
    the client's close is answered with exactly one response per text frame, in
    order, each request dispatched in the state the previous ones left; binary
    frames and pings are skipped, and one stale authentication frame is dropped
    only for a client that authenticated before the session. *)
Theorem session_serves_in_order may_drain stream last s l s1 (encode : RpcResponse → string) :
  Forall (λ f, ends_session f = false) stream → match last with f :: _ => ends_session f = true | [] => True end →
  (∀ resp, rpc_to_string resp = Some (encode resp)) →
  answer_all (requests_of may_drain stream) (so_remote s) = (Ok l, s1) →
  rpc_loop (λ _, false) may_drain None (stream ++ last) s =
    (Ok tt, {| so_remote := s1; so_sent := so_sent s ++ (OutText ∘ encode <$> l); so_tries := so_tries s + length l |}).
Proof.
  intros Hf Hlast Henc. revert may_drain s l s1. induction Hf as [|f stream Hend Hf IH]; intros drain s l s1 Hall.
  - injection Hall as <- <-. destruct last as [|f last]; simpl in *.
    + destruct s. simpl. unfold mret, M_ret. by rewrite app_nil_r, Nat.add_0_r.
    + destruct f; try done; destruct s; simpl; unfold mret, M_ret; by rewrite app_nil_r, Nat.add_0_r.
  - destruct f as [raw|b| | |]; try done; [|by apply IH..].
    cbn [app rpc_loop]. change (requests_of drain (InText raw :: stream)) with
      (if drain && is_legacy_auth_frame raw then texts stream else raw :: texts stream) in Hall.
    assert (∀ x, requests_of false x = texts x) as Hreq by (intros x; unfold requests_of; by destruct (texts x)).
    destruct (drain && is_legacy_auth_frame raw); [apply IH; by rewrite Hreq|].
    cbn [answer_all] in Hall. apply bind_ok in Hall as (resp & r1 & Hresp & Hall).
    apply bind_ok in Hall as (l' & r2 & Hl' & Hall). injection Hall as <- <-.
    assert ((match rpc_from_str raw with Ok req => on_remote (dispatch req) | Err e => mret (parse_failure e) end) s
      = (Ok resp, {| so_remote := r1; so_sent := so_sent s; so_tries := so_tries s |})) as Hstep.
    { unfold answer in Hresp. destruct (rpc_from_str raw); [unfold on_remote; by rewrite Hresp|].
      injection Hresp as <- <-. by destruct s. }
    unfold mbind, M_bind. rewrite Hstep. rewrite Henc. cbn [send negb]. unfold send. simpl.
    rewrite (IH false _ l' r2); simpl; [|by rewrite Hreq].
    rewrite <-app_assoc. by rewrite Nat.add_succ_r.
Qed.
End Serving.

(** A token survives the wire: for every non-empty token of visible characters,
    the header the Raft client sends is read back as that token by the Raft
    middleware and by the Web UI, and as a subprotocol entry by the WebSocket
    handlers. *)
Theorem bearer_token_roundtrip tok :
  tok ≠ "" → str_all visible tok = true → has_char comma tok = false →
  bearer_from_headers (bearer_header tok) = Some tok ∧ extract_bearer (bearer_header tok) = Some tok ∧
  parse_bearer_subprotocol [("sec-websocket-protocol", "Bearer." +:+ tok)] = Some ("Bearer." +:+ tok, tok).
Proof.
  intros Hne Hv Hc. unfold bearer_from_headers, extract_bearer, parse_bearer_subprotocol, bearer_header.
  change (get_all [("authorization", "Bearer " +:+ tok)] "authorization") with ["Bearer " +:+ tok].
  change (get_all [("sec-websocket-protocol", "Bearer." +:+ tok)] "sec-websocket-protocol") with ["Bearer." +:+ tok].
  cbn [head mbind option_bind first_some]. rewrite to_str_bearer by done. cbn [option_bind]. split; [|split].
  - change (strip_prefix "Bearer " ("Bearer " +:+ tok)) with (Some tok). simpl.
    rewrite trim_visible by done. by rewrite decide_False.
  - cbn [mbind option_bind]. rewrite trim_bearer by done. change ("Bearer " +:+ tok) with ("Bearer" +:+ String space tok).
    rewrite split_once_app by done. cbn [mbind option_bind]. change (eq_ignore_ascii_case "Bearer" "bearer") with true.
    cbn [negb]. rewrite trim_visible by done. by rewrite decide_False.
  - assert (str_all visible ("Bearer." +:+ tok) = true) as Hv' by (by rewrite str_all_app, Hv).
    unfold to_str at 1. rewrite (str_all_impl visible) by
      (done || (unfold visible; intros c Hvc%bool_decide_eq_true; by rewrite bool_decide_true by lia)).
    cbn [mbind option_bind]. assert (split comma ("Bearer." +:+ tok) = ["Bearer." +:+ tok]) as ->.
    { assert (has_char comma ("Bearer." +:+ tok) = false) as Hc' by (by rewrite has_char_app, Hc).
      revert Hc'. generalize ("Bearer." +:+ tok). clear. intros x. induction x as [|c x IH]; [done|].
      simpl. intros [H1 H2]%orb_false_elim. apply bool_decide_eq_false in H1. rewrite decide_False by done.
      by rewrite IH. }
    cbn [first_some]. unfold bearer_entry. rewrite trim_visible by done.
    change (strip_prefix "Bearer." ("Bearer." +:+ tok)) with (Some tok). cbn. by rewrite decide_False.
Qed.

(** ** The log *)

Section RemoteSafe.
Context {E : Env} {P : PinEnv} {K : AuditSink} {KL : AuditSinkLaws K} {X : X509}.
Context {H : Handlers Remote} {C : RpcCodec Remote} {HL : HandlersLaws Remote}.

#[export] Instance safe_in_upgrade_step cfg peer u : SafeIn (upgrade_step cfg peer u).
Proof. destruct u; simpl; unfold audit_failure_pin; solve_safe. Qed.

#[export] Instance safe_in_accept cfg peer outcome : SafeIn (accept cfg peer outcome).
Proof. unfold accept. solve_safe. Qed.

#[export] Instance safe_in_on_remote {A} (c : R A) : SafeIn c → SafeIn (on_remote c).
Proof. intros Hc s. unfold on_remote. specialize (Hc (so_remote s)). destruct (c (so_remote s)). done. Qed.
#[export] Instance safe_in_send sf m : SafeIn (send sf m).
Proof. intros s. done. Qed.
#[export] Instance safe_in_take_peer cfg peer : SafeIn (take_peer cfg peer).
Proof. unfold take_peer. solve_safe. Qed.
#[export] Instance safe_in_auth_handshake cfg sf peer t stream : SafeIn (auth_handshake cfg sf peer t stream).
Proof. unfold auth_handshake, audit_failure. solve_safe. Qed.
#[export] Instance safe_in_rpc_loop sf drain shutdown stream : SafeIn (rpc_loop sf drain shutdown stream).
Proof.
  revert drain shutdown. induction stream as [|f stream IH]; intros drain shutdown; destruct shutdown as [[|n]|]; simpl;
    solve_safe; apply IH.
Qed.
#[export] Instance safe_in_open_session cfg sf peer mp drain shutdown stream :
  SafeIn (open_session cfg sf peer mp drain shutdown stream).
Proof. unfold open_session. solve_safe. Qed.
#[export] Instance safe_in_handle_socket cfg sf peer q h t shutdown stream :
  SafeIn (handle_socket cfg sf peer q h t shutdown stream).
Proof. unfold handle_socket. solve_safe. Qed.
End RemoteSafe.

(** Remote access keeps the audit log whole: whatever arrives (handshakes,
    upgrades in any interleaving, operator commands, the frames of a session with
    or without the token, failing sends, panics), rows are only added and the log
    still verifies, for any sink and any handlers within their laws. *)
Theorem remote_keeps_log_valid {E : Env} {P : PinEnv} {K : AuditSink} {KL : AuditSinkLaws K} {X : X509}
    {H : Handlers Remote} {C : RpcCodec Remote} {HL : HandlersLaws Remote}
    cfg l acts sf peer query header timed_out shutdown stream (s : Socket) from :
  let w' := rm_world (li_shared (run cfg l acts)) in
  let w'' := world_of (handle_socket cfg sf peer query header timed_out shutdown stream s).2 in
  (audit_inv (rm_world (li_shared l)) →
     w_audit (rm_world (li_shared l)) `prefix_of` w_audit w' ∧ vr_broken_at (verify_rows from (w_audit w')) = None) ∧
  (audit_inv (world_of s) →
     w_audit (world_of s) `prefix_of` w_audit w'' ∧ vr_broken_at (verify_rows from (w_audit w'')) = None).
Proof.
  intros w' w''. subst w' w''. split; intros Hinv.
  - enough (log_extends (rm_world (li_shared l)) (rm_world (li_shared (run cfg l acts)))) as Hx
      by (destruct (log_extends_valid _ _ from Hx Hinv) as (? & _ & ?); done).
    clear Hinv. revert l. induction acts as [|a acts IH]; intros l; [reflexivity|].
    change (run cfg l (a :: acts)) with (run cfg (listener_step cfg l a) acts). etrans; [|apply IH].
    destruct a; cbn [listener_step].
    + exact (safe_in (c := accept cfg (Some peer0) (Ok leaf)) (li_shared l)).
    + destruct (li_conns l !! n); reflexivity.
    + destruct (li_conns l !! n) as [[p u]|]; [|reflexivity].
      pose proof (safe_in (c := upgrade_step cfg p u) (li_shared l)) as Hs. by destruct (upgrade_step _ _ _ _) as [[] ?].
    + exact (safe_in (c := daemon_pin_client_tofu_enable enable max_enrollments) (li_shared l)).
    + exact (safe_in (c := daemon_pin_client_tofu_expiry_set max_age_secs) (li_shared l)).
    + exact (safe_in (c := daemon_pin_client_add pem label) (li_shared l)).
    + exact (safe_in (c := daemon_pin_client_remove fp) (li_shared l)).
  - pose proof (safe_in (c := handle_socket cfg sf peer query header timed_out shutdown stream) s) as Hx.
    by destruct (log_extends_valid _ _ from Hx Hinv) as (? & _ & ?).
Qed.

(** * Examples *)

#[export] Instance toy_x509 : X509 := {| x509_common_name := λ der, Some der |}.
Definition pinned_cfg : RemoteConfig := spawn_config "s3cret" (Some {| cert_path := "c"; key_path := "k"; client_ca := Some "ca" |}) true.
Definition peer_a : SocketAddr := {| sa_v6 := false; sa_ip := "10.0.0.1"; sa_port := 4001 |}.
Definition peer_b : SocketAddr := {| sa_v6 := false; sa_ip := "10.0.0.2"; sa_port := 4002 |}.
Definition fresh_remote : Remote :=
  {| rm_world := empty_world; rm_pins := []; rm_tofu := disabled; rm_peers := ∅; rm_sessions := 0; rm_seen := ∅;
     rm_ptys := {["pty-1"]} |}.
Definition fresh_listener : Listener := {| li_shared := fresh_remote; li_conns := ∅ |}.

(** Two clients with unknown certificates arrive while one enrolment is allowed. *)
Definition rush : list Action :=
  [ATofuEnable true (Some 1%Z); AHandshake peer_a (Some "cert-a"); AHandshake peer_b (Some "cert-b");
   ARequest 0 peer_a; ARequest 1 peer_b; AStep 0; AStep 1; AStep 0; AStep 1; AStep 0; AStep 1;
   AStep 0; AStep 0; AStep 0; AStep 1; AStep 1; AStep 1].

Lemma accepted_upgrade_was_trusted_witness :
  ∃ fp, presented (E := toy_env) (K := NoopAuditSink) pinned_cfg fresh_listener rush 1 peer_b fp ∧
    trusted (E := toy_env) (K := NoopAuditSink) pinned_cfg fresh_listener rush 1 fp.
Proof.
  apply (accepted_upgrade_was_trusted (E := toy_env) (K := NoopAuditSink) pinned_cfg fresh_listener rush 1 peer_b).
  - reflexivity.
  - reflexivity.
  - reflexivity.
  - vm_compute. reflexivity.
Defined.

Lemma upgrades_settle_witness :
  match li_conns (run (E := toy_env) (K := NoopAuditSink) pinned_cfg
    {| li_shared := fresh_remote; li_conns := {[0 := (peer_a, UStart)]} |} (replicate 6 (AStep 0))) !! 0 with
  | Some (_, u') => settled u' = true
  | None => True
  end.
Proof.
  apply (upgrades_settle (E := toy_env) (K := NoopAuditSink) pinned_cfg _ _ 0 peer_a UStart).
  - reflexivity.
  - simpl. repeat constructor; by intros [].
  - vm_compute. lia.
Defined.

(** The bound is reached: both are enrolled, one above the cap. *)
Lemma cap_overshoot_bounded_witness :
  let l := set_shared (set_tofu (tofu_set_enabled true (Some 1%Z) 1 disabled) fresh_remote) fresh_listener in
  enrolments (E := toy_env) (K := NoopAuditSink) pinned_cfg l (tail rush) = 2 ∧ peak (E := toy_env) (K := NoopAuditSink) pinned_cfg l (tail rush) = 2 ∧
  (0 + Z.of_nat (enrolments (E := toy_env) (K := NoopAuditSink) pinned_cfg l (tail rush)) ≤
   Z.max 0 (1 - 1 + Z.of_nat (peak (E := toy_env) (K := NoopAuditSink) pinned_cfg l (tail rush))))%Z.
Proof.
  intros l. split; [vm_compute; reflexivity|]. split; [vm_compute; reflexivity|].
  apply (cap_overshoot_bounded (E := toy_env) (K := NoopAuditSink) pinned_cfg 1 l (tail rush)).
  - reflexivity.
  - reflexivity.
  - vm_compute. discriminate.
  - vm_compute. reflexivity.
  - cbn. repeat constructor.
Defined.

Lemma failed_enrolment_is_accepted_witness :
  ∃ s', upgrade_step (E := toy_env_with [] (λ _, true)) (K := NoopAuditSink) pinned_cfg peer_a (UEnroll "fp") fresh_remote
    = (Ok UAccepted, s') ∧ rm_pins s' = rm_pins fresh_remote ∧ rm_tofu s' = rm_tofu fresh_remote ∧
    w_audit (rm_world s') = w_audit (rm_world fresh_remote).
Proof. apply (failed_enrolment_is_accepted (E := toy_env_with [] (λ _, true)) (K := NoopAuditSink)). reflexivity. Defined.

(** A dispatcher that echoes. *)
#[export] Instance echo_handlers : Handlers Remote := {| OtherMethod := string; handle_other := λ m, mret (JString m) |}.
#[export] Instance echo_codec : RpcCodec Remote := {|
  rpc_from_str := λ s, if decide (s = "") then Err "empty"
                       else Ok {| rq_id := Some (IdNumber 1); rq_method := Other s |};
  rpc_to_string := λ r, Some (match rr_payload r with Success v => toy_json v | RpcFailure e => re_message e end);
  foreign_error := λ _, "error" |}.
#[export] Instance echo_laws : HandlersLaws Remote (E := toy_env).
Proof. constructor. intros m. apply _. Qed.

Definition fresh_socket : Socket := {| so_remote := fresh_remote; so_sent := []; so_tries := 0 |}.
Definition one_request : list Inbound := [InText "list"; InPingPong; InText ""; InBinary "x"].

Lemma session_needs_the_token_witness :
  let s' := (handle_socket (E := toy_env) (K := NoopAuditSink) pinned_cfg (λ _, false) peer_a (Some "guess") false false
    None one_request fresh_socket).2 in
  so_sent s' = [OutText (toy_json (JObject [("error", JObject [("code", jint (-32600)); ("message", JString "auth failed")])])); OutClose] ∧
  rm_sessions (so_remote s') = 0%Z.
Proof.
  intros s'. split; [vm_compute; reflexivity|].
  destruct (session_needs_the_token (E := toy_env) (K := NoopAuditSink) pinned_cfg (λ _, false) peer_a (Some "guess")
    false None one_request fresh_socket s' (Ok tt)) as (_ & Hs & _).
  - discriminate.
  - intros _ m rest [= <- <-]. vm_compute. discriminate.
  - subst s'. vm_compute. reflexivity.
  - exact Hs.
Defined.

Lemma session_serves_in_order_witness :
  let out := [OutText (dquote +:+ "list" +:+ dquote); OutText "parse error: empty"] in
  rpc_loop (E := toy_env) (λ _, false) true None (one_request ++ [InClose]) fresh_socket
  = (Ok tt, {| so_remote := fresh_remote; so_sent := out; so_tries := 2 |}).
Proof.
  intros out.
  apply (session_serves_in_order (E := toy_env) true one_request [InClose] fresh_socket
    [rpc_success (Some (IdNumber 1)) (JString "list"); parse_failure "empty"] fresh_remote
    (λ r, match rr_payload r with Success v => toy_json v | RpcFailure e => re_message e end)).
  - repeat constructor.
  - reflexivity.
  - reflexivity.
  - vm_compute. reflexivity.
Defined.

Lemma bearer_token_roundtrip_witness :
  bearer_from_headers (bearer_header "s3cret") = Some "s3cret" ∧ extract_bearer (bearer_header "s3cret") = Some "s3cret" ∧
  parse_bearer_subprotocol [("sec-websocket-protocol", "Bearer." +:+ "s3cret")] = Some ("Bearer." +:+ "s3cret", "s3cret").
Proof. apply bearer_token_roundtrip; [discriminate|vm_compute; reflexivity..]. Defined.

Lemma surfaces_need_the_token_witness :
  (∀ r s', pty_ws_handler (K := NoopAuditSink) pinned_cfg "pty-1" [] (Some "s3cret") fresh_remote = (Ok (Upgraded r), s') →
     (snd <$> parse_bearer_subprotocol [] = Some (rc_token pinned_cfg) ∨ Some "s3cret" = Some (rc_token pinned_cfg)) ∧
     "pty-1" ∈ rm_ptys fresh_remote) ∧
  (pty_ws_handler (K := NoopAuditSink) pinned_cfg "pty-1" [] (Some "s3cret") fresh_remote).1 = Ok (Upgraded None).
Proof.
  split; [|vm_compute; reflexivity].
  apply (surfaces_need_the_token (E := toy_env) (K := NoopAuditSink) pinned_cfg "pty-1" [] (Some "s3cret") peer_a "/" true fresh_remote).
Defined.

Lemma remote_keeps_log_valid_witness :
  let after := run (E := toy_env) (K := SandboxAuditSink (E := toy_env) (W := example_wasm) false) pinned_cfg fresh_listener rush in
  vr_broken_at (verify_rows (E := toy_env) None (w_audit (rm_world (li_shared after)))) = None ∧
  length (w_audit (rm_world (li_shared after))) = 2.
Proof.
  intros after. split; [|vm_compute; reflexivity].
  destruct (remote_keeps_log_valid (E := toy_env) (K := SandboxAuditSink (E := toy_env) (W := example_wasm) false)
    pinned_cfg fresh_listener rush (λ _, false) peer_a None false true None [] fresh_socket None) as [Hv _].
  exact (proj2 (Hv audit_inv_empty)).
Defined.
