(* ===== verification/ApprovalRegistry.v ===== *)
(** The daemon's approval registry, [linpodx-daemon/src/approval.rs]
    ([ApprovalRegistry]), as a transition system.

    Requesters ([request_inner]) and responders ([respond]) run concurrently; a
    step is what one of them does between two points where others can run: under
    the lock of [pending], on the oneshot channel, or at the [await]. The state
    has the [pending] map, one oneshot channel per request, and how far each
    requester and responder has got. The timer of a request may fire at any
    moment at which its channel is still empty ([tokio::time::timeout] polls the
    receiver first). A requester's future is never dropped half way: the
    connection loop awaits it to the end. *)
From S2P Require Import Prelude Json Common.

Inductive Chan : Type :=
| ChOpen
| ChSent (o : ApprovalOutcome)
| ChClosed.

(** Where a requester is in [request_inner]. *)
Inductive Task : Type :=
| Registered (req : ApprovalRequest)
| Waiting (req : ApprovalRequest)
| Expired (req : ApprovalRequest)
| Finished (req : ApprovalRequest) (o : ApprovalOutcome).

(** Where a responder is in [respond]; an answered one returned [true] when it had
    found a sender, that of the channel it names. *)
Inductive Responder : Type :=
| Holding (id : string) (ch : nat) (o : ApprovalOutcome)
| Answered (id : string) (o : ApprovalOutcome) (found : option nat).

Record Registry : Type := {
  pending : gmap string nat;
  chans : gmap nat Chan;
  tasks : gmap nat Task;
  responders : gmap nat Responder;
  resolved : list ApprovalResolved;
}.

Definition registry_new : Registry :=
  {| pending := ∅; chans := ∅; tasks := ∅; responders := ∅; resolved := [] |}.

Definition task_req (t : Task) : ApprovalRequest :=
  match t with Registered r | Waiting r | Expired r | Finished r _ => r end.
Definition task_id (t : Task) : string := request_id (task_req t).
(** The receiver is still there. *)
Definition listening (t : Task) : bool :=
  match t with Registered _ | Waiting _ => true | _ => false end.
Definition unfinished (t : Task) : bool :=
  match t with Finished _ _ => false | _ => true end.

(** Taking an entry out of [pending] (or overwriting it) drops its sender. *)
Definition remove_entry (id : string) (s : Registry) : Registry :=
  {| pending := delete id (pending s);
     chans := match pending s !! id with Some m => <[m := ChClosed]> (chans s) | None => chans s end;
     tasks := tasks s; responders := responders s; resolved := resolved s |}.
Definition set_task (n : nat) (t : Task) (s : Registry) : Registry :=
  {| pending := pending s; chans := chans s; tasks := <[n := t]> (tasks s);
     responders := responders s; resolved := resolved s |}.

(** [guard.insert(request_id, tx)] of a fresh channel. *)
Definition insert_entry (n : nat) (req : ApprovalRequest) (s : Registry) : Registry :=
  {| pending := <[request_id req := n]> (pending s); chans := <[n := ChOpen]> (chans s);
     tasks := <[n := Registered req]> (tasks s); responders := responders s; resolved := resolved s |}.

(** The first half of [respond]: [guard.remove(request_id)]. *)
Definition take_entry (k : nat) (id : string) (o : ApprovalOutcome) (s : Registry) : Registry :=
  match pending s !! id with
  | Some m =>
      {| pending := delete id (pending s); chans := chans s; tasks := tasks s;
         responders := <[k := Holding id m o]> (responders s); resolved := resolved s |}
  | None =>
      {| pending := pending s; chans := chans s; tasks := tasks s;
         responders := <[k := Answered id o None]> (responders s); resolved := resolved s |}
  end.

(** The second half: [tx.send], which fails silently when the receiver is gone,
    and the fan-out to the other listeners. *)
Definition send_outcome (k : nat) (id : string) (m : nat) (o : ApprovalOutcome) (s : Registry) : Registry :=
  let alive := match tasks s !! m with Some t => listening t | None => false end in
  {| pending := pending s;
     chans := <[m := if alive then ChSent o else ChClosed]> (chans s); tasks := tasks s;
     responders := <[k := Answered id o (Some m)]> (responders s);
     resolved := resolved s ++ [{| res_request_id := id; res_outcome := o |}] |}.

Inductive Label : Type :=
| LInsert (n : nat) (req : ApprovalRequest)
| LFanOut (n listeners : nat)
| LReceive (n : nat)
| LTimer (n : nat)
| LCleanup (n : nat)
| LTake (k : nat) (id : string) (o : ApprovalOutcome)
| LSend (k : nat).

Definition exec (l : Label) (s : Registry) : option Registry :=
  match l with
  | LInsert n req =>
      match tasks s !! n with
      | Some _ => None
      | None => Some (insert_entry n req (remove_entry (request_id req) s))
      end
  | LFanOut n listeners =>
      match tasks s !! n with
      | Some (Registered req) =>
          if decide (listeners = 0)
          then Some (set_task n (Finished req NoListener) (remove_entry (request_id req) s))
          else Some (set_task n (Waiting req) s)
      | _ => None
      end
  | LReceive n =>
      match tasks s !! n, chans s !! n with
      | Some (Waiting req), Some (ChSent o) => Some (set_task n (Finished req o) s)
      | Some (Waiting req), Some ChClosed => Some (set_task n (Finished req TimedOut) s)
      | _, _ => None
      end
  | LTimer n =>
      match tasks s !! n, chans s !! n with
      | Some (Waiting req), Some ChOpen => Some (set_task n (Expired req) s)
      | _, _ => None
      end
  | LCleanup n =>
      match tasks s !! n with
      | Some (Expired req) => Some (set_task n (Finished req TimedOut) (remove_entry (request_id req) s))
      | _ => None
      end
  | LTake k id o =>
      match responders s !! k with
      | Some _ => None
      | None => Some (take_entry k id o s)
      end
  | LSend k =>
      match responders s !! k with
      | Some (Holding id m o) => Some (send_outcome k id m o s)
      | _ => None
      end
  end.

Inductive reachable : Registry → Prop :=
| reach_new : reachable registry_new
| reach_step s l s' : reachable s → exec l s = Some s' → reachable s'.

Fixpoint exec_all (ls : list Label) (s : Registry) : option Registry :=
  match ls with
  | [] => Some s
  | l :: ls' => match exec l s with Some s' => exec_all ls' s' | None => None end
  end.

(** * Invariant *)

(** The responder [k] got the sender of channel [n], for a request called [id],
    to deliver [o]. *)
Definition owns (s : Registry) (k n : nat) (id : string) (o : ApprovalOutcome) : Prop :=
  responders s !! k = Some (Holding id n o) ∨ responders s !! k = Some (Answered id o (Some n)).

Record Inv (s : Registry) : Prop := {
  inv_dom n : is_Some (chans s !! n) ↔ is_Some (tasks s !! n);
  inv_pending id n : pending s !! id = Some n →
    chans s !! n = Some ChOpen ∧ (∃ t, tasks s !! n = Some t ∧ task_id t = id ∧ unfinished t = true) ∧
    ∀ k id' o, ¬ owns s k n id' o;
  inv_holding k id n o : responders s !! k = Some (Holding id n o) → chans s !! n = Some ChOpen;
  inv_owner k id n o : owns s k n id o → ∃ t, tasks s !! n = Some t ∧ task_id t = id;
  inv_owner_unique k1 k2 n id1 id2 o1 o2 : owns s k1 n id1 o1 → owns s k2 n id2 o2 → k1 = k2;
  inv_sent n o : chans s !! n = Some (ChSent o) →
    ∃ k id, responders s !! k = Some (Answered id o (Some n));
  inv_answered k id n o : responders s !! k = Some (Answered id o (Some n)) →
    (chans s !! n = Some (ChSent o) ∧ ∃ t, tasks s !! n = Some t ∧
       (listening t = true ∨ t = Finished (task_req t) o ∨ t = Finished (task_req t) NoListener)) ∨
    (chans s !! n = Some ChClosed ∧ ∃ t, tasks s !! n = Some t ∧
       (t = Expired (task_req t) ∨ t = Finished (task_req t) TimedOut ∨ t = Finished (task_req t) NoListener));
  inv_open n t : tasks s !! n = Some t → chans s !! n = Some ChOpen → unfinished t = true →
    pending s !! task_id t = Some n ∨ ∃ k id o, responders s !! k = Some (Holding id n o);
  inv_finished n req o : tasks s !! n = Some (Finished req o) →
    o = TimedOut ∨ o = NoListener ∨ ∃ k, responders s !! k = Some (Answered (request_id req) o (Some n));
}.

Lemma inv_new : Inv registry_new.
Proof.
  split; simpl; unfold owns; simpl; intros; rewrite ?lookup_empty in *; naive_solver.
Qed.

Lemma inv_remove_entry id s : Inv s → Inv (remove_entry id s).
Proof.
  intros I. unfold remove_entry. destruct (pending s !! id) as [m|] eqn:Hm; cycle 1.
  { rewrite delete_id by done. by destruct s. }
  destruct (inv_pending s I _ _ Hm) as (Hc & (t & Ht & Hid & Hu) & Ho).
  split; simpl; unfold owns in *; simpl in *.
  - intros n. rewrite <-(inv_dom s I). destruct (decide (m = n)) as [->|]; simplify_map_eq; [|done]. done.
  - intros id' n [Hne Hn]%lookup_delete_Some. 
    destruct (inv_pending s I _ _ Hn) as (Hc' & (t' & Ht' & ? & ?) & Ho').
    destruct (decide (m = n)) as [->|]; [congruence|]. simplify_map_eq. eauto 10.
  - intros k id' n o Hk. destruct (decide (m = n)) as [->|]; [naive_solver|]. simplify_map_eq.
    by eapply inv_holding.
  - apply I.
  - apply I.
  - intros n o Hn. destruct (decide (m = n)) as [->|]; simplify_map_eq. by apply (inv_sent s I).
  - intros k id' n o Hk. destruct (decide (m = n)) as [->|]; [naive_solver|]. simplify_map_eq.
    by apply (inv_answered s I k id').
  - intros n t' Ht' Hopen Hun. destruct (decide (m = n)) as [->|]; simplify_map_eq.
    destruct (inv_open s I _ _ Ht' Hopen Hun) as [Hp|?]; [left|by right].
    rewrite lookup_delete_ne; [done|]. congruence.
  - apply I.
Qed.

Lemma inv_insert_entry n req s :
  Inv s → tasks s !! n = None → pending s !! request_id req = None → Inv (insert_entry n req s).
Proof.
  intros I Hn Hp.
  assert (chans s !! n = None) as Hc.
  { apply eq_None_not_Some. rewrite (inv_dom s I), Hn. by intros []. }
  assert (∀ k id o, ¬ owns s k n id o) as Ho.
  { intros k id o (t & ? & _)%(inv_owner s I). congruence. }
  split; simpl; unfold owns in *; simpl in *.
  - intros m. destruct (decide (n = m)) as [->|]; simplify_map_eq; [done|]. apply I.
  - intros id m [[<- <-]|[Hne Hm]]%lookup_insert_Some; simplify_map_eq; [eauto 10|].
    destruct (inv_pending s I _ _ Hm) as (? & (t & ? & ? & ?) & ?).
    destruct (decide (n = m)) as [->|]; [congruence|]. simplify_map_eq. eauto 10.
  - intros k id m o Hk. destruct (decide (n = m)) as [->|]; [naive_solver|]. simplify_map_eq.
    by eapply inv_holding.
  - intros k id m o Hk. destruct (decide (n = m)) as [->|]; [naive_solver|]. simplify_map_eq.
    exact (inv_owner s I k id m o Hk).
  - apply I.
  - intros m o Hm. destruct (decide (n = m)) as [->|]; simplify_map_eq. by apply (inv_sent s I).
  - intros k id m o Hk. destruct (decide (n = m)) as [->|]; [naive_solver|]. simplify_map_eq.
    by apply (inv_answered s I k id).
  - intros m t. destruct (decide (n = m)) as [->|]; simplify_map_eq; intros Ht Hopen Hun; simplify_eq.
    { left. unfold task_id. simpl. by simplify_map_eq. }
    destruct (inv_open s I _ _ Ht Hopen Hun) as [?|?]; [left|by right].
    rewrite lookup_insert_ne; [done|]. congruence.
  - intros m req' o Hm. destruct (decide (n = m)) as [->|]; simplify_map_eq. by apply (inv_finished s I).
Qed.

(** A requester moves from [t] to [t'] and touches nothing else. *)
Lemma inv_set_task n t t' s :
  Inv s → tasks s !! n = Some t → task_req t' = task_req t →
  (unfinished t' = true → unfinished t = true) →
  (unfinished t' = true ∨ pending s !! task_id t ≠ Some n) →
  (∀ o, chans s !! n = Some (ChSent o) →
     listening t' = true ∨ t' = Finished (task_req t) o ∨ t' = Finished (task_req t) NoListener) →
  (chans s !! n = Some ChClosed → listening t = false →
     t' = Expired (task_req t) ∨ t' = Finished (task_req t) TimedOut ∨ t' = Finished (task_req t) NoListener) →
  (∀ o, t' = Finished (task_req t) o → o = TimedOut ∨ o = NoListener ∨ chans s !! n = Some (ChSent o)) →
  Inv (set_task n t' s).
Proof.
  intros I Ht Hreq Hun Hpend Hsent Hclosed Hfin.
  assert (task_id t' = task_id t) as Hid by (unfold task_id; by rewrite Hreq).
  split; simpl; unfold owns in *; simpl in *.
  - intros m. rewrite (inv_dom s I). destruct (decide (n = m)) as [->|]; simplify_map_eq; done.
  - intros id m Hm. destruct (inv_pending s I _ _ Hm) as (? & (t0 & Ht0 & Hid0 & Hu0) & ?).
    destruct (decide (n = m)) as [->|]; simplify_map_eq; [|by eauto 10].
    split; [done|]. split; [|done]. exists t'. split; [done|]. split; [done|]. by destruct Hpend.
  - apply I.
  - intros k id m o Hk. destruct (inv_owner s I k id m o Hk) as (t0 & Ht0 & <-).
    destruct (decide (n = m)) as [->|]; simplify_map_eq; eauto.
  - apply I.
  - apply I.
  - intros k id m o Hk. destruct (decide (n = m)) as [<-|]; simplify_map_eq; [|by apply (inv_answered s I k id)].
    destruct (inv_answered s I k id n o Hk) as [(Hc & t0 & Ht0 & H)|(Hc & t0 & Ht0 & H)]; simplify_eq.
    + left. split; [done|]. exists t'. rewrite Hreq. auto.
    + right. split; [done|]. exists t'. rewrite Hreq. split; [done|]. apply Hclosed; [done|].
      destruct H as [-> | [-> | ->]]; done.
  - intros m t0 Ht0 Hopen Hu. destruct (decide (n = m)) as [<-|]; simplify_map_eq.
    + rewrite Hid. apply (inv_open s I); auto.
    + by apply (inv_open s I).
  - intros m req o Hm. destruct (decide (n = m)) as [<-|]; simplify_map_eq; [|by apply (inv_finished s I)].
    destruct (Hfin o eq_refl) as [?|[?|Hs]]; [by auto..|]. right; right.
    destruct (inv_sent s I _ _ Hs) as (k & id & Hk). exists k.
    destruct (inv_owner s I k id n o (or_intror Hk)) as (t0 & Ht0 & Hid0). simplify_eq. done.
Qed.

(** The first half of [respond], when it finds the request and when it does not. *)
Lemma inv_take_found k id m o s :
  Inv s → responders s !! k = None → pending s !! id = Some m →
  Inv {| pending := delete id (pending s); chans := chans s; tasks := tasks s;
         responders := <[k := Holding id m o]> (responders s); resolved := resolved s |}.
Proof.
  intros I Hk Hm.
  destruct (inv_pending s I _ _ Hm) as (Hc & (t & Ht & Hid & Hu) & Ho).
  split; simpl; unfold owns in *; simpl in *.
  - apply I.
  - intros id' n [Hne Hn]%lookup_delete_Some.
    destruct (inv_pending s I _ _ Hn) as (? & ? & Ho'). split; [done|]. split; [done|].
    intros k' id'' o'. destruct (decide (k = k')) as [<-|]; simplify_map_eq; [|apply Ho'].
    intros [[=]|[=]]. subst. destruct (inv_pending s I _ _ Hn) as (_ & (t0 & ? & ? & _) & _). congruence.
  - intros k' id' n o'. destruct (decide (k = k')) as [<-|]; simplify_map_eq; [by intros [= <- <- <-]|].
    apply (inv_holding s I).
  - intros k' id' n o'. destruct (decide (k = k')) as [<-|]; simplify_map_eq; [|apply (inv_owner s I k')].
    intros [[= <- <- <-]|[=]]. eauto.
  - intros k1 k2 n id1 id2 o1 o2.
    destruct (decide (k = k1)) as [<-|]; destruct (decide (k = k2)) as [<-|]; simplify_map_eq; try done.
    + intros [[= <- <- <-]|[=]] H2. exfalso. by eapply Ho.
    + intros H1 [[= <- <- <-]|[=]]. exfalso. by eapply Ho.
    + apply (inv_owner_unique s I).
  - intros n o' Hs. destruct (inv_sent s I _ _ Hs) as (k' & id' & Hk'). exists k', id'.
    rewrite lookup_insert_ne; [done|]. congruence.
  - intros k' id' n o'. destruct (decide (k = k')) as [<-|]; simplify_map_eq; [done|]. apply (inv_answered s I).
  - intros n t' Ht' Hopen Hun. destruct (inv_open s I _ _ Ht' Hopen Hun) as [Hp|(k' & id' & o' & Hk')].
    + destruct (decide (task_id t' = id)) as [<-|]; [|left; by rewrite lookup_delete_ne].
      right. exists k, (task_id t'), o. simplify_eq. by simplify_map_eq.
    + right. exists k', id', o'. rewrite lookup_insert_ne; [done|]. congruence.
  - intros n req o' Hn. destruct (inv_finished s I _ _ _ Hn) as [?|[?|(k' & Hk')]]; [by auto..|].
    right; right. exists k'. rewrite lookup_insert_ne; [done|]. congruence.
Qed.

Lemma inv_take_missing k id o s :
  Inv s → responders s !! k = None →
  Inv {| pending := pending s; chans := chans s; tasks := tasks s;
         responders := <[k := Answered id o None]> (responders s); resolved := resolved s |}.
Proof.
  intros I Hk.
  split; simpl; unfold owns in *; simpl in *.
  - apply I.
  - intros id' n Hn. destruct (inv_pending s I _ _ Hn) as (? & ? & Ho'). split; [done|]. split; [done|].
    intros k' id'' o'. destruct (decide (k = k')) as [<-|]; simplify_map_eq; [|apply Ho']. by intros [[=]|[=]].
  - intros k' id' n o'. destruct (decide (k = k')) as [<-|]; simplify_map_eq; [done|]. apply (inv_holding s I).
  - intros k' id' n o'. destruct (decide (k = k')) as [<-|]; simplify_map_eq; [by intros [[=]|[=]]|].
    apply (inv_owner s I k').
  - intros k1 k2 n id1 id2 o1 o2.
    destruct (decide (k = k1)) as [<-|]; destruct (decide (k = k2)) as [<-|]; simplify_map_eq; try done.
    + by intros [[=]|[=]].
    + by intros _ [[=]|[=]].
    + apply (inv_owner_unique s I).
  - intros n o' Hs. destruct (inv_sent s I _ _ Hs) as (k' & id' & Hk'). exists k', id'.
    rewrite lookup_insert_ne; [done|]. congruence.
  - intros k' id' n o'. destruct (decide (k = k')) as [<-|]; simplify_map_eq; [done|]. apply (inv_answered s I).
  - intros n t' Ht' Hopen Hun. destruct (inv_open s I _ _ Ht' Hopen Hun) as [Hp|(k' & id' & o' & Hk')]; [by left|].
    right. exists k', id', o'. rewrite lookup_insert_ne; [done|]. congruence.
  - intros n req o' Hn. destruct (inv_finished s I _ _ _ Hn) as [?|[?|(k' & Hk')]]; [by auto..|].
    right; right. exists k'. rewrite lookup_insert_ne; [done|]. congruence.
Qed.

Lemma inv_take_entry k id o s : Inv s → responders s !! k = None → Inv (take_entry k id o s).
Proof.
  intros I Hk. unfold take_entry. destruct (pending s !! id) as [m|] eqn:Hm.
  - by apply inv_take_found.
  - by apply inv_take_missing.
Qed.

(** Its second half: the same responder keeps owning the channel. *)
Lemma owns_send k id m o s k' n id' o' :
  responders s !! k = Some (Holding id m o) →
  owns (send_outcome k id m o s) k' n id' o' ↔ owns s k' n id' o'.
Proof.
  intros Hk. unfold owns. simpl. destruct (decide (k = k')) as [<-|]; simplify_map_eq; [|done].
  naive_solver.
Qed.

Lemma inv_send_outcome k id m o s :
  Inv s → responders s !! k = Some (Holding id m o) → Inv (send_outcome k id m o s).
Proof.
  intros I Hk. pose proof (inv_holding s I _ _ _ _ Hk) as Hc.
  destruct (inv_owner s I k id m o (or_introl Hk)) as (t & Ht & Hid).
  assert (∀ k' id' n o', responders s !! k' = Some (Holding id' n o') ∨
            responders s !! k' = Some (Answered id' o' (Some n)) → n = m → k' = k) as Huniq.
  { intros k' id' n o' H ->. apply (inv_owner_unique s I k' k m id' id o' o H). by left. }
  split.
  - intros n. simpl. rewrite <-(inv_dom s I). destruct (decide (m = n)) as [<-|]; simplify_map_eq; done.
  - intros id' n Hn. destruct (inv_pending s I _ _ Hn) as (Hc' & Ht' & Ho'). simpl.
    destruct (decide (m = n)) as [<-|]; [by destruct (Ho' k id o); left|]. simplify_map_eq.
    split; [done|]. split; [done|]. intros k' id'' o'. by rewrite owns_send.
  - intros k' id' n o'. simpl. destruct (decide (k = k')) as [<-|]; simplify_map_eq; [done|]. intros Hk'.
    destruct (decide (m = n)) as [<-|]; simplify_map_eq; [|by eapply inv_holding].
    by destruct (Huniq k' id' m o' (or_introl Hk')).
  - intros k' id' n o'. rewrite owns_send by done. apply (inv_owner s I k').
  - intros k1 k2 n id1 id2 o1 o2. rewrite !owns_send by done. apply (inv_owner_unique s I).
  - intros n o' Hs. simpl in *. destruct (decide (m = n)) as [<-|]; simplify_map_eq.
    + destruct (listening t); simplify_eq. exists k, (task_id t). by simplify_map_eq.
    + destruct (inv_sent s I _ _ Hs) as (k' & id' & Hk'). exists k', id'.
      rewrite lookup_insert_ne; [done|]. congruence.
  - intros k' id' n o' Hk'. simpl in *. destruct (decide (k = k')) as [<-|]; simplify_map_eq.
    + destruct t; simpl; eauto 10.
      right. split; [done|]. destruct (inv_finished s I _ _ _ Ht) as [->|[->|(k' & Hk')]]; [by eauto 10..|].
      pose proof (Huniq k' _ n _ (or_intror Hk') eq_refl). congruence.
    + destruct (decide (m = n)) as [<-|]; simplify_map_eq; [|by apply (inv_answered s I k' id')].
      by destruct (Huniq k' id' m o' (or_intror Hk')).
  - intros n t'. simpl. intros Ht' Hopen Hun. destruct (decide (m = n)) as [<-|]; simplify_map_eq.
    { by destruct (listening t). }
    destruct (inv_open s I _ _ Ht' Hopen Hun) as [?|(k' & id' & o' & Hk')]; [by left|right].
    exists k', id', o'. rewrite lookup_insert_ne; [done|]. congruence.
  - intros n req o' Hn. simpl in *. destruct (inv_finished s I _ _ _ Hn) as [?|[?|(k' & Hk')]]; [by auto..|].
    right; right. exists k'. rewrite lookup_insert_ne; [done|]. congruence.
Qed.

(** A requester that takes its entry out of the map and returns. *)
Lemma inv_give_up n req t o s :
  Inv s → tasks s !! n = Some t →
  t = Registered req ∧ o = NoListener ∨ t = Expired req ∧ o = TimedOut →
  Inv (set_task n (Finished req o) (remove_entry (request_id req) s)).
Proof.
  intros I Ht Hcase. pose proof (inv_remove_entry (request_id req) s I) as I'.
  assert (task_req t = req) as Hreq by (by destruct Hcase as [[-> _]|[-> _]]).
  apply inv_set_task with t; rewrite ?Hreq; try done.
  - right. simpl. unfold task_id. by rewrite Hreq, lookup_delete_eq.
  - intros o' Hs. destruct Hcase as [[-> ->]|[-> ->]]; [by auto|].
    destruct (inv_sent _ I' _ _ Hs) as (k & id & Hk).
    destruct (inv_answered _ I' k id n o' Hk) as [(_ & t0 & Ht0 & Hx)|(Hx & _)]; [|congruence].
    simpl in Ht0. rewrite Ht in Ht0. injection Ht0 as <-. simpl in Hx. naive_solver.
  - intros _ _. destruct Hcase as [[-> ->]|[-> ->]]; auto.
  - intros o' [= <-]. destruct Hcase as [[-> ->]|[-> ->]]; auto.
Qed.

Lemma inv_exec l s s' : Inv s → exec l s = Some s' → Inv s'.
Proof.
  intros I He. destruct l; simpl in He; repeat case_match; simplify_eq.
  - apply inv_insert_entry; [by apply inv_remove_entry|done|]. simpl. by rewrite lookup_delete_eq.
  - eapply inv_give_up; eauto.
  - apply inv_set_task with (Registered req); auto; done.
  - apply inv_set_task with (Waiting req); try naive_solver.
    right. intros Hp. destruct (inv_pending s I _ _ Hp) as (? & _). congruence.
  - apply inv_set_task with (Waiting req); try naive_solver.
    right. intros Hp. destruct (inv_pending s I _ _ Hp) as (? & _). congruence.
  - apply inv_set_task with (Waiting req); try naive_solver.
  - eapply inv_give_up; eauto.
  - by apply inv_take_entry.
  - by apply inv_send_outcome.
Qed.

Lemma inv_reachable s : reachable s → Inv s.
Proof. induction 1; [apply inv_new|by eapply inv_exec]. Qed.

(** * Theorems *)

(** C8: An approval is never made up. A request that returns an outcome other than
    [TimedOut] or [NoListener], so in particular a grant, got it from a responder
    that answered that very request id with that very outcome and was told
    [true]. *)
Theorem outcome_comes_from_a_response s n req o :
  reachable s → tasks s !! n = Some (Finished req o) → o ≠ TimedOut → o ≠ NoListener →
  ∃ k, responders s !! k = Some (Answered (request_id req) o (Some n)).
Proof. intros Hr Hn ??. destruct (inv_finished s (inv_reachable s Hr) _ _ _ Hn) as [?|[?|?]]; done. Qed.

(** At most one responder is told [true] for a request, whatever the
    interleaving, and the answer it gave is the one the request returns unless
    the request had already given up. *)
Theorem one_response_wins s k n id o :
  reachable s → responders s !! k = Some (Answered id o (Some n)) →
  (∀ k' id' o', responders s !! k' = Some (Answered id' o' (Some n)) → k' = k) ∧
  ∃ t, tasks s !! n = Some t ∧ task_id t = id ∧
    match t with
    | Registered _ | Waiting _ => chans s !! n = Some (ChSent o)
    | Expired _ => True
    | Finished _ o' => o' = o ∨ o' = TimedOut ∨ o' = NoListener
    end.
Proof.
  intros Hr Hk. pose proof (inv_reachable s Hr) as I. split.
  { intros k' id' o' Hk'. apply (inv_owner_unique s I k' k n id' id o' o); by right. }
  destruct (inv_owner s I k id n o (or_intror Hk)) as (t & Ht & Hid). exists t.
  split; [done|]. split; [done|].
  destruct (inv_answered s I k id n o Hk) as [(Hc & t' & Ht' & H)|(Hc & t' & Ht' & H)];
    rewrite Ht in Ht'; injection Ht' as <-; destruct t; simpl in H; naive_solver.
Qed.

(** Nothing leaks. Every entry of [pending] belongs to a request that has not
    returned and that carries this id, and its channel can still be answered; so
    once all requests have returned the map is empty. *)
Theorem pending_entries_are_live s :
  reachable s →
  (∀ id n, pending s !! id = Some n →
     chans s !! n = Some ChOpen ∧ ∃ t, tasks s !! n = Some t ∧ task_id t = id ∧ unfinished t = true) ∧
  ((∀ n t, tasks s !! n = Some t → unfinished t = false) → pending s = ∅).
Proof.
  intros Hr. pose proof (inv_reachable s Hr) as I. split.
  - intros id n Hn. by destruct (inv_pending s I _ _ Hn) as (? & ? & _).
  - intros Hall. apply map_empty. intros id. destruct (pending s !! id) as [n|] eqn:Hn; [|done].
    destruct (inv_pending s I _ _ Hn) as (_ & (t & Ht & _ & Hu) & _). apply Hall in Ht. congruence.
Qed.

(** The requester a step belongs to. *)
Definition requester (l : Label) : option nat :=
  match l with
  | LInsert n _ | LFanOut n _ | LReceive n | LTimer n | LCleanup n => Some n
  | LTake _ _ _ | LSend _ => None
  end.

(** A run of the whole registry: who takes the next step is up to [sched], which may
    also leave everyone idle for a while. *)
Definition follows (sched : nat → option Label) (run : nat → Registry) : Prop := ∀ i,
  match sched i with
  | Some l => exec l (run i) = Some (run (S i))
  | None => run (S i) = run i
  end.
(** The runtime is fair to a requester: when a step of it is possible (its timer
    firing is one), it takes some step later. *)
Definition fair (n : nat) (sched : nat → option Label) (run : nat → Registry) : Prop := ∀ i l,
  requester l = Some n → is_Some (exec l (run i)) → ∃ j l', i ≤ j ∧ sched j = Some l' ∧ requester l' = Some n.
(** How many of the first [i] steps are those of a requester. *)
Definition own_steps (n : nat) (sched : nat → option Label) (i : nat) : nat :=
  length (filter (λ l, requester l = Some n) (omap sched (seq 0 i))).

(** How many steps a requester can still take. *)
Definition steps_left (t : Task) : nat :=
  match t with Registered _ => 3 | Waiting _ => 2 | Expired _ => 1 | Finished _ _ => 0 end.

(** A step of its own brings a requester nearer to its end, whatever the step is; the
    others' steps leave it where it is. *)
Lemma exec_nearer l s s' n t :
  exec l s = Some s' → tasks s !! n = Some t →
  ∃ t', tasks s' !! n = Some t' ∧ task_req t' = task_req t ∧
    if decide (requester l = Some n) then steps_left t' < steps_left t else t' = t.
Proof.
  intros He Ht. destruct l as [m req|m k|m|m|m|k id o|k]; cbn [requester].
  all: try (case_decide as Hm; [injection Hm as ->|assert (m ≠ n) by congruence]).
  all: simpl in He; repeat case_match; simplify_eq; simpl; unfold take_entry; repeat case_match; simpl; simplify_map_eq.
  all: eexists; split; [done|]; simpl; auto with lia.
Qed.

(** A requester that has not returned is never stuck. *)
Lemma never_stuck s n t :
  Inv s → tasks s !! n = Some t → unfinished t = true → ∃ l, requester l = Some n ∧ is_Some (exec l s).
Proof.
  intros I Ht Hu. destruct t as [req|req|req|req o]; [| | |done].
  - exists (LFanOut n 0). simpl. by rewrite Ht.
  - destruct (proj2 (inv_dom s I n)) as [[|o|] Hc]; [by rewrite Ht|..].
    + exists (LTimer n). simpl. by rewrite Ht, Hc.
    + exists (LReceive n). simpl. by rewrite Ht, Hc.
    + exists (LReceive n). simpl. by rewrite Ht, Hc.
  - exists (LCleanup n). simpl. by rewrite Ht.
Qed.

Section Runs.
Context (sched : nat → option Label) (run : nat → Registry).
Context (Hfirst : reachable (run 0)) (Hrun : follows sched run).

Lemma run_reachable i : reachable (run i).
Proof using Hfirst Hrun.
  induction i as [|i IH]; [done|]. specialize (Hrun i). destruct (sched i) as [l|]; [by eapply reach_step|by rewrite Hrun].
Qed.

(** Along a run, the steps taken and the steps left do not exceed those left at the
    beginning. *)
Lemma run_nearer n i j t : i ≤ j → tasks (run i) !! n = Some t →
  ∃ t', tasks (run j) !! n = Some t' ∧ task_req t' = task_req t ∧
    own_steps n sched i ≤ own_steps n sched j ∧
    own_steps n sched j + steps_left t' ≤ own_steps n sched i + steps_left t ∧ (steps_left t = 0 → t' = t).
Proof using Hrun.
  intros Hij Ht. induction Hij as [|j Hij (t' & Ht' & Hreq & Hup & Hle & Hz)]; [eauto 10|].
  assert (own_steps n sched (S j) = own_steps n sched j +
    match sched j with Some l => if decide (requester l = Some n) then 1 else 0 | None => 0 end) as ->.
  { unfold own_steps. rewrite seq_S, omap_app, filter_app, length_app. simpl. f_equal.
    destruct (sched j) as [l|]; [|done]. rewrite filter_cons. by case_decide. }
  specialize (Hrun j). destruct (sched j) as [l|]; [|rewrite Hrun; exists t'; split_and!; [done|done|lia|lia|done]].
  destruct (exec_nearer _ _ _ _ _ Hrun Ht') as (t'' & Ht'' & Hreq' & Hst). exists t''. split; [done|]. split; [congruence|].
  case_decide; [split_and!; [lia|lia|]; intros H0; specialize (Hz H0) as ->; lia|subst t''; split_and!; [lia|lia|done]].
Qed.

Lemma run_finishes n t : fair n sched run → tasks (run 0) !! n = Some t →
  ∃ i o, tasks (run i) !! n = Some (Finished (task_req t) o).
Proof using Hfirst Hrun.
  intros Hfair. assert (∀ d i t, steps_left t ≤ d → tasks (run i) !! n = Some t →
    ∃ j o, tasks (run j) !! n = Some (Finished (task_req t) o)) as Hd; [|by apply (Hd (steps_left t))].
  clear t. induction d as [|d IH]; intros i t Hd Ht.
  - exists i. destruct t; simpl in Hd; [lia..|]. eauto.
  - destruct (unfinished t) eqn:Hu; [|destruct t; [done..|]; eauto].
    destruct (never_stuck (run i) n t (inv_reachable _ (run_reachable i)) Ht Hu) as (l & Hl & He).
    destruct (Hfair i l Hl He) as (j & l' & Hij & Hj & Hl').
    destruct (run_nearer n i j t Hij Ht) as (t' & Ht' & Hreq & Hup & Hle & _).
    pose proof (Hrun j) as Hstep. rewrite Hj in Hstep.
    destruct (exec_nearer _ _ _ _ _ Hstep Ht') as (t'' & Ht'' & Hreq' & Hst). rewrite decide_True in Hst by done.
    rewrite <-Hreq, <-Hreq'. apply (IH (S j)); [lia|done].
Qed.
End Runs.

(** C40: A request always ends. In every run of the registry, whatever requesters,
    responders, listeners and timers do and in whatever order, a request that has been
    registered returns some outcome, after at most three steps of its own, and then
    keeps it; all that is asked is that the runtime lets a requester take a step
    eventually when it can take one, its timer firing included. *)
Theorem requests_always_return sched run n t :
  reachable (run 0) → follows sched run → fair n sched run → tasks (run 0) !! n = Some t →
  ∃ i o, (∀ j, i ≤ j → tasks (run j) !! n = Some (Finished (task_req t) o)) ∧ ∀ j, own_steps n sched j ≤ 3.
Proof.
  intros Hfirst Hrun Hfair Ht. destruct (run_finishes sched run Hfirst Hrun n t Hfair Ht) as (i & o & Hi). exists i, o. split.
  - intros j Hij. destruct (run_nearer sched run Hrun n i j _ Hij Hi) as (t' & Ht' & _ & _ & _ & Hz). by rewrite Ht', Hz.
  - intros j. destruct (run_nearer sched run Hrun n 0 j t) as (t' & _ & _ & _ & Hle & _); [lia|done|].
    unfold own_steps at 2 in Hle. simpl in Hle. destruct t; simpl in Hle; lia.
Qed.

(** [respond] can say [true] for an answer nobody gets. Between the timer of a
    request firing and its entry leaving the map, a responder still finds the
    entry: it is told its grant was accepted, the other listeners are notified of
    the grant, and the request returns [TimedOut]. *)
Theorem accepted_grant_can_time_out n k req by_ reason :
  let o := Granted by_ reason in
  ∃ ls s, exec_all ls registry_new = Some s ∧
    responders s !! k = Some (Answered (request_id req) o (Some n)) ∧
    resolved s = [{| res_request_id := request_id req; res_outcome := o |}] ∧
    tasks s !! n = Some (Finished req TimedOut).
Proof.
  intros o.
  exists [LInsert n req; LFanOut n 1; LTimer n; LTake k (request_id req) o; LSend k; LCleanup n].
  unfold exec_all, exec, insert_entry, remove_entry, set_task, take_entry, send_outcome, registry_new.
  repeat (simpl; simplify_map_eq). eexists. split; [done|]. simpl. by simplify_map_eq.
Qed.

(** * Examples *)

Definition example_request : ApprovalRequest :=
  {| request_id := "req-1"; category := CapAdd; profile_name := "agent"; timeout_secs := 30;
     created_at := 0; payload := JNull; container_hint := None |}.

Definition example_run : list Label :=
  [LInsert 0 example_request; LFanOut 0 1; LTake 7 "req-1" (Granted "ana" None); LSend 7;
   LTake 8 "req-1" (Denied "bob" None); LReceive 0].

Lemma exec_all_reachable ls s s' : reachable s → exec_all ls s = Some s' → reachable s'.
Proof.
  revert s. induction ls as [|l ls IH]; simpl; intros s Hr H; [by simplify_eq|].
  case_match; [|done]. eapply IH; [|done]. by eapply reach_step.
Qed.

Definition example_end : Registry :=
  match exec_all example_run registry_new with Some s => s | None => registry_new end.
Lemma example_end_reachable : reachable example_end.
Proof. apply (exec_all_reachable example_run registry_new); [constructor|reflexivity]. Qed.

Lemma outcome_comes_from_a_response_witness :
  ∃ k, responders example_end !! k = Some (Answered "req-1" (Granted "ana" None) (Some 0)).
Proof.
  apply (outcome_comes_from_a_response example_end 0 example_request (Granted "ana" None)
           example_end_reachable); [reflexivity|discriminate..].
Defined.

Lemma one_response_wins_witness :
  responders example_end !! 7 = Some (Answered "req-1" (Granted "ana" None) (Some 0)) ∧
  ∀ k' id' o', responders example_end !! k' = Some (Answered id' o' (Some 0)) → k' = 7.
Proof.
  split; [reflexivity|].
  apply (one_response_wins example_end 7 0 "req-1" (Granted "ana" None) example_end_reachable). reflexivity.
Defined.

Lemma pending_entries_are_live_witness : pending example_end = ∅.
Proof.
  apply (pending_entries_are_live example_end example_end_reachable).
  intros n t Ht. destruct (decide (n = 0)) as [->|Hn].
  - injection Ht as <-. reflexivity.
  - exfalso. change (tasks example_end) with (<[0 := Finished example_request (Granted "ana" None)]>
      (<[0 := Waiting example_request]> (<[0 := Registered example_request]> (∅ : gmap nat Task)))) in Ht.
    rewrite !lookup_insert_ne in Ht by done. discriminate Ht.
Defined.

(** A request that nobody answers in time: its timer fires, a late responder finds its
    entry, and it returns. *)
Definition late_start : Registry := insert_entry 0 example_request registry_new.
Definition late_steps : list Label :=
  [LFanOut 0 2; LTimer 0; LTake 7 "req-1" (Granted "ana" None); LSend 7; LCleanup 0].
Definition late_sched (i : nat) : option Label := late_steps !! i.
Definition late_run (i : nat) : Registry :=
  match exec_all (take i late_steps) late_start with Some s => s | None => late_start end.

Lemma late_run_end i : late_run (5 + i) = late_run 5.
Proof. unfold late_run. rewrite take_ge by (simpl; lia). reflexivity. Qed.
Lemma late_run_follows : follows late_sched late_run.
Proof.
  intros i. do 5 (destruct i as [|i]; [vm_compute; reflexivity|]).
  exact (eq_trans (late_run_end (S i)) (eq_sym (late_run_end i))).
Qed.
Lemma late_run_fair : fair 0 late_sched late_run.
Proof.
  intros i l Hl He. destruct (decide (i ≤ 4)) as [Hi|Hi]; [by exists 4, (LCleanup 0)|exfalso].
  do 5 (destruct i as [|i]; [lia|]).
  assert (tasks (late_run (5 + i)) !! 0 = Some (Finished example_request TimedOut)) as Ht by (rewrite late_run_end; vm_compute; reflexivity).
  destruct He as [s He]. destruct l; simplify_eq/=; by rewrite Ht in He.
Qed.

Lemma requests_always_return_witness :
  tasks (late_run 0) !! 0 = Some (Registered example_request) ∧
  ∃ i o, tasks (late_run i) !! 0 = Some (Finished example_request o).
Proof.
  split; [reflexivity|].
  destruct (requests_always_return late_sched late_run 0 (Registered example_request)) as (i & o & Hi & _).
  - apply (reach_step registry_new (LInsert 0 example_request)); [constructor|reflexivity].
  - exact late_run_follows.
  - exact late_run_fair.
  - reflexivity.
  - exists i, o. exact (Hi i (le_n i)).
Defined.
