(* ===== verification/Approval.v ===== *)
(** The [ApprovalGateway] trait of [linpodx-common/src/approval.rs], its two
    built-in implementations, and the daemon's [PluginAwareApprovalGateway]
    ([linpodx-daemon/src/approval.rs]), which asks the [approval] plugins before
    it hands a request to the gateway it wraps. *)
From S2P Require Import Prelude Json Common Plugin Database AuditKinds AuditLog Logging.

(** * The trait *)

(** [request] returns an outcome, never an error. *)
Class ApprovalGateway := {
  request : ApprovalRequest → D ApprovalOutcome;
}.

(** What the clients of a gateway rely on: it leaves the audit log extended and
    valid, and does not fail. *)
Class GatewayLaws {E : Env} (G : ApprovalGateway) : Prop := {
  request_log_safe req :: LogSafe (request req);
  request_never_fails req w e : (request req w).1 ≠ Err (Fail e);
}.

Definition NoopApprovalGateway : ApprovalGateway :=
  {| request := λ _, mret (Granted "noop" None) |}.
Definition DenyAllApprovalGateway : ApprovalGateway :=
  {| request := λ _, mret (Denied "deny-all-test" (Some "DenyAllApprovalGateway in use")) |}.

#[export] Instance NoopApprovalGateway_laws {E : Env} : GatewayLaws NoopApprovalGateway.
Proof. split; [apply _|done]. Qed.
#[export] Instance DenyAllApprovalGateway_laws {E : Env} : GatewayLaws DenyAllApprovalGateway.
Proof. split; [apply _|done]. Qed.

(** * PluginStore::list_enabled_specs *)

(** [serde_json::from_str::<Vec<String>>]. *)
Definition strings_of_value (v : Value) : option (list string) :=
  match v with JArray l => mapM as_str l | _ => None end.

Section Gateway.
Context {E : Env} {W : Wasm}.

Definition spec_of_row (r : PluginRow) : Result Error PluginSpec :=
  match json_from_str (pl_hooks r) ≫= strings_of_value with
  | None => Err Json
  | Some hooks =>
      Ok {| ps_manifest := {| mf_name := pl_name r; mf_version := pl_version r; mf_hooks := hooks;
                              mf_wasm := pl_wasm_path r; mf_publisher := None; mf_signature_b64 := None |};
            ps_wasm_path := pl_wasm_path r |}
  end.

Definition list_enabled_specs : D (list PluginSpec) :=
  _ ← stmt;
  rows ← gets w_plugins;
  lift (collect (spec_of_row <$> filter (λ r, pl_enabled r) rows)).

(** * PluginAwareApprovalGateway *)

(** The combining loop: a [Deny] stops it, the first [Allow] is kept. *)
Fixpoint combine_loop (combined : PluginDecision * string * string)
    (decisions : list (string * PluginDecision * string)) : PluginDecision * string * string :=
  match decisions with
  | [] => combined
  | (name, d, reason) :: rest =>
      match d with
      | PluginDeny => (PluginDeny, name, reason)
      | PluginAllow => if negb (bool_decide (combined.1.1 = PluginAllow))
                       then combine_loop (PluginAllow, name, reason) rest
                       else combine_loop combined rest
      | PluginDefer => combine_loop combined rest
      end
  end.
Definition combine (decisions : list (string * PluginDecision * string)) :
    option (PluginDecision * string * string) :=
  let c := combine_loop (PluginDefer, "", "") decisions in
  if decide (c.1.1 = PluginDefer) then None else Some c.

Definition evaluate_plugins (req : ApprovalRequest) : D (option (PluginDecision * string * string)) :=
  specs ← attempt list_enabled_specs;
  match specs with
  | Err _ => mret None
  | Ok [] => mret None
  | Ok specs =>
      let bytes := struct_to_string (request_to_value req) in
      result ← spawn_blocking
        (match plugin_registry_new with
         | Err _ => []
         | Ok ps => (evaluate_approval (load_all ps specs) bytes).1
         end);
      match result with
      | None => mret None
      | Some [] => mret None
      | Some decisions => mret (combine decisions)
      end
  end.

Definition decision_str (d : PluginDecision) : string :=
  match d with PluginAllow => "allow" | PluginDeny => "deny" | PluginDefer => "defer" end.

Definition invoked_payload (req : ApprovalRequest) (name : string) (d : PluginDecision)
    (reason : string) : Value :=
  JObject [("request_id", JString (request_id req));
           ("category", JString (category_as_str (category req)));
           ("profile_name", JString (profile_name req)); ("plugin", JString name);
           ("decision", JString (decision_str d)); ("reason", JString reason)].

Definition plugin_aware_request (inner : ApprovalGateway) (sink : AuditSink) (req : ApprovalRequest) :
    D ApprovalOutcome :=
  verdict ← evaluate_plugins req;
  match verdict with
  | None => request req
  | Some (d, name, reason) =>
      _ ← record SinkPluginInvoked None None (invoked_payload req name d reason);
      let by_ := "plugin:" +:+ name in
      let reason_opt := if decide (reason = "") then None else Some reason in
      match d with
      | PluginAllow => mret (Granted by_ reason_opt)
      | PluginDeny => mret (Denied by_ reason_opt)
      | PluginDefer => request req
      end
  end.

Definition PluginAwareApprovalGateway (inner : ApprovalGateway) (sink : AuditSink) : ApprovalGateway :=
  {| request := plugin_aware_request inner sink |}.

#[export] Instance log_safe_list_enabled : LogSafe list_enabled_specs.
Proof. unfold list_enabled_specs. apply _. Qed.
#[export] Instance log_safe_evaluate_plugins req : LogSafe (evaluate_plugins req).
Proof.
  unfold evaluate_plugins. apply log_safe_bind; [apply _|]. intros [[|]|]; [apply _| |apply _].
  apply log_safe_bind; [apply _|]. intros [[|]|]; apply _.
Qed.

#[global] Typeclasses Opaque list_enabled_specs evaluate_plugins.

Lemma evaluate_plugins_returns req w : ∃ v w', evaluate_plugins req w = (Ok v, w').
Proof.
  unfold evaluate_plugins, attempt, list_enabled_specs, stmt, lift, spawn_blocking.
  unfold mbind, M_bind, mret, M_ret, gets, throw. repeat (case_match; simplify_eq/=; eauto).
Qed.

#[export] Instance PluginAware_laws inner sink :
  GatewayLaws inner → AuditSinkLaws sink → GatewayLaws (PluginAwareApprovalGateway inner sink).
Proof.
  intros HG HS. split.
  - intros req. simpl. unfold plugin_aware_request. apply log_safe_bind; [apply _|].
    intros [[[[] name] reason]|]; apply _.
  - intros req w e. simpl. unfold plugin_aware_request. unfold mbind, M_bind.
    destruct (evaluate_plugins_returns req w) as (v & w' & ->).
    destruct v as [[[d name] reason]|]; [|apply request_never_fails].
    pose proof (record_never_fails SinkPluginInvoked None None (invoked_payload req name d reason) w') as Hr.
    destruct (record _ _ _ _ w') as [[[]|e'] w'']; simpl in *.
    + destruct d; try done. apply request_never_fails.
    + intros [= ->]. by apply (Hr e).
Qed.
End Gateway.

(** * Theorems *)

Definition votes (d : PluginDecision) (ds : list (string * PluginDecision * string)) :
    list (string * PluginDecision * string) := filter (λ x, x.1.2 = d) ds.

(** The loop from any starting point that is not a [Deny]. *)
Lemma combine_loop_spec c ds :
  combine_loop c ds =
  match head (votes PluginDeny ds) with
  | Some (name, _, reason) => (PluginDeny, name, reason)
  | None =>
      if decide (c.1.1 = PluginAllow) then c
      else match head (votes PluginAllow ds) with
           | Some (name, _, reason) => (PluginAllow, name, reason)
           | None => c
           end
  end.
Proof.
  revert c. induction ds as [|[[name d] reason] ds IH]; intros c; unfold votes in *; simpl.
  { by case_decide. }
  rewrite !filter_cons. simpl. destruct d; simpl.
  - destruct (decide (c.1.1 = PluginAllow)) as [Hc|Hc]; simpl.
    + rewrite bool_decide_eq_true_2 by done. simpl. rewrite IH. by rewrite decide_True.
    + rewrite bool_decide_eq_false_2 by done. simpl. by rewrite IH.
  - done.
  - apply IH.
Qed.

Lemma combine_spec ds :
  combine ds =
  match head (votes PluginDeny ds), head (votes PluginAllow ds) with
  | Some (name, _, reason), _ => Some (PluginDeny, name, reason)
  | None, Some (name, _, reason) => Some (PluginAllow, name, reason)
  | None, None => None
  end.
Proof.
  unfold combine. rewrite combine_loop_spec. simpl.
  destruct (head (votes PluginDeny ds)) as [[[??]?]|], (head (votes PluginAllow ds)) as [[[??]?]|];
    simpl; done.
Qed.

Section GatewayTheorems.
Context {E : Env} {W : Wasm}.

(** How the plugins' answers combine: the first [Deny] wins wherever it
    stands, else the first [Allow], and there is no verdict only when every
    plugin deferred. *)
Theorem combine_deny_over_allow ds :
  combine ds =
  match head (votes PluginDeny ds), head (votes PluginAllow ds) with
  | Some (name, _, reason), _ => Some (PluginDeny, name, reason)
  | None, Some (name, _, reason) => Some (PluginAllow, name, reason)
  | None, None => None
  end.
Proof. apply combine_spec. Qed.

(** The answers of the enabled plugins to [req], when the store could be read and
    the task ran. *)
Definition plugin_answers (req : ApprovalRequest) (w : World) : list (string * PluginDecision * string) :=
  match (list_enabled_specs w).1, plugin_registry_new with
  | Ok specs, Ok ps =>
      if task_fault (w_tasks (list_enabled_specs w).2) then []
      else (evaluate_approval (load_all ps specs) (struct_to_string (request_to_value req))).1
  | _, _ => []
  end.

Lemma evaluate_plugins_combine req w :
  (evaluate_plugins req w).1 = Ok (combine (plugin_answers req w)).
Proof.
  unfold evaluate_plugins, plugin_answers, attempt, spawn_blocking, plugin_registry_new.
  unfold mbind, M_bind, mret, M_ret.
  destruct (list_enabled_specs w) as [[specs|[e|m]] w1] eqn:Hs; simpl.
  - destruct specs as [|sp specs]; simpl.
    + destruct engine_new; [|done]. by case_match.
    + destruct engine_new as [|]; destruct (task_fault (w_tasks w1)); simpl; try done. by case_match.
  - by destruct engine_new.
  - exfalso. unfold list_enabled_specs, stmt, lift in Hs. unfold mbind, M_bind, mret, M_ret, gets, throw in Hs.
    repeat (case_match; simplify_eq/=).
Qed.

(** The plugin-aware gateway. When a plugin denies, the request is denied in
    that plugin's name; when none denies and one allows, it is granted in the
    name of the first that does; in both cases without asking the wrapped gateway
    and after a [plugin_invoked] record. Otherwise the outcome is the wrapped
    gateway's. *)
Theorem plugins_decide_before_listeners inner sink req w o w' :
  plugin_aware_request inner sink req w = (Ok o, w') →
  match head (votes PluginDeny (plugin_answers req w)), head (votes PluginAllow (plugin_answers req w)) with
  | Some (name, _, reason), _ =>
      o = Denied ("plugin:" +:+ name) (if decide (reason = "") then None else Some reason) ∧
      ∃ w1, record SinkPluginInvoked None None (invoked_payload req name PluginDeny reason) w1 = (Ok tt, w')
  | None, Some (name, _, reason) =>
      o = Granted ("plugin:" +:+ name) (if decide (reason = "") then None else Some reason) ∧
      ∃ w1, record SinkPluginInvoked None None (invoked_payload req name PluginAllow reason) w1 = (Ok tt, w')
  | None, None => ∃ w1, request req w1 = (Ok o, w')
  end.
Proof.
  unfold plugin_aware_request. unfold mbind, M_bind.
  pose proof (evaluate_plugins_combine req w) as Hv.
  destruct (evaluate_plugins req w) as [v w1]. simpl in Hv. subst v.
  rewrite combine_spec.
  destruct (head (votes PluginDeny _)) as [[[name ?] reason]|].
  - destruct (record _ _ _ _ w1) as [[[]|] w2] eqn:Hr; [|done]. intros [= <- <-]. eauto.
  - destruct (head (votes PluginAllow _)) as [[[name ?] reason]|]; [|by eauto].
    destruct (record _ _ _ _ w1) as [[[]|] w2] eqn:Hr; [|done]. intros [= <- <-]. eauto.
Qed.
End GatewayTheorems.

(** * Examples *)

(** A store with one enabled plugin, which denies everything. *)
Definition veto_world : World :=
  {| w_audit := []; w_audit_seq := 0; w_profiles := ∅; w_policies := []; w_policies_seq := 0;
     w_plugins := [{| pl_id := 1; pl_name := "veto"; pl_version := "1"; pl_manifest_path := "m";
                      pl_wasm_path := "veto.wasm"; pl_hooks := "[approval]"; pl_enabled := true;
                      pl_installed_at := "t" |}];
     w_registry := []; w_policy_store := []; w_cache := ∅; w_events := []; w_requests := 0; w_mcp_requests := 0;
     w_ticks := 0; w_stmts := 0; w_tasks := 0; w_sec := no_files |}.
Definition veto_request : ApprovalRequest :=
  {| request_id := "req-1"; category := CapAdd; profile_name := "agent"; timeout_secs := 30;
     created_at := 0; payload := JNull; container_hint := None |}.

Lemma plugins_decide_before_listeners_witness :
  let run := plugin_aware_request (E := toy_env) (W := example_wasm) NoopApprovalGateway NoopAuditSink
               veto_request veto_world in
  ∃ o, run.1 = Ok o ∧ o = Denied "plugin:veto" (Some "reason").
Proof.
  intros run.
  pose proof (plugins_decide_before_listeners (E := toy_env) (W := example_wasm) NoopApprovalGateway
    NoopAuditSink veto_request veto_world (Denied "plugin:veto" (Some "reason")) run.2 eq_refl) as H.
  exists (Denied "plugin:veto" (Some "reason")). split; [reflexivity|exact (proj1 H)].
Defined.
