(* ===== verification/Manager.v ===== *)
(** The sandbox manager, [linpodx-sandbox/src/manager.rs]: loading profiles into
    the cache and applying one to a container about to be created, with the
    approvals, audit entries and events that go with it.

    The gateway and the security-profile compiler are reached through their
    interfaces ([ApprovalGateway], [SecCompiler]); the theorems hold for every
    implementation that satisfies the interface's laws. *)
From S2P Require Import Prelude Json Common Schema Policy Plugin Database AuditKinds AuditLog Logging Approval.

(** * secprofile.rs, as the manager sees it *)

Record CompiledProfile : Type := {
  seccomp_path : option string;
  apparmor_name : option string;
  selinux_module_name : option string;
  selinux_static_label : option string;
}.

Definition to_security_opts (c : CompiledProfile) : list string :=
  match seccomp_path c with Some p => ["seccomp=" +:+ p] | None => [] end
  ++ match apparmor_name c with Some n => ["apparmor=" +:+ n] | None => [] end
  ++ match selinux_static_label c with
     | Some label => ["label=type:" +:+ label]
     | None => match selinux_module_name c with Some n => ["label=type:" +:+ n] | None => [] end
     end.

Class SecCompiler := { compile : SandboxProfile → D CompiledProfile }.
Class SecCompilerLaws {E : Env} (C : SecCompiler) : Prop :=
  compile_log_safe profile :: LogSafe (compile profile).

(** * SandboxManager *)

(** The parts of the manager that do not change after construction: whether a
    plugin registry and a compiler are wired, and the default approval timeout in
    seconds. *)
Record ManagerConfig : Type := {
  mc_plugins : bool;
  mc_compiler : bool;
  default_approval_timeout : Z;
}.

Record SandboxProfileSummary : Type := {
  sum_name : string;
  sum_description : string;
  sum_version : Z;
  sum_yaml_hash : string;
  sum_last_updated : Z;
}.

Record SandboxProfileGetResponse : Type := {
  get_name : string;
  get_yaml : string;
  get_yaml_hash : string;
  get_last_updated : Z;
}.

Definition add_security_opts (extra : list string) (o : CreateOptions) : CreateOptions :=
  {| image := image o; co_name := co_name o; command := command o; env := env o; labels := labels o;
     rm := rm o; detach := detach o; port_mappings := port_mappings o; volumes := volumes o;
     networks := networks o; cap_drop := cap_drop o; cap_add := cap_add o; read_only := read_only o;
     cpus := cpus o; memory_mb := memory_mb o; sandbox_profile := sandbox_profile o;
     co_passthrough := co_passthrough o; co_systemd := co_systemd o; auto_restart := auto_restart o;
     keep_user_id := keep_user_id o; rootfs := rootfs o;
     security_opts := security_opts o ++ extra |}.

Definition needs_compile (profile : SandboxProfile) : bool :=
  is_some (syscall_allowlist profile) || is_some (apparmor_extra profile)
  || is_some (selinux_type profile) || is_some (selinux_label profile).

(** The audit kind, whether to go on, and the payload of an outcome. *)
Definition outcome_entry (o : ApprovalOutcome) : AuditKind * bool * Value :=
  match o with
  | Granted _ _ => (ApprovalGranted, true, outcome_to_value o)
  | Denied _ _ => (ApprovalDenied, false, outcome_to_value o)
  | TimedOut => (ApprovalTimedOut, false, JNull)
  | NoListener => (ApprovalNoListener, false, JNull)
  end.

Definition summary_of (lp : LoadedProfile) : SandboxProfileSummary :=
  {| sum_name := sp_name (lpf_profile lp); sum_description := description (lpf_profile lp);
     sum_version := version (lpf_profile lp); sum_yaml_hash := lpf_yaml_hash lp;
     sum_last_updated := lpf_last_updated lp |}.
Definition summary_le (a b : SandboxProfileSummary) : Prop := String.le (sum_name a) (sum_name b).
#[export] Instance summary_le_dec : RelDecision summary_le.
Proof. intros a b. unfold summary_le. apply _. Defined.

Section Manager.
Context {E : Env} {W : Wasm} {G : ApprovalGateway} {C : SecCompiler} (cfg : ManagerConfig).
Variable yaml_from_str : string → SandboxProfile + string.

Definition sha256_hex (s : string) : string := hex_encode (sha256 s).

Definition new_request_id : D string :=
  n ← gets w_requests;
  _ ← modify bump_requests;
  t ← now;
  mret ("req-" +:+ pretty t +:+ "-" +:+ pretty n).

(** ** Reading the cache *)

Definition get_profile (name : string) : D (option SandboxProfile) :=
  cache ← gets w_cache; mret (lpf_profile <$> cache !! name).

Definition l4_rules_for_profile (name : string) : D (list EgressRule) :=
  cache ← gets w_cache;
  mret match cache !! name with
       | Some lp => match network (lpf_profile lp) with Allowlist _ l4_rules => l4_rules | _ => [] end
       | None => []
       end.

Definition list_profiles : D (list SandboxProfileSummary) :=
  cache ← gets w_cache;
  mret (merge_sort summary_le (summary_of <$> (map_to_list cache).*2)).

Definition get_profile_response (name : string) : D SandboxProfileGetResponse :=
  cache ← gets w_cache;
  match cache !! name with
  | None => throw (Fail (NotFound ("sandbox profile '" +:+ name +:+ "'")))
  | Some lp => mret {| get_name := sp_name (lpf_profile lp); get_yaml := lpf_yaml lp;
                       get_yaml_hash := lpf_yaml_hash lp; get_last_updated := lpf_last_updated lp |}
  end.

(** ** reload *)

Definition reject_entry (profile : SandboxProfile) (yaml_hash : string)
    (outcome : string * ValidatorDecision) : D unit :=
  match outcome.2 with
  | Pass => mret tt
  | Reject reason =>
      _ ← append ProfileValidatorRejected (Some (sp_name profile)) None
            (JObject [("plugin", JString outcome.1); ("reason", JString reason);
                      ("yaml_hash", JString yaml_hash)]);
      mret tt
  end.

Definition is_reject (d : ValidatorDecision) : bool := match d with Reject _ => true | Pass => false end.

(** Whether the profile survives the [profile_validator] plugins. *)
Definition run_validators (profile : SandboxProfile) (yaml yaml_hash : string) : D bool :=
  if negb (mc_plugins cfg) then mret true
  else
    outcomes ← with_registry (λ ps, registry_profile_validator ps yaml);
    match outcomes with
    | None => mret false
    | Some outcomes =>
        _ ← for_each (reject_entry profile yaml_hash) outcomes;
        mret (negb (existsb (λ o, is_reject o.2) outcomes))
    end.

(** The body of the loop for a profile that survived. *)
Definition load_one (at_ : Z) (profile : SandboxProfile) (yaml yaml_hash : string) : D unit :=
  _ ← append ProfileLoaded (Some (sp_name profile)) None
        (JObject [("yaml_hash", JString yaml_hash); ("version", jint (version profile))]);
  _ ← stmt; (* INSERT ... ON CONFLICT(name) DO UPDATE *)
  rows ← gets w_profiles;
  modify (set_profiles (<[sp_name profile := {| pf_yaml := yaml; pf_hash := yaml_hash;
                                                pf_updated_at := ts_format at_ |}]> rows)).

Fixpoint reload_loop (at_ : Z) (pairs : list (SandboxProfile * string))
    (names : list string) (new_map : gmap string LoadedProfile) :
    D (list string * gmap string LoadedProfile) :=
  match pairs with
  | [] => mret (names, new_map)
  | (profile, yaml) :: pairs' =>
      let yaml_hash := sha256_hex yaml in
      keep ← run_validators profile yaml yaml_hash;
      if keep : bool then
        _ ← load_one at_ profile yaml yaml_hash;
        reload_loop at_ pairs' (names ++ [sp_name profile])
          (<[sp_name profile := {| lpf_profile := profile; lpf_yaml := yaml; lpf_yaml_hash := yaml_hash;
                                   lpf_last_updated := at_ |}]> new_map)
      else reload_loop at_ pairs' names new_map
  end.

Definition reload (dir : ReadDir) : D (list string) :=
  loaded_pairs ← lift (load_profiles_from_dir yaml_from_str dir);
  at_ ← now;
  '(names, new_map) ← reload_loop at_ loaded_pairs [] ∅;
  let count := size new_map in
  _ ← modify (set_cache new_map);
  let details := JObject [("count", jint (Z.of_nat count)); ("names", jstrs names)] in
  _ ← append ProfilesReloaded None None details;
  _ ← publish TSandbox Renamed "profiles" details;
  mret names.

(** ** apply_to_create *)

Definition maybe_compile_security_opts (profile : SandboxProfile) (opts : CreateOptions) : D CreateOptions :=
  if negb (needs_compile profile) then mret opts
  else if negb (mc_compiler cfg) then mret opts
  else
    compiled ← compile profile;
    match to_security_opts compiled with
    | [] => mret opts
    | opts_strs => mret (add_security_opts opts_strs opts)
    end.

Definition audit_and_publish_applied (name : string) (applied : AppliedPolicy) : D unit :=
  let details := applied_to_value applied in
  _ ← append ProfileApplied (Some name) None details;
  publish TSandbox Created name details.

Definition gate_request (name id : string) (timeout at_ : Z) (gate : PendingGate) : ApprovalRequest :=
  {| request_id := id; category := gate_category gate; profile_name := name; timeout_secs := timeout;
     created_at := at_; payload := gate_payload gate; container_hint := None |}.

Definition denied_message (name why : string) : Error :=
  InvalidArgument ("sandbox profile '" +:+ name +:+ "' denied: " +:+ why).

(** The body of the loop over the pending gates. *)
Definition ask_gate (name : string) (timeout : Z) (gate : PendingGate) : D unit :=
  id ← new_request_id;
  at_ ← now;
  let req := gate_request name id timeout at_ gate in
  _ ← append ApprovalRequested (Some name) None (request_to_value req);
  o ← request req;
  let '(kind, granted, entry) := outcome_entry o in
  _ ← append kind (Some name) None entry;
  if granted : bool then mret tt
  else throw (Fail (denied_message name ("approval not granted (" +:+ kind_as_str kind +:+ ")"))).

Definition finish_apply (name : string) (profile : SandboxProfile) (opts : CreateOptions)
    (applied : AppliedPolicy) : D (CreateOptions * AppliedPolicy) :=
  opts' ← maybe_compile_security_opts profile opts;
  _ ← audit_and_publish_applied name applied;
  mret (opts', applied).

Definition apply_to_create (name : string) (opts : CreateOptions) : D (CreateOptions * AppliedPolicy) :=
  cache ← gets w_cache;
  match cache !! name with
  | None => throw (Fail (NotFound ("sandbox profile '" +:+ name +:+ "'")))
  | Some lp =>
      let profile := lpf_profile lp in
      match Policy.apply profile opts with
      | Allow opts applied => finish_apply name profile opts applied
      | NeedsApproval gates opts applied =>
          let timeout := unwrap_or (default_approval_timeout cfg) (approval_timeout_secs profile) in
          _ ← for_each (ask_gate name timeout) gates;
          finish_apply name profile opts applied
      | PDeny reason =>
          let details := JObject [("reason", JString reason)] in
          _ ← append ProfileDenied (Some name) None details;
          _ ← publish TSandbox Stopped name details;
          throw (Fail (denied_message name reason))
      end
  end.

(** ** The audit log *)

Definition query_audit (filters : AuditFilters) : D (list AuditEntry) := query filters.

Definition manager_verify_chain (since_seq : option Z) : D VerifyReport :=
  report ← verify_chain since_seq;
  _ ← append ChainVerified None None
        (JObject [("total", jint (vr_total report)); ("last_seq", jopt jint (vr_last_seq report));
                  ("broken_at", jopt jint (vr_broken_at report))]);
  mret report.
End Manager.

(** * Lemmas *)

Section ManagerSafe.
Context {E : Env} {W : Wasm} {G : ApprovalGateway} {C : SecCompiler} (cfg : ManagerConfig).
Context {GL : GatewayLaws G} {CL : SecCompilerLaws C}.
Variable yaml_from_str : string → SandboxProfile + string.

#[export] Instance log_safe_new_request_id : LogSafe new_request_id.
Proof. unfold new_request_id. apply _. Qed.
#[local] Typeclasses Opaque new_request_id.
#[export] Instance log_safe_reject_entry profile h o : LogSafe (reject_entry profile h o).
Proof. unfold reject_entry. case_match; apply _. Qed.
#[local] Typeclasses Opaque reject_entry.
#[export] Instance log_safe_run_validators profile y h : LogSafe (run_validators cfg profile y h).
Proof.
  unfold run_validators. case_match; [apply _|]. apply log_safe_bind; [apply _|].
  intros [o|]; apply _.
Qed.
#[local] Typeclasses Opaque run_validators.
#[export] Instance log_safe_load_one at_ profile y h : LogSafe (load_one at_ profile y h).
Proof. unfold load_one. apply _. Qed.
#[local] Typeclasses Opaque load_one.
#[export] Instance log_safe_reload_loop at_ pairs names m : LogSafe (reload_loop cfg at_ pairs names m).
Proof.
  revert names m. induction pairs as [|[profile y] pairs IH]; intros names m; simpl; [apply _|].
  apply log_safe_bind; [apply _|]. intros []; apply _.
Qed.
#[local] Typeclasses Opaque reload_loop.
#[export] Instance log_safe_reload dir : LogSafe (reload cfg yaml_from_str dir).
Proof.
  unfold reload. do 2 (apply log_safe_bind; [apply _|intros ?]).
  apply log_safe_bind; [apply _|]. intros [names m]. apply _.
Qed.
#[export] Instance log_safe_compile_opts profile opts : LogSafe (maybe_compile_security_opts cfg profile opts).
Proof.
  unfold maybe_compile_security_opts. repeat (case_match; [apply _|]).
  apply log_safe_bind; [apply _|]. intros c. case_match; apply _.
Qed.
#[local] Typeclasses Opaque maybe_compile_security_opts.
#[export] Instance log_safe_applied name applied : LogSafe (audit_and_publish_applied name applied).
Proof. unfold audit_and_publish_applied. apply _. Qed.
#[local] Typeclasses Opaque audit_and_publish_applied.
#[export] Instance log_safe_ask_gate name timeout gate : LogSafe (ask_gate name timeout gate).
Proof.
  unfold ask_gate. do 4 (apply log_safe_bind; [apply _|intros ?]).
  destruct (outcome_entry _) as [[kind []] entry]; apply _.
Qed.
#[local] Typeclasses Opaque ask_gate.
#[export] Instance log_safe_finish name profile opts applied : LogSafe (finish_apply cfg name profile opts applied).
Proof. unfold finish_apply. apply _. Qed.
#[local] Typeclasses Opaque finish_apply.
#[export] Instance log_safe_apply_to_create name opts : LogSafe (apply_to_create cfg name opts).
Proof.
  unfold apply_to_create. apply log_safe_bind; [apply _|]. intros cache. case_match; [|apply _].
  case_match; apply _.
Qed.
#[export] Instance log_safe_verify_rows since : LogSafe (verify_chain since).
Proof. unfold verify_chain. apply log_safe_bind; [case_match; apply _|apply _]. Qed.
#[export] Instance log_safe_manager_verify since : LogSafe (manager_verify_chain since).
Proof. unfold manager_verify_chain. apply _. Qed.
#[local] Typeclasses Opaque manager_verify_chain.
End ManagerSafe.

(** * What a handler leaves in the audit log *)

(** The rows added between two worlds have, among those of profile [name], the
    kinds [ks] in this order. *)
Definition leaves_trace (name : string) (ks : list AuditKind) (w w' : World) : Prop :=
  ∃ rows, w_audit w' = w_audit w ++ rows ∧
    kind_as_str <$> ks `sublist_of` ar_kind <$> filter (λ r, ar_profile r = Some name) rows.

Lemma leaves_trace_app name ks1 ks2 w w1 w2 :
  leaves_trace name ks1 w w1 → leaves_trace name ks2 w1 w2 → leaves_trace name (ks1 ++ ks2) w w2.
Proof.
  intros (rows1 & H1 & S1) (rows2 & H2 & S2). exists (rows1 ++ rows2).
  rewrite H2, H1, <-(assoc_L app), fmap_app, filter_app, fmap_app. split; [done|]. by apply sublist_app.
Qed.

Section Traces.
Context {E : Env}.

Lemma leaves_trace_silent {A} (c : D A) name w :
  LogSafe c → leaves_trace name [] w (c w).2.
Proof. intros H. destruct (H w) as [[rows Hr] _]. exists rows. split; [exact Hr|]. apply sublist_nil_l. Qed.

Lemma leaves_trace_run {A} (c : D A) name w r w' :
  LogSafe c → c w = (r, w') → leaves_trace name [] w w'.
Proof. intros Hs H. pose proof (leaves_trace_silent c name w Hs) as Ht. by rewrite H in Ht. Qed.

Lemma leaves_trace_append kind name container p w e w' :
  append kind (Some name) container p w = (Ok e, w') → leaves_trace name [kind] w w'.
Proof.
  intros H. apply append_spec in H as ([Ha _] & _). eexists. split; [exact Ha|].
  rewrite filter_cons, decide_True by done. simpl. apply sublist_skip, sublist_nil_l.
Qed.
End Traces.

Section ApplyFacts.
Context {E : Env} {W : Wasm} {G : ApprovalGateway} {C : SecCompiler} (cfg : ManagerConfig).
Context {GL : GatewayLaws G} {CL : SecCompilerLaws C}.

(** The gateway was asked about this gate, in the profile's name, and granted it. *)
Definition gate_granted (name : string) (gate : PendingGate) : Prop :=
  ∃ id timeout at_ w1 w2 by_ reason,
    request (gate_request name id timeout at_ gate) w1 = (Ok (Granted by_ reason), w2).

Lemma ask_gate_ok name timeout gate w w' :
  ask_gate name timeout gate w = (Ok tt, w') →
  gate_granted name gate ∧ leaves_trace name [ApprovalRequested; ApprovalGranted] w w'.
Proof.
  unfold ask_gate. intros H. inv_bind H id w1 Hid. inv_bind H at_ w2 Hat. inv_bind H e w3 Hreq.
  inv_bind H o w4 Ho. destruct o as [by_ reason|by_ reason| |]; simpl in H; inv_bind H e2 w5 Hent; try done.
  inv_ret H. split; [by repeat eexists|].
  apply (leaves_trace_run _ name) in Hid; [|apply _]. apply (leaves_trace_run _ name) in Hat; [|apply _].
  apply leaves_trace_append in Hreq. apply (leaves_trace_run _ name) in Ho; [|apply _].
  apply leaves_trace_append in Hent.
  exact (leaves_trace_app _ [] _ _ _ _ Hid (leaves_trace_app _ [] _ _ _ _ Hat
    (leaves_trace_app _ [_] [_] _ _ _ Hreq (leaves_trace_app _ [] [_] _ _ _ Ho Hent)))).
Qed.

Definition gate_trace (gates : list PendingGate) : list AuditKind :=
  concat ((λ _, [ApprovalRequested; ApprovalGranted]) <$> gates).

Lemma ask_gates_ok name timeout gates w w' :
  for_each (ask_gate name timeout) gates w = (Ok tt, w') →
  Forall (gate_granted name) gates ∧ leaves_trace name (gate_trace gates) w w'.
Proof.
  revert w. induction gates as [|g gates IH]; simpl; intros w H.
  { inv_ret H. split; [done|]. by apply (leaves_trace_run (mret tt : D unit) name w (Ok tt) w _). }
  inv_bind H u w1 Hg. destruct u. apply ask_gate_ok in Hg as [??]. apply IH in H as [??].
  split; [by constructor|]. by eapply leaves_trace_app.
Qed.

Lemma compile_opts_ok profile opts w opts' w' :
  maybe_compile_security_opts cfg profile opts w = (Ok opts', w') →
  ∃ extra, opts' = add_security_opts extra opts ∧
    (needs_compile profile = false ∨ mc_compiler cfg = false → opts' = opts).
Proof.
  assert (∀ o, o = add_security_opts [] o) as Hnil.
  { intros []. unfold add_security_opts. simpl. by rewrite app_nil_r. }
  unfold maybe_compile_security_opts. intros H.
  destruct (needs_compile profile), (mc_compiler cfg); simpl in H; try (inv_ret H; by eauto).
  inv_bind H c w1 Hc. destruct (to_security_opts c) as [|x l]; inv_ret H.
  - exists []. split; [apply Hnil|]. by intros [].
  - exists (x :: l). split; [done|]. by intros [].
Qed.

Lemma finish_apply_ok name profile opts applied w opts' applied' w' :
  finish_apply cfg name profile opts applied w = (Ok (opts', applied'), w') →
  applied' = applied ∧ (∃ extra, opts' = add_security_opts extra opts) ∧
  (needs_compile profile = false ∨ mc_compiler cfg = false → opts' = opts) ∧
  leaves_trace name [ProfileApplied] w w' ∧
  ∃ ev, last (w_events w') = Some ev ∧ topic ev = TSandbox ∧ ev_kind ev = Created ∧ resource_id ev = name.
Proof.
  unfold finish_apply. intros H. inv_bind H o w1 Ho. inv_bind H u w2 Hu. inv_ret H.
  injection H as <- <-. split; [done|].
  pose proof (compile_opts_ok _ _ _ _ _ Ho) as (extra & -> & Hsame).
  split; [by eauto|]. split; [done|]. apply (leaves_trace_run _ name) in Ho; [|apply _].
  unfold audit_and_publish_applied in Hu. inv_bind Hu e w3 He. apply leaves_trace_append in He.
  pose proof (leaves_trace_run _ name _ _ _ (log_safe_publish _ _ _ _) Hu) as Hp.
  split.
  - exact (leaves_trace_app _ [] [_] _ _ _ Ho (leaves_trace_app _ [_] [] _ _ _ He Hp)).
  - unfold publish, now, modify in Hu. unfold mbind, M_bind in Hu. simplify_eq/=.
    rewrite last_snoc. by eexists.
Qed.
End ApplyFacts.

Section ReloadFacts.
Context {E : Env} {W : Wasm} (cfg : ManagerConfig).

Definition cache_entry (at_ : Z) (pair : SandboxProfile * string) : LoadedProfile :=
  {| lpf_profile := pair.1; lpf_yaml := pair.2; lpf_yaml_hash := sha256_hex pair.2; lpf_last_updated := at_ |}.
(** The cache the kept profiles make; of two with one name the last stays. *)
Definition build_cache (at_ : Z) (kept : list (SandboxProfile * string)) (m : gmap string LoadedProfile) :
    gmap string LoadedProfile :=
  foldl (λ m pair, <[sp_name pair.1 := cache_entry at_ pair]> m) m kept.

(** No validator plugin had an objection to the profile. *)
Definition accepted (pair : SandboxProfile * string) : Prop :=
  mc_plugins cfg = false ∨
  ∃ ps, Forall (λ o, o.2 = Pass) (registry_profile_validator ps pair.2).1.

Lemma for_each_reject_cache profile h outcomes w r w' :
  for_each (reject_entry profile h) outcomes w = (r, w') → w_cache w' = w_cache w.
Proof.
  revert w. induction outcomes as [|o outcomes IH]; simpl; intros w H; [by run_simpl H|].
  unfold mbind, M_bind in H. destruct (reject_entry profile h o w) as [[[]|e] w1] eqn:Hr.
  - rewrite (IH w1 H). clear IH H. unfold reject_entry in Hr. case_match; [by inv_ret Hr|].
    inv_bind Hr x w2 Ha. apply append_spec in Ha as (Hg & _). inv_ret Hr. apply Hg.
  - injection H as <- <-. unfold reject_entry in Hr. case_match; [done|].
    apply bind_err in Hr as [Ha|(? & ? & _ & ?)]; [|done]. apply append_spec in Ha as (_ & Hg & _). apply Hg.
Qed.

Lemma build_cache_lookup at_ kept m n lp :
  build_cache at_ kept m !! n = Some lp →
  m !! n = Some lp ∨ ∃ pair, pair ∈ kept ∧ sp_name pair.1 = n ∧ lp = cache_entry at_ pair.
Proof.
  revert m. induction kept as [|pair kept IH]; intros m H; simpl in H; [by left|].
  apply IH in H as [H|(pair' & ? & ? & ?)]; [|right; exists pair'; set_solver].
  apply lookup_insert_Some in H as [[<- <-]|[_ H]]; [right; exists pair; set_solver|by left].
Qed.

Lemma run_validators_spec profile y h w r w' :
  run_validators cfg profile y h w = (r, w') →
  w_cache w' = w_cache w ∧ (r = Ok true → accepted (profile, y)) ∧ (mc_plugins cfg = false → r = Ok true).
Proof.
  unfold run_validators, accepted. destruct (mc_plugins cfg); simpl; intros H; [|run_simpl H; by auto].
  unfold mbind, M_bind, with_registry in H. destruct (task_fault (w_tasks w)); [by run_simpl H|].
  destruct (registry_profile_validator (w_registry w) y) as [outcomes ps] eqn:Hv.
  destruct (for_each _ outcomes _) as [[[]|e] w1] eqn:Hf; apply for_each_reject_cache in Hf; run_simpl H.
  - split; [done|]. split; [|done]. intros [= Hn]. right. exists (w_registry w). rewrite Hv. simpl.
    apply Forall_forall. intros o Ho. destruct (o.2) eqn:Ho2; [done|]. exfalso.
    apply negb_true_iff in Hn. apply not_true_iff_false in Hn. apply Hn. apply existsb_exists.
    exists o. rewrite Ho2. split; [by apply list_elem_of_In|done].
  - done.
Qed.

Lemma load_one_cache at_ profile y h w r w' :
  load_one at_ profile y h w = (r, w') → w_cache w' = w_cache w.
Proof.
  unfold load_one. intros H. unfold mbind, M_bind in H.
  destruct (append _ _ _ _ w) as [[e|e] w1] eqn:Ha; apply append_spec in Ha.
  - destruct Ha as ((_ & _ & _ & _ & _ & _ & _ & _ & _ & Hc & _) & _). unfold stmt, gets, modify in H.
    repeat (case_match; simplify_eq/=); done.
  - destruct Ha as (_ & (_ & _ & _ & _ & _ & _ & _ & _ & _ & Hc & _) & _). by simplify_eq.
Qed.

Lemma reload_loop_spec at_ pairs names m w r w' :
  reload_loop cfg at_ pairs names m w = (r, w') →
  w_cache w' = w_cache w ∧
  match r with
  | Ok (names', m') => ∃ kept, kept `sublist_of` pairs ∧ names' = names ++ (sp_name ∘ fst <$> kept) ∧
      m' = build_cache at_ kept m ∧ Forall accepted kept ∧ (mc_plugins cfg = false → kept = pairs)
  | Err _ => True
  end.
Proof.
  revert names m w. induction pairs as [|[profile y] pairs IH]; simpl; intros names m w H.
  { run_simpl H. split; [done|]. exists []. by rewrite app_nil_r. }
  unfold mbind, M_bind in H. destruct (run_validators _ _ _ _ w) as [[[]|e] w1] eqn:Hv.
  - apply run_validators_spec in Hv as (Hc1 & Hacc & _).
    destruct (load_one _ _ _ _ w1) as [[[]|e] w2] eqn:Hl; apply load_one_cache in Hl;
      [|simplify_eq/=; split; [congruence|done]].
    apply IH in H as [Hc H]. split; [congruence|]. destruct r as [[names' m']|]; [|done].
    destruct H as (kept & Hsub & -> & -> & HF & Hall). exists ((profile, y) :: kept).
    split; [by constructor|]. rewrite <-(assoc_L app). split; [done|]. split; [done|].
    split; [constructor; auto|]. intros Hp. by rewrite Hall.
  - apply run_validators_spec in Hv as (Hc1 & _ & Hno). apply IH in H as [Hc H]. split; [congruence|].
    destruct r as [[names' m']|]; [|done]. destruct H as (kept & Hsub & -> & -> & HF & Hall).
    exists kept. split; [by constructor|]. split_and!; try done. intros Hp. by specialize (Hno Hp).
  - apply run_validators_spec in Hv as (Hc1 & _). by simplify_eq/=.
Qed.
End ReloadFacts.

(** * Theorems *)

Section ManagerTheorems.
Context {E : Env} {W : Wasm} {G : ApprovalGateway} {C : SecCompiler} (cfg : ManagerConfig).
Variable yaml_from_str : string → SandboxProfile + string.

(** C2: No container gets past its profile without the approvals it needs. When
    [apply_to_create] succeeds, the profile is loaded, the policy engine allowed
    the options or put them behind gates, the gateway granted every gate, the
    result is the engine's options with security options appended at most, and
    the log holds, for this profile, a request and a grant per gate and then the
    [profile_applied] entry, followed by the event. *)
Theorem create_needs_every_approval (GL : GatewayLaws G) (CL : SecCompilerLaws C) name opts w opts' applied w' :
  apply_to_create cfg name opts w = (Ok (opts', applied), w') →
  ∃ lp opts1 gates,
    w_cache w !! name = Some lp ∧
    (Policy.apply (lpf_profile lp) opts = Allow opts1 applied ∧ gates = [] ∨
     Policy.apply (lpf_profile lp) opts = NeedsApproval gates opts1 applied) ∧
    Forall (gate_granted name) gates ∧
    (∃ extra, opts' = add_security_opts extra opts1) ∧
    (needs_compile (lpf_profile lp) = false ∨ mc_compiler cfg = false → opts' = opts1) ∧
    leaves_trace name (gate_trace gates ++ [ProfileApplied]) w w' ∧
    ∃ ev, last (w_events w') = Some ev ∧ topic ev = TSandbox ∧ ev_kind ev = Created ∧ resource_id ev = name.
Proof.
  unfold apply_to_create. intros H. inv_bind H cache w1 Hc. run_simpl Hc.
  destruct (w_cache w1 !! name) as [lp|]; [|done]. exists lp.
  destruct (Policy.apply (lpf_profile lp) opts) as [opts1 ap|reason|gates opts1 ap].
  - destruct (finish_apply_ok _ _ _ _ _ _ _ _ _ H) as (-> & ? & ? & ? & ?). exists opts1, []. split_and!; auto.
  - inv_bind H e w2 He. inv_bind H u w3 Hu. done.
  - inv_bind H u w2 Hg. destruct u. apply ask_gates_ok in Hg as [HF Ht].
    destruct (finish_apply_ok _ _ _ _ _ _ _ _ _ H) as (-> & ? & ? & Ht2 & ?). exists opts1, gates.
    split_and!; auto. by eapply leaves_trace_app.
Qed.

(** A denied creation. When the policy engine denies, the caller gets an
    error whatever happens, the gateway is not asked, and unless the database
    refuses the entry, the log gains exactly one [profile_denied] row and the
    subscribers one event. *)
Theorem denied_create_is_recorded name opts w lp reason :
  w_cache w !! name = Some lp → Policy.apply (lpf_profile lp) opts = PDeny reason →
  let '(r, w') := apply_to_create cfg name opts w in
  r = Err (Fail Sqlx) ∧ w_audit w' = w_audit w ∧ w_events w' = w_events w ∨
  r = Err (Fail (denied_message name reason)) ∧
  w_audit w' = w_audit w ++ [new_row w ProfileDenied (Some name) None (JObject [("reason", JString reason)])] ∧
  ∃ ev, w_events w' = w_events w ++ [ev] ∧ ev_kind ev = Stopped ∧ resource_id ev = name ∧
    details ev = JObject [("reason", JString reason)].
Proof.
  intros Hc Hp. unfold apply_to_create. unfold mbind, M_bind, gets. rewrite Hc. simpl. rewrite Hp.
  destruct (append _ _ _ _ w) as [[e|e] w1] eqn:Ha; apply append_spec in Ha.
  - destruct Ha as ((Ha & _ & _ & _ & Hev & _) & _). right. split; [done|]. split; [done|].
    simpl. rewrite Hev. by eexists.
  - destruct Ha as (-> & (Ha & _ & _ & _ & Hev & _) & _). rewrite app_nil_r in Ha. left. done.
Qed.

(** A refused gate. When asking a gate fails for another reason than the
    database, the gateway was asked about exactly this gate and answered with a
    denial, a timeout or the absence of listeners; the log has the request and the
    matching refusal, and the caller is told which. *)
Theorem refused_gate_is_recorded (GL : GatewayLaws G) name timeout gate w e w' :
  ask_gate name timeout gate w = (Err (Fail e), w') →
  e = Sqlx ∨
  ∃ o id at_ w1 w2,
    request (gate_request name id timeout at_ gate) w1 = (Ok o, w2) ∧ is_granted o = false ∧
    let kind := (outcome_entry o).1.1 in
    e = denied_message name ("approval not granted (" +:+ kind_as_str kind +:+ ")") ∧
    leaves_trace name [ApprovalRequested; kind] w w'.
Proof.
  unfold ask_gate. intros H.
  apply bind_err in H as [H|(id & w1 & Hid & H)]; [done|].
  apply bind_err in H as [H|(at_ & w2 & Hat & H)]; [done|].
  apply bind_err in H as [H|(a & w3 & Hreq & H)]; [apply append_spec in H as [[= ->] _]; by left|].
  apply bind_err in H as [H|(o & w4 & Ho & H)].
  { exfalso. eapply request_never_fails. by rewrite H. }
  destruct (outcome_entry o) as [[kind granted] entry] eqn:Hoe.
  apply bind_err in H as [H|(a2 & w5 & Hent & H)]; [apply append_spec in H as [[= ->] _]; by left|].
  destruct granted; [done|]. run_simpl H. right. exists o, id, at_, w3, w4. split; [done|].
  split; [by destruct o|]. rewrite Hoe. split; [done|].
  apply (leaves_trace_run _ name) in Hid; [|apply _]. apply (leaves_trace_run _ name) in Hat; [|apply _].
  apply leaves_trace_append in Hreq, Hent. apply (leaves_trace_run _ name) in Ho; [|apply _].
  exact (leaves_trace_app _ [] _ _ _ _ Hid (leaves_trace_app _ [] _ _ _ _ Hat
    (leaves_trace_app _ [_] [_] _ _ _ Hreq (leaves_trace_app _ [] [_] _ _ _ Ho Hent)))).
Qed.

(** What [reload] puts in the cache. On success the cache is made of the
    profiles of the directory that no validator plugin rejected, all of them when
    no plugins are wired, each under its own name with the hash of its text, and
    the names returned are those of the kept profiles in order. *)
Theorem reload_caches_accepted_profiles dir w names w' :
  reload cfg yaml_from_str dir w = (Ok names, w') →
  ∃ pairs kept at_,
    load_profiles_from_dir yaml_from_str dir = Ok pairs ∧
    kept `sublist_of` pairs ∧ (mc_plugins cfg = false → kept = pairs) ∧ Forall (accepted cfg) kept ∧
    names = sp_name ∘ fst <$> kept ∧
    w_cache w' = build_cache at_ kept ∅ ∧
    (∀ n lp, w_cache w' !! n = Some lp →
       sp_name (lpf_profile lp) = n ∧ profile_valid (lpf_profile lp) ∧
       lpf_yaml_hash lp = sha256_hex (lpf_yaml lp) ∧ n ∈ names).
Proof.
  unfold reload. intros H. inv_bind H pairs w1 Hp. inv_bind H at_ w2 Hat. inv_bind H nm w3 Hl.
  destruct nm as [names' m]. apply reload_loop_spec in Hl as [_ (kept & Hsub & -> & -> & HF & Hall)].
  inv_bind H u1 w4 Hset. inv_bind H e w5 He. inv_bind H u2 w6 Hpub. inv_ret H.
  assert (w_cache w6 = build_cache at_ kept ∅) as Hcache.
  { run_simpl Hset. apply append_spec in He as ((_ & _ & _ & _ & _ & _ & _ & _ & _ & Hc & _) & _).
    unfold publish, now in Hpub. unfold mbind, M_bind in Hpub. run_simpl Hpub. done. }
  unfold lift in Hp. destruct (load_profiles_from_dir _ dir) as [ps|] eqn:Hd; [|done]. run_simpl Hp.
  exists pairs, kept, at_. split_and!; try done. rewrite Hcache. intros n lp Hn.
  apply build_cache_lookup in Hn as [[=]|(pair & Hin & <- & ->)]. simpl.
  split; [done|]. split.
  - assert (Forall (λ pc, profile_valid pc.1) pairs) as HV.
    { apply load_dir_ok in Hd. destruct dir; [by subst|done|]. destruct Hd as (_ & HV & _).
      eapply Forall_impl; [exact HV|]. by intros ? []. }
    rewrite Forall_forall in HV. apply HV. by eapply elem_of_sublist.
  - split; [done|]. apply list_elem_of_fmap. by exists pair.
Qed.

(** [reload] is all or nothing. When it fails, the cache is either the old
    one or the complete new one (the failure being that of the closing audit
    entry), never a mixture. *)
Theorem reload_is_all_or_nothing dir w e w' :
  reload cfg yaml_from_str dir w = (Err e, w') →
  w_cache w' = w_cache w ∨
  ∃ pairs kept at_, load_profiles_from_dir yaml_from_str dir = Ok pairs ∧ kept `sublist_of` pairs ∧
    Forall (accepted cfg) kept ∧ w_cache w' = build_cache at_ kept ∅ ∧ e = Fail Sqlx.
Proof.
  unfold reload. intros H.
  apply bind_err in H as [H|(pairs & w1 & Hp & H)]; [unfold lift in H; left; case_match; by run_simpl H|].
  unfold lift in Hp. destruct (load_profiles_from_dir _ dir) as [ps|] eqn:Hd; [|done]. run_simpl Hp.
  apply bind_err in H as [H|(at_ & w2 & Hat & H)]; [done|].
  assert (w_cache w2 = w_cache w1) as Hc2 by (unfold now in Hat; by simplify_eq/=).
  apply bind_err in H as [H|([names m] & w3 & Hl & H)].
  { apply reload_loop_spec in H as [Hc _]. left. congruence. }
  apply reload_loop_spec in Hl as [Hc3 (kept & Hsub & _ & -> & HF & _)].
  apply bind_err in H as [H|(u1 & w4 & Hset & H)]; [done|]. run_simpl Hset.
  apply bind_err in H as [H|(x & w5 & Ha & H)].
  - apply append_spec in H as (-> & (_ & _ & _ & _ & _ & _ & _ & _ & _ & Hc & _) & _). right.
    by exists pairs, kept, at_.
  - apply bind_err in H as [H|(u2 & w6 & Hpub & H)]; [|done].
    unfold publish, now in H. unfold mbind, M_bind in H. done.
Qed.

(** The manager never breaks the log. From a log that verifies, reloading,
    applying a profile (whatever the gateway and the compiler do within their
    laws, and however it ends) and verifying only add rows at the end, and the log
    still verifies from any starting seq. *)
Theorem manager_keeps_log_valid (GL : GatewayLaws G) (CL : SecCompilerLaws C) w dir name opts since from :
  audit_inv w →
  Forall (λ w', w_audit w `prefix_of` w_audit w' ∧ audit_inv w' ∧
                vr_broken_at (verify_rows from (w_audit w')) = None)
    [(reload cfg yaml_from_str dir w).2; (apply_to_create cfg name opts w).2;
     (manager_verify_chain since w).2].
Proof.
  intros Hinv.
  constructor; [|constructor; [|constructor; [|constructor]]]; apply log_extends_valid; try done.
  - apply (log_safe_reload cfg yaml_from_str dir).
  - apply (log_safe_apply_to_create cfg name opts).
  - apply (log_safe_manager_verify since).
Qed.
End ManagerTheorems.

(** * Examples *)

Definition no_compiler : SecCompiler :=
  {| compile := λ _, mret {| seccomp_path := None; apparmor_name := None; selinux_module_name := None;
                              selinux_static_label := None |} |}.
#[export] Instance no_compiler_laws {E : Env} : SecCompilerLaws no_compiler.
Proof. intros profile. simpl. apply _. Qed.

Definition example_cfg : ManagerConfig :=
  {| mc_plugins := false; mc_compiler := true; default_approval_timeout := 30 |}.
Definition cached (profile : SandboxProfile) : World :=
  set_cache {[sp_name profile := {| lpf_profile := profile; lpf_yaml := ""; lpf_yaml_hash := "";
                                    lpf_last_updated := 0 |}]} empty_world.
(** One mount outside the whitelist of [example_profile], which gates mounts. *)
Definition gated_opts : CreateOptions := example_opts [rw "/etc" "/conf"] [].

Lemma create_needs_every_approval_witness :
  ∃ opts' applied w' gates,
    apply_to_create (E := toy_env) (G := NoopApprovalGateway) (C := no_compiler) example_cfg "agent" gated_opts
      (cached example_profile) = (Ok (opts', applied), w') ∧
    Forall (gate_granted (G := NoopApprovalGateway) "agent") gates ∧
    leaves_trace "agent" (gate_trace gates ++ [ProfileApplied]) (cached example_profile) w'.
Proof.
  assert (is_ok (apply_to_create (E := toy_env) (G := NoopApprovalGateway) (C := no_compiler) example_cfg "agent"
              gated_opts (cached example_profile)).1 = true) as Hok by (vm_compute; reflexivity).
  destruct (apply_to_create (E := toy_env) (G := NoopApprovalGateway) (C := no_compiler) example_cfg "agent"
              gated_opts (cached example_profile)) as [[[opts' applied]|e] w'] eqn:H.
  - destruct (create_needs_every_approval (E := toy_env) (G := NoopApprovalGateway) (C := no_compiler) example_cfg
                _ _ "agent" gated_opts _ opts' applied w' H) as (lp & opts1 & gates & _ & _ & HF & _ & _ & HT & _).
    exists opts', applied, w', gates. exact (conj eq_refl (conj HF HT)).
  - discriminate Hok.
Defined.

Lemma denied_create_is_recorded_witness :
  let w := cached (plain_profile "agent") in
  let '(r, w') := apply_to_create (E := toy_env) (G := NoopApprovalGateway) (C := no_compiler) example_cfg "agent"
                    gated_opts w in
  ∃ reason,
  r = Err (Fail Sqlx) ∧ w_audit w' = w_audit w ∧ w_events w' = w_events w ∨
  r = Err (Fail (denied_message "agent" reason)) ∧
  w_audit w' = w_audit w ++ [new_row (E := toy_env) w ProfileDenied (Some "agent") None
                               (JObject [("reason", JString reason)])] ∧
  ∃ ev, w_events w' = w_events w ++ [ev] ∧ ev_kind ev = Stopped ∧ resource_id ev = "agent" ∧
    details ev = JObject [("reason", JString reason)].
Proof.
  intros w.
  pose proof (denied_create_is_recorded (E := toy_env) (G := NoopApprovalGateway) (C := no_compiler) example_cfg
    "agent" gated_opts w _ "mount '/etc->/conf' is not permitted by profile 'agent'" eq_refl eq_refl) as H.
  destruct (apply_to_create _ _ _ w) as [r w']. eexists. exact H.
Defined.

Lemma refused_gate_is_recorded_witness :
  let gate := mount_gate (rw "/etc" "/conf") in
  ∃ e w', ask_gate (E := toy_env) (G := DenyAllApprovalGateway) "agent" 30 gate empty_world = (Err (Fail e), w') ∧
    (e = Sqlx ∨ ∃ o id at_ w1 w2,
       request (ApprovalGateway := DenyAllApprovalGateway) (gate_request "agent" id 30 at_ gate) w1 = (Ok o, w2) ∧
       is_granted o = false ∧ let kind := (outcome_entry o).1.1 in
       e = denied_message "agent" ("approval not granted (" +:+ kind_as_str kind +:+ ")") ∧
       leaves_trace "agent" [ApprovalRequested; kind] empty_world w').
Proof.
  intros gate.
  assert (match (ask_gate (E := toy_env) (G := DenyAllApprovalGateway) "agent" 30 gate empty_world).1 with
          | Err (Fail _) => true | _ => false end = true) as Hok by (vm_compute; reflexivity).
  destruct (ask_gate (E := toy_env) (G := DenyAllApprovalGateway) "agent" 30 gate empty_world)
    as [[u|[e|m]] w'] eqn:H.
  - discriminate Hok.
  - exists e, w'. split; [reflexivity|].
    exact (refused_gate_is_recorded (E := toy_env) (G := DenyAllApprovalGateway) _ "agent" 30 gate empty_world e w' H).
  - discriminate Hok.
Defined.

Lemma reload_caches_accepted_profiles_witness :
  ∃ names w', reload (E := toy_env) (W := example_wasm) example_cfg plain_yaml example_dir empty_world = (Ok names, w') ∧
    ∀ n lp, w_cache w' !! n = Some lp → sp_name (lpf_profile lp) = n ∧ n ∈ names.
Proof.
  assert (is_ok (reload (E := toy_env) (W := example_wasm) example_cfg plain_yaml example_dir empty_world).1
          = true) as Hok by (vm_compute; reflexivity).
  destruct (reload (E := toy_env) (W := example_wasm) example_cfg plain_yaml example_dir empty_world)
    as [[names|e] w'] eqn:H.
  - exists names, w'. split; [reflexivity|].
    destruct (reload_caches_accepted_profiles (E := toy_env) (W := example_wasm) example_cfg plain_yaml example_dir
      empty_world names w' H) as (_ & _ & _ & _ & _ & _ & _ & _ & _ & Hall).
    intros n lp Hn. destruct (Hall n lp Hn) as (H1 & _ & _ & H2). exact (conj H1 H2).
  - discriminate Hok.
Defined.

Lemma reload_is_all_or_nothing_witness :
  let w' := (reload (E := toy_env) (W := example_wasm) example_cfg plain_yaml DirError empty_world).2 in
  w_cache w' = w_cache empty_world ∨
  ∃ pairs kept at_, load_profiles_from_dir plain_yaml DirError = Ok pairs ∧ kept `sublist_of` pairs ∧
    Forall (accepted (W := example_wasm) example_cfg) kept ∧
    w_cache w' = build_cache (E := toy_env) at_ kept ∅ ∧ Fail Io = Fail Sqlx.
Proof.
  apply (reload_is_all_or_nothing (E := toy_env) (W := example_wasm) example_cfg plain_yaml DirError
           empty_world (Fail Io)). reflexivity.
Defined.

Lemma manager_keeps_log_valid_witness :
  Forall (λ w', w_audit empty_world `prefix_of` w_audit w' ∧ audit_inv (E := toy_env) w' ∧
                vr_broken_at (verify_rows (E := toy_env) (Some 2%Z) (w_audit w')) = None)
    [(reload (E := toy_env) (W := example_wasm) example_cfg plain_yaml example_dir empty_world).2;
     (apply_to_create (E := toy_env) (G := NoopApprovalGateway) (C := no_compiler) example_cfg "agent" gated_opts
        empty_world).2;
     (manager_verify_chain (E := toy_env) None empty_world).2].
Proof.
  apply (manager_keeps_log_valid (E := toy_env) (W := example_wasm) (G := NoopApprovalGateway) (C := no_compiler)
           example_cfg plain_yaml _ _ empty_world example_dir "agent" gated_opts None (Some 2%Z)).
  apply audit_inv_empty.
Defined.
