(* ===== verification/Mcp.v ===== *)
(** MCP messages and the per-method policy: [linpodx-mcp/src/protocol.rs]
    (recognising one JSON-RPC line), [linpodx-mcp/src/policy.rs] (the rule
    engine), [linpodx-sandbox/src/mcp_policy.rs] (the [mcp_policies] table) and
    the [mcp_policy_set] handler of [linpodx-daemon/src/dispatch/mcp.rs] that
    keeps the rules the bridges read in step with the table. *)
From S2P Require Import Prelude Json Common Schema Plugin Database AuditKinds AuditLog Logging.

(** * protocol.rs *)

Definition METHOD_INITIALIZE : string := "initialize".
Definition METHOD_TOOLS_LIST : string := "tools/list".
Definition METHOD_TOOLS_CALL : string := "tools/call".
Definition METHOD_RESOURCES_LIST : string := "resources/list".
Definition METHOD_RESOURCES_READ : string := "resources/read".
Definition METHOD_RESOURCES_SUBSCRIBE : string := "resources/subscribe".
Definition METHOD_RESOURCES_UNSUBSCRIBE : string := "resources/unsubscribe".
Definition METHOD_PROMPTS_LIST : string := "prompts/list".
Definition METHOD_NOTIFICATIONS_INITIALIZED : string := "notifications/initialized".
Definition METHOD_NOTIFICATIONS_TOOLS_LIST_CHANGED : string := "notifications/tools/list_changed".
Definition METHOD_NOTIFICATIONS_RESOURCES_LIST_CHANGED : string := "notifications/resources/list_changed".
Definition METHOD_NOTIFICATIONS_PROMPTS_LIST_CHANGED : string := "notifications/prompts/list_changed".
Definition METHOD_NOTIFICATIONS_RESOURCES_UPDATED : string := "notifications/resources/updated".

Inductive McpMessage : Type :=
| Initialize (params : Value)
| ToolsList
| ToolsCall (name : string) (arguments : Value)
| ResourcesList
| ResourcesRead (uri : string)
| ResourcesSubscribe (uri : string)
| ResourcesUnsubscribe (uri : string)
| PromptsList
| Initialized
| ToolsListChanged
| ResourcesListChanged
| PromptsListChanged
| ResourcesUpdated (uri : string)
| Notification (m : string) (params : Value)
| Other (m : string) (params : Value).

(** [params.get(k).and_then(|v| v.as_str()).unwrap_or("")]. *)
Definition str_param (params : Value) (k : string) : string :=
  unwrap_or "" (get params k ≫= as_str).

Definition method_str (msg : McpMessage) : string :=
  match msg with
  | Initialize _ => METHOD_INITIALIZE
  | ToolsList => METHOD_TOOLS_LIST
  | ToolsCall _ _ => METHOD_TOOLS_CALL
  | ResourcesList => METHOD_RESOURCES_LIST
  | ResourcesRead _ => METHOD_RESOURCES_READ
  | ResourcesSubscribe _ => METHOD_RESOURCES_SUBSCRIBE
  | ResourcesUnsubscribe _ => METHOD_RESOURCES_UNSUBSCRIBE
  | PromptsList => METHOD_PROMPTS_LIST
  | Initialized => METHOD_NOTIFICATIONS_INITIALIZED
  | ToolsListChanged => METHOD_NOTIFICATIONS_TOOLS_LIST_CHANGED
  | ResourcesListChanged => METHOD_NOTIFICATIONS_RESOURCES_LIST_CHANGED
  | PromptsListChanged => METHOD_NOTIFICATIONS_PROMPTS_LIST_CHANGED
  | ResourcesUpdated _ => METHOD_NOTIFICATIONS_RESOURCES_UPDATED
  | Notification m _ | Other m _ => m
  end.

(** [McpMessage::tool_name]. *)
Definition message_tool (msg : McpMessage) : option string :=
  match msg with
  | ToolsCall name _ => if decide (name = "") then None else Some name
  | _ => None
  end.

(** The [match] of [parse], from the method, the params and the absence of [id]. *)
Definition message_of (m : string) (params : Value) (is_notification : bool) : McpMessage :=
  if decide (m = METHOD_INITIALIZE) then Initialize params
  else if decide (m = METHOD_TOOLS_LIST) then ToolsList
  else if decide (m = METHOD_TOOLS_CALL) then
    ToolsCall (str_param params "name") (unwrap_or JNull (get params "arguments"))
  else if decide (m = METHOD_RESOURCES_LIST) then ResourcesList
  else if decide (m = METHOD_RESOURCES_READ) then ResourcesRead (str_param params "uri")
  else if decide (m = METHOD_RESOURCES_SUBSCRIBE) then ResourcesSubscribe (str_param params "uri")
  else if decide (m = METHOD_RESOURCES_UNSUBSCRIBE) then ResourcesUnsubscribe (str_param params "uri")
  else if decide (m = METHOD_PROMPTS_LIST) then PromptsList
  else if decide (m = METHOD_NOTIFICATIONS_INITIALIZED) then Initialized
  else if decide (m = METHOD_NOTIFICATIONS_TOOLS_LIST_CHANGED) then ToolsListChanged
  else if decide (m = METHOD_NOTIFICATIONS_RESOURCES_LIST_CHANGED) then ResourcesListChanged
  else if decide (m = METHOD_NOTIFICATIONS_PROMPTS_LIST_CHANGED) then PromptsListChanged
  else if decide (m = METHOD_NOTIFICATIONS_RESOURCES_UPDATED) then ResourcesUpdated (str_param params "uri")
  else if is_notification then Notification m params
  else Other m params.

Definition parse_capabilities_object (caps : Value) : McpCapabilities :=
  {| tools := is_some (get caps "tools"); resources := is_some (get caps "resources");
     prompts := is_some (get caps "prompts"); logging := is_some (get caps "logging");
     experimental := unwrap_or JNull (get caps "experimental") |}.

Section Protocol.
Context {E : Env}.

Definition parse_message (line : string) : option McpMessage :=
  value ← json_from_str (trim line);
  m ← get value "method" ≫= as_str;
  let params := unwrap_or JNull (get value "params") in
  let is_notification := negb (is_some (get value "id")) in
  Some (message_of m params is_notification).

Definition parse_initialize_response (line : string) (expected_id : Z) : option McpCapabilities :=
  value ← json_from_str (trim line);
  if is_some (get value "method") then None
  else
    i ← get value "id" ≫= as_i64;
    if negb (bool_decide (i = expected_id)) then None
    else
      caps ← get value "result" ≫= (λ r, get r "capabilities");
      Some (parse_capabilities_object caps).
End Protocol.

(** * policy.rs *)

Definition default_action (rules : list McpPolicyRule) : McpPolicyDecision :=
  if existsb (λ r, bool_decide (decision r = Deny)) rules then Deny else AuditOnly.

(** [rules.iter().find(...)] for a method and a tool name, or for the method alone. *)
Definition find_rule (rules : list McpPolicyRule) (m : string) (tool : option string) :
    option McpPolicyRule :=
  snd <$> list_find (λ r, method r = m ∧ tool_name r = tool) rules.

Definition evaluate_policy (rules : list McpPolicyRule) (msg : McpMessage) : McpPolicyDecision :=
  let m := method_str msg in
  let specific :=
    if decide (m = METHOD_TOOLS_CALL) then
      match message_tool msg with Some tool => find_rule rules m (Some tool) | None => None end
    else None in
  match specific with
  | Some r => decision r
  | None =>
      match find_rule rules m None with
      | Some r => decision r
      | None => default_action rules
      end
  end.

(** * mcp_policy.rs *)

Definition policy_decision_str (d : McpPolicyDecision) : string :=
  match d with
  | AutoAllow => "auto_allow"
  | Prompt => "prompt"
  | Deny => "deny"
  | AuditOnly => "audit_only"
  end.

Definition parse_decision (raw : string) : Result Error McpPolicyDecision :=
  if decide (raw = "auto_allow") then Ok AutoAllow
  else if decide (raw = "prompt") then Ok Prompt
  else if decide (raw = "deny") then Ok Deny
  else if decide (raw = "audit_only") then Ok AuditOnly
  else Err (Runtime ("invalid mcp policy decision in DB: '" +:+ raw +:+ "'")).

Definition into_rule (r : PolicyRow) : Result Error McpPolicyRule :=
  match parse_decision (pr_decision r) with
  | Err e => Err e
  | Ok d => Ok {| method := pr_method r; tool_name := pr_tool_name r; decision := d; rule_note := pr_note r |}
  end.

Definition rule_to_value (r : McpPolicyRule) : Value :=
  JObject ([("method", JString (method r))] ++ skip_none "tool_name" (tool_name r) ++
           [("decision", JString (policy_decision_str (decision r)))] ++ skip_none "note" (rule_note r)).

(** SQL's [=] on the two columns of the [UNIQUE] constraint: a [NULL] tool name
    equals nothing, not even another [NULL]. *)
Definition conflicts (r : McpPolicyRule) (row : PolicyRow) : bool :=
  bool_decide (pr_method row = method r) &&
  match tool_name r, pr_tool_name row with
  | Some t, Some t' => bool_decide (t' = t)
  | _, _ => false
  end.

Definition row_of_rule (id : Z) (r : McpPolicyRule) : PolicyRow :=
  {| pr_id := id; pr_method := method r; pr_tool_name := tool_name r;
     pr_decision := policy_decision_str (decision r); pr_note := rule_note r |}.
Definition update_row (r : McpPolicyRule) (row : PolicyRow) : PolicyRow :=
  {| pr_id := pr_id row; pr_method := pr_method row; pr_tool_name := pr_tool_name row;
     pr_decision := policy_decision_str (decision r); pr_note := rule_note r |}.

(** The table after [INSERT ... ON CONFLICT(method, tool_name) DO UPDATE]; [id]
    is the row id SQLite allocated. *)
Definition upsert_rows (id : Z) (r : McpPolicyRule) (rows : list PolicyRow) : list PolicyRow :=
  if existsb (conflicts r) rows
  then (λ row, if conflicts r row then update_row r row else row) <$> rows
  else rows ++ [row_of_rule id r].

Section Store.
Context {E : Env}.

Definition load_all_rules : D (list McpPolicyRule) :=
  _ ← stmt;
  rows ← gets w_policies;
  lift (collect (into_rule <$> rows)).

Definition upsert_one (r : McpPolicyRule) : D unit :=
  _ ← stmt;
  rows ← gets w_policies;
  hi ← gets w_policies_seq;
  if bool_decide (hi = i64_max) then throw (Fail Sqlx)
  else modify (set_policies (upsert_rows (hi + 1) r rows) (hi + 1)).

Definition upsert {S : AuditSink} (rules : list McpPolicyRule) : D Z :=
  _ ← for_each upsert_one rules;
  let count := Z.of_nat (length rules) in
  _ ← record SinkMcpPolicyChanged None None
        (JObject [("op", JString "upsert"); ("count", jint count);
                  ("rules", JArray (rule_to_value <$> rules))]);
  mret count.

Definition delete_all : D Z :=
  _ ← stmt;
  rows ← gets w_policies;
  hi ← gets w_policies_seq;
  _ ← modify (set_policies [] hi);
  mret (Z.of_nat (length rows)).

Definition apply_set {S : AuditSink} (rules : list McpPolicyRule) (replace_all : bool) : D (Z * Z) :=
  deleted ← (if replace_all then delete_all else mret 0%Z);
  upserted ← upsert rules;
  _ ← (if replace_all then
         _ ← append McpPolicyChanged None None
               (JObject [("op", JString "delete_all"); ("count", jint deleted)]);
         mret tt
       else mret tt);
  mret (upserted, deleted).

(** * dispatch/mcp.rs *)

Definition mcp_policy_list : D (list McpPolicyRule) := load_all_rules.

Definition mcp_policy_set {W : Wasm} (rules : list McpPolicyRule) (replace_all : bool) : D (Z * Z) :=
  counts ← apply_set (S := SandboxAuditSink false) rules replace_all;
  new_rules ← load_all_rules;
  _ ← modify (set_policy_store new_rules);
  mret counts.
End Store.

(** * Lemmas *)

Lemma message_of_method m params n : method_str (message_of m params n) = m.
Proof. unfold message_of. repeat (case_decide; [by subst|]). by destruct n. Qed.

Lemma policy_decision_roundtrip d : parse_decision (policy_decision_str d) = Ok d.
Proof. by destruct d. Qed.

(** ** The engine as a lookup *)

(** What a rule list means: for each method and tool name (or none) the decision
    of the first rule that has exactly these. *)
Definition policy_map (rules : list McpPolicyRule) : gmap (string * option string) McpPolicyDecision :=
  list_to_map ((λ r, ((method r, tool_name r), decision r)) <$> rules).

Lemma find_rule_cons r rules m t :
  find_rule (r :: rules) m t =
  if decide (method r = m ∧ tool_name r = t) then Some r else find_rule rules m t.
Proof.
  unfold find_rule. simpl. case_decide; [done|].
  by destruct (list_find _ rules) as [[??]|].
Qed.

Lemma find_rule_lookup rules m t : decision <$> find_rule rules m t = policy_map rules !! (m, t).
Proof.
  induction rules as [|r rules IH]; [done|]. rewrite find_rule_cons. unfold policy_map in *. simpl.
  case_decide as H.
  - destruct H as [-> ->]. by rewrite lookup_insert_eq.
  - rewrite lookup_insert_ne; [done|]. intros [= ? ?]. by destruct H.
Qed.

Lemma default_action_deny rules :
  default_action rules = if decide (Exists (λ r, decision r = Deny) rules) then Deny else AuditOnly.
Proof.
  unfold default_action. induction rules as [|r rules IH]; simpl; [done|].
  case_bool_decide; simpl.
  - by rewrite decide_True by (by constructor).
  - rewrite IH. apply decide_ext. rewrite Exists_cons. naive_solver.
Qed.

(** ** The table *)

Definition row_key (row : PolicyRow) : option (string * string) :=
  t ← pr_tool_name row; Some (pr_method row, t).
Definition rule_key (r : McpPolicyRule) : option (string * string) :=
  t ← tool_name r; Some (method r, t).

(** The [UNIQUE(method, tool_name)] constraint as SQLite enforces it. *)
Definition unique_keys (rows : list PolicyRow) : Prop := NoDup (omap row_key rows).

Lemma conflicts_key r row : conflicts r row = true ↔ ∃ k, rule_key r = Some k ∧ row_key row = Some k.
Proof.
  unfold conflicts, rule_key, row_key. rewrite andb_true_iff.
  destruct (tool_name r) as [t|], (pr_tool_name row) as [t'|]; simpl.
  - rewrite !bool_decide_eq_true. split.
    + intros [-> ->]. by eexists.
    + intros (k & [= <-] & [= -> ->]). done.
  - split; [by intros []|]. by intros (? & ? & ?).
  - split; [by intros []|]. by intros (? & ? & ?).
  - split; [by intros []|]. by intros (? & ? & ?).
Qed.

Lemma row_key_of_rule id r : row_key (row_of_rule id r) = rule_key r.
Proof. done. Qed.

Lemma existsb_conflicts r rows :
  existsb (conflicts r) rows = true ↔ ∃ k, rule_key r = Some k ∧ k ∈ omap row_key rows.
Proof.
  rewrite existsb_exists. setoid_rewrite conflicts_key. setoid_rewrite list_elem_of_omap.
  setoid_rewrite <-list_elem_of_In. naive_solver.
Qed.

Lemma update_keys r (rows : list PolicyRow) :
  omap row_key ((λ row, if conflicts r row then update_row r row else row) <$> rows) = omap row_key rows.
Proof.
  induction rows as [|row rows IH]; [done|]. cbn [fmap list_fmap omap list_omap].
  assert (row_key (if conflicts r row then update_row r row else row) = row_key row) as -> by (by case_match).
  by rewrite IH.
Qed.

Lemma upsert_unique id r rows : unique_keys rows → unique_keys (upsert_rows id r rows).
Proof.
  unfold unique_keys, upsert_rows. intros H. destruct (existsb _ rows) eqn:He; [by rewrite update_keys|].
  rewrite omap_app. simpl. rewrite row_key_of_rule. destruct (rule_key r) as [k|] eqn:Hk; simpl.
  - apply NoDup_app. split; [done|]. split; [|apply NoDup_singleton].
    intros k' Hin ->%list_elem_of_singleton. apply not_true_iff_false in He. apply He.
    apply existsb_conflicts. eauto.
  - by rewrite app_nil_r.
Qed.

(** Rows as the store writes them read back. *)
Definition stored (row : PolicyRow) : Prop := ∃ d, pr_decision row = policy_decision_str d.

Lemma into_rule_row id r : into_rule (row_of_rule id r) = Ok r.
Proof. unfold into_rule. simpl. rewrite policy_decision_roundtrip. by destruct r. Qed.

Lemma into_rule_update r row :
  into_rule (update_row r row) =
  Ok {| method := pr_method row; tool_name := pr_tool_name row; decision := decision r; rule_note := rule_note r |}.
Proof. unfold into_rule. simpl. by rewrite policy_decision_roundtrip. Qed.

Lemma collect_app {X A} (l1 l2 : list (Result X A)) a1 a2 :
  collect l1 = Ok a1 → collect l2 = Ok a2 → collect (l1 ++ l2) = Ok (a1 ++ a2).
Proof.
  revert a1. induction l1 as [|[x|e] l1 IH]; simpl; intros a1 H1 H2; [by simplify_eq|..|done].
  destruct (collect l1) as [l|]; [|done]. simplify_eq. by rewrite (IH l eq_refl H2).
Qed.

(** The rules the table holds after an upsert. *)
Definition update_rule (r old : McpPolicyRule) : McpPolicyRule :=
  {| method := method old; tool_name := tool_name old; decision := decision r; rule_note := rule_note r |}.

Lemma collect_update r rows rules :
  collect (into_rule <$> rows) = Ok rules →
  collect (into_rule <$> ((λ row, if conflicts r row then update_row r row else row) <$> rows)) =
  Ok ((λ old, if decide (rule_key old = rule_key r ∧ is_Some (rule_key r)) then update_rule r old else old) <$> rules).
Proof.
  revert rules. induction rows as [|row rows IH]; intros rules H; [by simplify_eq/=|].
  rewrite fmap_cons in H. cbn [collect] in H. destruct (into_rule row) as [old|] eqn:Ho; [|done].
  destruct (collect (into_rule <$> rows)) as [l|] eqn:Hrest; [|done]. injection H as <-.
  rewrite !fmap_cons. cbn [collect]. rewrite (IH l eq_refl). clear IH Hrest.
  assert (row_key row = rule_key old) as Hk.
  { unfold into_rule in Ho. case_match; by simplify_eq. }
  assert (method old = pr_method row ∧ tool_name old = pr_tool_name row) as [Hm Ht].
  { unfold into_rule in Ho. case_match; by simplify_eq. }
  destruct (conflicts r row) eqn:Hc.
  - apply conflicts_key in Hc as (k & Hk1 & Hk2). rewrite into_rule_update, decide_True.
    + unfold update_rule. by rewrite Hm, Ht.
    + rewrite Hk1, <-Hk, Hk2. split; [done|by eexists].
  - rewrite Ho, decide_False; [done|]. intros [Heq [k Hs]]. apply not_true_iff_false in Hc. apply Hc.
    apply conflicts_key. exists k. by rewrite Hk, Heq.
Qed.

Lemma upsert_load_insert id r rows rules :
  collect (into_rule <$> rows) = Ok rules → existsb (conflicts r) rows = false →
  collect (into_rule <$> upsert_rows id r rows) = Ok (rules ++ [r]).
Proof.
  intros H Hc. unfold upsert_rows. rewrite Hc, fmap_app. apply collect_app; [done|].
  change (collect [into_rule (row_of_rule id r)] = Ok [r]). by rewrite into_rule_row.
Qed.

Lemma find_rule_app rules1 rules2 m t :
  find_rule (rules1 ++ rules2) m t =
  match find_rule rules1 m t with Some r => Some r | None => find_rule rules2 m t end.
Proof.
  induction rules1 as [|r rules1 IH]; [done|]. rewrite <-app_comm_cons, !find_rule_cons.
  by case_decide.
Qed.

Lemma collect_keys rows rules :
  collect (into_rule <$> rows) = Ok rules → omap row_key rows = omap rule_key rules.
Proof.
  revert rules. induction rows as [|row rows IH]; intros rules H; [by simplify_eq/=|].
  rewrite fmap_cons in H. cbn [collect] in H. destruct (into_rule row) as [old|] eqn:Ho; [|done].
  destruct (collect (into_rule <$> rows)) as [l|] eqn:Hrest; [|done]. injection H as <-.
  assert (row_key row = rule_key old) as Hk by (unfold into_rule in Ho; case_match; by simplify_eq).
  cbn [omap list_omap]. by rewrite Hk, (IH l eq_refl).
Qed.

Lemma find_rule_key rules k : k ∈ omap rule_key rules ↔ is_Some (find_rule rules k.1 (Some k.2)).
Proof.
  induction rules as [|x rules IH].
  { split; [by intros ?%elem_of_nil|by intros []]. }
  rewrite find_rule_cons, list_elem_of_omap. setoid_rewrite elem_of_cons.
  rewrite list_elem_of_omap in IH. destruct k as [m t]. simpl in *. case_decide as H.
  - split; [done|]. intros _. exists x. split; [by left|]. unfold rule_key. by destruct H as [-> ->].
  - rewrite <-IH. split; [|naive_solver]. intros (y & [->|?] & Hy); [|by eauto].
    exfalso. apply H. unfold rule_key in Hy. by destruct (tool_name x); simplify_eq/=.
Qed.

(** Updating the rule of a tool, seen through [find_rule]. *)
Lemma find_rule_update r rules m t k :
  rule_key r = Some k →
  find_rule ((λ old, if decide (rule_key old = rule_key r ∧ is_Some (rule_key r)) then update_rule r old else old)
               <$> rules) m t =
  (if decide ((m, t) = (k.1, Some k.2)) then update_rule r else id) <$> find_rule rules m t.
Proof.
  intros Hk. induction rules as [|old rules IH]; [by case_decide|].
  rewrite fmap_cons, !find_rule_cons, IH. clear IH.
  assert (rule_key old = rule_key r ∧ is_Some (rule_key r) ↔ (method old, tool_name old) = (k.1, Some k.2)) as Hiff.
  { rewrite Hk. unfold rule_key. destruct (tool_name old) as [t'|], k; simpl; split; naive_solver. }
  destruct (decide (method old = m ∧ tool_name old = t)) as [[<- <-]|Hne].
  - destruct (decide (rule_key old = rule_key r ∧ is_Some (rule_key r))) as [H|H]; rewrite Hiff in H.
    + by rewrite !decide_True.
    + by rewrite decide_True, decide_False.
  - rewrite decide_False; [done|]. by destruct (decide (rule_key old = _ ∧ _)).
Qed.

Section StoreFacts.
Context {E : Env} {W : Wasm}.

(** The two tables of rules, the stored one and the one in memory. *)
Definition same_rules (w w' : World) : Prop :=
  w_policies w' = w_policies w ∧ w_policy_store w' = w_policy_store w.

Lemma append_same_rules kind profile container p w r w' :
  append kind profile container p w = (r, w') → same_rules w w'.
Proof.
  intros H. apply append_spec in H.
  destruct r; [destruct H as ((_ & _ & ? & _ & _ & _ & _ & _ & ? & _) & _)
              |destruct H as (_ & (_ & _ & ? & _ & _ & _ & _ & _ & ? & _) & _)]; done.
Qed.

Lemma plain_record_same_rules kind profile container p w r w' :
  sandbox_record false kind profile container p w = (r, w') → same_rules w w'.
Proof.
  unfold sandbox_record, run_audit_filter_chain. unfold mbind, M_bind.
  intros H. destruct (is_filter_meta kind); cbn [negb] in H; cbv [mret M_ret] in H;
    unfold attempt in H; destruct (append _ _ _ _ w) as [[?|[?|?]] w1] eqn:Ha;
    apply append_same_rules in Ha; by simplify_eq.
Qed.

Lemma upsert_one_ok r w w' :
  upsert_one r w = (Ok tt, w') →
  w_policies w' = upsert_rows (w_policies_seq w + 1) r (w_policies w) ∧ w_policy_store w' = w_policy_store w.
Proof.
  unfold upsert_one, stmt. unfold mbind, M_bind, gets, modify, throw.
  intros H. repeat (case_match; simplify_eq/=). done.
Qed.

Lemma upsert_all_load rules w w' l :
  for_each upsert_one rules w = (Ok tt, w') → collect (into_rule <$> w_policies w) = Ok l →
  NoDup (omap rule_key (l ++ rules)) →
  collect (into_rule <$> w_policies w') = Ok (l ++ rules) ∧ w_policy_store w' = w_policy_store w.
Proof.
  revert w l. induction rules as [|r rules IH]; intros w l H Hl Hnd.
  { simpl in H. run_simpl H. by rewrite app_nil_r. }
  simpl in H. inv_bind H u w1 Hr. destruct u. apply upsert_one_ok in Hr as [Hp Hs].
  assert (existsb (conflicts r) (w_policies w) = false) as Hc.
  { apply not_true_iff_false. intros (k & Hk & Hin)%existsb_conflicts. rewrite (collect_keys _ _ Hl) in Hin.
    rewrite omap_app in Hnd. cbn [omap list_omap] in Hnd. rewrite Hk in Hnd.
    apply NoDup_app in Hnd as (_ & Hd & _). apply (Hd k Hin). left. }
  destruct (IH w1 (l ++ [r]) H) as [H1 H2].
  - rewrite Hp. by apply upsert_load_insert.
  - by rewrite <-(assoc_L app).
  - rewrite <-(assoc_L app) in H1. split; [done|congruence].
Qed.

Lemma load_all_ok w rules w' :
  load_all_rules w = (Ok rules, w') → collect (into_rule <$> w_policies w) = Ok rules ∧ same_rules w w'.
Proof.
  unfold load_all_rules, stmt, lift. unfold mbind, M_bind, gets.
  intros H. destruct (db_fault _); [done|]. simpl in H.
  destruct (collect (into_rule <$> w_policies w)); [|done]. run_simpl H. done.
Qed.
End StoreFacts.

(** * Theorems *)

Section McpTheorems.
Context {E : Env} {W : Wasm}.

(** Recognising a line never changes what it calls. A line is recognised only
    when it is JSON with a string [method], the message's method is that string
    whatever variant it became, and its tool name is the [params.name] of a
    [tools/call], so a rule written for a method sees every line that carries it. *)
Theorem parse_keeps_method line msg :
  parse_message line = Some msg →
  ∃ v, json_from_str (trim line) = Some v ∧ get v "method" = Some (JString (method_str msg)) ∧
    ∀ tool, message_tool msg = Some tool →
      method_str msg = METHOD_TOOLS_CALL ∧ str_param (unwrap_or JNull (get v "params")) "name" = tool.
Proof.
  unfold parse_message. destruct (json_from_str (trim line)) as [v|]; [|done]. simpl.
  destruct (get v "method") as [[]|] eqn:Hm; try done. simpl. intros [= <-]. exists v.
  rewrite message_of_method. split; [done|]. split; [done|]. intros tool. unfold message_of.
  repeat (case_decide; [try done|]); [|by destruct (is_some _)]. simpl. case_decide; [done|].
  by intros [= <-].
Qed.

(** C13: The policy engine is a lookup. A rule list is the map from (method, tool)
    to the decision of its first such rule; a call is decided by the entry of its
    tool, else by that of its method, else by the default, which is [Deny] as soon
    as the list contains any [Deny]. *)
Theorem engine_refines_lookup rules msg :
  let m := method_str msg in
  let tool := match message_tool msg with Some t => policy_map rules !! (m, Some t) | None => None end in
  evaluate_policy rules msg =
  match tool, policy_map rules !! (m, None) with
  | Some d, _ => d
  | None, Some d => d
  | None, None => if decide (Exists (λ r, decision r = Deny) rules) then Deny else AuditOnly
  end.
Proof.
  intros m tool. unfold evaluate_policy. fold m.
  assert (decision <$> (if decide (m = METHOD_TOOLS_CALL) then
            match message_tool msg with Some tool => find_rule rules m (Some tool) | None => None end
          else None) = tool) as Ht.
  { unfold tool. destruct (message_tool msg) as [t|] eqn:Ht; [|by case_decide].
    rewrite decide_True by (by destruct msg). apply find_rule_lookup. }
  rewrite <-Ht, <-find_rule_lookup. destruct (if decide _ then _ else None) as [r|]; [done|]. simpl.
  destruct (find_rule rules m None) as [r|]; [done|]. apply default_action_deny.
Qed.

(** Saving a tool rule. From a table that satisfies SQLite's uniqueness
    constraint, upserting a rule that names a tool makes it the one found for that
    method and tool, changes no other (method, tool) entry, and keeps the
    constraint. *)
Theorem upsert_replaces_tool_rule id r k rows rules :
  rule_key r = Some k → unique_keys rows → collect (into_rule <$> rows) = Ok rules →
  unique_keys (upsert_rows id r rows) ∧
  ∃ rules', collect (into_rule <$> upsert_rows id r rows) = Ok rules' ∧
    (∃ r', find_rule rules' (method r) (tool_name r) = Some r' ∧
       decision r' = decision r ∧ rule_note r' = rule_note r) ∧
    ∀ m t, (m, t) ≠ (method r, tool_name r) → find_rule rules' m t = find_rule rules m t.
Proof.
  intros Hk Hu Hl. split; [by apply upsert_unique|].
  assert (method r = k.1 ∧ tool_name r = Some k.2) as [Hm Ht].
  { unfold rule_key in Hk. destruct (tool_name r); by simplify_eq/=. }
  pose proof (existsb_conflicts r rows) as Hex. rewrite (collect_keys _ _ Hl) in Hex.
  destruct (existsb (conflicts r) rows) eqn:He.
  - eexists. unfold upsert_rows. rewrite He. split; [by apply collect_update|].
    rewrite Hm, Ht. setoid_rewrite (find_rule_update r rules _ _ k Hk). rewrite decide_True by done. split.
    + apply proj1 in Hex. destruct (Hex eq_refl) as (k' & Hk' & Hin). rewrite Hk in Hk'. injection Hk' as <-.
      apply find_rule_key in Hin as [old ->]. by eexists.
    + intros m t Hne. rewrite decide_False by done. by destruct (find_rule rules m t).
  - exists (rules ++ [r]). split; [by apply upsert_load_insert|]. split.
    + rewrite find_rule_app, Hm, Ht. destruct (find_rule rules k.1 (Some k.2)) as [old|] eqn:Hf.
      * exfalso. apply proj2 in Hex. discriminate Hex. exists k. split; [done|]. apply find_rule_key. by eexists.
      * rewrite find_rule_cons, decide_True by done. by eexists.
    + intros m t Hne. rewrite find_rule_app, find_rule_cons, decide_False; [by destruct (find_rule rules m t)|].
      intros [<- <-]. by apply Hne.
Qed.

(** Saving a method rule twice. [NULL] tool names never conflict, so upserting
    a rule for a whole method that already has one adds a second row instead of
    replacing the first, and the first is still the one every evaluation finds. *)
Theorem method_rule_cannot_be_updated id r rows rules old :
  tool_name r = None → collect (into_rule <$> rows) = Ok rules →
  find_rule rules (method r) None = Some old →
  ∃ rules', collect (into_rule <$> upsert_rows id r rows) = Ok rules' ∧
    length rules' = S (length rules) ∧ find_rule rules' (method r) None = Some old.
Proof.
  intros Ht Hl Hf. exists (rules ++ [r]). split; [|split].
  - apply upsert_load_insert; [done|]. apply not_true_iff_false. intros (k & Hk & _)%existsb_conflicts.
    unfold rule_key in Hk. by rewrite Ht in Hk.
  - rewrite length_app. simpl. lia.
  - by rewrite find_rule_app, Hf.
Qed.

(** Replacing the policy. When [mcp_policy_set] with [replace_all] succeeds for
    rules without two entries for one tool, the table and the rules every running
    bridge reads from now on are exactly those rules, in that order, and the two
    counts are right. *)
Theorem replace_all_installs_the_rules rules w counts w' :
  NoDup (omap rule_key rules) →
  mcp_policy_set rules true w = (Ok counts, w') →
  w_policy_store w' = rules ∧ collect (into_rule <$> w_policies w') = Ok rules ∧
  counts = (Z.of_nat (length rules), Z.of_nat (length (w_policies w))).
Proof.
  intros Hnd H. unfold mcp_policy_set in H. inv_bind H c w1 Hset. inv_bind H new w2 Hload.
  inv_bind H u w3 Hm. run_simpl Hm. inv_ret H. simpl.
  unfold apply_set in Hset. inv_bind Hset deleted w4 Hd. inv_bind Hset upserted w5 Hu.
  inv_bind Hset u2 w6 Hx. inv_ret Hset. inv_bind Hx e w7 Ha. inv_ret Hx.
  unfold delete_all, stmt in Hd. unfold mbind, M_bind, gets, modify in Hd.
  destruct (db_fault _); [done|]. run_simpl Hd.
  unfold upsert in Hu. inv_bind Hu u3 w8 Hf. destruct u3. inv_bind Hu u4 w9 Hr. run_simpl Hu.
  destruct (upsert_all_load rules _ _ [] Hf eq_refl Hnd) as [Hl _]. simpl in Hl.
  apply plain_record_same_rules in Hr as [Hr _]. apply append_same_rules in Ha as [Ha _].
  apply load_all_ok in Hload as [Hl2 [Hp _]].
  rewrite Ha, Hr, Hl in Hl2. injection Hl2 as <-. split; [done|]. split; [|done].
  by rewrite Hp, Ha, Hr.
Qed.

(** Replacing the policy is not a transaction. When the delete goes through and
    the first insert does not, the caller gets an error, the running bridges keep
    the old rules, and the table is left empty for the next start. *)
Theorem failed_replace_empties_table r rules w :
  db_fault (w_stmts w) = false → db_fault (S (w_stmts w)) = true →
  ∃ w', mcp_policy_set (r :: rules) true w = (Err (Fail Sqlx), w') ∧
    w_policies w' = [] ∧ w_policy_store w' = w_policy_store w.
Proof.
  intros H0 H1. unfold mcp_policy_set, apply_set, delete_all, upsert. simpl.
  unfold upsert_one, stmt. unfold mbind, M_bind, gets, modify, throw, mret, M_ret. simpl.
  rewrite H0. simpl. rewrite H1. eexists. done.
Qed.
End McpTheorems.

(** * Examples *)

Definition rule (m : string) (t : option string) (d : McpPolicyDecision) : McpPolicyRule :=
  {| method := m; tool_name := t; decision := d; rule_note := None |}.
Definition example_rows : list PolicyRow :=
  [row_of_rule 1 (rule "tools/call" (Some "shell") AutoAllow); row_of_rule 2 (rule "tools/call" None Prompt)].
Definition example_rules : list McpPolicyRule :=
  [rule "tools/call" (Some "shell") AutoAllow; rule "tools/call" None Prompt].

Lemma parse_keeps_method_witness :
  ∃ v, json_from_str (Env := toy_env) (trim " call ") = Some v ∧
    get v "method" = Some (JString METHOD_TOOLS_CALL).
Proof.
  destruct (parse_keeps_method (E := toy_env) " call " (ToolsCall "shell" JNull)) as (v & H1 & H2 & _);
    [reflexivity|]. exists v. exact (conj H1 H2).
Defined.

Lemma upsert_replaces_tool_rule_witness :
  unique_keys (upsert_rows 3 (rule "tools/call" (Some "shell") Deny) example_rows).
Proof.
  apply (upsert_replaces_tool_rule 3 (rule "tools/call" (Some "shell") Deny) ("tools/call", "shell")
           example_rows example_rules).
  - reflexivity.
  - apply (bool_decide_unpack _). vm_compute. exact I.
  - reflexivity.
Defined.

Lemma method_rule_cannot_be_updated_witness :
  ∃ rules', collect (into_rule <$> upsert_rows 3 (rule "tools/call" None Deny) example_rows) = Ok rules' ∧
    length rules' = 3 ∧ find_rule rules' "tools/call" None = Some (rule "tools/call" None Prompt).
Proof.
  exact (method_rule_cannot_be_updated 3 (rule "tools/call" None Deny) example_rows example_rules
           (rule "tools/call" None Prompt) eq_refl eq_refl eq_refl).
Defined.

Lemma replace_all_installs_the_rules_witness :
  w_policy_store (mcp_policy_set (E := toy_env) (W := example_wasm) example_rules true empty_world).2 = example_rules.
Proof.
  apply (replace_all_installs_the_rules (E := toy_env) (W := example_wasm) example_rules empty_world (2%Z, 0%Z)).
  - apply (bool_decide_unpack _). vm_compute. exact I.
  - vm_compute. reflexivity.
Defined.

Lemma failed_replace_empties_table_witness :
  let E := toy_env_with toy_texts (Nat.eqb 1) in
  let w := set_policies example_rows 2 empty_world in
  ∃ w', mcp_policy_set (E := E) (W := example_wasm) example_rules true w = (Err (Fail Sqlx), w') ∧
    w_policies w' = [] ∧ w_policy_store w' = [].
Proof.
  intros E w.
  exact (failed_replace_empties_table (E := E) (W := example_wasm) (rule "tools/call" (Some "shell") AutoAllow)
           [rule "tools/call" None Prompt] w eq_refl eq_refl).
Defined.
