(* ===== verification/Bridge.v ===== *)
(** The MCP stdio bridge, [linpodx-mcp/src/bridge.rs]: one line in, one decision,
    one audit record, at most one line out.

    A bridge has two pumps, one per direction, that share its subscriptions,
    capability cache, pending [initialize] ids and message counter; [BridgeState]
    is that shared state together with what has been written to either side. The
    lines of both directions may arrive in any order: [run_lines] takes the
    interleaving as its argument. *)
From S2P Require Import Prelude Json Common Schema Plugin Database AuditKinds AuditLog Logging Approval Mcp.

Definition MCP_PAYLOAD_TRUNCATE : nat := 8 * 1024.
Definition APPROVAL_PROFILE_NAME : string := "mcp-bridge".
Definition APPROVAL_TIMEOUT_SECS : Z := 30.

Inductive Direction : Type := HostToContainer | ContainerToHost.
#[export] Instance Direction_eq_dec : EqDecision Direction.
Proof. solve_decision. Defined.
Definition direction_str (d : Direction) : string :=
  match d with HostToContainer => "host_to_container" | ContainerToHost => "container_to_host" end.

(** * The legacy allowlist *)

Inductive AllowlistDecision : Type := ListAllowed | ListDenied | ListAuditOnly.

Definition allowlist_as_str (d : AllowlistDecision) : string :=
  match d with ListAllowed => "allowed" | ListDenied => "denied" | ListAuditOnly => "audit_only" end.

Definition check_allowlist (allowlist : gset string) (m : option string) : AllowlistDecision :=
  if decide (allowlist = ∅) then ListAuditOnly
  else match m with
       | Some m => if decide (m ∈ allowlist) then ListAllowed else ListDenied
       | None => ListAuditOnly
       end.

(** * State *)

(** The parts of [PumpContext] that do not change. *)
Record PumpConfig : Type := {
  pc_allowlist : gset string;
  pc_gateway : option ApprovalGateway;
  pc_container_id : string;
  pc_bridge_id : string;
}.

(** [sent_to d] are the lines written by the pump of direction [d]; [b_writes]
    counts the writes attempted so far. *)
Record BridgeState : Type := {
  b_messages : Z;
  b_capabilities : option McpCapabilities;
  b_subscriptions : gset string;
  b_pending_ids : gset Z;
  b_sent : list (Direction * string);
  b_writes : nat;
}.

Definition bridge_new : BridgeState :=
  {| b_messages := 0; b_capabilities := None; b_subscriptions := ∅; b_pending_ids := ∅; b_sent := [];
     b_writes := 0 |}.

Definition count_message (b : BridgeState) : BridgeState :=
  {| b_messages := wrap_u64 (b_messages b + 1); b_capabilities := b_capabilities b;
     b_subscriptions := b_subscriptions b; b_pending_ids := b_pending_ids b; b_sent := b_sent b;
     b_writes := b_writes b |}.
Definition set_subscriptions (s : gset string) (b : BridgeState) : BridgeState :=
  {| b_messages := b_messages b; b_capabilities := b_capabilities b; b_subscriptions := s;
     b_pending_ids := b_pending_ids b; b_sent := b_sent b; b_writes := b_writes b |}.
Definition set_pending (s : gset Z) (b : BridgeState) : BridgeState :=
  {| b_messages := b_messages b; b_capabilities := b_capabilities b; b_subscriptions := b_subscriptions b;
     b_pending_ids := s; b_sent := b_sent b; b_writes := b_writes b |}.
Definition set_capabilities (c : McpCapabilities) (b : BridgeState) : BridgeState :=
  {| b_messages := b_messages b; b_capabilities := Some c; b_subscriptions := b_subscriptions b;
     b_pending_ids := b_pending_ids b; b_sent := b_sent b; b_writes := b_writes b |}.
Definition send_line (d : Direction) (line : string) (b : BridgeState) : BridgeState :=
  {| b_messages := b_messages b; b_capabilities := b_capabilities b; b_subscriptions := b_subscriptions b;
     b_pending_ids := b_pending_ids b; b_sent := b_sent b ++ [(d, line)]; b_writes := S (b_writes b) |}.
Definition fail_write (b : BridgeState) : BridgeState :=
  {| b_messages := b_messages b; b_capabilities := b_capabilities b; b_subscriptions := b_subscriptions b;
     b_pending_ids := b_pending_ids b; b_sent := b_sent b; b_writes := S (b_writes b) |}.

(** The pumps run over the bridge's state and the daemon's. *)
Abbreviation B := (M (BridgeState * World) Fault).

Definition daemon {A} (c : D A) : B A := λ s, let '(r, w) := c s.2 in (r, (s.1, w)).
Definition getb {A} (f : BridgeState → A) : B A := λ s, (Ok (f s.1), s).
Definition modb (f : BridgeState → BridgeState) : B unit := λ s, (Ok tt, (f s.1, s.2)).

(** [Decision]: what to do with one line. *)
Record Decision : Type := {
  forward : bool;
  audit_kind : AuditSinkKind;
  decision_text : string;
  d_method : option string;
}.

Section Bridge.
(** The environment, the audit sink, and which of the writes to a child process
    fail. *)
Context {E : Env} {S : AuditSink} (write_fault : nat → bool).

Definition extract_method (line : string) : option string :=
  value ← json_from_str line; get value "method" ≫= as_str.

Definition extract_id (line : string) : option Z :=
  value ← json_from_str (trim line); get value "id" ≫= as_i64.

(** The first pending id this line answers; ids are distinct and a line answers
    one id only, so the order of the set does not matter. *)
Fixpoint find_response (raw : string) (ids : list Z) : option (Z * McpCapabilities) :=
  match ids with
  | [] => None
  | id :: ids' =>
      match parse_initialize_response raw id with
      | Some caps => Some (id, caps)
      | None => find_response raw ids'
      end
  end.

Definition handle_phase2f (dir : Direction) (parsed : option McpMessage) (raw : string) : B (option Decision) :=
  match dir with
  | HostToContainer =>
      match parsed with
      | Some (Initialize _) =>
          match extract_id raw with
          | Some id => ids ← getb b_pending_ids; _ ← modb (set_pending ({[id]} ∪ ids)); mret None
          | None => mret None
          end
      | Some (ResourcesSubscribe uri) =>
          subs ← getb b_subscriptions;
          _ ← modb (set_subscriptions ({[uri]} ∪ subs));
          mret (Some {| forward := true; audit_kind := SinkMcpResourceSubscribed; decision_text := "subscribed";
                        d_method := Some METHOD_RESOURCES_SUBSCRIBE |})
      | Some (ResourcesUnsubscribe uri) =>
          subs ← getb b_subscriptions;
          _ ← modb (set_subscriptions (subs ∖ {[uri]}));
          mret (Some {| forward := true; audit_kind := SinkMcpResourceUnsubscribed;
                        decision_text := "unsubscribed"; d_method := Some METHOD_RESOURCES_UNSUBSCRIBE |})
      | _ => mret None
      end
  | ContainerToHost =>
      match parsed with
      | Some (ResourcesUpdated uri) =>
          subs ← getb b_subscriptions;
          let subscribed := bool_decide (uri ∈ subs) in
          mret (Some {| forward := subscribed; audit_kind := SinkMcpResourceUpdated;
                        decision_text := if subscribed then "forwarded_subscribed" else "dropped_unsubscribed";
                        d_method := Some METHOD_NOTIFICATIONS_RESOURCES_UPDATED |})
      | Some ToolsListChanged | Some ResourcesListChanged | Some PromptsListChanged =>
          mret (Some {| forward := true; audit_kind := SinkMcpListChanged; decision_text := "list_changed";
                        d_method := method_str <$> parsed |})
      | _ =>
          ids ← getb b_pending_ids;
          match find_response raw (elements ids) with
          | Some (id, caps) =>
              _ ← modb (set_capabilities caps);
              ids' ← getb b_pending_ids;
              _ ← modb (set_pending (ids' ∖ {[id]}));
              mret (Some {| forward := true; audit_kind := SinkMcpListChanged;
                            decision_text := "initialize_complete"; d_method := Some "initialize/response" |})
          | None => mret None
          end
      end
  end.

(** [new_request_id], with a counter of its own. *)
Definition new_mcp_request_id : D string :=
  n ← gets w_mcp_requests;
  _ ← modify bump_mcp_requests;
  t ← now;
  mret ("mcp-" +:+ pretty t +:+ "-" +:+ pretty n).

Definition refusal_text (o : ApprovalOutcome) : string :=
  match o with
  | Denied _ _ => "prompt_denied"
  | TimedOut => "prompt_timed_out"
  | NoListener => "prompt_no_listener"
  | Granted _ _ => ""
  end.

Definition resolve_via_policy (cfg : PumpConfig) (d : McpPolicyDecision) (m tool : option string)
    (parsed : option McpMessage) : B Decision :=
  match d with
  | AutoAllow => mret {| forward := true; audit_kind := SinkMcpToolCalled; decision_text := "auto_allow"; d_method := m |}
  | AuditOnly => mret {| forward := true; audit_kind := SinkMcpToolCalled; decision_text := "audit_only"; d_method := m |}
  | Deny => mret {| forward := false; audit_kind := SinkMcpToolDenied; decision_text := "deny"; d_method := m |}
  | Prompt =>
      match pc_gateway cfg with
      | None => mret {| forward := true; audit_kind := SinkMcpToolCalled; decision_text := "audit_only"; d_method := m |}
      | Some gw =>
          id ← daemon new_mcp_request_id;
          let arguments := match parsed with Some (ToolsCall _ args) => args | _ => JNull end in
          at_ ← daemon now;
          let req := {| request_id := id; category := McpTool; profile_name := APPROVAL_PROFILE_NAME;
                        timeout_secs := APPROVAL_TIMEOUT_SECS; created_at := at_;
                        payload := JObject [("method", jopt JString m); ("tool_name", jopt JString tool);
                                            ("arguments", arguments)];
                        container_hint := Some (pc_container_id cfg) |} in
          o ← daemon (request (ApprovalGateway := gw) req);
          mret (if is_granted o
                then {| forward := true; audit_kind := SinkMcpToolCalled; decision_text := "prompt_granted"; d_method := m |}
                else {| forward := false; audit_kind := SinkMcpToolDenied; decision_text := refusal_text o; d_method := m |})
      end
  end.

Definition line_payload (cfg : PumpConfig) (dir : Direction) (d : Decision) (text : string) : Value :=
  JObject [("bridge_id", JString (pc_bridge_id cfg)); ("direction", JString (direction_str dir));
           ("method", jopt JString (d_method d)); ("decision", JString (decision_text d));
           ("payload", JString text)].

(** [false] tells the pump to stop. *)
Definition record_and_forward (cfg : PumpConfig) (dir : Direction) (text raw_line : string) (d : Decision) : B bool :=
  _ ← daemon (record (audit_kind d) None (Some (pc_container_id cfg)) (line_payload cfg dir d text));
  if negb (forward d) then mret true
  else
    n ← getb b_writes;
    if write_fault n then _ ← modb fail_write; mret false
    else _ ← modb (send_line dir raw_line); mret true.

(** The decision for a line [handle_phase2f] left alone. *)
Definition decide_line (cfg : PumpConfig) (parsed : option McpMessage) (trimmed : string) : B Decision :=
  rules ← daemon (gets w_policy_store);
  match rules, parsed with
  | _ :: _, Some msg =>
      resolve_via_policy cfg (evaluate_policy rules msg) (Some (method_str msg)) (message_tool msg) parsed
  | _ :: _, None =>
      mret {| forward := false; audit_kind := SinkMcpToolDenied; decision_text := "unparseable_denied";
              d_method := None |}
  | [], _ =>
      let m := match parsed with Some msg => Some (method_str msg) | None => extract_method trimmed end in
      let dec := check_allowlist (pc_allowlist cfg) m in
      mret {| forward := match dec with ListDenied => false | _ => true end;
              audit_kind := match dec with ListDenied => SinkMcpToolDenied | _ => SinkMcpToolCalled end;
              decision_text := allowlist_as_str dec; d_method := m |}
  end.

(** [trimmed[..MCP_PAYLOAD_TRUNCATE]] when the line is longer than that. *)
Definition truncate_payload (max : nat) (trimmed : string) : B string :=
  if max <? String.length trimmed then
    match slice_to trimmed max with
    | Some t => mret t
    | None => throw (Panic "byte index is not a char boundary")
    end
  else mret trimmed.

(** One turn of the pump's loop on the line [buf] it read. *)
Definition pump_line (cfg : PumpConfig) (dir : Direction) (buf : string) : B bool :=
  _ ← modb count_message;
  let trimmed := trim_newlines buf in
  let parsed := parse_message trimmed in
  text ← truncate_payload MCP_PAYLOAD_TRUNCATE trimmed;
  handled ← handle_phase2f dir parsed trimmed;
  match handled with
  | Some d => record_and_forward cfg dir text buf d
  | None => d ← decide_line cfg parsed trimmed; record_and_forward cfg dir text buf d
  end.

(** A pump reads lines until the end of the stream, a read error or a failed
    write; the list ends where the stream does. *)
Fixpoint pump (cfg : PumpConfig) (dir : Direction) (lines : list string) : B unit :=
  match lines with
  | [] => mret tt
  | buf :: lines' =>
      go_on ← pump_line cfg dir buf;
      if go_on : bool then pump cfg dir lines' else mret tt
  end.

(** Both pumps of a bridge, their lines in the order they are handled; [live]
    says which pumps have not stopped. *)
Fixpoint run_lines (cfg : PumpConfig) (live : Direction → bool) (lines : list (Direction * string)) : B unit :=
  match lines with
  | [] => mret tt
  | (dir, buf) :: lines' =>
      if live dir then
        go_on ← pump_line cfg dir buf;
        run_lines cfg (λ d, if decide (d = dir) then go_on else live d) lines'
      else run_lines cfg live lines'
  end.
End Bridge.

(** * Lemmas *)

Section BridgeFacts.
Context {E : Env} {S : AuditSink} (write_fault : nat → bool) (cfg : PumpConfig).

Lemma daemon_ok {A} (c : D A) b w a s' :
  daemon c (b, w) = (Ok a, s') ↔ ∃ w', c w = (Ok a, w') ∧ s' = (b, w').
Proof. unfold daemon. simpl. destruct (c w) as [r w']. naive_solver. Qed.

(** Handling the bridge-owned messages changes the bridge's state only. *)
Lemma handle_phase2f_ok dir parsed raw b w :
  ∃ h b', handle_phase2f dir parsed raw (b, w) = (Ok h, (b', w)) ∧
    b_sent b' = b_sent b ∧ b_writes b' = b_writes b ∧ b_messages b' = b_messages b.
Proof.
  unfold handle_phase2f. unfold mbind, M_bind, getb, modb. cbv [mret M_ret].
  repeat case_match; simplify_eq/=; eauto 10.
Qed.

(** Deciding any other line changes the daemon's state only. *)
Lemma decide_line_bridge parsed trimmed b w r s' :
  decide_line cfg parsed trimmed (b, w) = (r, s') → s'.1 = b.
Proof.
  unfold decide_line, resolve_via_policy. unfold mbind, M_bind, daemon. cbv [mret M_ret gets]. simpl.
  intros H. repeat (case_match; simplify_eq/=; try done).
Qed.

(** What [pump_line] decides for a line, and the states it leaves. *)
Definition decided (dir : Direction) (buf : string) (b : BridgeState) (w : World) (d : Decision)
    (b1 : BridgeState) (w1 : World) : Prop :=
  let trimmed := trim_newlines buf in
  let parsed := parse_message trimmed in
  ∃ h, handle_phase2f dir parsed trimmed (count_message b, w) = (Ok h, (b1, w)) ∧
    match h with
    | Some d' => d = d' ∧ w1 = w
    | None => decide_line cfg parsed trimmed (b1, w) = (Ok d, (b1, w1))
    end.

Definition audited_text (buf : string) : string := str_take MCP_PAYLOAD_TRUNCATE (trim_newlines buf).

Lemma record_and_forward_ok dir text raw d b w go b' w' :
  record_and_forward write_fault cfg dir text raw d (b, w) = (Ok go, (b', w')) →
  record (audit_kind d) None (Some (pc_container_id cfg)) (line_payload cfg dir d text) w = (Ok tt, w') ∧
  go = negb (forward d && write_fault (b_writes b)) ∧
  b' = (if forward d then if write_fault (b_writes b) then fail_write b else send_line dir raw b else b).
Proof.
  unfold record_and_forward. intros H. inv_bind H u s1 Hr. apply daemon_ok in Hr as (w1 & Hr & ->). destruct u.
  destruct (forward d); cbn [negb] in H; [|by run_simpl H].
  unfold mbind, M_bind, getb, modb in H. simpl in H. destruct (write_fault (b_writes b)); by run_simpl H.
Qed.

Lemma truncate_payload_ok max trimmed s text s' :
  truncate_payload max trimmed s = (Ok text, s') → text = str_take max trimmed ∧ s' = s.
Proof.
  unfold truncate_payload. destruct (Nat.ltb_spec max (String.length trimmed)) as [Hl|Hl]; intros H.
  - unfold slice_to in H. destruct (is_char_boundary _ _); [|done]. by run_simpl H.
  - rewrite str_take_full by done. by run_simpl H.
Qed.

Lemma pump_line_ok dir buf b w go b' w' :
  pump_line write_fault cfg dir buf (b, w) = (Ok go, (b', w')) →
  ∃ d b1 w1, decided dir buf b w d b1 w1 ∧
    record (audit_kind d) None (Some (pc_container_id cfg)) (line_payload cfg dir d (audited_text buf)) w1
      = (Ok tt, w') ∧
    go = negb (forward d && write_fault (b_writes b1)) ∧
    b' = (if forward d then if write_fault (b_writes b1) then fail_write b1 else send_line dir buf b1 else b1).
Proof.
  unfold pump_line. intros H. inv_bind H u s1 Hc. unfold modb in Hc. simplify_eq/=.
  inv_bind H text s2 Ht.
  apply truncate_payload_ok in Ht as [-> ->]. fold (audited_text buf) in H.
  inv_bind H h s3 Hh. destruct (handle_phase2f_ok dir (parse_message (trim_newlines buf)) (trim_newlines buf)
    (count_message b) w) as (h' & b1 & Hh' & _). rewrite Hh' in Hh. injection Hh as <- <-.
  destruct h' as [d|].
  - apply record_and_forward_ok in H as (? & ? & ?). exists d, b1, w. split; [|done].
    eexists. split; [exact Hh'|done].
  - inv_bind H d s4 Hd. destruct s4 as [b4 w4]. pose proof (decide_line_bridge _ _ _ _ _ _ Hd) as Hb.
    simpl in Hb. subst b4. apply record_and_forward_ok in H as (? & ? & ?). exists d, b1, w4. split; [|done].
    eexists. split; [exact Hh'|done].
Qed.

(** A line is only sent by a decision to forward it. *)
Lemma line_outcome dir buf b w go b' w' :
  pump_line write_fault cfg dir buf (b, w) = (Ok go, (b', w')) →
  ∃ d b1 w1, decided dir buf b w d b1 w1 ∧ (b_sent b' ≠ b_sent b → forward d = true).
Proof.
  intros H. destruct (pump_line_ok _ _ _ _ _ _ _ H) as (d & b1 & w1 & Hd & _ & _ & ->).
  exists d, b1, w1. split; [done|]. destruct (forward d); [done|]. intros []. destruct Hd as (h & Hh & _).
  destruct (handle_phase2f_ok dir (parse_message (trim_newlines buf)) (trim_newlines buf) (count_message b) w)
    as (h' & b1' & Hh' & ? & _). rewrite Hh' in Hh. by injection Hh as <- <-.
Qed.
End BridgeFacts.

(** ** Which messages the bridge decides itself *)

Definition bridge_owned (dir : Direction) (msg : McpMessage) : bool :=
  match dir, msg with
  | HostToContainer, (ResourcesSubscribe _ | ResourcesUnsubscribe _) => true
  | ContainerToHost, (ResourcesUpdated _ | ToolsListChanged | ResourcesListChanged | PromptsListChanged) => true
  | _, _ => false
  end.

Section Phase2f.
Context {E : Env}.

(** A line with a method is never the answer to an [initialize]. *)
Lemma find_response_message raw msg ids : parse_message raw = Some msg → find_response raw ids = None.
Proof.
  unfold parse_message. intros H. induction ids as [|i ids IH]; [done|]. simpl. rewrite IH.
  unfold parse_initialize_response. destruct (json_from_str (trim raw)) as [v|]; [|done]. simpl in *.
  destruct (get v "method") as [x|]; done.
Qed.

Lemma find_response_in raw ids i caps :
  find_response raw ids = Some (i, caps) → i ∈ ids ∧ parse_initialize_response raw i = Some caps.
Proof.
  induction ids as [|j ids IH]; simpl; [done|].
  destruct (parse_initialize_response raw j) eqn:Hp; [intros [= <- <-]; set_solver|].
  intros [? ?]%IH. set_solver.
Qed.

Lemma phase2f_not_owned dir raw msg b w h s' :
  parse_message raw = Some msg → bridge_owned dir msg = false →
  handle_phase2f dir (Some msg) raw (b, w) = (Ok h, s') → h = None.
Proof.
  intros Hp Ho. pose proof (find_response_message raw msg (elements (b_pending_ids b)) Hp) as Hf.
  unfold handle_phase2f. unfold mbind, M_bind, getb, modb. cbv [mret M_ret]. simpl.
  destruct dir, msg; simpl in Ho; try done; rewrite ?Hf; intros H; repeat (case_match; simplify_eq/=); by simplify_eq.
Qed.
End Phase2f.

(** ** Subscriptions *)

(** The subscriptions after a line, and after the lines handled so far. *)
Definition subscriptions_step {E : Env} (subs : gset string) (line : Direction * string) : gset string :=
  match line.1, parse_message (trim_newlines line.2) with
  | HostToContainer, Some (ResourcesSubscribe uri) => {[uri]} ∪ subs
  | HostToContainer, Some (ResourcesUnsubscribe uri) => subs ∖ {[uri]}
  | _, _ => subs
  end.
Definition subscriptions_after {E : Env} (lines : list (Direction * string)) : gset string :=
  foldl subscriptions_step ∅ lines.

Section Subscriptions.
Context {E : Env} {S : AuditSink} (write_fault : nat → bool) (cfg : PumpConfig).

Lemma phase2f_subscriptions dir raw b w h b1 :
  handle_phase2f dir (parse_message (trim_newlines raw)) (trim_newlines raw) (b, w) = (Ok h, (b1, w)) →
  b_subscriptions b1 = subscriptions_step (b_subscriptions b) (dir, raw) ∧
  (∀ uri, dir = ContainerToHost → parse_message (trim_newlines raw) = Some (ResourcesUpdated uri) →
    ∃ d, h = Some d ∧ forward d = bool_decide (uri ∈ b_subscriptions b)).
Proof.
  unfold handle_phase2f, subscriptions_step. unfold mbind, M_bind, getb, modb. cbv [mret M_ret]. simpl.
  intros H. split; [repeat (case_match; simplify_eq/=); done|].
  intros uri -> Hp. rewrite Hp in H. simplify_eq/=. eauto.
Qed.

(** One line: the subscriptions follow the line, and an update is sent only to a
    subscriber. *)
Lemma pump_line_subscriptions dir buf b w go b' w' :
  pump_line write_fault cfg dir buf (b, w) = (Ok go, (b', w')) →
  b_subscriptions b' = subscriptions_step (b_subscriptions b) (dir, buf) ∧
  (go = false → ∃ n, write_fault n = true) ∧
  (b_sent b' = b_sent b ∨ b_sent b' = b_sent b ++ [(dir, buf)] ∧
    ∀ uri, dir = ContainerToHost → parse_message (trim_newlines buf) = Some (ResourcesUpdated uri) →
      uri ∈ b_subscriptions b).
Proof.
  intros H. destruct (pump_line_ok _ _ _ _ _ _ _ _ _ H) as (d & b1 & w1 & (h & Hh & Hd) & _ & -> & ->).
  destruct (phase2f_subscriptions _ _ _ _ _ _ Hh) as [Hsub Hupd].
  destruct (handle_phase2f_ok dir (parse_message (trim_newlines buf)) (trim_newlines buf) (count_message b) w)
    as (h' & b1' & Hh' & Hs & _). rewrite Hh' in Hh. injection Hh as <- <-.
  destruct (forward d) eqn:Hf; [|by split_and!; [| |left]].
  destruct (write_fault (b_writes b1')) eqn:Hw; [by split_and!; [|eauto|left]|].
  split; [done|]. split; [done|]. right. simpl. rewrite Hs. split; [done|].
  intros uri Hdir Hp. destruct (Hupd uri Hdir Hp) as (d' & -> & Hd'). destruct Hd as [-> _].
  rewrite Hf in Hd'. symmetry in Hd'. by apply bool_decide_eq_true in Hd'.
Qed.

(** What a run owes to the lines [pre] handled before it. *)
Definition updates_justified (handled sent : list (Direction * string)) : Prop :=
  ∀ buf uri, (ContainerToHost, buf) ∈ sent → parse_message (trim_newlines buf) = Some (ResourcesUpdated uri) →
    ∃ pre post, handled = pre ++ (ContainerToHost, buf) :: post ∧ uri ∈ subscriptions_after pre.

Lemma subscriptions_after_snoc pre line :
  subscriptions_after (pre ++ [line]) = subscriptions_step (subscriptions_after pre) line.
Proof. unfold subscriptions_after. by rewrite foldl_app. Qed.

Lemma updates_justified_step pre dir buf sent sent' :
  updates_justified pre sent →
  (sent' = sent ∨ sent' = sent ++ [(dir, buf)] ∧
    ∀ uri, dir = ContainerToHost → parse_message (trim_newlines buf) = Some (ResourcesUpdated uri) →
      uri ∈ subscriptions_after pre) →
  updates_justified (pre ++ [(dir, buf)]) sent'.
Proof.
  intros Hj Hs buf' uri Hin Hp.
  assert ((ContainerToHost, buf') ∈ sent → ∃ pre0 post,
    pre ++ [(dir, buf)] = pre0 ++ (ContainerToHost, buf') :: post ∧ uri ∈ subscriptions_after pre0) as Hold.
  { intros Hin'. destruct (Hj buf' uri Hin' Hp) as (pre0 & post & -> & ?).
    exists pre0, (post ++ [(dir, buf)]). by rewrite <-app_assoc. }
  destruct Hs as [->|[-> Hu]]; [auto|]. apply elem_of_app in Hin as [?|Hin%list_elem_of_singleton]; [auto|].
  injection Hin as <- <-. exists pre, []. eauto.
Qed.

Lemma run_lines_justified lines : ∀ live pre b w b' w',
  run_lines write_fault cfg live lines (b, w) = (Ok tt, (b', w')) →
  b_subscriptions b = subscriptions_after pre → updates_justified pre (b_sent b) →
  ∃ handled, handled `sublist_of` lines ∧
    b_subscriptions b' = subscriptions_after (pre ++ handled) ∧
    updates_justified (pre ++ handled) (b_sent b') ∧
    ((∀ n, write_fault n = false) → (∀ d, live d = true) → handled = lines).
Proof.
  induction lines as [|[dir buf] lines IH]; intros live pre b w b' w' H Hsub Hj; simpl in H.
  { run_simpl H. exists []. rewrite app_nil_r. by split_and!. }
  destruct (live dir) eqn:Hlive.
  - inv_bind H go s1 Hl. destruct s1 as [b1 w1]. apply pump_line_subscriptions in Hl as (Hs1 & Hgo & Hsent).
    rewrite Hsub in Hs1, Hsent. rewrite <-subscriptions_after_snoc in Hs1.
    destruct (IH _ _ _ _ _ _ H Hs1 (updates_justified_step _ _ _ _ _ Hj Hsent)) as (hd & Hin & Hs2 & Hj2 & Hall).
    rewrite <-app_assoc in Hs2, Hj2. exists ((dir, buf) :: hd). split; [by constructor|].
    split; [done|]. split; [done|]. intros Hw Hl. rewrite Hall; [done|done|].
    intros d. case_decide; [|done]. destruct go; [done|]. destruct (Hgo eq_refl) as [n Hn]. by rewrite Hw in Hn.
  - destruct (IH _ _ _ _ _ _ H Hsub Hj) as (hd & Hin & ? & ? & ?). exists hd. split; [by constructor|].
    split; [done|]. split; [done|]. intros _ Hl. by rewrite Hl in Hlive.
Qed.
End Subscriptions.

(** ** The bridge and the log *)

Section BridgeLog.
Context {E : Env} {S : AuditSink} (SL : AuditSinkLaws S) (write_fault : nat → bool) (cfg : PumpConfig).
Context (GL : ∀ gw, pc_gateway cfg = Some gw → GatewayLaws gw).

(** [LogSafe] for computations over the bridge's state as well. *)
Class BridgeSafe {A} (c : B A) : Prop := bridge_safe s : log_extends s.2 (c s).2.2.

#[local] Instance bridge_safe_ret {A} (a : A) : BridgeSafe (mret a).
Proof. by intros s. Qed.
#[local] Instance bridge_safe_throw {A} (e : Fault) : BridgeSafe (throw e : B A).
Proof. by intros s. Qed.
#[local] Instance bridge_safe_getb {A} (f : BridgeState → A) : BridgeSafe (getb f).
Proof. by intros s. Qed.
#[local] Instance bridge_safe_modb f : BridgeSafe (modb f).
Proof. by intros s. Qed.
#[local] Instance bridge_safe_daemon {A} (c : D A) : LogSafe c → BridgeSafe (daemon c).
Proof. intros Hc [b w]. unfold daemon. simpl. specialize (Hc w). by destruct (c w). Qed.
#[local] Instance bridge_safe_bind {A C} (c : B A) (k : A → B C) :
  BridgeSafe c → (∀ a, BridgeSafe (k a)) → BridgeSafe (c ≫= k).
Proof.
  intros Hc Hk s. unfold mbind, M_bind. specialize (Hc s).
  destruct (c s) as [[a|e] s']; simpl in *; [|done]. etrans; [done|apply Hk].
Qed.
#[local] Typeclasses Opaque daemon getb modb.

#[local] Instance bridge_safe_phase2f dir parsed raw : BridgeSafe (handle_phase2f dir parsed raw).
Proof.
  intros [b w]. destruct (handle_phase2f_ok dir parsed raw b w) as (h & b' & -> & _). done.
Qed.

#[local] Instance log_safe_mcp_request_id : LogSafe new_mcp_request_id.
Proof. unfold new_mcp_request_id. apply _. Qed.

#[local] Instance bridge_safe_policy d m tool parsed : BridgeSafe (resolve_via_policy cfg d m tool parsed).
Proof.
  unfold resolve_via_policy. destruct d; try apply _. destruct (pc_gateway cfg) as [gw|] eqn:Hg; [|apply _].
  specialize (GL gw eq_refl). apply _.
Qed.

#[local] Instance bridge_safe_decide parsed trimmed : BridgeSafe (decide_line cfg parsed trimmed).
Proof. unfold decide_line. apply bridge_safe_bind; [apply _|]. intros [|r rs]; [apply _|]. destruct parsed; apply _. Qed.

#[local] Instance bridge_safe_record dir text raw d :
  BridgeSafe (record_and_forward write_fault cfg dir text raw d).
Proof.
  unfold record_and_forward. apply bridge_safe_bind; [apply _|]. intros _. destruct (negb _); [apply _|].
  apply bridge_safe_bind; [apply _|]. intros n. destruct (write_fault n); apply _.
Qed.

Lemma bridge_safe_pump_line dir buf : BridgeSafe (pump_line write_fault cfg dir buf).
Proof.
  unfold pump_line. apply bridge_safe_bind; [apply _|]. intros _. apply bridge_safe_bind.
  { unfold truncate_payload. repeat case_match; apply _. }
  intros text. apply bridge_safe_bind; [apply _|]. intros [d|]; apply _.
Qed.

Lemma bridge_safe_run_lines lines : ∀ live, BridgeSafe (run_lines write_fault cfg live lines).
Proof.
  induction lines as [|[dir buf] lines IH]; intros live; simpl; [apply _|]. destruct (live dir); [|apply IH].
  apply bridge_safe_bind; [apply bridge_safe_pump_line|]. intros go. apply IH.
Qed.
End BridgeLog.

(** * Theorems *)

Section BridgeTheorems.
Context {E : Env} {S : AuditSink} (write_fault : nat → bool) (cfg : PumpConfig).

(** Every line is audited, and only then, at most once and unchanged, sent on.
    A line that was handled has exactly one record, made after the decision, with
    the first 8192 bytes of the line; the other side gets the line itself exactly
    when the decision was to forward and the write worked, and the pump goes on
    unless that write failed. *)
Theorem line_audited_then_forwarded dir buf b w go b' w' :
  pump_line write_fault cfg dir buf (b, w) = (Ok go, (b', w')) →
  ∃ d b1 w1,
    decided cfg dir buf b w d b1 w1 ∧
    record (audit_kind d) None (Some (pc_container_id cfg)) (line_payload cfg dir d (audited_text buf)) w1
      = (Ok tt, w') ∧
    b_sent b' = b_sent b ++ (if forward d && negb (write_fault (b_writes b)) then [(dir, buf)] else []) ∧
    go = negb (forward d && write_fault (b_writes b)) ∧ b_messages b' = wrap_u64 (b_messages b + 1).
Proof.
  intros H. destruct (pump_line_ok _ _ _ _ _ _ _ _ _ H) as (d & b1 & w1 & Hd & Hr & -> & ->).
  exists d, b1, w1. split; [done|]. split; [done|].
  assert (b_sent b1 = b_sent b ∧ b_writes b1 = b_writes b ∧ b_messages b1 = wrap_u64 (b_messages b + 1))
    as (<- & <- & <-).
  { destruct Hd as (h & Hh & _).
    destruct (handle_phase2f_ok dir (parse_message (trim_newlines buf)) (trim_newlines buf) (count_message b) w)
      as (h' & b1' & Hh' & ? & ? & ?). rewrite Hh' in Hh. injection Hh as <- <-. done. }
  destruct (forward d); simpl; [destruct (write_fault (b_writes b1)); simpl|]; by rewrite ?app_nil_r.
Qed.

(** C7: An active policy decides. While there are rules, a recognised message that
    is not one of the subscription and list-changed messages the bridge handles
    itself reaches the other side only if the engine says [AutoAllow] or
    [AuditOnly], or says [Prompt] and either no gateway is wired or the gateway
    granted a request for this method and container. In particular a [Deny] is
    never forwarded. *)
Theorem policy_decides_forwarding dir buf msg b w go b' w' :
  w_policy_store w ≠ [] → parse_message (trim_newlines buf) = Some msg → bridge_owned dir msg = false →
  pump_line write_fault cfg dir buf (b, w) = (Ok go, (b', w')) → b_sent b' ≠ b_sent b →
  match evaluate_policy (w_policy_store w) msg with
  | AutoAllow | AuditOnly => True
  | Deny => False
  | Prompt => match pc_gateway cfg with
              | None => True
              | Some gw => ∃ req w1 w2 by_ reason,
                  request (ApprovalGateway := gw) req w1 = (Ok (Granted by_ reason), w2) ∧
                  category req = McpTool ∧ container_hint req = Some (pc_container_id cfg) ∧
                  get (payload req) "method" = Some (JString (method_str msg))
              end
  end.
Proof.
  intros Hr Hp Ho H Hs. destruct (line_outcome _ _ _ _ _ _ _ _ _ H) as (d & b1 & w1 & Hd & Hfwd).
  apply Hfwd in Hs. destruct Hd as (h & Hh & Hd). rewrite Hp in Hh, Hd.
  rewrite (phase2f_not_owned _ _ _ _ _ _ _ Hp Ho Hh) in Hd.
  unfold decide_line in Hd. inv_bind Hd rules s1 Hg. apply daemon_ok in Hg as (w2 & Hg & ->). run_simpl Hg.
  destruct (w_policy_store w2) as [|r rs]; [done|]. unfold resolve_via_policy in Hd.
  destruct (evaluate_policy (r :: rs) msg); try done; [|run_simpl Hd; done].
  destruct (pc_gateway cfg) as [gw|]; [|done].
  inv_bind Hd id s2 Hid. apply daemon_ok in Hid as (w3 & _ & ->).
  inv_bind Hd at_ s3 Hat. apply daemon_ok in Hat as (w4 & _ & ->).
  inv_bind Hd o s4 Ho'. apply daemon_ok in Ho' as (w5 & Hreq & ->). run_simpl Hd.
  destruct o as [by_ reason| | |]; simpl in Hs; try done. by repeat eexists.
Qed.

(** Fail closed. While there are rules, a line that is not recognised as an MCP
    message is not forwarded, except a container's answer to an [initialize] the
    bridge saw pass and has not matched yet. *)
Theorem unparseable_fails_closed dir buf b w go b' w' :
  w_policy_store w ≠ [] → parse_message (trim_newlines buf) = None →
  pump_line write_fault cfg dir buf (b, w) = (Ok go, (b', w')) → b_sent b' ≠ b_sent b →
  dir = ContainerToHost ∧ ∃ i caps, i ∈ b_pending_ids b ∧
    parse_initialize_response (trim_newlines buf) i = Some caps ∧ b_capabilities b' = Some caps ∧
    b_pending_ids b' = b_pending_ids b ∖ {[i]}.
Proof.
  intros Hr Hp H Hs. destruct (pump_line_ok _ _ _ _ _ _ _ _ _ H) as (d & b1 & w1 & Hd & _ & _ & ->).
  destruct (line_outcome _ _ _ _ _ _ _ _ _ H) as (d' & b1' & w1' & Hd' & Hfwd).
  destruct Hd as (h & Hh & Hd). rewrite Hp in Hh, Hd. destruct dir.
  - unfold handle_phase2f in Hh. run_simpl Hh. exfalso.
    unfold decide_line in Hd. inv_bind Hd rules s1 Hg. apply daemon_ok in Hg as (w2 & Hg & ->). run_simpl Hg.
    destruct (w_policy_store w2) as [|r rs]; [done|]. by run_simpl Hd.
  - unfold handle_phase2f in Hh. unfold mbind, M_bind, getb, modb in Hh. simpl in Hh.
    destruct (find_response _ _) as [[i caps]|] eqn:Hf; run_simpl Hh.
    + split; [done|]. apply find_response_in in Hf as [Hin Hresp]. apply elem_of_elements in Hin.
      exists i, caps. destruct Hd as [-> ->]. simpl. by destruct (write_fault _).
    + exfalso. unfold decide_line in Hd. inv_bind Hd rules s1 Hg. apply daemon_ok in Hg as (w2 & Hg & ->). run_simpl Hg.
      destruct (w_policy_store w2) as [|r rs]; [done|]. by run_simpl Hd.
Qed.

(** The messages the bridge handles itself bypass the policy. A host's
    subscribe and unsubscribe and a container's list-changed notification are
    forwarded whatever the rules, the allowlist and the gateway say. *)
Theorem owned_messages_bypass_policy dir buf msg b w go b' w' :
  parse_message (trim_newlines buf) = Some msg → bridge_owned dir msg = true →
  (∀ uri, msg ≠ ResourcesUpdated uri) → write_fault (b_writes b) = false →
  pump_line write_fault cfg dir buf (b, w) = (Ok go, (b', w')) →
  b_sent b' = b_sent b ++ [(dir, buf)] ∧ go = true.
Proof.
  intros Hp Ho Hu Hw H. destruct (pump_line_ok _ _ _ _ _ _ _ _ _ H) as (d & b1 & w1 & (h & Hh & Hd) & _ & -> & ->).
  rewrite Hp in Hh. unfold handle_phase2f in Hh. unfold mbind, M_bind, getb, modb in Hh. cbv [mret M_ret] in Hh.
  destruct dir, msg; simpl in Ho; try done; simplify_eq/=; destruct Hd as [-> ->]; simpl;
    first [by destruct (Hu uri)|by rewrite Hw].
Qed.

(** C12: Resource updates reach the host only while it is subscribed. However the
    lines of the two directions interleave and whichever writes fail, an update
    that was sent to the host was handled after the host subscribed to its URI and
    before it unsubscribed again; the set of subscriptions is the one the handled
    lines leave; and every line is handled when no write fails. *)
Theorem updates_need_a_subscription lines w b' w' :
  run_lines write_fault cfg (λ _, true) lines (bridge_new, w) = (Ok tt, (b', w')) →
  ∃ handled, handled `sublist_of` lines ∧ b_subscriptions b' = subscriptions_after handled ∧
    updates_justified handled (b_sent b') ∧ ((∀ n, write_fault n = false) → handled = lines).
Proof.
  intros H. assert (updates_justified [] (b_sent bridge_new)) as Hj by (intros buf uri Hin; by apply elem_of_nil in Hin).
  destruct (run_lines_justified write_fault cfg lines _ [] _ _ _ _ H eq_refl Hj) as (hd & ? & ? & ? & ?). eauto 10.
Qed.

(** A bridge never breaks the log: whatever lines it is given, however they
    are decided and however the run ends, the rows there were stay, and the log
    still verifies. *)
Theorem bridge_keeps_log_valid (SL : AuditSinkLaws S)
    (GL : ∀ gw, pc_gateway cfg = Some gw → GatewayLaws gw) lines b w r b' w' from :
  audit_inv w → run_lines write_fault cfg (λ _, true) lines (b, w) = (r, (b', w')) →
  w_audit w `prefix_of` w_audit w' ∧ audit_inv w' ∧ vr_broken_at (verify_rows from (w_audit w')) = None.
Proof.
  intros Hinv H. pose proof (bridge_safe_run_lines SL write_fault cfg GL lines (λ _, true) (b, w)) as Hs.
  rewrite H in Hs. eauto with linpodx.
Qed.

(** A line longer than 8192 bytes with a character across byte 8192 takes the
    pump down: it panics before the line is decided, so nothing is recorded and
    nothing is sent. *)
Theorem long_line_panics dir buf b w :
  MCP_PAYLOAD_TRUNCATE < String.length (trim_newlines buf) →
  is_char_boundary (trim_newlines buf) MCP_PAYLOAD_TRUNCATE = false →
  pump_line write_fault cfg dir buf (b, w)
  = (Err (Panic "byte index is not a char boundary"), (count_message b, w)).
Proof.
  intros Hl Hb. apply Nat.ltb_lt in Hl. unfold pump_line, truncate_payload, slice_to.
  unfold mbind, M_bind, modb, fst, snd. by rewrite Hl, Hb.
Qed.
End BridgeTheorems.

(** * Examples *)

Definition bridge_cfg (gw : option ApprovalGateway) : PumpConfig :=
  {| pc_allowlist := ∅; pc_gateway := gw; pc_container_id := "c1"; pc_bridge_id := "b1" |}.
Definition ruled_world : World := set_policy_store example_rules empty_world.
Definition no_fault : nat → bool := λ _, false.

Lemma line_audited_then_forwarded_witness :
  ∃ d, forward d = true ∧ audit_kind d = SinkMcpToolCalled ∧
    b_sent (pump_line (E := toy_env) (S := NoopAuditSink) no_fault (bridge_cfg None) HostToContainer "call"
              (bridge_new, ruled_world)).2.1 = [] ++ (if forward d && true then [(HostToContainer, "call")] else []).
Proof.
  destruct (line_audited_then_forwarded (E := toy_env) (S := NoopAuditSink) no_fault (bridge_cfg None)
    HostToContainer "call" bridge_new ruled_world true _ _ eq_refl) as (d & b1 & w1 & (h & Hh & Hd) & _ & Hs & _).
  vm_compute in Hh. injection Hh as <- <-. exists d. vm_compute in Hd. injection Hd as <- _.
  exact (conj eq_refl (conj eq_refl Hs)).
Defined.

Lemma policy_decides_forwarding_witness :
  evaluate_policy example_rules (ToolsCall "shell" JNull) = AutoAllow ∧ True.
Proof.
  split; [reflexivity|].
  refine (policy_decides_forwarding (E := toy_env) (S := NoopAuditSink) no_fault
    (bridge_cfg (Some DenyAllApprovalGateway)) HostToContainer "call" (ToolsCall "shell" JNull) bridge_new
    ruled_world true _ _ _ _ _ eq_refl _).
  all: try reflexivity; vm_compute; discriminate.
Defined.

Definition awaiting : BridgeState := set_pending {[2%Z]} bridge_new.
Lemma unparseable_fails_closed_witness :
  ContainerToHost = ContainerToHost ∧ ∃ i caps, i ∈ b_pending_ids awaiting ∧
    parse_initialize_response (E := toy_env) "response" i = Some caps.
Proof.
  pose proof (unparseable_fails_closed (E := toy_env) (S := NoopAuditSink) no_fault (bridge_cfg None)
    ContainerToHost "response" awaiting ruled_world true
    (pump_line (E := toy_env) (S := NoopAuditSink) no_fault (bridge_cfg None) ContainerToHost "response"
       (awaiting, ruled_world)).2.1 ruled_world) as H.
  destruct H as (Hd & i & caps & Hi & Hp & _); [vm_compute; discriminate|reflexivity|reflexivity|vm_compute; discriminate|].
  split; [exact Hd|]. exists i, caps. exact (conj Hi Hp).
Defined.

Definition deny_subscribe : World := set_policy_store [rule METHOD_RESOURCES_SUBSCRIBE None Deny] empty_world.
Lemma owned_messages_bypass_policy_witness :
  evaluate_policy (w_policy_store deny_subscribe) (ResourcesSubscribe "file:///x") = Deny ∧
  b_sent (pump_line (E := toy_env) (S := NoopAuditSink) no_fault (bridge_cfg None) HostToContainer "subscribe"
            (bridge_new, deny_subscribe)).2.1 = [(HostToContainer, "subscribe")] ∧ true = true.
Proof.
  split; [reflexivity|].
  exact (owned_messages_bypass_policy (E := toy_env) (S := NoopAuditSink) no_fault (bridge_cfg None)
    HostToContainer "subscribe" (ResourcesSubscribe "file:///x") bridge_new deny_subscribe true _ _ eq_refl eq_refl
    (λ uri, ltac:(discriminate)) eq_refl eq_refl).
Defined.

(** An update for another URI than the one subscribed to is not sent. *)
Definition two_lines : list (Direction * string) := [(HostToContainer, "subscribe"); (ContainerToHost, "updated")].
Lemma updates_need_a_subscription_witness :
  b_sent (run_lines (E := toy_env) (S := NoopAuditSink) no_fault (bridge_cfg None) (λ _, true) two_lines
            (bridge_new, empty_world)).2.1 = [(HostToContainer, "subscribe")] ∧
  ∃ handled, handled `sublist_of` two_lines ∧ (no_fault = no_fault → handled = two_lines).
Proof.
  split; [vm_compute; reflexivity|].
  destruct (updates_need_a_subscription (E := toy_env) (S := NoopAuditSink) no_fault (bridge_cfg None)
    two_lines empty_world _ _ eq_refl) as (hd & H1 & _ & _ & H2).
  exists hd. split; [exact H1|]. intros _. exact (H2 (λ _, eq_refl)).
Defined.

Lemma bridge_keeps_log_valid_witness :
  audit_inv (E := toy_env) (run_lines (E := toy_env) (S := NoopAuditSink) no_fault
    (bridge_cfg (Some DenyAllApprovalGateway)) (λ _, true) two_lines (bridge_new, empty_world)).2.2.
Proof.
  refine (proj1 (proj2 (bridge_keeps_log_valid (E := toy_env) (S := NoopAuditSink) no_fault
    (bridge_cfg (Some DenyAllApprovalGateway)) _ _ two_lines bridge_new empty_world (Ok tt) _ _ None _ eq_refl))).
  - intros gw [= <-]. apply _.
  - apply audit_inv_empty.
Defined.

(** A line with a two-byte character at bytes 8191 and 8192. *)
Definition split_line : string := String.concat "" (replicate (MCP_PAYLOAD_TRUNCATE - 1) "a") +:+ "é".
Lemma long_line_panics_witness :
  (pump_line (E := toy_env) (S := NoopAuditSink) no_fault (bridge_cfg None) HostToContainer split_line
     (bridge_new, empty_world)).1 = Err (Panic "byte index is not a char boundary").
Proof.
  rewrite (long_line_panics (E := toy_env) (S := NoopAuditSink) no_fault (bridge_cfg None) HostToContainer
    split_line bridge_new empty_world); [reflexivity| |vm_compute; reflexivity].
  apply Nat.ltb_lt. vm_compute. reflexivity.
Defined.
