(* ===== verification/KeyRegistry.v ===== *)
(** The trusted-key registry of the plugin crate,
    [linpodx-plugin/src/key_registry.rs]: one PEM file per publisher, and a
    [<publisher>.revoked] marker beside it once the key is revoked.

    The registry keeps nothing in memory, so its operations act on the file
    system: the files of the configured directories, with what can be read,
    overwritten and created there. Distinct roots are distinct directories. *)
From S2P Require Import Prelude Json Database AuditLog.

(** * The file system *)

(** A directory entry. A regular file has its bytes and whether the daemon may
    read and overwrite it. *)
Inductive Node : Type :=
| RegularFile (content : string) (readable writable : bool)
| OtherNode.

#[export] Instance Node_eq_dec : EqDecision Node.
Proof. solve_decision. Defined.

Record FileSystem : Type := {
  fs_nodes : gmap (string * string) Node;
  fs_creatable : string → bool;
}.

Definition is_file (fs : FileSystem) (p : string * string) : bool :=
  match fs_nodes fs !! p with Some (RegularFile _ _ _) => true | _ => false end.

Definition read_to_string (fs : FileSystem) (p : string * string) : option string :=
  match fs_nodes fs !! p with Some (RegularFile c true _) => Some c | _ => None end.

(** [std::fs::write]: creates the file or replaces its contents. *)
Definition fs_write (fs : FileSystem) (p : string * string) (c : string) : option FileSystem :=
  match fs_nodes fs !! p with
  | None =>
      if fs_creatable fs p.1
      then Some {| fs_nodes := <[p := RegularFile c true true]> (fs_nodes fs); fs_creatable := fs_creatable fs |}
      else None
  | Some (RegularFile _ r true) =>
      Some {| fs_nodes := <[p := RegularFile c r true]> (fs_nodes fs); fs_creatable := fs_creatable fs |}
  | Some _ => None
  end.

(** ** File names *)

Definition dot : ascii := Ascii.ascii_of_N 46.

(** The parts before and after the last dot. *)
Fixpoint rsplit_dot (s : string) : option (string * string) :=
  match s with
  | EmptyString => None
  | String c s' =>
      match rsplit_dot s' with
      | Some (a, b) => Some (String c a, b)
      | None => if decide (c = dot) then Some ("", s') else None
      end
  end.

(** [Path::extension], [Path::file_stem] and [Path::with_extension] on the last
    component of a path: a leading dot does not start an extension. *)
Definition extension (name : string) : option string :=
  if decide (name = "..") then None
  else match rsplit_dot name with
       | Some (String _ _, e) => Some e
       | _ => None
       end.
Definition file_stem (name : string) : string :=
  if decide (name = "..") then name
  else match rsplit_dot name with
       | Some (String c a, _) => String c a
       | _ => name
       end.
Definition with_extension (name ext : string) : string := file_stem name +:+ "." +:+ ext.

(** * Data *)

Definition PEM_EXT : string := "pem".
Definition REVOKED_EXT : string := "revoked".

Inductive KeyRegistryError : Type :=
| KeyIo
| KeyNotFound (publisher : string)
| KeyReadFailed (publisher : string) (path : string * string)
| KeyRevoked (publisher reason : string).

Record KeyEntry : Type := {
  ke_publisher : string;
  ke_fingerprint : string;
  ke_status : string;
  ke_revoked_at : option Z;
  ke_reason : option string;
}.

Record MarkerFile : Type := {
  mk_revoked_at : Z;
  mk_reason : string;
}.

(** [serde_json] on [MarkerFile], and the range of [DateTime::from_timestamp]. *)
Class MarkerCodec := {
  marker_to_string : MarkerFile → string;
  marker_from_str : string → option MarkerFile;
  from_timestamp : Z → option Z;
}.
Class MarkerCodecLaws (K : MarkerCodec) : Prop := {
  marker_roundtrip m : marker_from_str (marker_to_string m) = Some m;
}.

(** * Operations *)

Definition stem_char (c : ascii) : bool :=
  let n := byte_val c in
  bool_decide (48 ≤ n ≤ 57)%N || bool_decide (65 ≤ n ≤ 90)%N || bool_decide (97 ≤ n ≤ 122)%N
  || bool_decide (n = 45)%N || bool_decide (n = 95)%N || bool_decide (n = 46)%N.

Definition sanitize_stem (publisher : string) : Result KeyRegistryError string :=
  let trimmed := trim publisher in
  if decide (trimmed = "") then Err (KeyNotFound "(empty publisher)")
  else if negb (str_all stem_char trimmed) || starts_with trimmed "." || contains trimmed ".."
  then Err (KeyNotFound ("publisher name '" +:+ publisher +:+ "' contains disallowed characters"))
  else Ok trimmed.

Definition revoked_marker_for (pem_path : string * string) : string * string :=
  (pem_path.1, with_extension pem_path.2 REVOKED_EXT).

(** The first root that has the publisher's key file. *)
Definition resolve_path (roots : list string) (fs : FileSystem) (publisher : string) :
    Result KeyRegistryError (string * string) :=
  match sanitize_stem publisher with
  | Err e => Err e
  | Ok stem =>
      match find (is_file fs) ((λ root, (root, stem +:+ "." +:+ PEM_EXT)) <$> roots) with
      | Some p => Ok p
      | None => Err (KeyNotFound publisher)
      end
  end.

Section KeyRegistry.
Context {E : Env} {K : MarkerCodec} (roots : list string).

Definition read_marker (fs : FileSystem) (marker : string * string) : option MarkerFile :=
  read_to_string fs marker ≫= marker_from_str.

Definition read_marker_reason (fs : FileSystem) (marker : string * string) : option string :=
  mk_reason <$> read_marker fs marker.

Definition load_pem (fs : FileSystem) (publisher : string) : Result KeyRegistryError string :=
  match resolve_path roots fs publisher with
  | Err e => Err e
  | Ok path =>
      let marker := revoked_marker_for path in
      if is_file fs marker
      then Err (KeyRevoked publisher (unwrap_or "unspecified" (read_marker_reason fs marker)))
      else match read_to_string fs path with
           | Some pem => Ok pem
           | None => Err (KeyReadFailed publisher path)
           end
  end.

Definition lookup_key (fs : FileSystem) (publisher : string) : Result KeyRegistryError string :=
  load_pem fs publisher.

Definition write_marker (fs : FileSystem) (publisher : string) (reason : option string) (revoked_at : Z) :
    Result KeyRegistryError unit * FileSystem :=
  match resolve_path roots fs publisher with
  | Err e => (Err e, fs)
  | Ok path =>
      let marker := revoked_marker_for path in
      let payload := {| mk_revoked_at := revoked_at; mk_reason := unwrap_or "unspecified" reason |} in
      match fs_write fs marker (marker_to_string payload) with
      | Some fs' => (Ok tt, fs')
      | None => (Err (KeyReadFailed publisher marker), fs)
      end
  end.

Definition revoke (fs : FileSystem) (publisher : string) (reason : option string) (now : Z) :
    Result KeyRegistryError unit * FileSystem :=
  write_marker fs publisher reason now.

Definition apply_remote_revocation (fs : FileSystem) (publisher fingerprint : string) (reason : option string)
    (revoked_at_unix now : Z) : Result KeyRegistryError bool * FileSystem :=
  let incoming := unwrap_or now (from_timestamp revoked_at_unix) in
  match resolve_path roots fs publisher with
  | Err (KeyNotFound _) => (Ok false, fs)
  | Err e => (Err e, fs)
  | Ok path =>
      let marker := revoked_marker_for path in
      let fresher :=
        is_file fs marker &&
        match read_marker fs marker with
        | Some existing => bool_decide (incoming ≤ mk_revoked_at existing)%Z
        | None => false
        end in
      if fresher then (Ok false, fs)
      else match write_marker fs publisher reason incoming with
           | (Ok _, fs') => (Ok true, fs')
           | (Err e, fs') => (Err e, fs')
           end
  end.

(** ** list_keys *)

Definition sha256_lower_hex (bytes : string) : string := hex_encode (sha256 bytes).

Definition entry_of (fs : FileSystem) (path : string * string) (bytes : string) : KeyEntry :=
  let marker := revoked_marker_for path in
  let '(status, revoked_at, reason) :=
    if is_file fs marker then
      match read_marker fs marker with
      | Some m => ("revoked", Some (mk_revoked_at m), Some (mk_reason m))
      | None => ("revoked", None, Some "unspecified")
      end
    else ("active", None, None) in
  {| ke_publisher := file_stem path.2; ke_fingerprint := sha256_lower_hex bytes; ke_status := status;
     ke_revoked_at := revoked_at; ke_reason := reason |}.

(** The entries of one directory; the order in which a directory is read does not
    show, its names being distinct and the result sorted. *)
Fixpoint list_dir (fs : FileSystem) (root : string) (names : list string) (seen : gset string)
    (out : list KeyEntry) : gset string * list KeyEntry :=
  match names with
  | [] => (seen, out)
  | name :: names' =>
      if decide (extension name = Some PEM_EXT) then
        let stem := file_stem name in
        if decide (stem ∈ seen) then list_dir fs root names' seen out
        else match fs_nodes fs !! (root, name) with
             | Some (RegularFile bytes true _) =>
                 list_dir fs root names' ({[stem]} ∪ seen) (out ++ [entry_of fs (root, name) bytes])
             | _ => list_dir fs root names' ({[stem]} ∪ seen) out
             end
      else list_dir fs root names' seen out
  end.

Definition names_in (fs : FileSystem) (root : string) : list string :=
  (filter (λ p, p.1 = root) (map_to_list (fs_nodes fs)).*1).*2.

Definition key_le (a b : KeyEntry) : Prop := String.le (ke_publisher a) (ke_publisher b).
#[global] Instance key_le_dec : RelDecision key_le.
Proof. intros a b. unfold key_le. apply _. Defined.

Fixpoint list_roots (fs : FileSystem) (rs : list string) (seen : gset string) (out : list KeyEntry) :
    list KeyEntry :=
  match rs with
  | [] => out
  | root :: rs' =>
      let '(seen', out') := list_dir fs root (names_in fs root) seen out in
      list_roots fs rs' seen' out'
  end.

Definition list_keys (fs : FileSystem) : list KeyEntry :=
  merge_sort key_le (list_roots fs roots ∅ []).

(** ** Operations in sequence *)

(** What changes the registry: an operator's [revoke] and a revocation that
    arrives through the cluster, at the time the clock shows. *)
Inductive KeyOp : Type :=
| OpRevoke (publisher : string) (reason : option string) (now : Z)
| OpRemote (publisher fingerprint : string) (reason : option string) (revoked_at now : Z).

Definition run_op (fs : FileSystem) (op : KeyOp) : FileSystem :=
  match op with
  | OpRevoke publisher reason now => (revoke fs publisher reason now).2
  | OpRemote publisher fp reason at_ now => (apply_remote_revocation fs publisher fp reason at_ now).2
  end.
Definition run_ops (fs : FileSystem) (ops : list KeyOp) : FileSystem := foldl run_op fs ops.
End KeyRegistry.

(** * Lemmas *)

Lemma rsplit_dot_ext s e : rsplit_dot e = None → rsplit_dot (s +:+ "." +:+ e) = Some (s, e).
Proof.
  intros He. induction s as [|c s IH].
  - change (rsplit_dot (String dot e) = Some ("", e)). simpl. by rewrite He.
  - rewrite str_app_cons_l. simpl. by rewrite IH.
Qed.

Lemma ext_name_inj s1 s2 e1 e2 :
  rsplit_dot e1 = None → rsplit_dot e2 = None → s1 +:+ "." +:+ e1 = s2 +:+ "." +:+ e2 → s1 = s2 ∧ e1 = e2.
Proof. intros H1 H2 H. apply (f_equal rsplit_dot) in H. rewrite !rsplit_dot_ext in H by done. by simplify_eq. Qed.

Lemma marker_not_pem (root1 root2 s1 s2 : string) :
  (root1, s1 +:+ "." +:+ REVOKED_EXT) ≠ (root2, s2 +:+ "." +:+ PEM_EXT).
Proof. intros [= _ H]. by apply ext_name_inj in H as [_ ?]. Qed.

(** What [sanitize_stem] lets through: a name that stays in its directory. *)
Lemma sanitize_stem_ok publisher stem :
  sanitize_stem publisher = Ok stem →
  stem ≠ "" ∧ stem = trim publisher ∧ str_all stem_char stem = true ∧ starts_with stem "." = false ∧
  contains stem ".." = false.
Proof.
  unfold sanitize_stem. case_decide; [done|]. destruct (str_all _ _) eqn:Ha; [|done].
  destruct (starts_with _ _) eqn:Hs; [done|]. destruct (contains _ _) eqn:Hc; [done|].
  simpl. intros [= <-]. done.
Qed.

Lemma file_stem_ext s e : s ≠ "" → e ≠ "" → rsplit_dot e = None → file_stem (s +:+ "." +:+ e) = s.
Proof.
  intros Hs Hne He. unfold file_stem. rewrite rsplit_dot_ext by done. case_decide as Hd; [|by destruct s].
  str_length_in Hd. destruct s, e; simpl in Hd; done || lia.
Qed.

Lemma marker_of_pem (root stem : string) :
  stem ≠ "" → revoked_marker_for (root, stem +:+ "." +:+ PEM_EXT) = (root, stem +:+ "." +:+ REVOKED_EXT).
Proof. intros Hs. unfold revoked_marker_for, with_extension. simpl. by rewrite file_stem_ext. Qed.

Lemma fs_write_ok fs p c fs' :
  fs_write fs p c = Some fs' →
  ∃ r, fs' = {| fs_nodes := <[p := RegularFile c r true]> (fs_nodes fs); fs_creatable := fs_creatable fs |} ∧
    (r = true ∨ ∃ c0, fs_nodes fs !! p = Some (RegularFile c0 false true)).
Proof.
  unfold fs_write. destruct (fs_nodes fs !! p) as [[c0 r []|]|]; [..|destruct (fs_creatable fs p.1)];
    intros [= <-]; eexists; (split; [done|]); [destruct r|]; eauto.
Qed.

Section KeyFacts.
Context {E : Env} {K : MarkerCodec} (roots : list string).

Lemma resolve_path_ok fs publisher path :
  resolve_path roots fs publisher = Ok path →
  ∃ root stem, sanitize_stem publisher = Ok stem ∧ stem ≠ "" ∧ root ∈ roots ∧
    path = (root, stem +:+ "." +:+ PEM_EXT) ∧ is_file fs path = true ∧
    revoked_marker_for path = (root, stem +:+ "." +:+ REVOKED_EXT).
Proof.
  unfold resolve_path. destruct (sanitize_stem publisher) as [stem|] eqn:Hs; [|done].
  destruct (find _ _) as [p|] eqn:Hf; [|done]. intros [= <-].
  apply find_some in Hf as [Hin Hp]. apply list_elem_of_In, list_elem_of_fmap in Hin as (root & -> & Hr).
  pose proof (sanitize_stem_ok _ _ Hs) as [Hne _]. exists root, stem. by rewrite marker_of_pem.
Qed.

(** The key files decide where a publisher resolves to. *)
Lemma resolve_path_pems fs fs' publisher :
  (∀ root stem, fs_nodes fs' !! (root, stem +:+ "." +:+ PEM_EXT) = fs_nodes fs !! (root, stem +:+ "." +:+ PEM_EXT)) →
  resolve_path roots fs' publisher = resolve_path roots fs publisher.
Proof.
  intros H. unfold resolve_path. destruct (sanitize_stem publisher) as [stem|]; [|done].
  assert (∀ l : list string, find (is_file fs') ((λ root, (root, stem +:+ "." +:+ PEM_EXT)) <$> l)
    = find (is_file fs) ((λ root, (root, stem +:+ "." +:+ PEM_EXT)) <$> l)) as ->; [|done].
  intros l. induction l as [|root l IH]; [done|]. rewrite fmap_cons. cbn [find].
  rewrite IH. unfold is_file at 1 3. by rewrite H.
Qed.

(** The only change any operation makes: one marker file of a root. *)
Definition marker_write (fs fs' : FileSystem) : Prop :=
  ∃ root stem c r, root ∈ roots ∧ stem ≠ "" ∧ str_all stem_char stem = true ∧ starts_with stem "." = false ∧
    fs' = {| fs_nodes := <[(root, stem +:+ "." +:+ REVOKED_EXT) := RegularFile c r true]> (fs_nodes fs);
             fs_creatable := fs_creatable fs |}.

Lemma write_marker_spec fs publisher reason at_ r fs' :
  write_marker roots fs publisher reason at_ = (r, fs') →
  match r with Ok _ => marker_write fs fs' | Err _ => fs' = fs end.
Proof.
  unfold write_marker. destruct (resolve_path roots fs publisher) as [path|] eqn:Hp; [|by intros [= <- <-]].
  apply resolve_path_ok in Hp as (root & stem & Hs & Hne & Hr & -> & _ & ->).
  destruct (fs_write _ _ _) as [fs1|] eqn:Hw; intros [= <- <-]; [|done].
  apply fs_write_ok in Hw as (rd & -> & _). apply sanitize_stem_ok in Hs as (_ & _ & Ha & Hd & _).
  by exists root, stem, (marker_to_string {| mk_revoked_at := at_; mk_reason := unwrap_or "unspecified" reason |}), rd.
Qed.

Lemma run_op_spec fs op : run_op roots fs op = fs ∨ marker_write fs (run_op roots fs op).
Proof.
  destruct op as [p reason t|p fp reason t now]; simpl.
  - unfold revoke. destruct (write_marker roots fs p reason t) as [r fs'] eqn:H.
    apply write_marker_spec in H. destruct r; auto.
  - unfold apply_remote_revocation. destruct (resolve_path _ _ _) as [path|[]]; auto.
    case_match; [by left|]. destruct (write_marker _ _ _ _ _) as [[u|e] fs'] eqn:Hw;
      apply write_marker_spec in Hw; auto.
Qed.

Lemma marker_write_pems fs fs' root stem :
  marker_write fs fs' →
  fs_nodes fs' !! (root, stem +:+ "." +:+ PEM_EXT) = fs_nodes fs !! (root, stem +:+ "." +:+ PEM_EXT).
Proof.
  intros (root' & stem' & c & r & _ & _ & _ & _ & ->). simpl. rewrite lookup_insert_ne; [done|].
  apply marker_not_pem.
Qed.

Lemma marker_write_files fs fs' p : marker_write fs fs' → is_file fs p = true → is_file fs' p = true.
Proof.
  intros (root & stem & c & r & _ & _ & _ & _ & ->) Hp. unfold is_file in *. simpl.
  destruct (decide ((root, stem +:+ "." +:+ REVOKED_EXT) = p)) as [->|Hne].
  - by rewrite lookup_insert_eq.
  - by rewrite lookup_insert_ne.
Qed.

(** A revoked key, seen from the file system. *)
Definition is_revoked (fs : FileSystem) (publisher : string) : Prop :=
  ∃ path, resolve_path roots fs publisher = Ok path ∧ is_file fs (revoked_marker_for path) = true.

Lemma is_revoked_load fs publisher :
  is_revoked fs publisher ↔ ∃ reason, load_pem roots fs publisher = Err (KeyRevoked publisher reason).
Proof.
  unfold is_revoked, load_pem. split.
  - intros (path & -> & ->). eauto.
  - destruct (resolve_path roots fs publisher) as [path|e] eqn:Hp.
    + destruct (is_file fs (revoked_marker_for path)) eqn:Hm; [by eauto|]. by destruct (read_to_string _ _); intros [].
    + intros [reason [= ->]]. unfold resolve_path in Hp. destruct (sanitize_stem publisher) as [|e'] eqn:Hs.
      * by case_match.
      * injection Hp as ->. unfold sanitize_stem in Hs. repeat (case_match; [done|]). by repeat case_match.
Qed.

Lemma is_revoked_step fs fs' publisher :
  marker_write fs fs' → is_revoked fs publisher → is_revoked fs' publisher.
Proof.
  intros Hw (path & Hp & Hm). exists path. split; [|by eapply marker_write_files].
  rewrite <-Hp. apply resolve_path_pems. intros. by apply marker_write_pems.
Qed.

Lemma is_revoked_ops ops fs publisher : is_revoked fs publisher → is_revoked (run_ops roots fs ops) publisher.
Proof.
  revert fs. induction ops as [|op ops IH]; intros fs H; [done|]. apply IH.
  destruct (run_op_spec fs op) as [->|Hw]; [done|]. by eapply is_revoked_step.
Qed.

Lemma write_marker_revokes fs publisher reason at_ u fs' :
  write_marker roots fs publisher reason at_ = (Ok u, fs') → is_revoked fs' publisher.
Proof.
  intros H. pose proof H as Hw. apply write_marker_spec in Hw. unfold write_marker in H.
  destruct (resolve_path roots fs publisher) as [path|] eqn:Hp; [|done].
  destruct (fs_write _ _ _) as [fs1|] eqn:Hf; [|done]. injection H as _ <-.
  exists path. split.
  - rewrite <-Hp. apply resolve_path_pems. intros. by apply marker_write_pems.
  - apply fs_write_ok in Hf as (r & -> & _). unfold is_file. simpl. by rewrite lookup_insert_eq.
Qed.
End KeyFacts.

(** ** The latest revocation *)

(** Of two revocations the later one stands, the existing one on a tie. *)
Definition latest (existing : option MarkerFile) (m : MarkerFile) : option MarkerFile :=
  match existing with
  | Some e => if bool_decide (mk_revoked_at m ≤ mk_revoked_at e)%Z then Some e else Some m
  | None => Some m
  end.

Definition newest_time (existing : option MarkerFile) (ms : list MarkerFile) : option Z :=
  foldl (λ acc m, Some (match acc with Some t => Z.max t (mk_revoked_at m) | None => mk_revoked_at m end))
    (mk_revoked_at <$> existing) ms.

Lemma latest_time ms existing : mk_revoked_at <$> foldl latest existing ms = newest_time existing ms.
Proof.
  unfold newest_time. revert existing. induction ms as [|m ms IH]; intros existing; [done|]. simpl. rewrite IH.
  f_equal. destruct existing as [e|]; simpl; [|done]. case_bool_decide; simpl; f_equal; lia.
Qed.

Lemma newest_time_perm existing ms1 ms2 : ms1 ≡ₚ ms2 → newest_time existing ms1 = newest_time existing ms2.
Proof.
  unfold newest_time. intros Hp. generalize (mk_revoked_at <$> existing). clear existing.
  induction Hp as [|m ms1 ms2 _ IH|m1 m2 ms|ms1 ms2 ms3 _ IH1 _ IH2]; intros acc; simpl.
  - done.
  - apply IH.
  - f_equal. destruct acc as [t|]; f_equal; lia.
  - by rewrite IH1, IH2.
Qed.

Section Latest.
Context {E : Env} {K : MarkerCodec} {KL : MarkerCodecLaws K} (roots : list string).

(** The marker of a publisher can be read and written. *)
Definition marker_usable (fs : FileSystem) (marker : string * string) : Prop :=
  match fs_nodes fs !! marker with
  | None => fs_creatable fs marker.1 = true
  | Some (RegularFile c true true) => is_Some (marker_from_str c)
  | _ => False
  end.

(** A revocation that arrived through the cluster, as the marker it asks for. *)
Definition remote_op (publisher : string) (x : string * option string * Z * Z) : KeyOp :=
  let '(fp, reason, at_, now) := x in OpRemote publisher fp reason at_ now.
Definition remote_marker (x : string * option string * Z * Z) : MarkerFile :=
  let '(fp, reason, at_, now) := x in
  {| mk_revoked_at := unwrap_or now (from_timestamp at_); mk_reason := unwrap_or "unspecified" reason |}.

Lemma remote_op_latest fs publisher path x :
  resolve_path roots fs publisher = Ok path → marker_usable fs (revoked_marker_for path) →
  let fs' := run_op roots fs (remote_op publisher x) in
  resolve_path roots fs' publisher = Ok path ∧ marker_usable fs' (revoked_marker_for path) ∧
  read_marker fs' (revoked_marker_for path) = latest (read_marker fs (revoked_marker_for path)) (remote_marker x).
Proof.
  intros Hp Hu fs'. split.
  { destruct (run_op_spec roots fs (remote_op publisher x)) as [Heq|Hw]; [unfold fs'; by rewrite Heq|].
    rewrite <-Hp. apply resolve_path_pems. intros. by apply (marker_write_pems roots). }
  destruct x as [[[fp reason] at_] now]. unfold fs', remote_op, run_op, apply_remote_revocation. clear fs'.
  rewrite Hp. set (t := unwrap_or now (from_timestamp at_)).
  unfold write_marker. rewrite Hp. unfold is_file, read_marker, read_to_string, marker_usable, fs_write in *.
  destruct (fs_nodes fs !! revoked_marker_for path) as [[c [] []|]|] eqn:Hn; try done; simpl.
  - destruct Hu as [m Hm]. rewrite Hm. simpl. case_bool_decide; simpl.
    + rewrite Hn. simpl. rewrite Hm. split; [by eexists|]. by rewrite bool_decide_eq_true_2.
    + rewrite lookup_insert_eq. simpl. rewrite marker_roundtrip. split; [by eexists|]. by rewrite bool_decide_eq_false_2.
  - simpl in Hu. rewrite Hu. simpl. rewrite lookup_insert_eq. simpl. rewrite marker_roundtrip. split; [by eexists|done].
Qed.

Lemma remote_ops_latest xs : ∀ fs publisher path,
  resolve_path roots fs publisher = Ok path → marker_usable fs (revoked_marker_for path) →
  read_marker (run_ops roots fs (remote_op publisher <$> xs)) (revoked_marker_for path)
  = foldl latest (read_marker fs (revoked_marker_for path)) (remote_marker <$> xs).
Proof.
  induction xs as [|x xs IH]; intros fs publisher path Hp Hu; [done|].
  destruct (remote_op_latest fs publisher path x Hp Hu) as (Hp' & Hu' & Hr).
  rewrite !fmap_cons. unfold run_ops in *. cbn [foldl]. rewrite (IH _ _ _ Hp' Hu'). by rewrite Hr.
Qed.
End Latest.

(** ** What [list_keys] lists *)

Lemma rsplit_dot_inv s a b : rsplit_dot s = Some (a, b) → s = a +:+ "." +:+ b.
Proof.
  revert a b. induction s as [|c s IH]; intros a b; simpl; [done|].
  destruct (rsplit_dot s) as [[a' b']|].
  - intros [= <- <-]. rewrite str_app_cons_l. f_equal. by apply IH.
  - case_decide; [|done]. intros [= <- <-]. by subst c.
Qed.

Lemma extension_pem name : extension name = Some PEM_EXT → name = file_stem name +:+ "." +:+ PEM_EXT ∧ file_stem name ≠ "".
Proof.
  unfold extension, file_stem. case_decide; [done|].
  destruct (rsplit_dot name) as [[[|c a] b]|] eqn:Hr; try done. intros [= ->].
  by apply rsplit_dot_inv in Hr.
Qed.

Section Listing.
Context {E : Env} {K : MarkerCodec} (fs : FileSystem).

Definition pem_path (root stem : string) : string * string := (root, stem +:+ "." +:+ PEM_EXT).

Lemma entry_of_fingerprint path bytes : ke_fingerprint (entry_of fs path bytes) = sha256_lower_hex bytes.
Proof. unfold entry_of. by destruct (is_file _ _); [destruct (read_marker _ _)|]. Qed.
Lemma entry_of_status path bytes :
  ke_status (entry_of fs path bytes) = if is_file fs (revoked_marker_for path) then "revoked" else "active".
Proof. unfold entry_of. by destruct (is_file _ _); [destruct (read_marker _ _)|]. Qed.

(** An entry is the key file of the first root that has an entry of that name. *)
Definition justified (before : list string) (e : KeyEntry) : Prop :=
  ∃ pre root post bytes w, before = pre ++ root :: post ∧ ke_publisher e ≠ "" ∧
    fs_nodes fs !! pem_path root (ke_publisher e) = Some (RegularFile bytes true w) ∧
    e = entry_of fs (pem_path root (ke_publisher e)) bytes ∧
    Forall (λ root', fs_nodes fs !! pem_path root' (ke_publisher e) = None) pre.

Definition seen_all (done : list string) (seen : gset string) : Prop :=
  ∀ root stem, root ∈ done → stem ∉ seen → stem ≠ "" → fs_nodes fs !! pem_path root stem = None.

Lemma elem_of_names_in root name : name ∈ names_in fs root ↔ is_Some (fs_nodes fs !! (root, name)).
Proof.
  unfold names_in. rewrite list_elem_of_fmap. split.
  - intros ([r n] & -> & [Hr Hin]%list_elem_of_filter). simpl in *. subst r.
    apply list_elem_of_fmap in Hin as ([p v] & Hp & Hin). simpl in Hp. subst p.
    apply elem_of_map_to_list in Hin. by eexists.
  - intros [v Hv]. exists (root, name). split; [done|]. apply list_elem_of_filter. split; [done|].
    apply list_elem_of_fmap. exists ((root, name), v). split; [done|]. by apply elem_of_map_to_list.
Qed.

Lemma justified_app done more e : justified done e → justified (done ++ more) e.
Proof.
  intros (pre & root & post & bytes & w & -> & H). exists pre, root, (post ++ more), bytes, w.
  by rewrite <-app_assoc.
Qed.

Lemma list_dir_justified done root names : ∀ seen out seen' out',
  list_dir fs root names seen out = (seen', out') →
  seen_all done seen → Forall (justified (done ++ [root])) out →
  seen ⊆ seen' ∧ Forall (justified (done ++ [root])) out' ∧
  (∀ stem, stem ≠ "" → stem +:+ "." +:+ PEM_EXT ∈ names → stem ∈ seen').
Proof.
  induction names as [|name names IH]; intros seen out seen' out' H Hs Hout; simpl in H.
  { injection H as <- <-. split_and!; [done|done|]. intros ? _ []%elem_of_nil. }
  destruct (decide (extension name = Some PEM_EXT)) as [He|He].
  2: { destruct (IH _ _ _ _ H Hs Hout) as (? & ? & Hin). split_and!; [done|done|].
       intros stem Hne [Heq|?]%elem_of_cons; [|by apply Hin].
       destruct He. subst name. unfold extension. rewrite rsplit_dot_ext by done.
       case_decide as Hd; [|by destruct stem].
       str_length_in Hd. lia. }
  apply extension_pem in He as [Hname Hne]. remember (file_stem name) as stem eqn:Hst.
  assert (∀ stem0, stem0 +:+ "." +:+ PEM_EXT ∈ name :: names →
    stem0 = stem ∨ stem0 +:+ "." +:+ PEM_EXT ∈ names) as Hcase.
  { intros stem0 [Heq|?]%elem_of_cons; [|by right]. left. rewrite Hname in Heq.
    by apply ext_name_inj in Heq as [-> _]. }
  destruct (decide (stem ∈ seen)) as [Hseen|Hseen].
  { destruct (IH _ _ _ _ H Hs Hout) as (Hsub & ? & Hin). split_and!; [done|done|].
    intros stem0 Hne0 [->|?]%Hcase; [set_solver|by apply Hin]. }
  assert (seen_all done ({[stem]} ∪ seen)) as Hs' by (intros r st Hr Hst' Hne'; apply Hs; set_solver).
  destruct (fs_nodes fs !! (root, name)) as [[bytes [] w|]|] eqn:Hn;
    [|destruct (IH _ _ _ _ H Hs' Hout) as (Hsub & ? & Hin); split_and!;
      [set_solver|done|intros stem0 Hne0 [->|?]%Hcase; [set_solver|by apply Hin]]..].
  destruct (IH _ _ _ _ H Hs') as (Hsub & ? & Hin); [|split_and!;
    [set_solver|done|intros stem0 Hne0 [->|?]%Hcase; [set_solver|by apply Hin]]].
  apply Forall_app. split; [done|]. apply Forall_singleton.
  assert (ke_publisher (entry_of fs (root, name) bytes) = stem) as Hpub.
  { unfold entry_of. by destruct (is_file _ _); [destruct (read_marker _ _)|]. }
  exists done, root, [], bytes, w. rewrite Hpub. unfold pem_path. rewrite <-Hname. split_and!; try done.
  apply Forall_forall. intros r Hr. rewrite Hname. by apply (Hs r stem).
Qed.

Lemma list_roots_justified rs : ∀ done seen out,
  seen_all done seen → Forall (justified done) out → Forall (justified (done ++ rs)) (list_roots fs rs seen out).
Proof.
  induction rs as [|root rs IH]; intros done seen out Hs Hout; simpl.
  { by rewrite app_nil_r. }
  destruct (list_dir fs root (names_in fs root) seen out) as [seen' out'] eqn:H.
  assert (Forall (justified (done ++ [root])) out) as Hout1.
  { eapply Forall_impl; [exact Hout|]. intros e. apply justified_app. }
  destruct (list_dir_justified done root _ _ _ _ _ H Hs Hout1) as (Hsub & Hj & Hin).
  rewrite cons_middle, app_assoc. apply IH; [|done].
  intros r stem [Hr| ->%list_elem_of_singleton]%elem_of_app Hst Hne.
  - apply Hs; [done|set_solver|done].
  - destruct (fs_nodes fs !! pem_path root stem) eqn:Hn; [|done].
    destruct Hst. apply Hin; [done|]. apply elem_of_names_in. by eexists.
Qed.

Lemma list_keys_justified roots e : e ∈ list_keys roots fs → justified roots e.
Proof.
  intros Hin. unfold list_keys in Hin. rewrite merge_sort_Permutation in Hin.
  pose proof (list_roots_justified roots [] ∅ []) as H. rewrite app_nil_l in H.
  eapply Forall_forall in H; [exact H| | |exact Hin]; [|constructor].
  intros r st []%elem_of_nil.
Qed.

Lemma justified_resolves roots e stem :
  justified roots e → sanitize_stem (ke_publisher e) = Ok stem → stem = ke_publisher e →
  ∃ root bytes, resolve_path roots fs (ke_publisher e) = Ok (pem_path root stem) ∧
    read_to_string fs (pem_path root stem) = Some bytes ∧ e = entry_of fs (pem_path root stem) bytes.
Proof.
  intros (pre & root & post & bytes & w & -> & Hne & Hn & He & Hpre) Hs ->. exists root, bytes.
  split_and!; [|unfold read_to_string; by rewrite Hn|done].
  unfold resolve_path. rewrite Hs.
  assert (find (is_file fs) ((λ root0, (root0, ke_publisher e +:+ "." +:+ PEM_EXT)) <$> pre ++ root :: post)
    = Some (pem_path root (ke_publisher e))) as ->; [|done].
  clear He. induction pre as [|r pre IH]; simpl.
  - unfold is_file at 1. unfold pem_path in *. by rewrite Hn.
  - apply Forall_cons in Hpre as [Hr Hpre]. unfold is_file at 1. unfold pem_path in Hr. rewrite Hr. by apply IH.
Qed.
End Listing.

(** * Theorems *)

Section KeyTheorems.
Context {E : Env} {K : MarkerCodec} (roots : list string).

(** C15: Revocation is permanent. Once a [revoke] succeeded, or a revocation from the
    cluster was applied, looking the publisher up fails with [Revoked], and no
    later sequence of revocations, local or remote and of any publisher, makes
    the key usable again. *)
Theorem revocation_is_permanent fs publisher fs' ops :
  (∃ reason now, revoke roots fs publisher reason now = (Ok tt, fs')) ∨
  (∃ fp reason at_ now, apply_remote_revocation roots fs publisher fp reason at_ now = (Ok true, fs')) →
  ∃ reason, lookup_key roots (run_ops roots fs' ops) publisher = Err (KeyRevoked publisher reason).
Proof.
  intros H. apply is_revoked_load, is_revoked_ops. destruct H as [(reason & now & H)|(fp & reason & at_ & now & H)].
  - by eapply write_marker_revokes.
  - unfold apply_remote_revocation in H. destruct (resolve_path _ _ _) as [path|[]]; try done.
    case_match; [done|]. destruct (write_marker _ _ _ _ _) as [[]] eqn:Hw; [|done].
    injection H as <-. by eapply write_marker_revokes.
Qed.

(** The registry stays in its directories. Whatever publisher names the requests
    carry, the only files a sequence of revocations can create or change are
    [<stem>.revoked] files directly in one of the configured roots, with a stem of
    letters, digits, dashes, underscores and inner dots; key files are never
    touched. *)
Theorem revocations_write_only_markers fs ops p :
  fs_nodes (run_ops roots fs ops) !! p ≠ fs_nodes fs !! p →
  ∃ root stem, p = (root, stem +:+ "." +:+ REVOKED_EXT) ∧ root ∈ roots ∧ stem ≠ "" ∧
    str_all stem_char stem = true ∧ starts_with stem "." = false ∧ is_file (run_ops roots fs ops) p = true.
Proof.
  revert fs. induction ops as [|op ops IH]; intros fs; [done|]. unfold run_ops in *. simpl.
  intros Hne. destruct (decide (fs_nodes (foldl (run_op roots) (run_op roots fs op) ops) !! p
                            = fs_nodes (run_op roots fs op) !! p)) as [Heq|Hne'].
  { destruct (run_op_spec roots fs op) as [Hop|Hw]; [by rewrite Hop in *|].
    rewrite Heq in Hne. destruct Hw as (root & stem & c & r & Hr & Hs & Ha & Hd & Hop). rewrite Hop in Hne.
    simpl in Hne. destruct (decide ((root, stem +:+ "." +:+ REVOKED_EXT) = p)) as [<-|Hp];
      [|by rewrite lookup_insert_ne in Hne].
    exists root, stem. split_and!; try done. unfold is_file. rewrite Heq, Hop. simpl. by rewrite lookup_insert_eq. }
  by apply IH.
Qed.

(** The latest revocation stands. When the publisher's marker can be read and
    written, applying any list of revocations from the cluster leaves the one a
    fold over them keeps (a later one replaces an earlier one, an equal or older
    one is ignored), so two nodes that receive the same revocations in different
    orders end with the same revocation time. *)
Theorem remote_revocations_keep_latest (KL : MarkerCodecLaws K) fs publisher path xs ys :
  resolve_path roots fs publisher = Ok path → marker_usable fs (revoked_marker_for path) → xs ≡ₚ ys →
  read_marker (run_ops roots fs (remote_op publisher <$> xs)) (revoked_marker_for path)
    = foldl latest (read_marker fs (revoked_marker_for path)) (remote_marker <$> xs) ∧
  mk_revoked_at <$> read_marker (run_ops roots fs (remote_op publisher <$> xs)) (revoked_marker_for path)
    = mk_revoked_at <$> read_marker (run_ops roots fs (remote_op publisher <$> ys)) (revoked_marker_for path).
Proof.
  intros Hp Hu Hperm. split; [by apply remote_ops_latest|].
  rewrite !(remote_ops_latest roots _ _ _ path) by done. rewrite !latest_time.
  by apply newest_time_perm, fmap_Permutation.
Qed.

(** The listing agrees with the lookup. A listed publisher whose name the lookup
    accepts as it stands is listed as revoked exactly when its lookup fails with
    [Revoked], and otherwise the lookup gives the text whose fingerprint is
    listed. *)
Theorem listing_agrees_with_lookup fs e :
  e ∈ list_keys roots fs → sanitize_stem (ke_publisher e) = Ok (ke_publisher e) →
  (ke_status e = "revoked" ↔ ∃ reason, lookup_key roots fs (ke_publisher e) = Err (KeyRevoked (ke_publisher e) reason)) ∧
  (ke_status e = "active" ↔ ∃ pem, lookup_key roots fs (ke_publisher e) = Ok pem ∧
    ke_fingerprint e = sha256_lower_hex pem).
Proof.
  intros Hin Hs. apply list_keys_justified in Hin.
  destruct (justified_resolves fs roots e _ Hin Hs eq_refl) as (root & bytes & Hp & Hr & He).
  unfold lookup_key, load_pem. rewrite Hp, Hr.
  pose proof (f_equal ke_fingerprint He) as Hf. pose proof (f_equal ke_status He) as Hst.
  rewrite entry_of_fingerprint in Hf. rewrite entry_of_status in Hst. rewrite Hst. clear He.
  destruct (is_file fs _); naive_solver.
Qed.

(** A revocation that arrives before the key is lost. On a node that has no key
    file of the publisher yet, applying it changes nothing and reports [false];
    when the key file is put in place afterwards, the lookup returns it. *)
Theorem revocation_before_key_is_lost fs publisher stem root pem fp reason at_ now :
  sanitize_stem publisher = Ok stem → root ∈ roots →
  (∀ r, fs_nodes fs !! (r, stem +:+ "." +:+ PEM_EXT) = None ∧ fs_nodes fs !! (r, stem +:+ "." +:+ REVOKED_EXT) = None) →
  apply_remote_revocation roots fs publisher fp reason at_ now = (Ok false, fs) ∧
  lookup_key roots {| fs_nodes := <[(root, stem +:+ "." +:+ PEM_EXT) := RegularFile pem true true]> (fs_nodes fs);
                      fs_creatable := fs_creatable fs |} publisher = Ok pem.
Proof.
  intros Hs Hroot Hnone. pose proof (sanitize_stem_ok _ _ Hs) as [Hne _]. split.
  - unfold apply_remote_revocation, resolve_path. rewrite Hs.
    destruct (find _ _) as [p|] eqn:Hf; [|done]. apply find_some in Hf as [Hin Hp].
    apply list_elem_of_In, list_elem_of_fmap in Hin as (r & -> & _). unfold is_file in Hp.
    by rewrite (proj1 (Hnone r)) in Hp.
  - set (fs' := {| fs_nodes := _; fs_creatable := _ |}).
    assert (resolve_path roots fs' publisher = Ok (root, stem +:+ "." +:+ PEM_EXT)) as Hp.
    { unfold resolve_path. rewrite Hs. destruct (find _ _) as [p|] eqn:Hf.
      - apply find_some in Hf as [Hin Hp]. apply list_elem_of_In, list_elem_of_fmap in Hin as (r & -> & _).
        unfold is_file, fs' in Hp. simpl in Hp. destruct (decide (r = root)) as [->|Hr]; [done|].
        rewrite lookup_insert_ne in Hp by (intros [= ?]; by subst). by rewrite (proj1 (Hnone r)) in Hp.
      - pose proof (find_none _ _ Hf (root, stem +:+ "." +:+ PEM_EXT)) as Hn. unfold is_file, fs' in Hn.
        simpl in Hn. rewrite lookup_insert_eq in Hn. discriminate Hn.
        apply list_elem_of_In, list_elem_of_fmap. by exists root. }
    unfold lookup_key, load_pem. rewrite Hp, marker_of_pem by done.
    unfold is_file, read_to_string, fs'. simpl.
    rewrite lookup_insert_ne by (intros Heq; by apply (marker_not_pem root root stem stem)).
    by rewrite (proj2 (Hnone root)), lookup_insert_eq.
Qed.
End KeyTheorems.

(** * Examples *)

(** A codec for the markers of the examples: the bits of an injective numbering
    of times and reasons. *)
Fixpoint pos_bits (p : positive) : string :=
  match p with xH => "" | xO p => String "0"%char (pos_bits p) | xI p => String "1"%char (pos_bits p) end.
Fixpoint bits_pos (s : string) : positive :=
  match s with
  | EmptyString => xH
  | String c s' => if decide (c = "0"%char) then xO (bits_pos s') else xI (bits_pos s')
  end.
Definition toy_codec : MarkerCodec :=
  {| marker_to_string := λ m, pos_bits (encode (mk_revoked_at m, mk_reason m));
     marker_from_str := λ s, (λ x : Z * string, {| mk_revoked_at := x.1; mk_reason := x.2 |}) <$> decode (bits_pos s);
     from_timestamp := Some |}.

Lemma bits_pos_bits p : bits_pos (pos_bits p) = p.
Proof. induction p as [p IH|p IH|]; simpl; [|..|done]; by rewrite IH. Qed.
#[export] Instance toy_codec_laws : MarkerCodecLaws toy_codec.
Proof. constructor. intros [t r]. simpl. by rewrite bits_pos_bits, decode_encode. Qed.

Definition acme_fs : FileSystem :=
  {| fs_nodes := {[("/keys", "acme.pem") := RegularFile "KEY" true true]}; fs_creatable := λ _, true |}.

Lemma revocation_is_permanent_witness :
  ∃ reason, lookup_key (K := toy_codec) ["/etc"; "/keys"]
    (run_ops (K := toy_codec) ["/etc"; "/keys"]
       (revoke (K := toy_codec) ["/etc"; "/keys"] acme_fs "acme" (Some "leaked") 5).2
       [OpRemote "acme" "f" None 7 7; OpRevoke "other" None 9]) "acme"
    = Err (KeyRevoked "acme" reason).
Proof.
  apply (revocation_is_permanent (K := toy_codec) ["/etc"; "/keys"] acme_fs "acme").
  left. exists (Some "leaked"), 5%Z. vm_compute. reflexivity.
Defined.

Lemma revocations_write_only_markers_witness :
  ∃ root stem, ("/keys", "acme.revoked") = (root, stem +:+ "." +:+ REVOKED_EXT) ∧ root ∈ ["/keys"] ∧ stem ≠ "" ∧
    str_all stem_char stem = true ∧ starts_with stem "." = false ∧
    is_file (run_ops (K := toy_codec) ["/keys"] acme_fs [OpRevoke "acme" None 5]) ("/keys", "acme.revoked") = true.
Proof.
  apply (revocations_write_only_markers (K := toy_codec) ["/keys"] acme_fs [OpRevoke "acme" None 5]).
  vm_compute. discriminate.
Defined.

Lemma remote_revocations_keep_latest_witness :
  let xs := [("f", Some "first", 5, 9); ("f", Some "second", 7, 9)]%Z in
  mk_revoked_at <$> read_marker (K := toy_codec)
    (run_ops (K := toy_codec) ["/keys"] acme_fs (remote_op "acme" <$> xs)) ("/keys", "acme.revoked")
  = mk_revoked_at <$> read_marker (K := toy_codec)
    (run_ops (K := toy_codec) ["/keys"] acme_fs (remote_op "acme" <$> rev xs)) ("/keys", "acme.revoked").
Proof.
  intros xs.
  exact (proj2 (remote_revocations_keep_latest (K := toy_codec) ["/keys"] toy_codec_laws acme_fs "acme"
    ("/keys", "acme.pem") xs (rev xs) eq_refl eq_refl (Permutation_rev xs))).
Defined.

Lemma listing_agrees_with_lookup_witness :
  ∃ pem, lookup_key (K := toy_codec) ["/keys"] acme_fs "acme" = Ok pem.
Proof.
  destruct (listing_agrees_with_lookup (E := toy_env) (K := toy_codec) ["/keys"] acme_fs
    (entry_of (E := toy_env) (K := toy_codec) acme_fs ("/keys", "acme.pem") "KEY")) as [_ [H _]].
  - vm_compute. left.
  - vm_compute. reflexivity.
  - destruct H as [pem [H _]]; [vm_compute; reflexivity|]. exists pem. exact H.
Defined.

Lemma revocation_before_key_is_lost_witness :
  lookup_key (K := toy_codec) ["/keys"]
    {| fs_nodes := <[("/keys", "acme.pem") := RegularFile "KEY" true true]> ∅; fs_creatable := λ _, true |} "acme"
  = Ok "KEY".
Proof.
  exact (proj2 (revocation_before_key_is_lost (K := toy_codec) ["/keys"]
    {| fs_nodes := ∅; fs_creatable := λ _, true |} "acme" "acme" "/keys" "KEY" "f" None 5%Z 5%Z
    eq_refl ltac:(vm_compute; left) ltac:(intros r; split; apply lookup_empty))).
Defined.
