(* ===== verification/PluginStore.v ===== *)
(** Installing plugins: [linpodx-plugin/src/manifest.rs] and [signing.rs],
    [linpodx-sandbox/src/plugin_store.rs].

    The file system is a map from resolved paths to nodes. Directories are walked
    without following symbolic links, [..] goes to the lexical parent, and the
    plugin root is not inside the directory a plugin is installed from. Error
    texts end before the operating system's or the [Debug] part of the message. *)
From S2P Require Import Prelude Text Json Common Plugin Database AuditKinds AuditLog Logging Embedding Approval KeyRegistry.

(** * The file system *)

(** A symbolic link has the bytes of the readable file it leads to, if any. *)
Inductive FNode : Type :=
| FFile (bytes : string) (readable : bool)
| FDir
| FLink (target : option string).

#[export] Instance FNode_eq_dec : EqDecision FNode.
Proof. solve_decision. Defined.

Abbreviation Path := (list string).

(** [fs_creatable] says that directories and files can be created. *)
Record Fs : Type := {
  fs_map : gmap Path FNode;
  fs_cwd : Path;
  fs_ok : bool;
}.
Definition set_map (m : gmap Path FNode) (fs : Fs) : Fs := {| fs_map := m; fs_cwd := fs_cwd fs; fs_ok := fs_ok fs |}.

(** [Path::components]. *)
Definition path_components (p : string) : list string := filter (λ c, c ≠ "" ∧ c ≠ ".") (split slash p).

Fixpoint walk (at_ : Path) (cs : list string) : Path :=
  match cs with
  | [] => at_
  | c :: cs' => if decide (c = "..") then walk (removelast at_) cs' else walk (at_ ++ [c]) cs'
  end.
Definition resolve (fs : Fs) (p : string) : Path :=
  walk (if is_absolute p then [] else fs_cwd fs) (path_components p).

Definition node_at (fs : Fs) (p : Path) : option FNode :=
  match p with [] => Some FDir | _ => fs_map fs !! p end.
Definition path_exists (fs : Fs) (p : Path) : bool :=
  match node_at fs p with Some (FLink None) | None => false | Some _ => true end.
Definition is_dir (fs : Fs) (p : Path) : bool := bool_decide (node_at fs p = Some FDir).
Definition path_is_file (fs : Fs) (p : Path) : bool :=
  match node_at fs p with Some (FFile _ _) | Some (FLink (Some _)) => true | _ => false end.
Definition fs_read (fs : Fs) (p : Path) : option string :=
  match node_at fs p with
  | Some (FFile b true) => Some b
  | Some (FLink (Some b)) => Some b
  | _ => None
  end.
(** [read_to_string] also fails on bytes that are not UTF-8. *)
Definition fs_read_text (fs : Fs) (p : Path) : option string :=
  b ← fs_read fs p; if decide (from_utf8_lossy b = b) then Some b else None.

(** [create_dir_all]: the missing ancestors are created too. *)
Fixpoint create_from (fs : Fs) (done rest : Path) : option Fs :=
  match rest with
  | [] => Some fs
  | c :: rest' =>
      let p := done ++ [c] in
      match node_at fs p with
      | Some FDir => create_from fs p rest'
      | Some _ => None
      | None => if fs_ok fs then create_from (set_map (<[p := FDir]> (fs_map fs)) fs) p rest' else None
      end
  end.
Definition create_dir_all (fs : Fs) (p : Path) : option Fs := create_from fs [] p.

Fixpoint strip_path (dir p : Path) : option Path :=
  match dir, p with
  | [], _ => Some p
  | c :: dir', d :: p' => if decide (c = d) then strip_path dir' p' else None
  | _ :: _, [] => None
  end.

(** What is below a directory, by relative path. *)
Definition below (fs : Fs) (dir : Path) : list (Path * FNode) :=
  omap (λ pn, r ← strip_path dir pn.1; if decide (r = []) then None else Some (r, pn.2)) (map_to_list (fs_map fs)).

(** [copy_dir_recursive]: stops at the first file that cannot be read, and leaves
    what was copied. Links are skipped. *)
Fixpoint copy_entries (fs : Fs) (dst : Path) (l : list (Path * FNode)) : bool * Fs :=
  match l with
  | [] => (true, fs)
  | (r, n) :: l' =>
      match n with
      | FDir => copy_entries (set_map (<[dst ++ r := FDir]> (fs_map fs)) fs) dst l'
      | FFile b true => copy_entries (set_map (<[dst ++ r := FFile b true]> (fs_map fs)) fs) dst l'
      | FFile _ false => (false, fs)
      | FLink _ => copy_entries fs dst l'
      end
  end.
Definition copy_dir_recursive (fs : Fs) (src dst : Path) : bool * Fs := copy_entries fs dst (below fs src).

Definition remove_dir_all (fs : Fs) (p : Path) : option Fs :=
  if is_dir fs p && fs_ok fs
  then Some (set_map (filter (λ pn, strip_path p pn.1 = None) (fs_map fs)) fs) else None.

(** * manifest.rs *)

Definition MANIFEST_FILENAME : string := "linpodx-plugin.toml".
Definition KNOWN_HOOKS : list string :=
  ["approval"; "audit_filter"; "profile_validator"; "network_trace"; "runtime_injector"].

(** The environment variables, the TOML parser, and ed25519 with its encodings
    ([ed25519_dalek], [base64]). *)
Class PluginEnv := {
  env_var : string → option string;
  toml_manifest : string → Result string PluginManifest;
  key_from_pem : string → Result string string;
  base64_decode : string → Result string string;
  ed25519_verify : string → string → string → Result string unit;
  key_error_text : KeyRegistryError → string;
}.

Definition validate_manifest (m : PluginManifest) : Result PluginError unit :=
  if is_blank (mf_name m) then Err (Manifest "name must not be empty")
  else if is_blank (mf_version m) then Err (Manifest "version must not be empty")
  else if is_blank (mf_wasm m) then Err (Manifest "wasm path must not be empty")
  else if is_absolute (mf_wasm m) || bool_decide (".." ∈ path_components (mf_wasm m))
  then Err (Manifest ("wasm path '" +:+ mf_wasm m +:+ "' must be a relative file inside the plugin dir"))
  else match mf_hooks m with
       | [] => Err (Manifest "hooks must list at least one hook")
       | hooks =>
           match find (λ h, negb (bool_decide (h ∈ KNOWN_HOOKS))) hooks with
           | Some h => Err (Manifest ("unknown hook '" +:+ h +:+ "'"))
           | None => Ok tt
           end
       end.

Section Install.
Context {E : Env} {P : PluginEnv}.

Definition parse_from_dir (fs : Fs) (dir : string) : Result PluginError (PluginManifest * string) :=
  let manifest_path := join dir MANIFEST_FILENAME in
  match fs_read_text fs (resolve fs manifest_path) with
  | None => Err (Manifest ("could not read " +:+ manifest_path))
  | Some raw =>
      match toml_manifest raw with
      | Err e => Err (Manifest e)
      | Ok m =>
          match validate_manifest m with
          | Err e => Err e
          | Ok _ =>
              let wasm_abs := join dir (mf_wasm m) in
              if path_is_file fs (resolve fs wasm_abs) then Ok (m, wasm_abs)
              else Err (Manifest ("wasm file '" +:+ wasm_abs +:+ "' not found"))
          end
      end
  end.

Definition user_plugin_root : Result PluginError string :=
  match env_var "LINPODX_PLUGIN_DIR" with
  | Some p => Ok p
  | None =>
      match env_var "XDG_DATA_HOME" with
      | Some (String c p) => Ok (join (join (String c p) "linpodx") "plugins")
      | _ =>
          match env_var "HOME" with
          | None => Err (Manifest "HOME not set; cannot locate plugin dir")
          | Some home => Ok (join (join (join (join home ".local") "share") "linpodx") "plugins")
          end
      end
  end.

Definition install_to_user_dir (fs : Fs) (src_dir : string) :
    Result PluginError (string * PluginManifest * string) * Fs :=
  match parse_from_dir fs src_dir with
  | Err e => (Err e, fs)
  | Ok (manifest, _) =>
      match user_plugin_root with
      | Err e => (Err e, fs)
      | Ok root =>
          let dest := join root (mf_name manifest) in
          if path_exists fs (resolve fs dest) then (Err (Duplicate (mf_name manifest)), fs)
          else match create_dir_all fs (resolve fs dest) with
               | None => (Err (PIo "create_dir_all"), fs)
               | Some fs1 =>
                   match copy_dir_recursive fs1 (resolve fs src_dir) (resolve fs dest) with
                   | (false, fs2) => (Err (PIo "copy"), fs2)
                   | (true, fs2) =>
                       match parse_from_dir fs2 dest with
                       | Err e => (Err e, fs2)
                       | Ok (installed, wasm_abs) => (Ok (dest, installed, wasm_abs), fs2)
                       end
                   end
               end
      end
  end.

Definition remove_user_dir (fs : Fs) (name : string) : Result PluginError bool * Fs :=
  match user_plugin_root with
  | Err e => (Err e, fs)
  | Ok root =>
      let dest := resolve fs (join root name) in
      if negb (path_exists fs dest) then (Ok false, fs)
      else match remove_dir_all fs dest with
           | None => (Err (PIo "remove_dir_all"), fs)
           | Some fs' => (Ok true, fs')
           end
  end.

(** * signing.rs *)

Inductive SigningError : Type :=
| KeyParse (s : string)
| SignatureDecode (s : string)
| SignatureLength (expected actual : Z)
| VerifyFailed (s : string).

Definition signing_error_to_string (e : SigningError) : string :=
  match e with
  | KeyParse s => "public key PEM parse failed: " +:+ s
  | SignatureDecode s => "signature base64 decode failed: " +:+ s
  | SignatureLength x a => "signature must be exactly " +:+ pretty x +:+ " bytes, got " +:+ pretty a
  | VerifyFailed s => "signature verification failed: " +:+ s
  end.

Definition SIGNATURE_LENGTH : nat := 64.

Definition verify_plugin_signature (wasm_bytes signature_b64 public_key_pem : string) : Result SigningError unit :=
  match key_from_pem (trim public_key_pem) with
  | Err e => Err (KeyParse e)
  | Ok key =>
      match base64_decode (trim signature_b64) with
      | Err e => Err (SignatureDecode e)
      | Ok raw =>
          if negb (String.length raw =? SIGNATURE_LENGTH)
          then Err (SignatureLength (Z.of_nat SIGNATURE_LENGTH) (Z.of_nat (String.length raw)))
          else match ed25519_verify key wasm_bytes raw with
               | Err e => Err (VerifyFailed e)
               | Ok _ => Ok tt
               end
      end
  end.

(** * plugin_store.rs: the signature gate *)

Definition ALLOW_UNSIGNED_ENV : string := "LINPODX_ALLOW_UNSIGNED_PLUGINS".
Definition DETACHED_SIG_FILENAME : string := "signature.b64".

Inductive SignatureOutcome : Type :=
| Verified (publisher : option string) (key_source signature_source : string)
| UnsignedAccepted (reason : string)
| RejectedSignature (reason : string).

Record PluginInstallParams : Type := {
  pi_manifest_path : string;
  pi_signature_path : option string;
  pi_public_key_path : option string;
}.

Definition unsigned_allowed : bool :=
  match env_var ALLOW_UNSIGNED_ENV with
  | Some v => bool_decide (v ∈ ["1"; "true"; "yes"])
  | None => false
  end.

(** The signature text and where it came from. *)
Definition resolve_signature (fs : Fs) (src_dir : string) (manifest : PluginManifest) (params : PluginInstallParams) :
    Result Error (option string * string) :=
  match pi_signature_path params with
  | Some path =>
      match fs_read_text fs (resolve fs path) with
      | Some raw => Ok (Some raw, "override:" +:+ path)
      | None => Err (InvalidArgument ("could not read --signature '" +:+ path +:+ "'"))
      end
  | None =>
      let detached := join src_dir DETACHED_SIG_FILENAME in
      if path_is_file fs (resolve fs detached) then
        match fs_read_text fs (resolve fs detached) with
        | Some raw => Ok (Some raw, "detached:" +:+ detached)
        | None => Err (InvalidArgument ("could not read detached signature '" +:+ detached +:+ "'"))
        end
      else match mf_signature_b64 manifest with
           | Some b64 => Ok (Some b64, "manifest:signature_b64")
           | None => Ok (None, "")
           end
  end.

(** The public key: an override, the publisher's registered key, or none; a
    publisher without a usable key is an outcome of its own. *)
Inductive KeyChoice : Type :=
| KeyFrom (pem source : string)
| NoKey
| KeyRefused (reason : string).

Definition resolve_key {KC : MarkerCodec} (fs : Fs) (keys : FileSystem) (roots : list string) (manifest : PluginManifest)
    (params : PluginInstallParams) : Result Error KeyChoice :=
  match pi_public_key_path params with
  | Some path =>
      match fs_read_text fs (resolve fs path) with
      | Some raw => Ok (KeyFrom raw ("override:" +:+ path))
      | None => Err (InvalidArgument ("could not read --public-key '" +:+ path +:+ "'"))
      end
  | None =>
      match mf_publisher manifest with
      | Some publisher =>
          match load_pem roots keys publisher with
          | Ok pem => Ok (KeyFrom pem ("registry:" +:+ publisher))
          | Err e => Ok (KeyRefused ("publisher key lookup failed: " +:+ key_error_text e))
          end
      | None => Ok NoKey
      end
  end.

Definition check_signature {KC : MarkerCodec} (fs : Fs) (keys : FileSystem) (roots : list string)
    (src_dir wasm_path : string) (manifest : PluginManifest) (params : PluginInstallParams) :
    Result Error SignatureOutcome :=
  match fs_read fs (resolve fs wasm_path) with
  | None => Err Io
  | Some wasm_bytes =>
      match resolve_signature fs src_dir manifest params with
      | Err e => Err e
      | Ok (signature, signature_source) =>
          match resolve_key fs keys roots manifest params with
          | Err e => Err e
          | Ok (KeyRefused reason) => Ok (RejectedSignature reason)
          | Ok key =>
              match signature, key with
              | Some sig_b64, KeyFrom pem key_source =>
                  match verify_plugin_signature wasm_bytes sig_b64 pem with
                  | Ok _ => Ok (Verified (mf_publisher manifest) key_source signature_source)
                  | Err (VerifyFailed m) => Ok (RejectedSignature ("ed25519 verify failed: " +:+ m))
                  | Err other => Ok (RejectedSignature (signing_error_to_string other))
                  end
              | _, _ =>
                  if unsigned_allowed then Ok (UnsignedAccepted "no signature/public key supplied")
                  else Ok (RejectedSignature ("unsigned plugin install requires " +:+ ALLOW_UNSIGNED_ENV +:+ "=1"))
              end
          end
      end
  end.
End Install.

(** * plugin_store.rs: the store *)

(** [pg_seq] is the [AUTOINCREMENT] mark of [plugins]; [pg_keys] has the key
    directories. *)
Record PluginState : Type := {
  pg_world : World;
  pg_fs : Fs;
  pg_keys : FileSystem;
  pg_seq : Z;
}.

#[export] Instance PluginState_HasWorld : HasWorld PluginState := {|
  world_of := pg_world;
  put_world := λ w s, {| pg_world := w; pg_fs := pg_fs s; pg_keys := pg_keys s; pg_seq := pg_seq s |} |}.
#[export] Instance PluginState_HasWorldLaws : HasWorldLaws PluginState.
Proof. split; [done|]. by intros []. Qed.

Definition set_fs (fs : Fs) (s : PluginState) : PluginState :=
  {| pg_world := pg_world s; pg_fs := fs; pg_keys := pg_keys s; pg_seq := pg_seq s |}.
Definition set_rows (rows : list PluginRow) (seq : Z) (s : PluginState) : PluginState :=
  {| pg_world := set_plugins rows (pg_world s); pg_fs := pg_fs s; pg_keys := pg_keys s; pg_seq := seq |}.

Abbreviation G := (M PluginState Fault).

Definition plugin_to_err (e : PluginError) : Error :=
  match e with
  | PNotFound n => NotFound ("plugin '" +:+ n +:+ "'")
  | Duplicate n => InvalidArgument ("plugin '" +:+ n +:+ "' already exists")
  | Manifest m => InvalidArgument ("plugin manifest: " +:+ m)
  | WasmLoad m => Runtime ("plugin wasm load: " +:+ m)
  | HostRejected m => Runtime ("plugin host call: " +:+ m)
  | PIo _ => Io
  | NotImplemented m => Runtime ("plugin not implemented: " +:+ m)
  end.

Record PluginSummary : Type := {
  pm_name : string;
  pm_version : string;
  pm_hooks : list string;
  pm_enabled : bool;
  pm_manifest_path : string;
  pm_installed_at : Z;
}.

(** A fallible step of plain code. *)
Definition lift_in {S A} (r : Result Error A) : M S Fault A :=
  match r with Ok a => mret a | Err e => throw (Fail e) end.
Definition lift_plugin {S A} (r : Result PluginError A) : M S Fault A :=
  match r with Ok a => mret a | Err e => throw (Fail (plugin_to_err e)) end.

Section Store.
Context {E : Env} {P : PluginEnv} {KC : MarkerCodec} {K : AuditSink} (roots : list string).

Definition into_summary (r : PluginRow) : Result Error PluginSummary :=
  match json_from_str (pl_hooks r) ≫= strings_of_value with
  | None => Err Json
  | Some hooks =>
      match ts_parse (pl_installed_at r) with
      | inr e => Err (Runtime ("invalid plugin installed_at '" +:+ pl_installed_at r +:+ "': " +:+ e))
      | inl t => Ok {| pm_name := pl_name r; pm_version := pl_version r; pm_hooks := hooks; pm_enabled := pl_enabled r;
                       pm_manifest_path := pl_manifest_path r; pm_installed_at := t |}
      end
  end.

Definition plugin_list : G (list PluginSummary) :=
  _ ← on_world stmt;
  rows ← gets (λ s, w_plugins (pg_world s));
  lift_in (collect (into_summary <$> rows)).

Definition row_by_name (name : string) : G (option PluginRow) :=
  _ ← on_world stmt;
  gets (λ s, find (λ r, bool_decide (pl_name r = name)) (w_plugins (pg_world s))).

Definition emit_signature_outcome (m : PluginManifest) (o : SignatureOutcome) : G unit :=
  match o with
  | Verified publisher key_source signature_source =>
      audit_both SinkPluginSignatureVerified PluginSignatureVerified
        (JObject [("name", JString (mf_name m)); ("version", JString (mf_version m));
                  ("publisher", jopt JString publisher); ("key_source", JString key_source);
                  ("signature_source", JString signature_source)])
  | UnsignedAccepted reason =>
      audit_both SinkPluginSignatureRejected PluginSignatureRejected
        (JObject [("name", JString (mf_name m)); ("version", JString (mf_version m)); ("accepted", JBool true);
                  ("reason", JString reason); ("bypass", JString ALLOW_UNSIGNED_ENV)])
  | RejectedSignature reason =>
      audit_both SinkPluginSignatureRejected PluginSignatureRejected
        (JObject [("name", JString (mf_name m)); ("version", JString (mf_version m)); ("accepted", JBool false);
                  ("reason", JString reason)])
  end.

(** [Path::parent] of the text of a path. *)
Definition parent_of (p : string) : option string :=
  if decide (path_components p = []) then None
  else match rsplit_once slash (trim_end_char slash p) with
       | Some (EmptyString, _) => Some "/"
       | Some (d, _) => Some d
       | None => Some ""
       end.

(** [INSERT INTO plugins ... RETURNING id]; the name is unique. *)
Definition insert_plugin (name version manifest_path wasm_path hooks installed_at : string) : G Z :=
  _ ← on_world stmt;
  rows ← gets (λ s, w_plugins (pg_world s));
  seq ← gets pg_seq;
  if bool_decide (name ∈ pl_name <$> rows) then throw (Fail Sqlx)
  else
    let row := {| pl_id := seq + 1; pl_name := name; pl_version := version; pl_manifest_path := manifest_path;
                  pl_wasm_path := wasm_path; pl_hooks := hooks; pl_enabled := true; pl_installed_at := installed_at |} in
    _ ← modify (set_rows (rows ++ [row]) (seq + 1));
    mret (seq + 1)%Z.

(** [meddle] is what other processes do to the files while the signature outcome
    is being recorded. *)
Definition plugin_install (meddle : Fs → Fs) (params : PluginInstallParams) : G (string * string * string) :=
  fs ← gets pg_fs;
  let src := pi_manifest_path params in
  src_dir ← (if is_dir fs (resolve fs src) then mret src
             else match parent_of src with
                  | Some d => mret d
                  | None => throw (Fail (InvalidArgument ("plugin install path '" +:+ src +:+
                              "' must be a directory or a manifest file")))
                  end);
  '(manifest_preview, wasm_preview) ← lift_plugin (parse_from_dir fs src_dir);
  existing ← row_by_name (mf_name manifest_preview);
  _ ← match existing with
      | Some r => throw (Fail (InvalidArgument ("plugin '" +:+ pl_name r +:+ "' already installed (id=" +:+ pretty (pl_id r) +:+ ")")))
      | None => mret tt
      end;
  keys ← gets pg_keys;
  outcome ← lift_in (check_signature fs keys roots src_dir wasm_preview manifest_preview params);
  _ ← emit_signature_outcome manifest_preview outcome;
  _ ← modify (λ s, set_fs (meddle (pg_fs s)) s);
  _ ← match outcome with
      | RejectedSignature reason =>
          throw (Fail (InvalidArgument ("plugin '" +:+ mf_name manifest_preview +:+ "' signature check failed: " +:+ reason)))
      | _ => mret tt
      end;
  fs1 ← gets pg_fs;
  let '(res, fs2) := install_to_user_dir fs1 src_dir in
  _ ← modify (set_fs fs2);
  '(installed_dir, manifest, wasm_abs) ← lift_plugin res;
  t ← on_world now;
  id ← insert_plugin (mf_name manifest) (mf_version manifest) (join installed_dir "linpodx-plugin.toml") wasm_abs
         (json_to_string (jstrs (mf_hooks manifest))) (ts_format t);
  _ ← audit_both SinkPluginInstalled PluginInstalled
        (JObject [("id", jint id); ("name", JString (mf_name manifest)); ("version", JString (mf_version manifest));
                  ("hooks", jstrs (mf_hooks manifest)); ("installed_path", JString installed_dir)]);
  mret (mf_name manifest, mf_version manifest, installed_dir).

Definition set_row_enabled (id : Z) (enabled : bool) (r : PluginRow) : PluginRow :=
  if decide (pl_id r = id)
  then {| pl_id := pl_id r; pl_name := pl_name r; pl_version := pl_version r; pl_manifest_path := pl_manifest_path r;
          pl_wasm_path := pl_wasm_path r; pl_hooks := pl_hooks r; pl_enabled := enabled; pl_installed_at := pl_installed_at r |}
  else r.

Definition set_enabled (name : string) (enabled : bool) : G (string * bool) :=
  existing ← row_by_name name;
  row ← match existing with Some r => mret r | None => throw (Fail (NotFound ("plugin '" +:+ name +:+ "'"))) end;
  _ ← on_world stmt;
  rows ← gets (λ s, w_plugins (pg_world s));
  seq ← gets pg_seq;
  _ ← modify (set_rows (set_row_enabled (pl_id row) enabled <$> rows) seq);
  _ ← audit_both (if enabled then SinkPluginEnabled else SinkPluginDisabled)
        (if enabled then PluginEnabled else PluginDisabled)
        (JObject [("id", jint (pl_id row)); ("name", JString (pl_name row)); ("enabled", JBool enabled)]);
  mret (pl_name row, enabled).
Definition plugin_enable (name : string) : G (string * bool) := set_enabled name true.
Definition plugin_disable (name : string) : G (string * bool) := set_enabled name false.

Definition plugin_remove (name : string) (force : bool) : G (string * bool) :=
  existing ← row_by_name name;
  row ← match existing with Some r => mret r | None => throw (Fail (NotFound ("plugin '" +:+ name +:+ "'"))) end;
  _ ← on_world stmt;
  rows ← gets (λ s, w_plugins (pg_world s));
  seq ← gets pg_seq;
  _ ← modify (set_rows (filter (λ r, pl_id r ≠ pl_id row) rows) seq);
  deleted_files ← (if force then
      fs ← gets pg_fs;
      let '(res, fs') := remove_user_dir fs (pl_name row) in
      _ ← modify (set_fs fs');
      mret (match res with Ok removed => removed | Err _ => false end)
    else mret false);
  _ ← audit_both SinkPluginRemoved PluginRemoved
        (JObject [("id", jint (pl_id row)); ("name", JString (pl_name row)); ("deleted_files", JBool deleted_files);
                  ("force", JBool force)]);
  mret (pl_name row, deleted_files).
End Store.

(** * Lemmas *)

(** ** Paths *)

Lemma split_app sep a b : split sep (a +:+ String sep b) = split sep a ++ split sep b.
Proof.
  induction a as [|c a IH].
  - change ("" +:+ String sep b) with (String sep b). simpl. by rewrite decide_True.
  - rewrite str_app_cons_l. cbn [split]. rewrite IH. case_decide; [done|].
    pose proof (split_nonempty sep a). by destruct (split sep a).
Qed.

Lemma path_components_join base p :
  is_absolute p = false → path_components (join base p) = path_components base ++ path_components p.
Proof.
  intros Hp. unfold join. rewrite Hp. simpl. case_bool_decide as Hb; [by subst|].
  destruct (ends_with base "/") eqn:He.
  - apply ends_with_iff in He as [a ->]. unfold path_components.
    change ((a +:+ "/") +:+ p) with ((a +:+ String slash "") +:+ p). rewrite str_app_assoc.
    change (String slash "" +:+ p) with (String slash p). rewrite !split_app, !filter_app. simpl. by rewrite app_nil_r.
  - unfold path_components. change ("/" +:+ p) with (String slash p). by rewrite split_app, filter_app.
Qed.

Lemma is_absolute_join base p :
  is_absolute p = false → base ≠ "" → is_absolute (join base p) = is_absolute base.
Proof.
  intros Hp Hb. unfold join. rewrite Hp. simpl. rewrite bool_decide_false by done.
  destruct base as [|c base]; [done|]. unfold is_absolute, starts_with.
  assert (∀ t, String.prefix "" t = true) as Ht by (by intros []).
  destruct (ends_with _ _); rewrite str_app_cons_l; cbn [String.prefix]; by rewrite !Ht.
Qed.

Lemma walk_app at_ a b : walk at_ (a ++ b) = walk (walk at_ a) b.
Proof. revert at_. induction a as [|c a IH]; intros at_; simpl; [done|]. by case_decide. Qed.
Lemma walk_down at_ cs : ".." ∉ cs → walk at_ cs = at_ ++ cs.
Proof.
  revert at_. induction cs as [|c cs IH]; intros at_ H; simpl; [by rewrite app_nil_r|].
  rewrite decide_False by set_solver. rewrite IH by set_solver. by rewrite <-app_assoc.
Qed.

(** A relative path without [..] leads below its directory. *)
Lemma resolve_join fs dir p :
  is_absolute p = false → ".." ∉ path_components p → resolve fs (join dir p) = resolve fs dir ++ path_components p.
Proof.
  intros Hp Hd. unfold resolve. rewrite path_components_join by done. rewrite walk_app.
  destruct (decide (dir = "")) as [->|Hne].
  - assert (join "" p = p) as -> by (unfold join; by rewrite bool_decide_true, orb_true_r). rewrite Hp. by rewrite walk_down.
  - rewrite is_absolute_join by done. by rewrite walk_down.
Qed.

(** ** Copying *)

Lemma strip_path_spec dir p r : strip_path dir p = Some r ↔ p = dir ++ r.
Proof.
  revert p. induction dir as [|c dir IH]; intros p; simpl; [naive_solver|].
  destruct p as [|d p]; [done|]. case_decide as Hc; [subst d; rewrite IH; split; [by intros ->|by intros [= ->]]|].
  split; [done|]. by intros [= -> _].
Qed.

Lemma below_spec fs dir r n : (r, n) ∈ below fs dir ↔ r ≠ [] ∧ fs_map fs !! (dir ++ r) = Some n.
Proof.
  unfold below. rewrite list_elem_of_omap. split.
  - intros ([p n'] & Hp & H). apply elem_of_map_to_list in Hp. simpl in H.
    destruct (strip_path dir p) as [r'|] eqn:Hs; simpl in H; [|done]. case_decide; [done|]. simplify_eq.
    apply strip_path_spec in Hs. by subst.
  - intros [Hr Hm]. exists (dir ++ r, n). split; [by apply elem_of_map_to_list|]. simpl.
    rewrite (proj2 (strip_path_spec dir (dir ++ r) r)) by done. simpl. by rewrite decide_False.
Qed.

(** What is not a directory after the copy was there before, or is a regular file
    of the source. *)
Lemma copy_entries_origin fs dst l fs2 p n :
  copy_entries fs dst l = (true, fs2) → fs_map fs2 !! p = Some n → n ≠ FDir →
  fs_map fs !! p = Some n ∨ ∃ r b, p = dst ++ r ∧ n = FFile b true ∧ (r, FFile b true) ∈ l.
Proof.
  revert fs. induction l as [|[r n'] l IH]; intros fs H Hp Hn; simpl in H; [simplify_eq; auto|].
  destruct n' as [b [|]| |t]; [| done | |].
  - destruct (IH _ H Hp Hn) as [Ho|(r' & b' & -> & -> & Hin)]; [|right; exists r', b'; set_solver].
    simpl in Ho. apply lookup_insert_Some in Ho as [[<- <-]|[_ Ho]]; [|by left]. right. exists r, b. set_solver.
  - destruct (IH _ H Hp Hn) as [Ho|(r' & b' & -> & -> & Hin)]; [|right; exists r', b'; set_solver].
    simpl in Ho. apply lookup_insert_Some in Ho as [[<- <-]|[_ Ho]]; [done|by left].
  - destruct (IH _ H Hp Hn) as [Ho|(r' & b' & -> & -> & Hin)]; [by left|right; exists r', b'; set_solver].
Qed.

Lemma create_from_origin fs done rest fs1 p n :
  create_from fs done rest = Some fs1 → fs_map fs1 !! p = Some n → n ≠ FDir → fs_map fs !! p = Some n.
Proof.
  revert fs done. induction rest as [|c rest IH]; intros fs done H Hp Hn; simpl in H; [by simplify_eq|].
  destruct (node_at fs (done ++ [c])) as [[]|]; try done; [by eapply IH|].
  destruct (fs_ok fs); [|done]. specialize (IH _ _ H Hp Hn). simpl in IH.
  by apply lookup_insert_Some in IH as [[_ <-]|[_ ?]].
Qed.

Lemma create_from_missing fs done rest c : create_from fs done (rest ++ [c]) ≠ None →
  node_at fs (done ++ rest ++ [c]) = Some FDir ∨ node_at fs (done ++ rest ++ [c]) = None.
Proof.
  revert fs done. induction rest as [|d rest IH]; intros fs done H; simpl in *.
  - by destruct (node_at fs (done ++ [c])) as [[]|]; auto.
  - assert (∀ x, (done ++ [d]) ++ x = done ++ d :: x) as Happ by (intros x; by rewrite <-app_assoc).
    destruct (node_at fs (done ++ [d])) as [[]|]; try done.
    + specialize (IH _ _ H). by rewrite Happ in IH.
    + destruct (fs_ok fs); [|done]. specialize (IH _ _ H). rewrite Happ in IH. unfold node_at in *.
      destruct (done ++ d :: rest ++ [c]) as [|x y] eqn:He; [auto|]. simpl in IH.
      rewrite lookup_insert_ne in IH; [done|]. intros Heq. rewrite <-He in Heq.
      apply (f_equal length) in Heq. rewrite !length_app in Heq. simpl in Heq. rewrite length_app in Heq. simpl in Heq. lia.
Qed.

(** Every node has a directory above it. *)
Definition fs_wf (fs : Fs) : Prop :=
  ∀ p c n, fs_map fs !! (p ++ [c]) = Some n → node_at fs p = Some FDir.

Lemma fs_wf_missing fs p r : fs_wf fs → p ≠ [] → fs_map fs !! p = None → fs_map fs !! (p ++ r) = None.
Proof.
  intros Hwf Hp Hn. induction r as [|c r IH] using rev_ind; [by rewrite app_nil_r|].
  destruct (fs_map fs !! (p ++ r ++ [c])) as [n|] eqn:Hc; [|done]. rewrite app_assoc in Hc.
  apply Hwf in Hc. unfold node_at in Hc. destruct (p ++ r) eqn:He; [by apply app_nil in He as [-> _]|].
  cbn iota in Hc. by rewrite IH in Hc.
Qed.

(** What is below a fresh installation and no directory is a regular file of the source. *)
Lemma installed_node fs fs1 fs2 src dest r n :
  fs_wf fs → path_exists fs dest = false → create_dir_all fs dest = Some fs1 →
  copy_dir_recursive fs1 src dest = (true, fs2) → fs_map fs2 !! (dest ++ r) = Some n → n ≠ FDir →
  r ≠ [] ∧ ∃ b, n = FFile b true ∧ fs_map fs !! (src ++ r) = Some (FFile b true).
Proof.
  intros Hwf Hex Hcr Hcp Hn Hnd. unfold copy_dir_recursive in Hcp.
  assert (dest ≠ []) as Hd by (intros ->; done).
  assert (fs_map fs !! dest = None) as Hnone.
  { destruct (exists_last Hd) as (d & c & ->). pose proof (create_from_missing fs [] d c) as Hm. simpl in Hm.
    unfold create_dir_all in Hcr. rewrite Hcr in Hm. specialize (Hm ltac:(done)). unfold path_exists in Hex.
    destruct Hm as [Hm|Hm]; rewrite Hm in Hex; [done|]. unfold node_at in Hm. by destruct (d ++ [c]). }
  destruct (copy_entries_origin _ _ _ _ _ _ Hcp Hn Hnd) as [Ho|(r' & b' & Hp & -> & Hin)].
  - exfalso. apply (create_from_origin _ _ _ _ _ _ Hcr) in Ho; [|done].
    by rewrite fs_wf_missing in Ho.
  - apply app_inv_head in Hp as <-. apply below_spec in Hin as [Hr Hin]. split; [done|].
    apply (create_from_origin _ _ _ _ _ _ Hcr) in Hin; [|done]. by exists b'.
Qed.
(** So a file below it can be read, and has the bytes of the source's. *)
Lemma installed_file fs fs1 fs2 src dest r :
  fs_wf fs → path_exists fs dest = false → create_dir_all fs dest = Some fs1 →
  copy_dir_recursive fs1 src dest = (true, fs2) → path_is_file fs2 (dest ++ r) = true →
  ∃ b, fs_read fs2 (dest ++ r) = Some b ∧ fs_read fs (src ++ r) = Some b.
Proof.
  intros Hwf Hex Hcr Hcp Hf. unfold path_is_file in Hf. unfold fs_read. unfold node_at in *.
  destruct (dest ++ r) as [|x y] eqn:He; [done|]. rewrite <-He in *.
  destruct (fs_map fs2 !! (dest ++ r)) as [n|] eqn:Hn; [|done].
  destruct (installed_node fs fs1 fs2 src dest r n Hwf Hex Hcr Hcp Hn) as (Hr & b & -> & Hs); [by intros ->|].
  exists b. split; [done|]. destruct (src ++ r) eqn:Hsr; [by apply app_nil in Hsr as [_ ->]|]. by rewrite Hs.
Qed.

(** ** Directories that were created stay *)

Lemma create_from_dir fs done c rest fs1 : create_from fs done (rest ++ [c]) = Some fs1 →
  node_at fs1 (done ++ rest ++ [c]) = Some FDir.
Proof.
  revert fs done. induction rest as [|d rest IH]; intros fs done; simpl.
  - destruct (node_at fs (done ++ [c])) as [[]|] eqn:Hn; try by intros; simplify_eq.
    destruct (fs_ok fs); [|done]. intros [= <-]. unfold node_at. destruct (done ++ [c]) eqn:He; [done|].
    apply lookup_insert_eq.
  - replace (done ++ d :: rest ++ [c]) with ((done ++ [d]) ++ rest ++ [c]) by by rewrite <-app_assoc.
    destruct (node_at fs (done ++ [d])) as [[]|]; try done; [apply IH|]. destruct (fs_ok fs); [apply IH|done].
Qed.

Lemma copy_entries_keeps_dst dst l fs ok fs2 : (∀ r n, (r, n) ∈ l → r ≠ []) →
  copy_entries fs dst l = (ok, fs2) → node_at fs2 dst = node_at fs dst ∧ fs_cwd fs2 = fs_cwd fs.
Proof.
  revert fs. induction l as [|[r n] l IH]; intros fs Hl H; simpl in H; [by simplify_eq|].
  assert (r ≠ []) as Hr by (eapply Hl; left).
  assert (∀ k, node_at (set_map (<[dst ++ r := k]> (fs_map fs)) fs) dst = node_at fs dst) as Hk.
  { intros k. unfold node_at. destruct dst as [|c dst]; [done|]. simpl. apply lookup_insert_ne.
    intros He. destruct r; [done|]. apply (f_equal length) in He. simpl in He. rewrite length_app in He. simpl in He. lia. }
  assert (∀ r n, (r, n) ∈ l → r ≠ []) as Hl' by (intros; eapply Hl; by right).
  destruct n as [b []| |]; try (apply IH in H as [-> ->]; [by rewrite ?Hk|done]). by simplify_eq.
Qed.

Lemma create_from_cwd fs done rest fs1 : create_from fs done rest = Some fs1 → fs_cwd fs1 = fs_cwd fs.
Proof.
  revert fs done. induction rest as [|c rest IH]; intros fs done H; simpl in H; [by simplify_eq|].
  destruct (node_at fs (done ++ [c])) as [[]|]; try done; [by eapply IH|].
  destruct (fs_ok fs); [|done]. by apply IH in H.
Qed.

(** ** Auditing leaves the rest alone *)

Section StoreFacts.
Context {E : Env} {P : PluginEnv} {KC : MarkerCodec} {K : AuditSink} {KF : SinkKeeps w_plugins K} (roots : list string).

Definition same_files (s s' : PluginState) : Prop :=
  pg_fs s' = pg_fs s ∧ pg_keys s' = pg_keys s ∧ pg_seq s' = pg_seq s ∧ w_plugins (pg_world s') = w_plugins (pg_world s).

Lemma audit_both_frame kind local payload s r s' :
  audit_both kind local payload s = (r, s') → same_files s s'.
Proof.
  unfold audit_both, mbind, M_bind, on_world, attempt_in, mret, M_ret. simpl.
  pose proof (record_keeps (f := w_plugins) kind None None payload (pg_world s)) as Hr.
  destruct (record kind None None payload (pg_world s)) as [[u|e] w1]; simpl in *; [|by intros [= <- <-]].
  destruct (append local None None payload w1) as [r2 w2] eqn:Ha. apply append_spec in Ha.
  assert (w_plugins w2 = w_plugins w1) as Hp.
  { destruct r2; [destruct Ha as ((_ & _ & _ & _ & _ & _ & Hp & _) & _)
                 |destruct Ha as (_ & (_ & _ & _ & _ & _ & _ & Hp & _) & _)]; done. }
  destruct r2 as [e|[e|m]]; intros; simplify_eq/=; unfold same_files; simpl; repeat split; congruence.
Qed.

Lemma emit_frame m o s r s' : emit_signature_outcome m o s = (r, s') → same_files s s'.
Proof. destruct o; apply audit_both_frame. Qed.

Lemma stmt_frame s r s' : on_world stmt s = (r, s') → same_files s s' ∧ (r = Ok tt ∨ r = Err (Fail Sqlx)).
Proof. unfold on_world, stmt. destruct (db_fault _); intros; simplify_eq/=; unfold same_files; auto. Qed.
Lemma now_frame s r s' : on_world now s = (r, s') → same_files s s' ∧ r = Ok (clock (w_ticks (pg_world s))).
Proof. unfold on_world, now. intros. by simplify_eq/=. Qed.

(** Where the key came from: the file given for the installation, or else the key file
    of the publisher that manifest [m] names, in one of the key directories, with no
    revocation marker beside it. *)
Definition key_origin (fs : Fs) (keys : FileSystem) (m : PluginManifest) (params : PluginInstallParams) (pem : string) : Prop :=
  match pi_public_key_path params with
  | Some path => fs_read_text fs (resolve fs path) = Some pem
  | None =>
      ∃ publisher root, mf_publisher m = Some publisher ∧ root ∈ roots ∧
        let file := (root, trim publisher +:+ ".pem") in
        read_to_string keys file = Some pem ∧ is_file keys (revoked_marker_for file) = false
  end.
(** Where the signature came from: the file given for the installation, or else the
    detached one beside the manifest or the one in it. *)
Definition sig_origin (fs : Fs) (src_dir : string) (m : PluginManifest) (params : PluginInstallParams) (sig : string) : Prop :=
  match pi_signature_path params with
  | Some path => fs_read_text fs (resolve fs path) = Some sig
  | None => fs_read_text fs (resolve fs (join src_dir "signature.b64")) = Some sig ∨ mf_signature_b64 m = Some sig
  end.
(** [sig], decoded, is an ed25519 signature of [bytes] under the key in [pem]. *)
Definition signed_by (bytes sig pem : string) : Prop :=
  ∃ key raw, key_from_pem (trim pem) = Ok key ∧ base64_decode (trim sig) = Ok raw ∧ String.length raw = 64 ∧
    ed25519_verify key bytes raw = Ok tt.

Lemma verify_signed bytes sig pem : verify_plugin_signature bytes sig pem = Ok tt → signed_by bytes sig pem.
Proof using P.
  unfold verify_plugin_signature. destruct (key_from_pem _) as [key|] eqn:Hk; [|done]. destruct (base64_decode _) as [raw|] eqn:Hb; [|done].
  destruct (String.length raw =? SIGNATURE_LENGTH) eqn:Hl; [|done]. destruct (ed25519_verify _ _ _) as [[]|] eqn:Hv; [|done].
  exists key, raw. split_and!; try done. by apply Nat.eqb_eq.
Qed.
Lemma load_pem_origin keys publisher pem :
  load_pem roots keys publisher = Ok pem →
  ∃ root, root ∈ roots ∧ let file := (root, trim publisher +:+ ".pem") in
    read_to_string keys file = Some pem ∧ is_file keys (revoked_marker_for file) = false.
Proof using KC.
  unfold load_pem, resolve_path, sanitize_stem. repeat case_decide; [done|]. destruct (_ || _); [done|].
  destruct (find _ _) as [path|] eqn:Hf; [|done]. apply find_some in Hf as [(root & <- & Hr)%in_map_iff _].
  destruct (is_file _ _) eqn:Hm; [done|]. destruct (read_to_string _ _) eqn:Hrd; [|done]. intros [= ->].
  exists root. split; [by apply list_elem_of_In|done].
Qed.

Lemma check_signature_accepts fs keys src_dir wasm m params o :
  check_signature fs keys roots src_dir wasm m params = Ok o →
  match o with
  | Verified publisher _ _ =>
      ∃ bytes sig pem, fs_read fs (resolve fs wasm) = Some bytes ∧ signed_by bytes sig pem ∧
        sig_origin fs src_dir m params sig ∧ key_origin fs keys m params pem
  | UnsignedAccepted _ => unsigned_allowed = true
  | RejectedSignature _ => True
  end.
Proof using P KC.
  unfold check_signature. destruct (fs_read fs (resolve fs wasm)) as [bytes|]; [|done].
  destruct (resolve_signature fs src_dir m params) as [[sig src]|] eqn:Hsig; [|done].
  destruct (resolve_key fs keys roots m params) as [[pem ks| |reason]|] eqn:Hk; [| | |done].
  - destruct sig as [sig|].
    + destruct (verify_plugin_signature bytes sig pem) as [[]|[]] eqn:Hv; intros; simplify_eq/=; try done.
      exists bytes, sig, pem. split; [done|]. split; [by apply verify_signed|]. split.
      * unfold sig_origin, resolve_signature in *. repeat case_match; simplify_eq; auto.
      * unfold key_origin, resolve_key in *. destruct (pi_public_key_path params); [by case_match; simplify_eq|].
        destruct (mf_publisher m) as [pub|]; [|done]. destruct (load_pem roots keys pub) as [pem'|] eqn:Hl; [|done]. simplify_eq.
        apply load_pem_origin in Hl as (root & ?). by exists pub, root.
    + destruct unsigned_allowed eqn:Hu; intros; by simplify_eq/=.
  - destruct sig; destruct unsigned_allowed eqn:Hu; intros; by simplify_eq/=.
  - intros. by simplify_eq.
Qed.

Lemma parse_from_dir_ok fs dir m wasm :
  parse_from_dir fs dir = Ok (m, wasm) →
  ∃ raw, fs_read_text fs (resolve fs dir ++ [MANIFEST_FILENAME]) = Some raw ∧ toml_manifest raw = Ok m ∧
    validate_manifest m = Ok tt ∧ wasm = join dir (mf_wasm m).
Proof using P.
  unfold parse_from_dir. assert (resolve fs (join dir MANIFEST_FILENAME) = resolve fs dir ++ [MANIFEST_FILENAME]) as ->.
  { rewrite resolve_join; [done|done|]. by apply (bool_decide_eq_false (_ ∈ _)). }
  destruct (fs_read_text _ _) as [raw|]; [|done]. destruct (toml_manifest raw) as [m'|] eqn:Ht; [|done].
  destruct (validate_manifest m') as [[]|] eqn:Hv; [|done]. case_match; [|done]. intros. simplify_eq. by exists raw.
Qed.

Lemma parse_from_dir_file fs dir m wasm : parse_from_dir fs dir = Ok (m, wasm) → path_is_file fs (resolve fs wasm) = true.
Proof using P. unfold parse_from_dir. repeat (case_match; try done). intros. by simplify_eq. Qed.
Lemma fs_read_is_file fs p b : fs_read fs p = Some b → path_is_file fs p = true.
Proof using. unfold fs_read, path_is_file. by repeat case_match. Qed.

Lemma validate_wasm_inside m fs dir :
  validate_manifest m = Ok tt → resolve fs (join dir (mf_wasm m)) = resolve fs dir ++ path_components (mf_wasm m).
Proof using P.
  unfold validate_manifest. repeat (case_match; [done|]). intros _.
  match goal with H : (is_absolute _ || _) = false |- _ => apply orb_false_elim in H as [Ha Hp] end.
  apply bool_decide_eq_false in Hp. by apply resolve_join.
Qed.

Lemma row_by_name_frame name s r s' :
  row_by_name name s = (r, s') →
  same_files s s' ∧ match r with
  | Ok o => o = find (λ r, bool_decide (pl_name r = name)) (w_plugins (pg_world s))
  | Err e => e = Fail Sqlx
  end.
Proof.
  unfold row_by_name, mbind, M_bind, gets. destruct (on_world stmt s) as [r1 s1] eqn:H1.
  apply stmt_frame in H1 as [Hf [-> | ->]]; intros; simplify_eq/=; (split; [done|]); [|done].
  destruct Hf as (_ & _ & _ & Hp). by rewrite Hp.
Qed.

Lemma find_name_none name (rows : list PluginRow) :
  find (λ r, bool_decide (pl_name r = name)) rows = None → name ∉ pl_name <$> rows.
Proof.
  intros Hf. rewrite list_elem_of_fmap. intros (r & -> & Hr). apply list_elem_of_In in Hr.
  eapply find_none in Hr; [|exact Hf]. by apply bool_decide_eq_false in Hr.
Qed.

(** What a successful installation went through. *)
Lemma plugin_install_ok meddle params s name version dir s' :
  plugin_install roots meddle params s = (Ok (name, version, dir), s') →
  ∃ src_dir m wasm o manifest wasm_abs row,
    (src_dir = pi_manifest_path params ∨ parent_of (pi_manifest_path params) = Some src_dir) ∧
    parse_from_dir (pg_fs s) src_dir = Ok (m, wasm) ∧
    check_signature (pg_fs s) (pg_keys s) roots src_dir wasm m params = Ok o ∧
    (∀ reason, o ≠ RejectedSignature reason) ∧
    install_to_user_dir (meddle (pg_fs s)) src_dir = (Ok (dir, manifest, wasm_abs), pg_fs s') ∧
    name = mf_name manifest ∧ pg_keys s' = pg_keys s ∧
    w_plugins (pg_world s') = w_plugins (pg_world s) ++ [row] ∧ pl_name row = name ∧ pl_wasm_path row = wasm_abs ∧
    pl_enabled row = true ∧ name ∉ pl_name <$> w_plugins (pg_world s).
Proof.
  unfold plugin_install. intros H. inv_bind H fs s0 H0. run_simpl H0.
  inv_bind H src_dir s1 H1.
  assert (s1 = s0 ∧ (src_dir = pi_manifest_path params ∨ parent_of (pi_manifest_path params) = Some src_dir)) as [-> Hsrc]
    by (repeat case_match; run_simpl H1; auto). clear H1.
  inv_bind H mw s2 H2. destruct mw as [m wasm]. unfold lift_plugin in H2. case_match; run_simpl H2.
  inv_bind H ex s3 H3. apply row_by_name_frame in H3 as [F3 Hex].
  inv_bind H u s4 H4. destruct ex as [r|]; run_simpl H4. symmetry in Hex. apply find_name_none in Hex.
  inv_bind H keys s5 H5. run_simpl H5. inv_bind H o s6 H6. unfold lift_in in H6.
  destruct (check_signature _ _ _ _ _ _ _) as [o'|] eqn:Hchk; run_simpl H6.
  inv_bind H u s7 H7. apply emit_frame in H7 as F7. inv_bind H u' s8 H8. run_simpl H8.
  inv_bind H u'' s9 H9. assert (s9 = set_fs (meddle (pg_fs s7)) s7 ∧ ∀ reason, o ≠ RejectedSignature reason) as [-> Hnr]
    by (destruct o; run_simpl H9; done). clear H9.
  inv_bind H fs1 s10 H10. run_simpl H10.
  destruct (install_to_user_dir (meddle (pg_fs s7)) src_dir) as [res fs2] eqn:Hinst.
  inv_bind H u3 s11 H11. run_simpl H11. inv_bind H dmw s12 H12. destruct dmw as [[dir' manifest] wasm_abs].
  unfold lift_plugin in H12. destruct res as [x|]; run_simpl H12.
  inv_bind H t s13 H13. apply now_frame in H13 as [F13 _]. inv_bind H id s14 H14.
  unfold insert_plugin in H14. inv_bind H14 u4 s15 H15. apply stmt_frame in H15 as [F15 _].
  inv_bind H14 rows s16 H16. run_simpl H16. inv_bind H14 seq s17 H17. run_simpl H17.
  destruct (bool_decide _) eqn:Hdup; run_simpl H14. inv_bind H14 u5 s18 H18. run_simpl H18.
  inv_bind H u6 s19 H19. apply audit_both_frame in H19 as F19. run_simpl H.
  destruct F3 as (Ffs3 & Fk3 & _ & Fp3), F7 as (Ffs7 & Fk7 & _ & Fp7), F13 as (Ffs13 & Fk13 & _ & Fp13),
    F15 as (Ffs15 & Fk15 & _ & Fp15), F19 as (Ffs19 & Fk19 & _ & Fp19). simpl in *.
  rewrite Ffs7, Ffs3 in Hinst. rewrite Fk3 in Hchk.
  eexists src_dir, m, wasm, o, manifest, wasm_abs, _.
  split; [done|]. split; [done|]. split; [done|]. split; [done|]. split; [rewrite Hinst; do 2 f_equal; congruence|].
  split; [done|]. split; [congruence|]. split; [rewrite Fp19, Fp15, Fp13, Fp7, Fp3; reflexivity|].
  split; [done|]. split; [done|]. split; [done|]. apply bool_decide_eq_false in Hdup.
  by rewrite Fp15, Fp13, Fp7, Fp3 in Hdup.
Qed.
End StoreFacts.

(** * Theorems *)

Section PluginTheorems.
Context {E : Env} {P : PluginEnv} {KC : MarkerCodec} {K : AuditSink} {KF : SinkKeeps w_plugins K} (roots : list string).

Lemma install_to_user_dir_ok fs src_dir dir manifest wasm_abs fs' :
  fs_wf fs → install_to_user_dir fs src_dir = (Ok (dir, manifest, wasm_abs), fs') →
  ∃ root raw w b, user_plugin_root = Ok root ∧ dir = join root (mf_name manifest) ∧ parse_from_dir fs src_dir = Ok (manifest, w) ∧
    fs_read_text fs' (resolve fs' dir ++ [MANIFEST_FILENAME]) = Some raw ∧ toml_manifest raw = Ok manifest ∧
    wasm_abs = join dir (mf_wasm manifest) ∧
    fs_read fs' (resolve fs' wasm_abs) = Some b ∧ fs_read fs (resolve fs w) = Some b.
Proof using P.
  unfold install_to_user_dir. intros Hwf. destruct (parse_from_dir fs src_dir) as [[m w]|] eqn:Hp; [|done].
  destruct user_plugin_root as [root|]; [|done]. destruct (path_exists _ _) eqn:Hex; [done|].
  destruct (create_dir_all _ _) as [fs1|] eqn:Hcr; [|done].
  destruct (copy_dir_recursive _ _ _) as [[] fs2] eqn:Hcp; [|done].
  destruct (parse_from_dir fs2 _) as [[m' w']|] eqn:Hp2; [|done]. intros. simplify_eq.
  assert (∀ p, resolve fs' p = resolve fs p) as Hres.
  { intros p. unfold resolve. assert (fs_cwd fs' = fs_cwd fs) as ->; [|done].
    unfold copy_dir_recursive in Hcp. apply copy_entries_keeps_dst in Hcp as [_ ->].
    - by apply create_from_cwd in Hcr.
    - intros r n Hin. by apply below_spec in Hin as [? _]. }
  pose proof (parse_from_dir_file _ _ _ _ Hp2) as Hfile.
  pose proof (parse_from_dir_ok _ _ _ _ Hp) as (raw & Hr & Ht & Hv & ->).
  apply parse_from_dir_ok in Hp2 as (raw2 & Hr2 & Ht2 & Hv2 & ->).
  assert (raw2 = raw) as ->.
  { rewrite Hres in Hr2. unfold fs_read_text in Hr, Hr2. destruct (fs_read fs' _) as [b2|] eqn:Hb2; [|done].
    pose proof (fs_read_is_file _ _ _ Hb2) as Hf.
    apply (installed_file fs fs1 fs' _ _ _ Hwf Hex Hcr Hcp) in Hf as (b & Hb & Hs).
    rewrite Hs in Hr. simpl in Hr, Hr2. by repeat case_decide; simplify_eq. }
  assert (manifest = m) as -> by congruence. rewrite Hres, validate_wasm_inside in Hfile by done.
  apply (installed_file fs fs1 fs' _ _ _ Hwf Hex Hcr Hcp) in Hfile as (b & Hb & Hs).
  exists root, raw, (join src_dir (mf_wasm m)), b. split_and!; try done.
  - by rewrite Hres, validate_wasm_inside.
  - by rewrite validate_wasm_inside.
Qed.

(** C5: Only verified code is installed. Unless the operator allows unsigned
    plugins and provided nobody touches the files meanwhile, a plugin that ends up
    installed has in its directory the manifest [m] it was installed from and the
    bytes of the code [m] names; these bytes had a 64-byte ed25519 signature, which
    was the one given for the installation or else the detached one or that in [m],
    and which verifies under the key given for the installation or else under the
    key on file for the publisher [m] names, which is not revoked. The new row is
    enabled, has the name in [m] and points to this code. *)
Theorem installed_code_was_verified params s name version dir s' :
  fs_wf (pg_fs s) → unsigned_allowed = false →
  plugin_install roots (λ fs, fs) params s = (Ok (name, version, dir), s') →
  ∃ src_dir raw m bytes sig pem row,
    (src_dir = pi_manifest_path params ∨ parent_of (pi_manifest_path params) = Some src_dir) ∧
    fs_read_text (pg_fs s') (resolve (pg_fs s') dir ++ ["linpodx-plugin.toml"]) = Some raw ∧ toml_manifest raw = Ok m ∧
    signed_by bytes sig pem ∧ sig_origin (pg_fs s) src_dir m params sig ∧ key_origin roots (pg_fs s) (pg_keys s) m params pem ∧
    w_plugins (pg_world s') = w_plugins (pg_world s) ++ [row] ∧ pl_name row = name ∧ name = mf_name m ∧ pl_enabled row = true ∧
    pl_wasm_path row = join dir (mf_wasm m) ∧
    fs_read (pg_fs s') (resolve (pg_fs s') (pl_wasm_path row)) = Some bytes.
Proof.
  intros Hwf Hu Hrun. apply plugin_install_ok in Hrun as (src & m & wasm & o & mf & wabs & row & Hsrc & Hp & Hc & Hnr & Hi & Hn & Hk & Hrows & Hrn & Hrw & Hre & _).
  apply check_signature_accepts in Hc. destruct o as [pub ks ss|reason|reason]; [|congruence|by destruct (Hnr reason)].
  destruct Hc as (bytes & sig & pem & Hb & Hv & Hso & Hko).
  apply install_to_user_dir_ok in Hi as (root & raw & w & b & _ & _ & Hp2 & Hraw & Ht & Hw & Hrd & Hsrc_b); [|done].
  rewrite Hp in Hp2. simplify_eq. exists src, raw, mf, bytes, sig, pem, row. split_and!; try done. congruence.
Qed.

(** A revoked publisher cannot install. Without an explicit key, a plugin that
    names a publisher whose key is revoked (or missing) is refused whatever
    signature it carries and even if unsigned plugins are allowed: the call
    fails, no file is written and no row is added. *)
Theorem revoked_publisher_cannot_install params publisher s r s' :
  pi_public_key_path params = None →
  (∀ dir m wasm, parse_from_dir (pg_fs s) dir = Ok (m, wasm) → mf_publisher m = Some publisher) →
  (∀ pem, load_pem roots (pg_keys s) publisher ≠ Ok pem) →
  plugin_install roots (λ fs, fs) params s = (r, s') →
  (∃ e, r = Err e) ∧ pg_fs s' = pg_fs s ∧ w_plugins (pg_world s') = w_plugins (pg_world s).
Proof.
  intros Hnk Hpub Hnopem Hrun. unfold plugin_install in Hrun.
  unfold mbind at 1, M_bind at 1, gets at 1 in Hrun.
  unfold mbind at 1, M_bind at 1 in Hrun.
  assert (∃ x, (if is_dir (pg_fs s) (resolve (pg_fs s) (pi_manifest_path params)) then mret (pi_manifest_path params)
     else match parent_of (pi_manifest_path params) with
          | Some d => mret d
          | None => throw (Fail (InvalidArgument ("plugin install path '" +:+ pi_manifest_path params +:+
                      "' must be a directory or a manifest file")))
          end) s = (x, s)) as [x Hx] by (repeat case_match; eauto).
  rewrite Hx in Hrun. destruct x as [dir|e]; [|simplify_eq; eauto].
  unfold mbind at 1, M_bind at 1, lift_plugin at 1 in Hrun.
  destruct (parse_from_dir (pg_fs s) dir) as [[m wasm]|e] eqn:Hp; [|simplify_eq/=; eauto]. simpl in Hrun.
  unfold mbind at 1, M_bind at 1 in Hrun. destruct (row_by_name (mf_name m) s) as [ex s1] eqn:H1.
  apply row_by_name_frame in H1 as [(F1 & Fk1 & Fs1 & Fp1) Hex]. destruct ex as [ex|e]; [|simplify_eq; eauto].
  unfold mbind at 1, M_bind at 1 in Hrun. destruct ex as [r0|]; [simplify_eq/=; eauto|]. simpl in Hrun.
  unfold mbind at 1, M_bind at 1, gets at 1 in Hrun. unfold mbind at 1, M_bind at 1, lift_in at 1 in Hrun.
  assert (∀ o, check_signature (pg_fs s) (pg_keys s) roots dir wasm m params = Ok o → ∃ reason, o = RejectedSignature reason) as Hrej.
  { intros o. unfold check_signature. destruct (fs_read _ _); [|done]. destruct (resolve_signature _ _ _ _) as [[]|]; [|done].
    unfold resolve_key. rewrite Hnk, (Hpub _ _ _ Hp). destruct (load_pem roots (pg_keys s) publisher) as [pem|] eqn:Hl;
      [by destruct (Hnopem pem)|]. intros [= <-]. eauto. }
  rewrite Fk1 in Hrun. destruct (check_signature _ _ _ _ _ _ _) as [o|e]; [|simplify_eq/=; eauto].
  destruct (Hrej o eq_refl) as [reason ->]. simpl in Hrun. unfold mbind at 1, M_bind at 1 in Hrun.
  destruct (audit_both _ _ _ s1) as [u s2] eqn:Ha. apply audit_both_frame in Ha as (F2 & _ & _ & Fp2).
  destruct u as [u|e]; [unfold mbind, M_bind, modify, throw in Hrun|]; simplify_eq/=; (split; [by eauto|]); split; congruence.
Qed.

(** The code of a plugin stays in its directory: a manifest that passes
    validation resolves its code to a path below the directory it was read from,
    whatever directory that is. *)
Theorem plugin_code_stays_inside fs dir m wasm :
  parse_from_dir fs dir = Ok (m, wasm) → ∃ rel, resolve fs wasm = resolve fs dir ++ rel ∧ ".." ∉ rel.
Proof using P.
  intros (raw & _ & _ & Hv & ->)%parse_from_dir_ok. exists (path_components (mf_wasm m)).
  split; [by apply validate_wasm_inside|]. unfold validate_manifest in Hv. do 3 (case_match; [done|]).
  destruct (_ || _) eqn:Ho; [done|]. apply orb_false_elim in Ho as [_ Ho]. by apply bool_decide_eq_false in Ho.
Qed.

(** The name of a plugin does not stay inside the plugin root: validation says
    nothing about [/] or [..] in a name, so a manifest that names itself [../x]
    is installed beside the root (and [remove --force] deletes there), and one
    that names itself by an absolute path is installed at that path. *)
Theorem plugin_name_escapes_root fs root x m :
  user_plugin_root = Ok root → is_absolute root = true → resolve fs root ≠ [] →
  path_components x = [x] → x ≠ ".." → validate_manifest m = Ok tt →
  let m' := {| mf_name := "../" +:+ x; mf_version := mf_version m; mf_hooks := mf_hooks m; mf_wasm := mf_wasm m;
               mf_publisher := mf_publisher m; mf_signature_b64 := mf_signature_b64 m |} in
  let m'' := {| mf_name := "/" +:+ x; mf_version := mf_version m; mf_hooks := mf_hooks m; mf_wasm := mf_wasm m;
                mf_publisher := mf_publisher m; mf_signature_b64 := mf_signature_b64 m |} in
  validate_manifest m' = Ok tt ∧ resolve fs (join root (mf_name m')) = removelast (resolve fs root) ++ [x] ∧
  validate_manifest m'' = Ok tt ∧ resolve fs (join root (mf_name m'')) = [x].
Proof using P.
  intros _ Habs Hroot Hx Hne Hv m' m''. unfold validate_manifest in *. subst m' m''. simpl.
  assert (∀ c t, visible c = true → is_blank (String c t) = false) as Hb.
  { intros c t Hc. unfold is_blank. apply bool_decide_eq_false. by apply strip_ws_visible. }
  destruct (is_blank (mf_name m)); [done|].
  change ("../" +:+ x) with (String dot ("./" +:+ x)). change ("/" +:+ x) with (String slash x).
  rewrite !Hb by done. split; [done|]. split; [|split; [done|]].
  - unfold resolve. rewrite path_components_join by done. rewrite is_absolute_join by (done || by intros ->).
    rewrite walk_app. assert (path_components (String dot ("./" +:+ x)) = [".."; x]) as ->.
    { unfold path_components in *. change (String dot ("./" +:+ x)) with (".." +:+ String slash x).
      rewrite split_app, filter_app, Hx. done. }
    simpl. by rewrite decide_False.
  - assert (join root (String slash x) = String slash x) as ->.
    { unfold join. by assert (is_absolute (String slash x) = true) as -> by (by destruct x). }
    unfold resolve. assert (is_absolute (String slash x) = true) as -> by (by destruct x).
    assert (path_components (String slash x) = [x]) as ->.
    { unfold path_components in *. change (String slash x) with ("" +:+ String slash x).
      by rewrite split_app, filter_app, Hx. }
    simpl. by rewrite decide_False.
Qed.
End PluginTheorems.

(** A failed installation blocks the next one. Once the plugin's directory
    has been created, an installation that fails (a file cannot be copied, or the
    copy does not parse, as when the code is a symbolic link, which is verified
    through the link and then not copied) leaves it behind, and every later
    attempt is refused as a duplicate although nothing is installed. *)
Theorem failed_install_blocks_retry {P : PluginEnv} fs src m wasm root fs1 e fs' :
  let dest := resolve fs (join root (mf_name m)) in
  parse_from_dir fs src = Ok (m, wasm) → user_plugin_root = Ok root → path_exists fs dest = false →
  create_dir_all fs dest = Some fs1 → install_to_user_dir fs src = (Err e, fs') →
  is_dir fs' dest = true ∧
  ∀ m' w', parse_from_dir fs' src = Ok (m', w') → mf_name m' = mf_name m →
    install_to_user_dir fs' src = (Err (Duplicate (mf_name m)), fs').
Proof.
  intros dest Hp Hroot Hex Hcr Hi.
  assert (is_dir fs' dest = true ∧ fs_cwd fs' = fs_cwd fs) as [Hd Hcwd].
  { unfold install_to_user_dir in Hi. rewrite Hp, Hroot in Hi. fold dest in Hi. rewrite Hex, Hcr in Hi.
    assert (node_at fs1 dest = Some FDir) as Hd.
    { destruct (decide (dest = [])) as [->|Hne]; [done|]. destruct (exists_last Hne) as (d & c & ->).
      by apply (create_from_dir fs [] c d). }
    apply create_from_cwd in Hcr. unfold copy_dir_recursive in Hi. destruct (copy_entries _ _ _) as [ok fs2] eqn:Hc.
    apply copy_entries_keeps_dst in Hc as [Hn Hw]; [|intros r n Hin; by apply below_spec in Hin as [? _]].
    assert (fs2 = fs') as -> by by destruct ok; [destruct (parse_from_dir fs2 _) as [[]|]|]; simplify_eq/=.
    split; [apply bool_decide_eq_true|]; congruence. }
  split; [done|]. intros m' w' Hp' Hn. unfold install_to_user_dir. rewrite Hp', Hroot, Hn.
  assert (resolve fs' (join root (mf_name m)) = dest) as -> by (unfold resolve, dest, resolve; by rewrite Hcwd).
  apply bool_decide_eq_true in Hd. unfold path_exists. by rewrite Hd.
Qed.

(** * Examples *)

(** A publisher whose key is on file, and a signature scheme in which the
    signature of the code is the code padded to 64 bytes. *)
Definition pad64 (s : string) : string := str_take 64 (s +:+ String.concat "" (replicate 64 ".")).
Definition acme_manifest : PluginManifest :=
  {| mf_name := "guard"; mf_version := "1"; mf_hooks := ["approval"]; mf_wasm := "guard.wasm";
     mf_publisher := Some "acme"; mf_signature_b64 := Some (pad64 "code") |}.
#[export] Instance toy_plugin_env : PluginEnv := {|
  env_var := λ v, if decide (v = "HOME") then Some "/home/u" else None;
  toml_manifest := λ s, if decide (s = "manifest") then Ok acme_manifest else Err "bad toml";
  key_from_pem := Ok;
  base64_decode := Ok;
  ed25519_verify := λ _ msg sig, if decide (pad64 msg = sig) then Ok tt else Err "bad signature";
  key_error_text := λ _, "unusable" |}.
Definition toy_fs (code : FNode) : Fs :=
  {| fs_map := list_to_map [(["src"], FDir); (["src"; "linpodx-plugin.toml"], FFile "manifest" true); (["src"; "guard.wasm"], code)];
     fs_cwd := []; fs_ok := true |}.
Definition toy_state (code : FNode) : PluginState :=
  {| pg_world := empty_world; pg_fs := toy_fs code; pg_keys := acme_fs; pg_seq := 0 |}.
Definition toy_params : PluginInstallParams :=
  {| pi_manifest_path := "/src"; pi_signature_path := None; pi_public_key_path := None |}.

Lemma toy_fs_wf code : code ≠ FDir → fs_wf (toy_fs code).
Proof.
  intros _ p c n. unfold toy_fs. simpl.
  intros [[Hp _]|[_ [[Hp _]|[_ [[Hp _]|[_ Hp]]%lookup_insert_Some]]%lookup_insert_Some]]%lookup_insert_Some; [..|done].
  - by destruct p as [|? [|]]; simplify_eq/=.
  - destruct p as [|a [|b [|]]]; simplify_eq/=. by vm_compute.
  - destruct p as [|a [|b [|]]]; simplify_eq/=. by vm_compute.
Qed.

Lemma installed_code_was_verified_witness :
  let p := plugin_install (E := toy_env) (KC := toy_codec) (K := NoopAuditSink) ["/keys"] (λ fs, fs) toy_params
             (toy_state (FFile "code" true)) in
  p.1 = Ok ("guard", "1", "/home/u/.local/share/linpodx/plugins/guard") ∧
  ∃ src_dir raw m bytes sig pem row,
    (src_dir = "/src" ∨ parent_of "/src" = Some src_dir) ∧
    fs_read_text (pg_fs p.2) (resolve (pg_fs p.2) "/home/u/.local/share/linpodx/plugins/guard" ++ ["linpodx-plugin.toml"]) = Some raw ∧
    toml_manifest raw = Ok m ∧
    signed_by bytes sig pem ∧ sig_origin (toy_fs (FFile "code" true)) src_dir m toy_params sig ∧
    key_origin ["/keys"] (toy_fs (FFile "code" true)) acme_fs m toy_params pem ∧
    w_plugins (pg_world p.2) = [] ++ [row] ∧ pl_name row = "guard" ∧ "guard" = mf_name m ∧ pl_enabled row = true ∧
    pl_wasm_path row = join "/home/u/.local/share/linpodx/plugins/guard" (mf_wasm m) ∧
    fs_read (pg_fs p.2) (resolve (pg_fs p.2) (pl_wasm_path row)) = Some bytes.
Proof.
  intros p. assert (p.1 = Ok ("guard", "1", "/home/u/.local/share/linpodx/plugins/guard")) as H1 by vm_check.
  split; [exact H1|]. destruct p as [r s'] eqn:Hp. subst p. simpl in H1. subst r.
  exact (installed_code_was_verified (E := toy_env) (KC := toy_codec) (K := NoopAuditSink) ["/keys"] toy_params
    (toy_state (FFile "code" true)) "guard" "1" _ s' (toy_fs_wf (FFile "code" true) ltac:(discriminate)) eq_refl Hp).
Defined.

(** The same files with the publisher's key revoked. *)
Definition revoked_keys : FileSystem := (revoke (K := toy_codec) ["/keys"] acme_fs "acme" (Some "leaked") 5).2.

Lemma revoked_publisher_cannot_install_witness :
  let s := {| pg_world := empty_world; pg_fs := toy_fs (FFile "code" true); pg_keys := revoked_keys; pg_seq := 0 |} in
  let p := plugin_install (E := toy_env) (KC := toy_codec) (K := NoopAuditSink) ["/keys"] (λ fs, fs) toy_params s in
  (∃ e, p.1 = Err e) ∧ pg_fs p.2 = pg_fs s ∧ w_plugins (pg_world p.2) = [].
Proof.
  intros s p. destruct p as [r s'] eqn:Hp. subst p.
  apply (revoked_publisher_cannot_install (E := toy_env) (KC := toy_codec) (K := NoopAuditSink) ["/keys"] toy_params "acme" s r s').
  - reflexivity.
  - intros dir m wasm H. apply parse_from_dir_ok in H as (raw & _ & Ht & _). simpl in Ht. case_decide; by simplify_eq/=.
  - intros pem H. vm_compute in H. discriminate H.
  - exact Hp.
Defined.

Lemma plugin_code_stays_inside_witness :
  ∃ rel, resolve (toy_fs (FFile "code" true)) "/src/guard.wasm" = resolve (toy_fs (FFile "code" true)) "/src" ++ rel ∧ ".." ∉ rel.
Proof. apply (plugin_code_stays_inside (P := toy_plugin_env) _ "/src" acme_manifest). vm_compute. reflexivity. Defined.

Lemma plugin_name_escapes_root_witness :
  resolve (toy_fs FDir) (join "/home/u/.local/share/linpodx/plugins" "../x") = ["home"; "u"; ".local"; "share"; "linpodx"; "x"].
Proof.
  refine (proj1 (proj2 (plugin_name_escapes_root (P := toy_plugin_env) (toy_fs FDir)
    "/home/u/.local/share/linpodx/plugins" "x" acme_manifest _ _ _ _ _ _))); vm_compute; (reflexivity || discriminate).
Defined.

(** The code is a symbolic link: it verifies and is not copied. *)
Definition link_fs : Fs := toy_fs (FLink (Some "code")).
Definition link_dest : Path := ["home"; "u"; ".local"; "share"; "linpodx"; "plugins"; "guard"].

Lemma failed_install_blocks_retry_witness :
  install_to_user_dir (install_to_user_dir link_fs "/src").2 "/src" =
  (Err (Duplicate "guard"), (install_to_user_dir link_fs "/src").2).
Proof.
  refine (proj2 (failed_install_blocks_retry link_fs "/src" acme_manifest "/src/guard.wasm"
    "/home/u/.local/share/linpodx/plugins" (default link_fs (create_dir_all link_fs link_dest))
    (Manifest "wasm file '/home/u/.local/share/linpodx/plugins/guard/guard.wasm' not found")
    (install_to_user_dir link_fs "/src").2 _ _ _ _ _) acme_manifest "/src/guard.wasm" _ _);
    vm_check.
Defined.

(** What is verified is not what is copied: code replaced after the check is
    installed under the verified outcome. *)
Example swapped_code_is_installed :
  let meddle fs := set_map (<[["src"; "guard.wasm"] := FFile "evil" true]> (fs_map fs)) fs in
  let p := plugin_install (E := toy_env) (KC := toy_codec) (K := NoopAuditSink) ["/keys"] meddle toy_params (toy_state (FFile "code" true)) in
  p.1 = Ok ("guard", "1", "/home/u/.local/share/linpodx/plugins/guard") ∧
  fs_read (pg_fs p.2) ["home"; "u"; ".local"; "share"; "linpodx"; "plugins"; "guard"; "guard.wasm"] = Some "evil" ∧
  verify_plugin_signature "evil" (pad64 "code") "KEY" = Err (VerifyFailed "bad signature").
Proof. vm_compute. done. Qed.
