(* ===== verification/RaftStore.v ===== *)
(** The storage the Raft engine runs on, [MemStore] of
    [linpodx-cluster/src/election.rs]: the log, the vote, the replicated
    container map and its snapshots.

    openraft is a parameter: its leader ids, votes and memberships are abstract
    types, and it calls the operations below. [serde_json] for snapshots and votes
    is the class [RaftCodec]; the local effect of a replicated key revocation is
    the class [PluginRevocationSink], the trait of the same name, which the
    daemon implements with the key registry. *)
From S2P Require Import Prelude Json Common KeyRegistry.

(** * Data *)

Inductive AppData : Type :=
| ProposeContainer (node_id : string) (container : ContainerSummary)
| RemoveContainer (node_id container_id : string)
| RevokePluginKey (publisher fingerprint : string) (reason : option string) (revoked_at : Z)
| Noop.

Record AppResponse : Type := {
  resp_ok : bool;
  last_applied_index : N;
  container_count : N;
}.

(** A revocation handed to the sink. *)
Record Revocation : Type := {
  rv_publisher : string;
  rv_fingerprint : string;
  rv_reason : option string;
  rv_revoked_at : Z;
}.

(** The trait, over the state it acts on. Its documentation asks implementations
    to be idempotent, for the revocations [rv_in_range] admits. *)
Class PluginRevocationSink (S : Type) := {
  sink_apply : Revocation → S → S;
  rv_in_range : Revocation → Prop;
}.
Class PluginRevocationSinkLaws {S} (P : PluginRevocationSink S) : Prop := {
  sink_idempotent r s : rv_in_range r → sink_apply r (sink_apply r s) = sink_apply r s;
}.

(** ** Types of openraft *)

Class RaftTypes := {
  LeaderId : Type;
  Vote : Type;
  Membership : Type;
  membership_default : Membership;
  leader_to_string : LeaderId → string;
}.

Section Data.
Context {T : RaftTypes}.

Record LogId : Type := { li_leader : LeaderId; li_index : N }.
Record StoredMembership : Type := { sm_log_id : option LogId; sm_membership : Membership }.
Inductive EntryPayload : Type := Blank | Normal (d : AppData) | MembershipChange (m : Membership).
Record Entry : Type := { e_log_id : LogId; e_payload : EntryPayload }.
Record SnapshotMeta : Type := {
  last_log_id : option LogId;
  snap_membership : StoredMembership;
  snapshot_id : string;
}.
Record SnapshotPayload : Type := {
  sp_last_membership : StoredMembership;
  sp_containers : gmap string ContainerSummary;
}.
Record StoredSnapshot : Type := { ss_meta : SnapshotMeta; ss_data : string }.

Record StoreInner : Type := {
  si_log : gmap N Entry;
  si_last_purged : option LogId;
  si_vote : option Vote;
  si_last_applied : option LogId;
  si_last_membership : StoredMembership;
  si_snapshot_idx : Z;
  si_current_snapshot : option StoredSnapshot;
  si_containers : gmap (string * string) ContainerSummary;
}.

Definition store_new : StoreInner :=
  {| si_log := ∅; si_last_purged := None; si_vote := None; si_last_applied := None;
     si_last_membership := {| sm_log_id := None; sm_membership := membership_default |};
     si_snapshot_idx := 0; si_current_snapshot := None; si_containers := ∅ |}.

Definition set_log (l : gmap N Entry) (p : option LogId) (s : StoreInner) : StoreInner :=
  {| si_log := l; si_last_purged := p; si_vote := si_vote s; si_last_applied := si_last_applied s;
     si_last_membership := si_last_membership s; si_snapshot_idx := si_snapshot_idx s;
     si_current_snapshot := si_current_snapshot s; si_containers := si_containers s |}.
Definition set_vote (v : option Vote) (s : StoreInner) : StoreInner :=
  {| si_log := si_log s; si_last_purged := si_last_purged s; si_vote := v; si_last_applied := si_last_applied s;
     si_last_membership := si_last_membership s; si_snapshot_idx := si_snapshot_idx s;
     si_current_snapshot := si_current_snapshot s; si_containers := si_containers s |}.
Definition set_machine (a : option LogId) (m : StoredMembership) (c : gmap (string * string) ContainerSummary)
    (s : StoreInner) : StoreInner :=
  {| si_log := si_log s; si_last_purged := si_last_purged s; si_vote := si_vote s; si_last_applied := a;
     si_last_membership := m; si_snapshot_idx := si_snapshot_idx s;
     si_current_snapshot := si_current_snapshot s; si_containers := c |}.
Definition set_snapshot (idx : Z) (snap : option StoredSnapshot) (s : StoreInner) : StoreInner :=
  {| si_log := si_log s; si_last_purged := si_last_purged s; si_vote := si_vote s;
     si_last_applied := si_last_applied s; si_last_membership := si_last_membership s; si_snapshot_idx := idx;
     si_current_snapshot := snap; si_containers := si_containers s |}.
End Data.

(** [serde_json] on the snapshot payload and on votes. *)
Class RaftCodec (T : RaftTypes) := {
  snapshot_to_vec : SnapshotPayload → option string;
  snapshot_from_slice : string → option SnapshotPayload;
  vote_to_string : Vote → option string;
  vote_from_str : string → option Vote;
}.
Class RaftCodecLaws {T} (C : RaftCodec T) : Prop := {
  snapshot_roundtrip p data : snapshot_to_vec p = Some data → data ≠ "" ∧ snapshot_from_slice data = Some p;
  vote_roundtrip v data : vote_to_string v = Some data → vote_from_str data = Some v;
}.

(** * Operations *)

(** ** Keys of the snapshot *)

Definition nul : ascii := Ascii.ascii_of_N 0.

Definition key_to_str (node_id container_id : string) : string := node_id +:+ String nul container_id.

(** [splitn(2, '\0')]: the parts before and after the first NUL. *)
Fixpoint key_from_str (s : string) : option (string * string) :=
  match s with
  | EmptyString => None
  | String c s' =>
      if decide (c = nul) then Some ("", s')
      else (λ p, (String c p.1, p.2)) <$> key_from_str s'
  end.

Section Store.
Context {T : RaftTypes} {C : RaftCodec T} {S : Type} {P : PluginRevocationSink S}.

(** ** Log *)

Definition index_of (e : Entry) : N := li_index (e_log_id e).

Definition append_to_log (entries : list Entry) (s : StoreInner) : StoreInner :=
  set_log (foldl (λ m e, <[index_of e := e]> m) (si_log s) entries) (si_last_purged s) s.

Definition delete_conflict_logs_since (log_id : LogId) (s : StoreInner) : StoreInner :=
  set_log (filter (λ kv, kv.1 < li_index log_id)%N (si_log s)) (si_last_purged s) s.

Definition purge_logs_upto (log_id : LogId) (s : StoreInner) : StoreInner :=
  let newer := match si_last_purged s with
               | Some p => bool_decide (li_index p < li_index log_id)%N
               | None => true
               end in
  set_log (filter (λ kv, li_index log_id < kv.1)%N (si_log s))
    (if newer then Some log_id else si_last_purged s) s.

Definition index_le (a b : N * Entry) : Prop := (a.1 ≤ b.1)%N.
#[global] Instance index_le_dec : RelDecision index_le.
Proof. intros a b. unfold index_le. apply _. Defined.

(** The log in the order of its indexes, and the entries of a range of them. *)
Definition log_entries (m : gmap N Entry) : list Entry := (merge_sort index_le (map_to_list m)).*2.
Definition try_get_log_entries (in_range : N → bool) (s : StoreInner) : list Entry :=
  log_entries (filter (λ kv, in_range kv.1 = true) (si_log s)).

(** [(last_purged_log_id, last_log_id)]. *)
Definition get_log_state (s : StoreInner) : option LogId * option LogId :=
  (si_last_purged s, or_else (e_log_id <$> last (log_entries (si_log s))) (si_last_purged s)).

(** ** Vote *)

(** The row of [raft_state] that holds the vote, and whether its statements work.
    A failure is logged; the vote in memory is set all the same. *)
Definition save_vote (sink : bool) (fault : bool) (vote : Vote) (s : StoreInner) (row : option string) :
    StoreInner * option string :=
  (set_vote (Some vote) s,
   if sink && negb fault then match vote_to_string vote with Some d => Some d | None => row end else row).

Definition read_vote (s : StoreInner) : option Vote := si_vote s.

Definition load_persisted_vote (sink : bool) (fault : bool) (row : option string) (s : StoreInner) : StoreInner :=
  if sink && negb fault then
    match row with
    | None => s
    | Some d => match vote_from_str d with Some v => set_vote (Some v) s | None => s end
    end
  else s.

(** ** State machine *)

(** One entry: the new state, the response, and what is left for the sink. *)
Definition apply_entry (e : Entry) (s : StoreInner) : StoreInner * AppResponse * list Revocation :=
  let applied := Some (e_log_id e) in
  let '(containers, membership, revocations) :=
    match e_payload e with
    | Blank | Normal Noop => (si_containers s, si_last_membership s, [])
    | Normal (ProposeContainer node_id container) =>
        (<[(node_id, cs_id container) := container]> (si_containers s), si_last_membership s, [])
    | Normal (RemoveContainer node_id container_id) =>
        (delete (node_id, container_id) (si_containers s), si_last_membership s, [])
    | Normal (RevokePluginKey publisher fingerprint reason revoked_at) =>
        (si_containers s, si_last_membership s,
         [{| rv_publisher := publisher; rv_fingerprint := fingerprint; rv_reason := reason;
             rv_revoked_at := revoked_at |}])
    | MembershipChange m =>
        (si_containers s, {| sm_log_id := Some (e_log_id e); sm_membership := m |}, [])
    end in
  let s' := set_machine applied membership containers s in
  (s', {| resp_ok := true; last_applied_index := index_of e; container_count := N.of_nat (size containers) |},
   revocations).

Fixpoint apply_entries (entries : list Entry) (s : StoreInner) : StoreInner * list AppResponse * list Revocation :=
  match entries with
  | [] => (s, [], [])
  | e :: entries' =>
      let '(s1, r, v) := apply_entry e s in
      let '(s2, rs, vs) := apply_entries entries' s1 in
      (s2, r :: rs, v ++ vs)
  end.

(** The revocations go to the sink, if one is installed, after the lock is
    released. *)
Definition apply_to_state_machine (installed : bool) (entries : list Entry) (s : StoreInner) (k : S) :
    list AppResponse * StoreInner * S :=
  let '(s', responses, revocations) := apply_entries entries s in
  (responses, s', if installed then foldl (λ k r, sink_apply r k) k revocations else k).

(** ** Snapshots *)

(** The order of the container map, and its iteration. *)
Definition pair_le (a b : (string * string) * ContainerSummary) : Prop :=
  a.1.1 ≠ b.1.1 ∧ String.le a.1.1 b.1.1 ∨ a.1.1 = b.1.1 ∧ String.le a.1.2 b.1.2.
#[global] Instance pair_le_dec : RelDecision pair_le.
Proof. intros a b. unfold pair_le. apply _. Defined.

Definition containers_iter (s : StoreInner) : list ((string * string) * ContainerSummary) :=
  merge_sort pair_le (map_to_list (si_containers s)).

Definition build_snapshot (s : StoreInner) : option (StoredSnapshot * StoreInner) :=
  let payload := {| sp_last_membership := si_last_membership s;
                    sp_containers := foldl (λ m kv, <[key_to_str kv.1.1 kv.1.2 := kv.2]> m) ∅ (containers_iter s) |} in
  data ← snapshot_to_vec payload;
  let idx := wrap_u64 (si_snapshot_idx s + 1) in
  let id := match si_last_applied s with
            | Some l => leader_to_string (li_leader l) +:+ "-" +:+ pretty (li_index l) +:+ "-" +:+ pretty idx
            | None => "--" +:+ pretty idx
            end in
  let meta := {| last_log_id := si_last_applied s; snap_membership := si_last_membership s; snapshot_id := id |} in
  let snap := {| ss_meta := meta; ss_data := data |} in
  Some (snap, set_snapshot idx (Some snap) s).

(** The container map of a payload: keys without a separator are dropped. Distinct
    keys never read the same, so the order of the payload does not matter. *)
Definition rebuild (m : gmap string ContainerSummary) : gmap (string * string) ContainerSummary :=
  foldl (λ acc kv, match key_from_str kv.1 with Some k => <[k := kv.2]> acc | None => acc end) ∅ (map_to_list m).

Definition install_snapshot (meta : SnapshotMeta) (data : string) (s : StoreInner) : StoreInner :=
  let containers :=
    if decide (data = "") then si_containers s
    else match snapshot_from_slice data with
         | Some payload => rebuild (sp_containers payload)
         | None => si_containers s
         end in
  set_snapshot (si_snapshot_idx s) (Some {| ss_meta := meta; ss_data := data |})
    (set_machine (last_log_id meta) (snap_membership meta) containers s).

(** A node is its store and what its sink acts on; the engine feeds it entries or
    a snapshot. *)
Inductive RaftCall : Type :=
| CallApply (entries : list Entry)
| CallInstall (snap : StoredSnapshot).

Definition raft_call (c : RaftCall) (node : StoreInner * S) : StoreInner * S :=
  match c with
  | CallApply entries => let '(_, s, k) := apply_to_state_machine true entries node.1 node.2 in (s, k)
  | CallInstall snap => (install_snapshot (ss_meta snap) (ss_data snap) node.1, node.2)
  end.

Definition get_current_snapshot (s : StoreInner) : option StoredSnapshot := si_current_snapshot s.

(** [ClusterStateSnapshot]: the last applied index and the containers in key
    order. *)
Definition state_snapshot (s : StoreInner) : N * list (string * ContainerSummary) :=
  (unwrap_or 0%N (li_index <$> si_last_applied s),
   (λ kv, (kv.1.1, kv.2)) <$> containers_iter s).
End Store.

(** * Lemmas *)

(** ** Keys *)

Definition has_nul (s : string) : bool := negb (str_all (λ c, negb (bool_decide (c = nul))) s).

Lemma key_from_to n c : has_nul n = false → key_from_str (key_to_str n c) = Some (n, c).
Proof.
  unfold has_nul, key_to_str. intros H. apply negb_false_iff in H.
  induction n as [|a n IH]; [done|]. simpl in H. apply andb_prop in H as [Ha H].
  rewrite str_app_cons_l. simpl. rewrite decide_False by (intros ->; by rewrite bool_decide_true in Ha).
  by rewrite IH.
Qed.

Lemma key_to_from s k : key_from_str s = Some k → s = key_to_str k.1 k.2 ∧ has_nul k.1 = false.
Proof.
  revert k. induction s as [|c s IH]; intros k; simpl; [done|]. case_decide as Hc.
  - intros [= <-]. by subst c.
  - destruct (key_from_str s) as [p|] eqn:Hs; simpl; [|done]. intros [= <-]. simpl.
    destruct (IH p eq_refl) as [-> Hn]. split; [done|]. unfold has_nul in *. simpl.
    by rewrite bool_decide_false.
Qed.

Lemma key_to_str_inj n1 c1 n2 c2 :
  has_nul n1 = false → has_nul n2 = false → key_to_str n1 c1 = key_to_str n2 c2 → n1 = n2 ∧ c1 = c2.
Proof.
  intros H1 H2 H. apply (f_equal key_from_str) in H. rewrite !key_from_to in H by done. by simplify_eq.
Qed.

(** ** Rebuilding the containers *)

Definition rebuild_step (acc : gmap (string * string) ContainerSummary) (kv : string * ContainerSummary) :=
  match key_from_str kv.1 with Some k => <[k := kv.2]> acc | None => acc end.

Lemma rebuild_lookup_list l : ∀ acc k, NoDup l.*1 → has_nul k.1 = false →
  foldl rebuild_step acc l !! k = or_else (list_to_map (M := gmap string _) l !! key_to_str k.1 k.2) (acc !! k).
Proof.
  induction l as [|[s v] l IH]; intros acc k Hnd Hk; [done|]. simpl in Hnd. apply NoDup_cons in Hnd as [Hs Hnd].
  simpl. rewrite IH by done. unfold rebuild_step. simpl.
  destruct (decide (s = key_to_str k.1 k.2)) as [->|Hne].
  - rewrite lookup_insert_eq, key_from_to by done.
    rewrite (not_elem_of_list_to_map_1 l) by done. simpl. destruct k. by rewrite lookup_insert_eq.
  - rewrite (lookup_insert_ne _ s) by done. f_equal.
    destruct (key_from_str s) as [k'|] eqn:Hk'; [|done]. rewrite lookup_insert_ne; [done|].
    intros ->. by apply key_to_from in Hk' as [-> _].
Qed.

Lemma rebuild_lookup m k : has_nul k.1 = false → rebuild m !! k = m !! key_to_str k.1 k.2.
Proof.
  intros Hk. unfold rebuild. rewrite (rebuild_lookup_list (map_to_list m) ∅ k) by (done || apply NoDup_fst_map_to_list).
  rewrite list_to_map_to_list, lookup_empty. by destruct (m !! _).
Qed.

Lemma rebuild_keys_list l : ∀ acc k v, (∀ k v, acc !! k = Some v → has_nul k.1 = false) →
  foldl rebuild_step acc l !! k = Some v → has_nul k.1 = false.
Proof.
  induction l as [|[s v] l IH]; intros acc k v' Hacc; simpl; [apply Hacc|]. apply IH.
  intros k0 v0. unfold rebuild_step. simpl. destruct (key_from_str s) as [k1|] eqn:Hk1; [|apply Hacc].
  destruct (decide (k1 = k0)) as [->|Hne]; [|rewrite lookup_insert_ne by done; apply Hacc].
  intros _. by apply key_to_from in Hk1 as [_ ?].
Qed.

(** No container is reported under a label with a NUL character. *)
Definition labels_ok (m : gmap (string * string) ContainerSummary) : Prop :=
  map_Forall (λ k _, has_nul k.1 = false) m.

Lemma flatten_lookup_list l : ∀ (acc : gmap string ContainerSummary) k, NoDup l.*1 → has_nul k.1 = false →
  Forall (λ kv : (string * string) * ContainerSummary, has_nul kv.1.1 = false) l →
  foldl (λ m kv, <[key_to_str kv.1.1 kv.1.2 := kv.2]> m) acc l !! key_to_str k.1 k.2
  = or_else (list_to_map (M := gmap (string * string) _) l !! k) (acc !! key_to_str k.1 k.2).
Proof.
  induction l as [|[k' v] l IH]; intros acc k Hnd Hk Hl; [done|]. simpl in Hnd. apply NoDup_cons in Hnd as [Hs Hnd].
  apply Forall_cons in Hl as [Hk' Hl]. simpl in Hk'. simpl. rewrite IH by done.
  destruct (decide (k' = k)) as [->|Hne].
  - by rewrite !lookup_insert_eq, (not_elem_of_list_to_map_1 l).
  - rewrite !lookup_insert_ne; [done|done|]. intros Heq. apply Hne.
    destruct k as [n c], k' as [n' c']. simpl in *. by apply key_to_str_inj in Heq as [-> ->].
Qed.

Section Rebuild.
Context {T : RaftTypes}.

Lemma containers_iter_perm (s : StoreInner) : containers_iter s ≡ₚ map_to_list (si_containers s).
Proof. apply merge_sort_Permutation. Qed.

(** What is put into a snapshot comes out of it. *)
Lemma rebuild_flatten (s : StoreInner) :
  labels_ok (si_containers s) →
  rebuild (foldl (λ m kv, <[key_to_str kv.1.1 kv.1.2 := kv.2]> m) ∅ (containers_iter s)) = si_containers s.
Proof.
  intros Hok. apply map_eq. intros k.
  assert (NoDup (containers_iter s).*1) as Hnd by (rewrite containers_iter_perm; apply NoDup_fst_map_to_list).
  destruct (has_nul k.1) eqn:Hk.
  - destruct (si_containers s !! k) as [v|] eqn:Hv; [apply Hok in Hv; congruence|].
    destruct (rebuild _ !! k) as [v|] eqn:Hr; [|done]. unfold rebuild in Hr.
    apply rebuild_keys_list in Hr; [congruence|]. intros ? ?. by rewrite lookup_empty.
  - rewrite rebuild_lookup by done. rewrite flatten_lookup_list; [|done|done|].
    + rewrite lookup_empty, (list_to_map_proper _ _ Hnd (containers_iter_perm s)), list_to_map_to_list.
      by destruct (si_containers s !! k).
    + rewrite containers_iter_perm. apply Forall_forall. intros [k' v] Hin%elem_of_map_to_list. by apply (Hok k' v).
Qed.
End Rebuild.

(** ** The log as a list *)

Section Log.
Context {T : RaftTypes}.

(** The log holds the entries [l] at the indexes from [first] on; everything
    before [first] has been purged. *)
Record log_rep (s : StoreInner) (first : N) (l : list Entry) : Prop := {
  lr_lookup i : si_log s !! i = if decide (first ≤ i)%N then l !! N.to_nat (i - first) else None;
  lr_index j e : l !! j = Some e → index_of e = (first + N.of_nat j)%N;
  lr_purged : match si_last_purged s with None => first = 0%N | Some p => first = (li_index p + 1)%N end;
}.

(** A strictly sorted listing of a map is the map's iteration. *)
Lemma sorted_entries (m : gmap N Entry) (L : list (N * Entry)) :
  StronglySorted (λ a b, a.1 < b.1)%N L → (∀ k e, (k, e) ∈ L ↔ m !! k = Some e) → log_entries m = L.*2.
Proof.
  intros Hs Hin. unfold log_entries. f_equal.
  assert (NoDup L) as Hnd.
  { clear Hin. induction Hs as [|x L Hs IH Hx]; constructor; [|done].
    intros H. rewrite Forall_forall in Hx. specialize (Hx x H). lia. }
  apply (StronglySorted_unique_strong index_le).
  - intros [k1 e1] [k2 e2] H1 H2 Hle1 Hle2. unfold index_le in *. simpl in *.
    rewrite merge_sort_Permutation in H1. apply elem_of_map_to_list in H1. apply Hin in H2.
    assert (k1 = k2) as <- by lia. congruence.
  - apply Sorted_StronglySorted; [intros ? ? ?; unfold index_le; lia|]. apply Sorted_merge_sort.
    intros a b. unfold index_le. lia.
  - clear Hin Hnd. induction Hs as [|x L Hs IH Hx]; constructor; [done|].
    eapply Forall_impl; [exact Hx|]. intros y. unfold index_le. simpl. lia.
  - rewrite merge_sort_Permutation. apply NoDup_Permutation; [apply NoDup_map_to_list|done|].
    intros [k e]. rewrite elem_of_map_to_list. by rewrite Hin.
Qed.

Definition indexed (first : N) (l : list Entry) : list (N * Entry) := (λ e, (index_of e, e)) <$> l.

Lemma indexed_sorted first l :
  (∀ j e, l !! j = Some e → index_of e = (first + N.of_nat j)%N) → StronglySorted (λ a b, a.1 < b.1)%N (indexed first l).
Proof.
  revert first. induction l as [|e l IH]; intros first H; [constructor|]. constructor.
  - apply (IH (first + 1)%N). intros j e' He'. rewrite (H (S j) e' He'). lia.
  - apply Forall_fmap, Forall_forall. intros e' [j He']%list_elem_of_lookup. simpl.
    rewrite (H 0 e eq_refl), (H (S j) e' He'). lia.
Qed.

Lemma log_rep_entries s first l (P : N → bool) :
  log_rep s first l → log_entries (filter (λ kv, P kv.1 = true) (si_log s)) = filter (λ e, P (index_of e) = true) l.
Proof.
  intros [Hl Hi _]. rewrite (sorted_entries _ (filter (λ kv, P kv.1 = true) (indexed first l))).
  - unfold indexed. clear Hl Hi. induction l as [|e l IH]; [done|]. rewrite fmap_cons, !filter_cons. simpl.
    case_decide; [|done]. rewrite fmap_cons. by f_equal.
  - apply indexed_sorted in Hi. induction Hi as [|x L HL IH Hx]; [constructor|]. rewrite filter_cons.
    case_decide; [|done]. constructor; [done|]. apply Forall_forall. intros y [_ Hy]%list_elem_of_filter.
    rewrite Forall_forall in Hx. by apply Hx.
  - intros k e. rewrite list_elem_of_filter, map_lookup_filter_Some, Hl. simpl. unfold indexed.
    rewrite list_elem_of_fmap. split.
    + intros [HP (e' & [= -> ->] & [j Hj]%list_elem_of_lookup)]. split; [|done]. rewrite (Hi j e' Hj).
      rewrite decide_True by lia. by replace (N.to_nat (first + N.of_nat j - first)) with j by lia.
    + intros [Hk HP]. case_decide; [|done]. split; [done|]. exists e. split; [|by eapply list_elem_of_lookup_2].
      rewrite (Hi _ e Hk). f_equal. lia.
Qed.

Lemma insert_all_lookup (es : list Entry) : ∀ (m : gmap N Entry) (start : N) i,
  (∀ j e, es !! j = Some e → index_of e = (start + N.of_nat j)%N) →
  foldl (λ m e, <[index_of e := e]> m) m es !! i
  = if decide (start ≤ i < start + N.of_nat (length es))%N then es !! N.to_nat (i - start) else m !! i.
Proof.
  induction es as [|e es IH]; intros m start i H; simpl.
  { by rewrite decide_False by lia. }
  rewrite (IH _ (start + 1)%N) by (intros j e' He'; rewrite (H (S j) e' He'); lia).
  pose proof (H 0 e eq_refl) as H0.
  destruct (decide (i = start)) as [->|Hne].
  - rewrite decide_False by lia. rewrite decide_True by lia. rewrite H0.
    replace (N.to_nat (start - start)) with 0 by lia. simpl.
    replace (start + N.of_nat 0)%N with start by lia. by rewrite lookup_insert_eq.
  - rewrite (lookup_insert_ne _ (index_of e)) by (rewrite H0; lia).
    destruct (decide (start + 1 ≤ i < start + 1 + N.of_nat (length es))%N).
    + rewrite decide_True by lia. replace (N.to_nat (i - start)) with (S (N.to_nat (i - (start + 1)))) by lia. done.
    + by rewrite decide_False by lia.
Qed.

(** The three changes of the log, as changes of the list. *)
Lemma log_rep_append s first l es :
  log_rep s first l →
  (∀ j e, es !! j = Some e → index_of e = (first + N.of_nat (length l) + N.of_nat j)%N) →
  log_rep (append_to_log es s) first (l ++ es).
Proof.
  intros [Hl Hi Hp] Hes. split; [intros i|intros j e|done]; simpl.
  - rewrite (insert_all_lookup es _ _ _ Hes), Hl. repeat case_decide; try lia; try done.
    + rewrite lookup_app_r by lia. f_equal. lia.
    + destruct (decide (N.to_nat (i - first) < length l)); [by rewrite lookup_app_l|].
      rewrite lookup_ge_None_2 by lia. rewrite lookup_ge_None_2; [done|]. rewrite length_app. lia.
  - intros [Hj|[Hge Hj]]%lookup_app_Some; [by apply Hi|]. rewrite (Hes _ _ Hj). lia.
Qed.

Lemma log_rep_truncate s first l id :
  log_rep s first l → log_rep (delete_conflict_logs_since id s) first (take (N.to_nat (li_index id - first)) l).
Proof.
  intros [Hl Hi Hp]. split; [intros i|intros j e|done]; simpl.
  - rewrite map_lookup_filter, Hl. case_decide; [|done].
    destruct (decide (i < li_index id)%N) as [Hlt|Hge].
    + rewrite lookup_take_lt by lia. destruct (l !! _); [|done]. simpl. by rewrite option_guard_True.
    + rewrite lookup_take_ge by lia. destruct (l !! _); [|done]. simpl. by rewrite option_guard_False.
  - intros [Hj _]%lookup_take_Some. by apply Hi.
Qed.

Lemma log_rep_purge s first l id :
  log_rep s first l →
  let first' := N.max first (li_index id + 1) in
  log_rep (purge_logs_upto id s) first' (drop (N.to_nat (first' - first)) l).
Proof.
  intros [Hl Hi Hp] first'. subst first'. split; [intros i|intros j e|]; simpl.
  - rewrite map_lookup_filter, Hl, lookup_drop. repeat case_decide; try lia; try done.
    + replace (N.to_nat (N.max first (li_index id + 1) - first) + N.to_nat (i - N.max first (li_index id + 1)))
        with (N.to_nat (i - first)) by lia.
      destruct (l !! _); [|done]. simpl. rewrite option_guard_True by lia. done.
    + destruct (l !! _); [|done]. simpl. rewrite option_guard_False by lia. done.
  - rewrite lookup_drop. intros Hj. rewrite (Hi _ _ Hj). lia.
  - destruct (si_last_purged s) as [p|]; [|lia]. case_bool_decide; lia.
Qed.
End Log.

(** ** The state machine *)

Section Machine.
Context {T : RaftTypes}.

(** What the entries act on. *)
Definition machine (s : StoreInner) : option LogId * StoredMembership * gmap (string * string) ContainerSummary :=
  (si_last_applied s, si_last_membership s, si_containers s).

Lemma apply_entries_machine es : ∀ s t, machine s = machine t →
  let '(s', rs, vs) := apply_entries es s in
  let '(t', rt, vt) := apply_entries es t in
  machine s' = machine t' ∧ rs = rt ∧ vs = vt.
Proof.
  induction es as [|e es IH]; intros s t Hm; simpl; [done|]. unfold machine in Hm. injection Hm as Ha Hmem Hc.
  assert (∃ s1 t1 r v, apply_entry e s = (s1, r, v) ∧ apply_entry e t = (t1, r, v) ∧ machine s1 = machine t1)
    as (s1 & t1 & r & v & -> & -> & Hm1).
  { unfold apply_entry, machine. rewrite Hc, Hmem.
    destruct (e_payload e) as [|[]|]; repeat eexists. }
  specialize (IH s1 t1 Hm1). destruct (apply_entries es s1) as [[s2 rs] vs], (apply_entries es t1) as [[t2 rt] vt].
  destruct IH as (? & -> & ->). done.
Qed.

Lemma apply_entries_app es1 es2 s :
  apply_entries (es1 ++ es2) s =
  let '(s1, r1, v1) := apply_entries es1 s in
  let '(s2, r2, v2) := apply_entries es2 s1 in (s2, r1 ++ r2, v1 ++ v2).
Proof.
  revert s. induction es1 as [|e es1 IH]; intros s; simpl.
  { by destruct (apply_entries es2 s) as [[s2 r2] v2]. }
  destruct (apply_entry e s) as [[s1 r] v]. rewrite IH. destruct (apply_entries es1 s1) as [[s2 r1] v1].
  destruct (apply_entries es2 s2) as [[s3 r2] v2]. by rewrite <-app_assoc.
Qed.

(** No entry reports a container under a label with a NUL. *)
Definition entry_ok (e : Entry) : bool :=
  match e_payload e with Normal (ProposeContainer node_id _) => negb (has_nul node_id) | _ => true end.

Lemma apply_entries_labels es : ∀ s, labels_ok (si_containers s) → Forall (λ e, entry_ok e = true) es →
  labels_ok (si_containers (apply_entries es s).1.1).
Proof.
  induction es as [|e es IH]; intros s Hs Hes; simpl; [done|]. apply Forall_cons in Hes as [He Hes].
  destruct (apply_entry e s) as [[s1 r] v] eqn:H1. specialize (IH s1).
  destruct (apply_entries es s1) as [[s2 rs] vs]. apply IH; [|done]. unfold apply_entry, entry_ok in *.
  destruct (e_payload e) as [|[node c|node c| |]|]; injection H1 as <- _ _; simpl; try done.
  - apply map_Forall_insert_2; [|done]. by apply negb_true_iff.
  - by apply map_Forall_delete.
Qed.
End Machine.

(** ** The daemon's sink *)

(** [KeyRegistryRevocationSink]: the key registry's files are the state; the audit
    record it spawns is left out. [now] only matters for a timestamp the calendar
    does not have. *)
Section KeySink.
Context {K : MarkerCodec} (roots : list string) (now : Z).

Definition KeyRegistrySink : PluginRevocationSink FileSystem :=
  {| sink_apply := λ r fs,
       (apply_remote_revocation roots fs (rv_publisher r) (rv_fingerprint r) (rv_reason r) (rv_revoked_at r) now).2;
     rv_in_range := λ r, is_Some (from_timestamp (rv_revoked_at r)) |}.

Lemma write_marker_again {KL : MarkerCodecLaws K} fs path c :
  fs_write fs path c = None ∨ ∃ fs', fs_write fs path c = Some fs' ∧
    is_file fs' path = true ∧ (read_to_string fs' path = Some c ∨ read_to_string fs' path = None) ∧
    fs_write fs' path c = Some fs'.
Proof.
  destruct (fs_write fs path c) as [fs'|] eqn:Hw; [right|by left]. exists fs'. split; [done|].
  apply fs_write_ok in Hw as (r & -> & _). unfold is_file, read_to_string, fs_write. simpl.
  rewrite lookup_insert_eq. split; [done|]. split; [destruct r; auto|]. by rewrite insert_insert_eq.
Qed.

#[export] Instance KeyRegistrySink_laws (KL : MarkerCodecLaws K) : PluginRevocationSinkLaws KeyRegistrySink.
Proof.
  split. intros r fs [t Ht]. simpl in *.
  set (op := OpRemote (rv_publisher r) (rv_fingerprint r) (rv_reason r) (rv_revoked_at r) now).
  change (run_op roots (run_op roots fs op) op = run_op roots fs op).
  destruct (run_op_spec roots fs op) as [Heq|Hw]; [by rewrite !Heq|].
  assert (∀ p, resolve_path roots (run_op roots fs op) p = resolve_path roots fs p) as Hres.
  { intros p. apply resolve_path_pems. intros. by apply (marker_write_pems roots). }
  revert Hres. unfold op, run_op, apply_remote_revocation, write_marker. rewrite Ht. simpl.
  destruct (resolve_path roots fs (rv_publisher r)) as [path|[]] eqn:Hp; simpl; rewrite ?Hp; try done.
  destruct (_ && _) eqn:Hfresh; simpl; [by rewrite Hp, Hfresh|].
  set (c := marker_to_string _).
  destruct (write_marker_again fs (revoked_marker_for path) c) as [Hnone|(fs' & Hsome & Hf & Hr & Hagain)].
  { rewrite Hnone. simpl. intros _. by rewrite Hp, Hfresh, Hnone. }
  rewrite Hsome. simpl. intros ->. rewrite Hp, Hf. unfold read_marker.
  destruct Hr as [->| ->]; simpl.
  - unfold c. rewrite marker_roundtrip. simpl. by rewrite bool_decide_eq_true_2.
  - by rewrite Hagain.
Qed.
End KeySink.

(** * Theorems *)

Section RaftTheorems.
Context {T : RaftTypes} {C : RaftCodec T} {S : Type} {P : PluginRevocationSink S}.

(** C17: The log store is a list. As long as the engine appends at the end, the map of
    the store holds a contiguous run of entries; appending, truncating from a
    conflicting index and purging up to an index are [++], [take] and [drop] on
    that run, [get_log_state] gives its last id (or the last purged one) and a
    range read gives the entries of the range in order. *)
Theorem log_refines_list s first l :
  log_rep s first l →
  (∀ es, (∀ j e, es !! j = Some e → index_of e = (first + N.of_nat (length l) + N.of_nat j)%N) →
     log_rep (append_to_log es s) first (l ++ es)) ∧
  (∀ id, log_rep (delete_conflict_logs_since id s) first (take (N.to_nat (li_index id - first)) l)) ∧
  (∀ id, let first' := N.max first (li_index id + 1) in
     log_rep (purge_logs_upto id s) first' (drop (N.to_nat (first' - first)) l)) ∧
  get_log_state s = (si_last_purged s, or_else (e_log_id <$> last l) (si_last_purged s)) ∧
  (∀ in_range, try_get_log_entries in_range s = filter (λ e, in_range (index_of e) = true) l).
Proof.
  intros Hr. split_and!.
  - intros es. by apply log_rep_append.
  - intros id. by apply log_rep_truncate.
  - intros id. by apply log_rep_purge.
  - unfold get_log_state. f_equal. do 2 f_equal.
    pose proof (log_rep_entries s first l (λ _, true) Hr) as H.
    rewrite map_filter_id in H by done. rewrite H. f_equal. clear. induction l as [|e l IH]; [done|].
    rewrite filter_cons_True by done. by f_equal.
  - intros in_range. by apply (log_rep_entries s first l).
Qed.

(** How entries are batched does not matter: applying two batches one after the
    other gives the responses, the state and the effects on the sink of applying
    them as one. *)
Theorem apply_ignores_batching installed es1 es2 s k :
  let '(r1, s1, k1) := apply_to_state_machine installed es1 s k in
  let '(r2, s2, k2) := apply_to_state_machine installed es2 s1 k1 in
  apply_to_state_machine installed (es1 ++ es2) s k = (r1 ++ r2, s2, k2).
Proof.
  unfold apply_to_state_machine. rewrite apply_entries_app.
  destruct (apply_entries es1 s) as [[s1 r1] v1]. destruct (apply_entries es2 s1) as [[s2 r2] v2].
  destruct installed; [by rewrite foldl_app|done].
Qed.

(** C16: Catching up by snapshot. A node that installs the snapshot of a node that has
    applied the log [es1], and then applies [es2], has the containers, the
    membership and the last applied id of a node that applied the whole log, and
    gives the same responses for [es2]; unless a container was reported under a
    label with a NUL character, which is the separator of the snapshot's keys. *)
Theorem snapshot_catches_up (CL : RaftCodecLaws C) es1 es2 s r1 v1 snap s' t :
  Forall (λ e, entry_ok e = true) es1 →
  apply_entries es1 store_new = (s, r1, v1) → build_snapshot s = Some (snap, s') →
  let '(u, r2, v2) := apply_entries es2 (install_snapshot (ss_meta snap) (ss_data snap) t) in
  let '(whole, r, v) := apply_entries (es1 ++ es2) store_new in
  machine u = machine whole ∧ r = r1 ++ r2 ∧ v = v1 ++ v2.
Proof.
  intros Hok Hs Hb. rewrite apply_entries_app, Hs.
  assert (machine (install_snapshot (ss_meta snap) (ss_data snap) t) = machine s) as Hm.
  { pose proof (apply_entries_labels es1 store_new) as Hl. rewrite Hs in Hl. simpl in Hl.
    unfold build_snapshot in Hb. destruct (snapshot_to_vec _) as [data|] eqn:Hd; [|done]. simpl in Hb.
    injection Hb as <- _. apply snapshot_roundtrip in Hd as [Hne Hd]. unfold install_snapshot, machine. simpl.
    rewrite decide_False, Hd by done. simpl. rewrite rebuild_flatten; [done|]. apply Hl; [|done].
    apply map_Forall_empty. }
  pose proof (apply_entries_machine es2 _ _ Hm) as H.
  destruct (apply_entries es2 (install_snapshot _ _ t)) as [[u r2] v2].
  destruct (apply_entries es2 s) as [[w rw] vw]. destruct H as (-> & -> & ->). done.
Qed.

(** Redelivery is harmless: applying an entry a second time in a row changes
    neither the replicated state nor, for a sink that keeps its contract, what the
    sink acts on. *)
Theorem redelivery_changes_nothing (PL : PluginRevocationSinkLaws P) installed e s k :
  Forall rv_in_range (apply_entry e s).2 →
  let '(_, s1, k1) := apply_to_state_machine installed [e] s k in
  let '(_, s2, k2) := apply_to_state_machine installed [e; e] s k in
  machine s2 = machine s1 ∧ k2 = k1.
Proof.
  intros Hr. unfold apply_to_state_machine, apply_entries.
  destruct (e_payload e) as [|[node c|node c|p fp reason at_|]|m] eqn:He;
    unfold apply_entry in *; rewrite He in *; simpl in *; destruct installed; simpl; unfold machine; simpl; try done.
  all: rewrite ?insert_insert_eq, ?delete_delete_eq; try done.
  split; [done|]. exact (sink_idempotent _ _ (Forall_inv Hr)).
Qed.

(** The vote survives a restart when its write worked, and only then: a failed
    write is not reported, and the restarted node reads the previous vote. *)
Theorem vote_survives_only_a_saved_write (CL : RaftCodecLaws C) sink fault vote s row :
  let '(s', row') := save_vote sink fault vote s row in
  read_vote s' = Some vote ∧
  read_vote (load_persisted_vote true false row' store_new)
  = (if sink && negb fault && is_some (vote_to_string vote) then Some vote
     else read_vote (load_persisted_vote true false row store_new)).
Proof.
  unfold save_vote. split; [done|]. destruct sink, fault; simpl; try done.
  destruct (vote_to_string vote) as [d|] eqn:Hd; [|done]. unfold load_persisted_vote. simpl.
  by rewrite (vote_roundtrip _ _ Hd).
Qed.
End RaftTheorems.

(** A snapshot does not carry revocations. Two nodes hold the same publisher key.
    The one that applies the log with its revocation refuses the key from then on;
    the one that catches up from the first one's snapshot has applied the log up to
    the same entry and still accepts the key. *)
Theorem snapshot_skips_revocations {T : RaftTypes} {C : RaftCodec T} {K : MarkerCodec}
    (roots : list string) (now : Z) (fs : FileSystem) (publisher pem fingerprint : string) reason at_ id
    (t : StoreInner) snap s' :
  lookup_key roots fs publisher = Ok pem → (∀ root, fs_creatable fs root = true) →
  (∀ root stem, fs_nodes fs !! (root, stem +:+ "." +:+ REVOKED_EXT) = None) →
  let e := {| e_log_id := id; e_payload := Normal (RevokePluginKey publisher fingerprint reason at_) |} in
  let applied := raft_call (P := KeyRegistrySink roots now) (CallApply [e]) (store_new, fs) in
  build_snapshot applied.1 = Some (snap, s') →
  let caught_up := raft_call (P := KeyRegistrySink roots now) (CallInstall snap) (t, fs) in
  si_last_applied applied.1 = si_last_applied caught_up.1 ∧
  (∃ why, lookup_key roots applied.2 publisher = Err (KeyRevoked publisher why)) ∧
  lookup_key roots caught_up.2 publisher = Ok pem.
Proof.
  intros Hl Hc Hn e applied Hb caught_up. split_and!; [| |done].
  - unfold build_snapshot in Hb. destruct (snapshot_to_vec _) as [d|]; [|done]. simpl in Hb. by injection Hb as <- _.
  - apply is_revoked_load. subst applied. clear Hb caught_up. simpl. unfold lookup_key, load_pem in Hl.
    unfold apply_remote_revocation.
    destruct (resolve_path roots fs publisher) as [path|] eqn:Hp; [|done].
    pose proof (resolve_path_ok _ _ _ _ Hp) as (root & stem & _ & Hne & _ & -> & _ & Hm). rewrite Hm in *.
    unfold is_file at 1. rewrite Hn. simpl.
    destruct (write_marker roots fs publisher reason _) as [[u|err] fs'] eqn:Hw; simpl.
    + by eapply write_marker_revokes.
    + unfold write_marker in Hw. rewrite Hp, Hm in Hw. unfold fs_write in Hw. simpl in Hw. by rewrite Hn, Hc in Hw.
Qed.

(** * Examples *)

(** An instance of openraft's types, with leaders and votes as numbers, and a
    codec for it by an injective numbering. *)
#[local] Instance toy_raft : RaftTypes :=
  {| LeaderId := N; Vote := N; Membership := N; membership_default := 0%N; leader_to_string := pretty |}.

Definition state_code (c : ContainerState) : N :=
  match c with CsCreated => 0 | CsRunning => 1 | CsPaused => 2 | CsExited => 3 | CsDead => 4 | CsUnknown => 5 end%N.
Definition code_state (n : N) : ContainerState :=
  match n with 0 => CsCreated | 1 => CsRunning | 2 => CsPaused | 3 => CsExited | 4 => CsDead | _ => CsUnknown end%N.

Definition summary_code : Type :=
  string * list string * string * N * string * Z * option string * list string * gmap string string.
Definition code_summary (c : ContainerSummary) : summary_code :=
  (cs_id c, cs_names c, cs_image c, state_code (cs_state c), cs_status c, cs_created c, cs_command c, cs_ports c, cs_labels c).
Definition summary_of_code (x : summary_code) : ContainerSummary :=
  let '(i, n, im, st, su, cr, co, po, la) := x in
  {| cs_id := i; cs_names := n; cs_image := im; cs_state := code_state st; cs_status := su; cs_created := cr;
     cs_command := co; cs_ports := po; cs_labels := la |}.

Definition payload_code : Type := (option (N * N) * N) * gmap string summary_code.
Definition code_payload (p : SnapshotPayload) : payload_code :=
  ((λ l, (li_leader l, li_index l)) <$> sm_log_id (sp_last_membership p), sm_membership (sp_last_membership p),
   code_summary <$> sp_containers p).
Definition payload_of_code (x : payload_code) : SnapshotPayload :=
  {| sp_last_membership := {| sm_log_id := (λ y, {| li_leader := y.1 : LeaderId; li_index := y.2 |}) <$> x.1.1;
                              sm_membership := x.1.2 : Membership |};
     sp_containers := summary_of_code <$> x.2 |}.

#[local] Instance toy_raft_codec : RaftCodec toy_raft :=
  {| snapshot_to_vec := λ p, Some (String "s"%char (pos_bits (encode (code_payload p))));
     snapshot_from_slice := λ s, payload_of_code <$> decode (bits_pos (match s with String _ s' => s' | _ => "" end));
     vote_to_string := λ v, Some (pos_bits (encode (v : N)));
     vote_from_str := λ s, decode (bits_pos s) : option N |}.

Lemma summary_code_inv c : summary_of_code (code_summary c) = c.
Proof. destruct c as [? ? ? [] ? ? ? ? ?]; reflexivity. Qed.

#[local] Instance toy_raft_codec_laws : RaftCodecLaws toy_raft_codec.
Proof.
  split.
  - intros [[l m] c] data. cbv [snapshot_to_vec snapshot_from_slice toy_raft_codec]. intros [= <-]. split; [done|].
    rewrite bits_pos_bits, decode_encode. simpl. f_equal. unfold payload_of_code, code_payload. simpl. f_equal.
    + f_equal. by destruct l as [[]|].
    + rewrite <-map_fmap_compose. apply map_eq. intros k. rewrite lookup_fmap.
      destruct (c !! k) as [v|]; [|done]. simpl. f_equal. apply summary_code_inv.
  - intros v data. simpl. intros [= <-]. by rewrite bits_pos_bits, decode_encode.
Qed.

Definition at_index (i : N) (p : EntryPayload) : Entry :=
  {| e_log_id := {| li_leader := 1%N : LeaderId; li_index := i |}; e_payload := p |}.
Definition web : ContainerSummary :=
  {| cs_id := "c1"; cs_names := ["web"]; cs_image := "nginx"; cs_state := CsRunning; cs_status := "Up";
     cs_created := 7; cs_command := None; cs_ports := []; cs_labels := ∅ |}.
Definition two_entries : list Entry := [at_index 0 Blank; at_index 1 (Normal (ProposeContainer "n1" web))].

Lemma log_refines_list_witness :
  get_log_state (append_to_log two_entries store_new) = (None, Some (e_log_id (at_index 1 Blank))).
Proof.
  destruct (log_refines_list store_new 0 []) as [Happ _].
  { split; [intros i; rewrite lookup_nil; by case_decide|done|done]. }
  assert (log_rep (append_to_log two_entries store_new) 0 two_entries) as H.
  { apply Happ. intros [|[|j]] e; simpl; [intros [= <-]; reflexivity..|done]. }
  exact (proj1 (proj2 (proj2 (proj2 (log_refines_list _ _ _ H))))).
Defined.

Lemma snapshot_catches_up_witness :
  let s := (apply_entries two_entries store_new).1.1 in
  match build_snapshot s with
  | Some (snap, _) =>
      let '(u, r2, v2) := apply_entries [at_index 2 Blank] (install_snapshot (ss_meta snap) (ss_data snap) store_new) in
      let '(whole, r, v) := apply_entries (two_entries ++ [at_index 2 Blank]) store_new in
      machine u = machine whole ∧ r = (apply_entries two_entries store_new).1.2 ++ r2 ∧
      v = (apply_entries two_entries store_new).2 ++ v2
  | None => False
  end.
Proof.
  intros s. destruct (build_snapshot s) as [[snap s']|] eqn:Hb; [|discriminate Hb].
  refine (snapshot_catches_up toy_raft_codec_laws two_entries [at_index 2 Blank] s _ _ snap s' store_new _ _ Hb).
  - repeat constructor.
  - reflexivity.
Defined.

Lemma redelivery_changes_nothing_witness :
  let e := at_index 3 (Normal (RevokePluginKey "acme" "f" None 5)) in
  let '(_, s1, k1) := apply_to_state_machine (P := KeyRegistrySink (K := toy_codec) ["/keys"] 9) true [e] store_new acme_fs in
  let '(_, s2, k2) := apply_to_state_machine (P := KeyRegistrySink (K := toy_codec) ["/keys"] 9) true [e; e] store_new acme_fs in
  machine s2 = machine s1 ∧ k2 = k1.
Proof.
  intros e.
  apply (redelivery_changes_nothing (P := KeyRegistrySink (K := toy_codec) ["/keys"] 9)
    (KeyRegistrySink_laws (K := toy_codec) ["/keys"] 9 toy_codec_laws) true e store_new acme_fs).
  constructor; [|constructor]. eexists. reflexivity.
Defined.

Lemma vote_survives_only_a_saved_write_witness :
  read_vote (load_persisted_vote true false (Some (pos_bits (encode 4%N))) store_new) = Some (4%N : Vote).
Proof.
  exact (proj2 (vote_survives_only_a_saved_write toy_raft_codec_laws true false (4%N : Vote) store_new None)).
Defined.

Lemma snapshot_skips_revocations_witness :
  let e := at_index 3 (Normal (RevokePluginKey "acme" "f" None 5)) in
  let P := KeyRegistrySink (K := toy_codec) ["/keys"] 9 in
  let applied := raft_call (P := P) (CallApply [e]) (store_new, acme_fs) in
  ∃ snap s', build_snapshot applied.1 = Some (snap, s') ∧
    (∃ why, lookup_key (K := toy_codec) ["/keys"] applied.2 "acme" = Err (KeyRevoked "acme" why)) ∧
    lookup_key (K := toy_codec) ["/keys"] (raft_call (P := P) (CallInstall snap) (store_new, acme_fs)).2 "acme" = Ok "KEY".
Proof.
  intros e P applied. destruct (build_snapshot applied.1) as [[snap s']|] eqn:Hb; [|discriminate Hb].
  exists snap, s'. split; [reflexivity|].
  refine (proj2 (snapshot_skips_revocations (K := toy_codec) ["/keys"] 9 acme_fs "acme" "KEY" "f" None 5
    (e_log_id e) store_new snap s' eq_refl (λ _, eq_refl) _ Hb)).
  intros root stem. apply lookup_singleton_ne. intros Heq.
  exact (marker_not_pem root "/keys" stem "acme" (eq_sym Heq)).
Defined.
