(* ===== verification/SecProfile.v ===== *)
(** The security-profile compiler, [linpodx-sandbox/src/secprofile.rs], and the
    sandbox manager with it.

    The cache directory is [w_sec]: files by path, where a path is [cache_dir],
    a slash and a name. Writing can fail before the file exists or after a part
    of it was written. Error texts end before the operating system's part. *)
From S2P Require Import Prelude Text Json Common Schema Policy Plugin Database AuditKinds AuditLog Logging Embedding Rpc Approval Manager.

(** * Names *)

(** [for c in s.chars()]: a character that is not in [ok] (ASCII) becomes [_]; the
    continuation bytes of a character belong to its first byte. *)
Fixpoint mask_chars (ok : ascii → bool) (s : string) : string :=
  match s with
  | EmptyString => ""
  | String c s' => if is_cont_byte c then mask_chars ok s' else String (if ok c then c else "_"%char) (mask_chars ok s')
  end.

Definition ascii_alphanumeric (c : ascii) : bool :=
  let n := byte_val c in
  bool_decide (48 ≤ n ≤ 57)%N || bool_decide (65 ≤ n ≤ 90)%N || bool_decide (97 ≤ n ≤ 122)%N.
Definition underscore (c : ascii) : bool := bool_decide (c = "_"%char).
Definition dash (c : ascii) : bool := bool_decide (c = "-"%char).
Definition dot_char : ascii := Ascii.ascii_of_N 46.

Definition MAX_CACHE_STEM_LEN : nat := 128.
Definition APPARMOR_PROFILE_PREFIX : string := "linpodx-".
Definition SELINUX_MODULE_PREFIX : string := "linpodx_".
Definition SELINUX_RUNTIME_FALLBACK_ENV : string := "LINPODX_SELINUX_RUNTIME_FALLBACK".
Definition SELINUX_RUNTIME_FALLBACK_LABEL : string := "container_t".

Definition sanitize_profile_stem (profile_name : string) : string :=
  let s := str_take MAX_CACHE_STEM_LEN
             (mask_chars (λ c, ascii_alphanumeric c || underscore c || dash c) profile_name) in
  if decide (s = "") then "_" else s.

Definition apparmor_profile_name (profile_name : string) : string :=
  APPARMOR_PROFILE_PREFIX +:+ mask_chars (λ c, ascii_alphanumeric c || dash c || underscore c) profile_name.

Definition module_name (profile_name : string) : string :=
  SELINUX_MODULE_PREFIX +:+ mask_chars (λ c, ascii_alphanumeric c || underscore c) profile_name.

(** * Rendering *)

Definition nl : string := String newline "".
Definition text (parts : list string) : string := str_concat "" parts.

(** ** seccomp *)

Record OciSeccompSyscallGroup : Type := {
  sg_names : list string;
  sg_action : string;
}.
Record OciSeccompProfile : Type := {
  default_action : string;
  architectures : list string;
  syscalls : list OciSeccompSyscallGroup;
}.

(** [sort] then [dedup]. *)
Fixpoint dedup (l : list string) : list string :=
  match l with
  | [] => []
  | x :: l' =>
      match l' with
      | y :: _ => if decide (x = y) then dedup l' else x :: dedup l'
      | [] => [x]
      end
  end.
Definition render_seccomp_json (allow : list string) : OciSeccompProfile :=
  {| default_action := "SCMP_ACT_ERRNO";
     architectures := ["SCMP_ARCH_X86_64"; "SCMP_ARCH_X86"; "SCMP_ARCH_X32"; "SCMP_ARCH_AARCH64"];
     syscalls := [{| sg_names := dedup (merge_sort String.le allow); sg_action := "SCMP_ACT_ALLOW" |}] |}.
Definition seccomp_to_value (p : OciSeccompProfile) : Value :=
  JObject [("defaultAction", JString (default_action p)); ("architectures", jstrs (architectures p));
           ("syscalls", JArray ((λ g, JObject [("names", jstrs (sg_names g)); ("action", JString (sg_action g))])
                                  <$> syscalls p))].

(** ** AppArmor *)

Definition drops_all (caps : Capabilities) : bool := existsb (λ c, eq_ignore_ascii_case c "ALL") (Schema.drop caps).

Definition render_apparmor_caps (caps : Capabilities) : string :=
  let allows := text ((λ cap, "  capability " +:+ to_lower cap +:+ "," +:+ nl) <$> Schema.add caps) in
  if drops_all caps then "  deny capability," +:+ nl +:+ allows
  else text ((λ cap, "  deny capability " +:+ to_lower cap +:+ "," +:+ nl) <$> Schema.drop caps) +:+ allows.

Definition render_apparmor_network (net : NetworkPolicy) : string :=
  match net with
  | NetNone => "  deny network," +:+ nl
  | Allowlist _ _ | Full => "  network," +:+ nl
  end.

Definition render_apparmor_mounts (ms : list MountRule) : string :=
  match ms with
  | [] => "  deny mount," +:+ nl
  | _ => text ((λ rule,
      let dst := rule_destination rule in
      let access := if rule_read_only rule then "r" else "rw" in
      match rule_source rule with
      | HostPath path => text ["  "; path; "/** "; access; ","; nl; "  "; dst; "/** "; access; ","; nl]
      | Named name => text ["  # named volume "; name; nl; "  "; dst; "/** "; access; ","; nl]
      end) <$> ms)
  end.

Definition render_extras (title prefix : string) (rules : list string) : string :=
  match rules with
  | [] => ""
  | _ => nl +:+ "  # ---- " +:+ title +:+ " rules ----" +:+ nl +:+ text ((λ r, prefix +:+ r +:+ "," +:+ nl) <$> rules)
  end.

Definition render_apparmor_profile (profile : SandboxProfile) (profile_name : string) : string :=
  text ["# Auto-generated by linpodx secprofile compiler. Do not edit by hand."; nl;
        "#include <tunables/global>"; nl; nl;
        "profile "; profile_name; " flags=(attach_disconnected,mediate_deleted) {"; nl;
        "  #include <abstractions/base>"; nl;
        nl; "  # ---- Capabilities (derived from sandbox profile) ----"; nl;
        render_apparmor_caps (capabilities profile);
        nl; "  # ---- Network (derived from network policy) ----"; nl;
        render_apparmor_network (network profile);
        nl; "  # ---- Mounts (derived from allowed mount whitelist) ----"; nl;
        render_apparmor_mounts (mounts profile);
        match apparmor_extra profile with
        | Some extras => render_extras "Extra deny" "  deny " (aa_deny extras) +:+ render_extras "Extra allow" "  " (aa_allow extras)
        | None => ""
        end;
        "}"; nl].

(** ** SELinux *)

Fixpoint add_new (out : list string) (caps : list string) : list string :=
  match caps with
  | [] => out
  | cap :: caps' =>
      let lower := to_lower cap in
      add_new (if bool_decide (lower ∈ out) then out else out ++ [lower]) caps'
  end.
Definition render_cap_class_list (caps : Capabilities) : string :=
  str_concat " " (add_new ["net_bind_service"] (Schema.add caps)).

Definition render_te_mount (selinux_type : string) (rule : MountRule) : string :=
  let access := if rule_read_only rule then "{ read open getattr }" else "{ read write open getattr }" in
  text [match rule_source rule with
        | HostPath path => text ["# mount host:"; path; " -> "; rule_destination rule; nl]
        | Named name => text ["# mount volume:"; name; " -> "; rule_destination rule; nl]
        end;
        "allow "; selinux_type; " container_file_t:file "; access; ";"; nl;
        "allow "; selinux_type; " container_file_t:dir { read search getattr };"; nl].

Definition render_selinux_te (modname selinux_type : string) (caps : Capabilities) (ms : list MountRule)
    (net : NetworkPolicy) : string :=
  text ["# Auto-generated by linpodx secprofile compiler. Do not edit by hand."; nl;
        "module "; modname; " 1.0;"; nl; nl;
        "require {"; nl;
        "    type container_t;"; nl;
        "    type container_file_t;"; nl;
        "    class capability { "; render_cap_class_list caps; " };"; nl;
        "    class file { read write open getattr };"; nl;
        "    class dir { read search getattr };"; nl;
        "    class tcp_socket { create connect bind listen };"; nl;
        "    class udp_socket { create connect bind };"; nl;
        "}"; nl; nl;
        "type "; selinux_type; ";"; nl;
        "typeattribute "; selinux_type; " container_t;"; nl; nl;
        text ((λ cap, text ["allow "; selinux_type; " self:capability "; to_lower cap; ";"; nl]) <$> Schema.add caps);
        nl;
        text (render_te_mount selinux_type <$> ms);
        nl;
        match net with
        | NetNone => "# network=none — no socket allow rules emitted" +:+ nl
        | Allowlist _ _ | Full =>
            text ["allow "; selinux_type; " self:tcp_socket { create connect bind listen };"; nl;
                  "allow "; selinux_type; " self:udp_socket { create connect bind };"; nl]
        end].

(** * The compiler *)

Inductive WriteOutcome : Type :=
| WriteOk
| WriteRefused
| WriteCut (n : nat).

(** The host: its environment variables and files, the directory and the writes
    into it, helper processes ([None]: could not be started; else whether they
    exited with 0), the output of [getenforce], and serde_json's pretty printer. *)
Class SecHost := {
  host_var : string → option string;
  host_is_file : string → bool;
  cache_creatable : bool;
  cache_listable : bool;
  unlinkable : string → bool;
  write_outcome : nat → WriteOutcome;
  run_program : nat → string → list string → option bool;
  getenforce : option (bool * string);
  json_pretty : Value → string;
}.

Section Compiler.
Context {E : Env} {H : SecHost} {K : AuditSink} (cache_dir : string).

Definition content_digest (bytes : string) : string := hex_encode (str_take 8 (sha256 bytes)).

Definition runtime_fallback_enabled : bool := bool_decide (host_var SELINUX_RUNTIME_FALLBACK_ENV = Some "1").

Definition which_in_path (binary : string) : bool :=
  match host_var "PATH" with
  | None => false
  | Some paths => existsb (λ dir, host_is_file (dir +:+ "/" +:+ binary)) (split colon paths)
  end.
Definition is_apparmor_available : bool :=
  match host_var "LINPODX_TEST_APPARMOR" with
  | Some val => bool_decide (val = "1")
  | None => which_in_path "apparmor_parser"
  end.
Definition is_selinux_available : bool :=
  match host_var "LINPODX_TEST_SELINUX" with
  | Some val => bool_decide (val = "1")
  | None =>
      if negb (which_in_path "checkmodule") || negb (which_in_path "semodule_package") || negb (which_in_path "semodule")
      then false
      else match getenforce with
           | Some (true, out) =>
               let s := trim (from_utf8_lossy out) in
               negb (eq_ignore_ascii_case s "Disabled") && negb (bool_decide (s = ""))
           | _ => false
           end
  end.

(** ** The directory *)

Definition in_dir (name : string) : string := cache_dir +:+ "/" +:+ name.
Definition seccomp_path_for (stem digest : string) : string := in_dir (stem +:+ "." +:+ digest +:+ ".seccomp.json").
Definition apparmor_path_for (stem digest : string) : string := in_dir (stem +:+ "." +:+ digest +:+ ".apparmor").
Definition selinux_te_path_for (profile_name : string) : string := in_dir (module_name profile_name +:+ ".te").
Definition selinux_mod_path_for (profile_name : string) : string := in_dir (module_name profile_name +:+ ".mod").
Definition selinux_pp_path_for (profile_name : string) : string := in_dir (module_name profile_name +:+ ".pp").

Definition has_file (path : string) : D bool := gets (λ w, is_some (cf_files (w_sec w) !! path)).

(** [tokio::fs::write]: whether it succeeded. *)
Definition store (path bytes : string) (c : CacheFiles) : bool * CacheFiles :=
  let put b := {| cf_files := <[path := b]> (cf_files c); cf_writes := S (cf_writes c); cf_runs := cf_runs c |} in
  match write_outcome (cf_writes c) with
  | WriteOk => (true, put bytes)
  | WriteCut n => (false, put (str_take n bytes))
  | WriteRefused => (false, {| cf_files := cf_files c; cf_writes := S (cf_writes c); cf_runs := cf_runs c |})
  end.
Definition write_file (path bytes : string) : D bool := λ w,
  let '(ok, c) := store path bytes (w_sec w) in (Ok ok, set_sec c w).

(** The name of a file directly in the directory. *)
Definition entry_name (path : string) : option string :=
  fname ← strip_prefix (cache_dir +:+ "/") path; if has_char slash fname then None else Some fname.
Definition stale (stem suffix keep path : string) : bool :=
  match entry_name path with
  | Some fname =>
      negb (bool_decide (path = keep)) && starts_with fname (stem +:+ ".") && ends_with fname suffix && unlinkable path
  | None => false
  end.
Definition prune (stem suffix keep : string) (c : CacheFiles) : CacheFiles :=
  {| cf_files := filter (λ pb, stale stem suffix keep pb.1 = false) (cf_files c);
     cf_writes := cf_writes c; cf_runs := cf_runs c |}.
Definition prune_stale (stem suffix keep : string) : D unit :=
  if cache_listable then modify (λ w, set_sec (prune stem suffix keep (w_sec w)) w) else mret tt.

(** [Command::output]. *)
Definition command (prog : string) (args : list string) : D (option bool) := λ w,
  let c := w_sec w in
  (Ok (run_program (cf_runs c) prog args),
   set_sec {| cf_files := cf_files c; cf_writes := cf_writes c; cf_runs := S (cf_runs c) |} w).
Definition run_step (prog : string) (args : list string) : D bool :=
  r ← command prog args; mret (bool_decide (r = Some true)).

(** ** The three flavours *)

Definition compile_seccomp (profile : SandboxProfile) (allow : list string) : D string :=
  let serialized := json_pretty (seccomp_to_value (render_seccomp_json allow)) in
  let stem := sanitize_profile_stem (sp_name profile) in
  let digest := content_digest serialized in
  let path := seccomp_path_for stem digest in
  hit ← has_file path;
  if hit : bool then mret path
  else
    _ ← prune_stale stem ".seccomp.json" path;
    ok ← write_file path serialized;
    if negb ok then throw (Fail (Runtime ("write " +:+ path)))
    else
      _ ← record SinkSeccompCompiled (Some (sp_name profile)) None
            (JObject [("path", JString path); ("syscall_count", jint (Z.of_nat (length allow)))]);
      mret path.

(** [None] is the [io::Error]. *)
Definition compile_apparmor (profile : SandboxProfile) : D (option string) :=
  let name := apparmor_profile_name (sp_name profile) in
  let body := render_apparmor_profile profile name in
  let stem := sanitize_profile_stem (sp_name profile) in
  let digest := content_digest body in
  let path := apparmor_path_for stem digest in
  hit ← has_file path;
  ok ← (if hit : bool then mret true
        else _ ← prune_stale stem ".apparmor" path; write_file path body);
  if negb ok then mret None
  else
    output ← command "apparmor_parser" ["-r"; path];
    match output with
    | None => mret None
    | Some success =>
        _ ← record SinkApparmorCompiled (Some (sp_name profile)) None
              (JObject [("path", JString path); ("name", JString name); ("loaded", JBool success)]);
        mret (Some name)
    end.

Definition package_and_install (te_path mod_path pp_path : string) : D bool :=
  a ← run_step "checkmodule" ["-M"; "-m"; "-o"; mod_path; te_path];
  if negb a then mret false
  else
    b ← run_step "semodule_package" ["-o"; pp_path; "-m"; mod_path];
    if negb b then mret false
    else c ← run_step "semodule" ["-i"; pp_path]; mret c.

Definition compile_selinux (profile : SandboxProfile) : D (option string) :=
  match selinux_type profile with
  | None | Some EmptyString => mret None
  | Some ty =>
      let name := sp_name profile in
      let te_path := selinux_te_path_for name in
      let mod_path := selinux_mod_path_for name in
      let pp_path := selinux_pp_path_for name in
      ok ← write_file te_path
             (render_selinux_te (module_name name) ty (capabilities profile) (mounts profile) (network profile));
      if negb ok then throw (Fail (Runtime ("write " +:+ te_path)))
      else
        installed ← package_and_install te_path mod_path pp_path;
        _ ← record SinkSelinuxCompiled (Some name) None
              (JObject [("te_path", JString te_path); ("pp_path", JString pp_path); ("module_name", JString (module_name name));
                        ("selinux_type", JString ty); ("installed", JBool installed)]);
        if installed : bool then
          _ ← record SinkSelinuxApplied (Some name) None
                (JObject [("module_name", JString (module_name name)); ("selinux_type", JString ty)]);
          mret (Some ty)
        else mret None
  end.

(** The static label to use instead, if the operator asked for one. *)
Definition maybe_apply_runtime_fallback (profile : SandboxProfile) (reason : string) : D (option string) :=
  if negb runtime_fallback_enabled then mret None
  else
    _ ← record SinkSelinuxLabelRuntimeFallback (Some (sp_name profile)) None
          (JObject [("fallback_label", JString SELINUX_RUNTIME_FALLBACK_LABEL); ("reason", JString reason);
                    ("requested_type", jopt JString (selinux_type profile))]);
    mret (Some SELINUX_RUNTIME_FALLBACK_LABEL).

(** The module name and the static label. *)
Definition selinux_flavour (profile : SandboxProfile) : D (option string * option string) :=
  match selinux_label profile with
  | Some label =>
      let trimmed := trim label in
      if decide (trimmed = "") then mret (None, None)
      else
        _ ← record SinkSelinuxStaticLabelApplied (Some (sp_name profile)) None (JObject [("label", JString trimmed)]);
        mret (None, Some trimmed)
  | None =>
      if is_some (selinux_type profile) && is_selinux_available then
        r ← attempt (compile_selinux profile);
        match r with
        | Ok (Some name) => mret (Some name, None)
        | Ok None => fb ← maybe_apply_runtime_fallback profile "install_failed"; mret (None, fb)
        | Err _ => fb ← maybe_apply_runtime_fallback profile "compile_error"; mret (None, fb)
        end
      else mret (None, None)
  end.

Definition seccomp_flavour (profile : SandboxProfile) : D (option string) :=
  match syscall_allowlist profile with
  | None => mret None
  | Some allow =>
      r ← attempt (compile_seccomp profile allow);
      match r with
      | Ok path => mret (Some path)
      | Err e => throw (Fail (Runtime ("secprofile: seccomp compile failed: " +:+ error_to_string (λ _, "") e)))
      end
  end.

Definition compile_profile (profile : SandboxProfile) : D CompiledProfile :=
  if negb cache_creatable then throw (Fail (Runtime ("secprofile: create cache dir " +:+ cache_dir)))
  else
    seccomp ← seccomp_flavour profile;
    apparmor ← (if is_some (apparmor_extra profile) && is_apparmor_available then compile_apparmor profile else mret None);
    '(modname, label) ← selinux_flavour profile;
    mret {| seccomp_path := seccomp; apparmor_name := apparmor; selinux_module_name := modname;
            selinux_static_label := label |}.

#[export] Instance SecProfileCompiler : SecCompiler := {| compile := compile_profile |}.
End Compiler.

(** * Lemmas *)

(** ** Names *)

Lemma mask_chars_all (ok p : ascii → bool) s :
  (∀ c, ok c = true → p c = true) → p "_"%char = true → str_all p (mask_chars ok s) = true.
Proof.
  intros Hok Hu. induction s as [|c s IH]; simpl; [done|]. destruct (is_cont_byte c); [done|]. simpl.
  rewrite IH. destruct (ok c) eqn:Hc; [by rewrite Hok|by rewrite Hu].
Qed.

Lemma str_all_take p n s : str_all p s = true → str_all p (str_take n s) = true.
Proof.
  revert s. induction n as [|n IH]; intros [|c s]; simpl; try done. intros [Hc Hs]%andb_prop. by rewrite Hc, IH.
Qed.

Lemma str_all_no_char p x s : str_all p s = true → p x = false → has_char x s = false.
Proof.
  intros Hs Hx. induction s as [|c s IH]; [done|]. simpl in *. apply andb_prop in Hs as [Hc Hs]. rewrite IH by done.
  case_bool_decide; [|done]. congruence.
Qed.

Definition name_char (c : ascii) : bool := ascii_alphanumeric c || underscore c || dash c.

Lemma stem_chars name : str_all name_char (sanitize_profile_stem name) = true.
Proof.
  unfold sanitize_profile_stem. case_decide; [done|]. apply str_all_take. by apply mask_chars_all.
Qed.
Lemma stem_length name : 0 < String.length (sanitize_profile_stem name) ≤ MAX_CACHE_STEM_LEN.
Proof.
  unfold sanitize_profile_stem. case_decide as Hs; [unfold MAX_CACHE_STEM_LEN; simpl; lia|].
  rewrite str_take_length. split; [|lia]. destruct (mask_chars _ name) as [|c m]; [done|].
  simpl. unfold MAX_CACHE_STEM_LEN. lia.
Qed.
Lemma module_chars name : str_all name_char (module_name name) = true.
Proof.
  unfold module_name. rewrite str_all_app. apply andb_true_intro. split; [done|]. apply mask_chars_all; [|done].
  intros c Hc. unfold name_char. by rewrite Hc.
Qed.

Section Facts.
Context {E : Env} {H : SecHost} (cache_dir : string).

Lemma digest_chars bytes : str_all is_hex (content_digest bytes) = true.
Proof. apply hex_encode_all. Qed.

Lemma no_dot_name s : str_all name_char s = true → has_char dot_char s = false.
Proof. intros Hs. by apply (str_all_no_char name_char). Qed.
Lemma no_dot_hex s : str_all is_hex s = true → has_char dot_char s = false.
Proof. intros Hs. by apply (str_all_no_char is_hex). Qed.

(** The two halves of an artefact's name can be read off it. *)
Lemma artefact_inj stem1 rest1 stem2 rest2 :
  has_char dot_char stem1 = false → has_char dot_char stem2 = false →
  in_dir cache_dir (stem1 +:+ "." +:+ rest1) = in_dir cache_dir (stem2 +:+ "." +:+ rest2) → stem1 = stem2 ∧ rest1 = rest2.
Proof.
  unfold in_dir. intros H1 H2 He. do 2 apply str_app_inj_l in He.
  apply (split_once_app dot_char _ rest1) in H1. apply (split_once_app dot_char _ rest2) in H2.
  change ("." +:+ rest1) with (String dot_char rest1) in He. change ("." +:+ rest2) with (String dot_char rest2) in He.
  rewrite He in H1. rewrite H1 in H2. by simplify_eq.
Qed.

Lemma seccomp_path_inj stem1 d1 stem2 d2 :
  has_char dot_char stem1 = false → has_char dot_char d1 = false →
  has_char dot_char stem2 = false → has_char dot_char d2 = false →
  seccomp_path_for cache_dir stem1 d1 = seccomp_path_for cache_dir stem2 d2 → stem1 = stem2 ∧ d1 = d2.
Proof.
  intros Hs1 Hd1 Hs2 Hd2 [-> He]%artefact_inj; [|done..]. split; [done|].
  apply (split_once_app dot_char _ "seccomp.json") in Hd1. apply (split_once_app dot_char _ "seccomp.json") in Hd2.
  change (".seccomp.json") with (String dot_char "seccomp.json") in He. rewrite He in Hd1. rewrite Hd1 in Hd2. by simplify_eq.
Qed.

Lemma seccomp_not_apparmor stem1 d1 stem2 d2 :
  has_char dot_char stem1 = false → has_char dot_char d1 = false →
  has_char dot_char stem2 = false → has_char dot_char d2 = false →
  seccomp_path_for cache_dir stem1 d1 ≠ apparmor_path_for cache_dir stem2 d2.
Proof.
  intros Hs1 Hd1 Hs2 Hd2 [-> He]%artefact_inj; [|done..].
  apply (split_once_app dot_char _ "seccomp.json") in Hd1. apply (split_once_app dot_char _ "apparmor") in Hd2.
  change (".seccomp.json") with (String dot_char "seccomp.json") in He.
  change (".apparmor") with (String dot_char "apparmor") in He. rewrite He in Hd1. rewrite Hd1 in Hd2. by simplify_eq.
Qed.

Lemma seccomp_not_te stem d name :
  has_char dot_char stem = false → has_char dot_char d = false →
  seccomp_path_for cache_dir stem d ≠ selinux_te_path_for cache_dir name.
Proof.
  intros Hs Hd. unfold selinux_te_path_for. intros [_ He]%(artefact_inj _ _ _ "te"); [|done|].
  - apply (split_once_app dot_char _ "seccomp.json") in Hd.
    change (".seccomp.json") with (String dot_char "seccomp.json") in He. rewrite He in Hd. by simplify_eq/=.
  - apply no_dot_name, module_chars.
Qed.

(** ** The directory *)

(** A path directly in the directory. *)
Definition in_cache (path : string) : Prop :=
  ∃ name, path = in_dir cache_dir name ∧ has_char slash name = false ∧ name ≠ "" ∧ name ≠ "." ∧ name ≠ "..".

(** Relations on the directory that an operation respects. *)
Class SecRel (R : relation CacheFiles) {A} (c : D A) : Prop := sec_rel w : R (w_sec w) (w_sec (c w).2).

Section Rel.
Context (R : relation CacheFiles) {HR : PreOrder R}.

#[export] Instance sec_rel_ret {A} (a : A) : SecRel R (mret a).
Proof. intros w. by simpl. Qed.
#[export] Instance sec_rel_throw {A} (e : Fault) : SecRel R (throw e : D A).
Proof. intros w. by simpl. Qed.
#[export] Instance sec_rel_gets {A} (f : World → A) : SecRel R (gets f).
Proof. intros w. by simpl. Qed.
#[export] Instance sec_rel_bind {A B} (c : D A) (k : A → D B) :
  SecRel R c → (∀ a, SecRel R (k a)) → SecRel R (c ≫= k).
Proof.
  intros Hc Hk w. unfold mbind, M_bind. specialize (Hc w).
  destruct (c w) as [[a|e] w']; simpl in *; [|done]. etrans; [done|apply Hk].
Qed.
#[export] Instance sec_rel_attempt {A} (c : D A) : SecRel R c → SecRel R (attempt c).
Proof. intros Hc w. unfold attempt. specialize (Hc w). by destruct (c w) as [[a|[]] w']. Qed.
#[export] Instance sec_rel_record {K : AuditSink} {KF : SinkKeeps w_sec K} kind profile container p :
  SecRel R (record kind profile container p).
Proof. intros w. rewrite (record_keeps (f := w_sec)). done. Qed.
#[export] Instance sec_rel_append kind profile container p : SecRel R (append kind profile container p).
Proof.
  intros w. destruct (append kind profile container p w) as [r w'] eqn:Ha. apply append_spec in Ha. simpl.
  assert (w_sec w' = w_sec w) as ->; [|done].
  destruct r; [destruct Ha as [Ha _]|destruct Ha as (_ & Ha & _)]; by destruct Ha as (_ & _ & _ & _ & _ & _ & _ & _ & _ & _ & _ & Hs).
Qed.
#[export] Instance sec_rel_now : SecRel R now.
Proof. intros w. by simpl. Qed.
#[export] Instance sec_rel_publish t k id d : SecRel R (publish t k id d).
Proof. unfold publish. apply sec_rel_bind; [apply _|]. intros a w. by simpl. Qed.
#[export] Instance sec_rel_for_each {A} (body : A → D unit) l : (∀ a, SecRel R (body a)) → SecRel R (for_each body l).
Proof. intros Hb. induction l; cbn [for_each]; apply _. Qed.

(** What is asked of a relation: running programs, pruning and writing respect it. *)
Class SecSteps (profile : string) : Prop := {
  rel_run c : R c {| cf_files := cf_files c; cf_writes := cf_writes c; cf_runs := S (cf_runs c) |};
  rel_prune keep c : R c (prune cache_dir (sanitize_profile_stem profile) ".apparmor" keep c);
  rel_write_apparmor bytes c :
    R c (store (apparmor_path_for cache_dir (sanitize_profile_stem profile) (content_digest bytes)) bytes c).2;
  rel_write_te bytes c : R c (store (selinux_te_path_for cache_dir profile) bytes c).2;
}.
Class SeccompSteps (profile : string) : Prop := {
  rel_prune_seccomp keep c : R c (prune cache_dir (sanitize_profile_stem profile) ".seccomp.json" keep c);
  rel_write_seccomp bytes c :
    R c (store (seccomp_path_for cache_dir (sanitize_profile_stem profile) (content_digest bytes)) bytes c).2;
}.
Context {K : AuditSink} {KF : SinkKeeps w_sec K} (profile : SandboxProfile) {HS : SecSteps (sp_name profile)}.

#[export] Instance sec_rel_command prog args : SecRel R (command prog args).
Proof using HS. intros w. apply rel_run. Qed.
#[export] Instance sec_rel_run_step prog args : SecRel R (run_step prog args).
Proof. unfold run_step. apply _. Qed.
Lemma sec_rel_write path bytes : (∀ c, R c (store path bytes c).2) → SecRel R (write_file path bytes).
Proof. intros Hs w. unfold write_file. specialize (Hs (w_sec w)). by destruct (store path bytes (w_sec w)). Qed.
Lemma sec_rel_prune_stale stem suffix keep :
  (∀ c, R c (prune cache_dir stem suffix keep c)) → SecRel R (prune_stale cache_dir stem suffix keep).
Proof. intros Hs w. unfold prune_stale. destruct cache_listable; [apply Hs|done]. Qed.

Lemma sec_rel_seccomp {HC : SeccompSteps (sp_name profile)} allow : SecRel R (compile_seccomp cache_dir profile allow).
Proof.
  unfold compile_seccomp. apply sec_rel_bind; [apply _|]. intros [|]; [apply _|].
  apply sec_rel_bind; [apply sec_rel_prune_stale, rel_prune_seccomp|]. intros _.
  apply sec_rel_bind; [apply sec_rel_write, rel_write_seccomp|]. intros [|]; apply _.
Qed.
Lemma sec_rel_apparmor : SecRel R (compile_apparmor cache_dir profile).
Proof.
  unfold compile_apparmor. apply sec_rel_bind; [apply _|]. intros hit. apply sec_rel_bind.
  - destruct hit; [apply _|]. apply sec_rel_bind; [apply sec_rel_prune_stale, rel_prune|]. intros _.
    apply sec_rel_write, rel_write_apparmor.
  - intros [|]; [|apply _]. apply sec_rel_bind; [apply _|]. intros [|]; apply _.
Qed.
Lemma sec_rel_selinux : SecRel R (compile_selinux cache_dir profile).
Proof.
  unfold compile_selinux. destruct (selinux_type profile) as [[|c t]|]; [apply _| |apply _].
  apply sec_rel_bind; [apply sec_rel_write, rel_write_te|]. intros [|]; [|apply _].
  apply sec_rel_bind; [|intros []; apply _]. unfold package_and_install.
  apply sec_rel_bind; [apply _|]. intros []; [|apply _]. apply sec_rel_bind; [apply _|]. intros []; apply _.
Qed.
Lemma sec_rel_selinux_flavour : SecRel R (selinux_flavour cache_dir profile).
Proof.
  unfold selinux_flavour, maybe_apply_runtime_fallback. destruct (selinux_label profile); [case_decide; apply _|].
  destruct (_ && _); [|apply _].
  apply sec_rel_bind; [apply sec_rel_attempt, sec_rel_selinux|]. intros [[]|]; destruct runtime_fallback_enabled; apply _.
Qed.
Lemma sec_rel_later (seccomp : option string) :
  SecRel R (apparmor ← (if is_some (apparmor_extra profile) && is_apparmor_available
                        then compile_apparmor cache_dir profile else mret None);
            '(modname, label) ← selinux_flavour cache_dir profile;
            mret {| seccomp_path := seccomp; apparmor_name := apparmor; selinux_module_name := modname;
                    selinux_static_label := label |}).
Proof.
  apply sec_rel_bind; [destruct (_ && _); [apply sec_rel_apparmor|apply _]|]. intros b.
  apply sec_rel_bind; [apply sec_rel_selinux_flavour|]. intros [m l]. apply _.
Qed.
Lemma sec_rel_compile {HC : SeccompSteps (sp_name profile)} : SecRel R (compile_profile cache_dir profile).
Proof.
  unfold compile_profile. destruct cache_creatable; [|apply _]. apply sec_rel_bind; [|apply sec_rel_later].
  unfold seccomp_flavour. case_match; [|apply _].
  apply sec_rel_bind; [apply sec_rel_attempt, sec_rel_seccomp|]. intros []; apply _.
Qed.
End Rel.
End Facts.

(** ** Where files change *)

Section Confined.
Context {E : Env} {H : SecHost} (cache_dir profile : string).

(** Changes stay in the directory, on names that belong to the profile. *)
Definition own_name (name : string) : Prop :=
  starts_with name (sanitize_profile_stem profile +:+ ".") = true ∨ name = module_name profile +:+ ".te".
Definition own_path (path : string) : Prop := ∃ name, path = in_dir cache_dir name ∧ in_cache cache_dir path ∧ own_name name.
Definition only_own : relation CacheFiles := λ c c', ∀ p, cf_files c' !! p ≠ cf_files c !! p → own_path p.
#[export] Instance only_own_preorder : PreOrder only_own.
Proof.
  split; [by intros c p|]. intros c1 c2 c3 H12 H23 p Hp.
  destruct (decide (cf_files c2 !! p = cf_files c1 !! p)) as [He|]; [apply H23; congruence|by apply H12].
Qed.

(** A name that starts with a stem starts with one of its characters. *)
Lemma starts_with_stem fname :
  starts_with fname (sanitize_profile_stem profile +:+ ".") = true → ∃ c t, fname = String c t ∧ name_char c = true.
Proof.
  pose proof (stem_length profile) as Hl. pose proof (stem_chars profile) as Hc.
  destruct (sanitize_profile_stem profile) as [|x s]; simpl in *; [lia|]. apply andb_prop in Hc as [Hx _].
  unfold starts_with. destruct fname as [|c t]; simpl; [done|]. destruct (Ascii.ascii_dec x c) as [->|]; [eauto|done].
Qed.

Lemma own_path_stem name : has_char slash name = false → starts_with name (sanitize_profile_stem profile +:+ ".") = true →
  own_path (in_dir cache_dir name).
Proof.
  intros Hs Hp. exists name. split; [done|]. split; [|by left].
  destruct (starts_with_stem name Hp) as (c & t & -> & Hc). exists (String c t).
  repeat split; [done| | |]; intros He; by simplify_eq/=.
Qed.
Lemma own_path_te : own_path (selinux_te_path_for cache_dir profile).
Proof.
  exists (module_name profile +:+ ".te"). split; [done|]. split; [|by right].
  exists (module_name profile +:+ ".te"). split; [done|]. rewrite has_char_app.
  rewrite (str_all_no_char name_char); [|apply module_chars|done].
  split; [done|]. by repeat split; intros He; simplify_eq/=.
Qed.

Lemma prefix_app a b : String.prefix a (a +:+ b) = true.
Proof. induction a as [|c a IH]; [by destruct b|]. simpl. by destruct (Ascii.ascii_dec c c). Qed.

Lemma own_path_artefact bytes suffix : has_char slash suffix = false →
  own_path (in_dir cache_dir (sanitize_profile_stem profile +:+ "." +:+ content_digest bytes +:+ suffix)).
Proof.
  intros Hs. apply own_path_stem.
  - rewrite !has_char_app, Hs. rewrite (str_all_no_char name_char) by (done || apply stem_chars).
    by rewrite (str_all_no_char is_hex _ (content_digest bytes)) by (done || apply digest_chars).
  - unfold starts_with. rewrite <-str_app_assoc. apply prefix_app.
Qed.

Lemma store_only_own path bytes c : own_path path → only_own c (store path bytes c).2.
Proof.
  intros Hp p. unfold store. destruct (write_outcome _); simpl; try done;
    (destruct (decide (p = path)) as [->|]; [done|by rewrite lookup_insert_ne]).
Qed.
Lemma prune_only_own suffix keep c : only_own c (prune cache_dir (sanitize_profile_stem profile) suffix keep c).
Proof.
  intros p. unfold prune. simpl. intros Hp. destruct (cf_files c !! p) as [b|] eqn:Hb.
  - destruct (stale cache_dir (sanitize_profile_stem profile) suffix keep p) eqn:Hst.
    + unfold stale, entry_name in Hst. destruct (strip_prefix _ p) as [fname|] eqn:Hpre; [|done]. simpl in Hst.
      apply strip_prefix_spec in Hpre as ->. destruct (has_char slash fname) eqn:Hsl; [done|].
      do 2 apply andb_prop in Hst as [Hst _]. apply andb_prop in Hst as [_ Hst]. rewrite str_app_assoc. by apply own_path_stem.
    + destruct Hp. by apply map_lookup_filter_Some.
  - destruct Hp. apply map_lookup_filter_None. by left.
Qed.

#[export] Instance only_own_steps : SecSteps cache_dir only_own profile.
Proof.
  split.
  - by intros c p.
  - intros. apply prune_only_own.
  - intros. by apply store_only_own, own_path_artefact.
  - intros. apply store_only_own, own_path_te.
Qed.
#[export] Instance only_own_seccomp : SeccompSteps cache_dir only_own profile.
Proof. split; intros; [apply prune_only_own|]. by apply store_only_own, own_path_artefact. Qed.
End Confined.

(** ** What the artefacts contain *)

Section Current.
Context {E : Env} {H : SecHost} (cache_dir : string).

(** A file named as a seccomp artefact has the digest in its name. *)
Definition cache_ok (c : CacheFiles) : Prop := ∀ stem digest bytes,
  has_char dot_char stem = false → has_char dot_char digest = false →
  cf_files c !! seccomp_path_for cache_dir stem digest = Some bytes → content_digest bytes = digest.

(** No write stops in the middle. *)
Definition whole_writes : Prop := ∀ n k, write_outcome n ≠ WriteCut k.

Definition keeps_ok : relation CacheFiles := λ c c', whole_writes → cache_ok c → cache_ok c'.
#[export] Instance keeps_ok_preorder : PreOrder keeps_ok.
Proof. split; [by intros c ??|]. intros c1 c2 c3 H12 H23 Hw Hc. auto. Qed.

Lemma store_keeps_ok path bytes c :
  (∀ stem digest, has_char dot_char stem = false → has_char dot_char digest = false →
     seccomp_path_for cache_dir stem digest = path → content_digest bytes = digest) →
  keeps_ok c (store path bytes c).2.
Proof.
  intros Hp Hw Hc stem digest b Hs Hd. unfold store. pose proof (Hw (cf_writes c)) as Hn.
  destruct (write_outcome _) as [| |n]; simpl; [|by apply (Hc stem)|by destruct (Hn n)].
  intros [[Heq <-]|[Hne Hl]]%lookup_insert_Some; [by apply (Hp stem)|by apply (Hc stem)].
Qed.
Lemma prune_keeps_ok stem suffix keep c : keeps_ok c (prune cache_dir stem suffix keep c).
Proof. intros _ Hc st d b Hs Hd Hl. apply map_lookup_filter_Some in Hl as [Hl _]. by apply (Hc st). Qed.

#[export] Instance keeps_ok_steps profile : SecSteps cache_dir keeps_ok profile.
Proof.
  split.
  - by intros c _ Hc.
  - intros. apply prune_keeps_ok.
  - intros bytes c. apply store_keeps_ok. intros stem digest Hs Hd He.
    by apply seccomp_not_apparmor in He; [|done|done|apply no_dot_name, stem_chars|apply no_dot_hex, digest_chars].
  - intros bytes c. apply store_keeps_ok. intros stem digest Hs Hd He. by apply seccomp_not_te in He.
Qed.
#[export] Instance keeps_ok_seccomp profile : SeccompSteps cache_dir keeps_ok profile.
Proof.
  split; [intros; apply prune_keeps_ok|]. intros bytes c. apply store_keeps_ok. intros stem digest Hs Hd He.
  by apply seccomp_path_inj in He as [_ ->]; [|done|done|apply no_dot_name, stem_chars|apply no_dot_hex, digest_chars].
Qed.

(** A seccomp artefact, while the other flavours are compiled. *)
Definition same_artefact (stem digest : string) : relation CacheFiles := λ c c',
  cf_files c' !! seccomp_path_for cache_dir stem digest = cf_files c !! seccomp_path_for cache_dir stem digest.
#[export] Instance same_artefact_preorder stem digest : PreOrder (same_artefact stem digest).
Proof. split; [by intros c|]. intros c1 c2 c3 H12 H23. unfold same_artefact in *. congruence. Qed.

Lemma store_other stem digest path bytes c : seccomp_path_for cache_dir stem digest ≠ path →
  same_artefact stem digest c (store path bytes c).2.
Proof.
  intros Hne. unfold same_artefact, store. destruct (write_outcome _); simpl; [|done|]; by rewrite lookup_insert_ne.
Qed.

Lemma same_artefact_steps profile stem digest : has_char dot_char stem = false → has_char dot_char digest = false →
  SecSteps cache_dir (same_artefact stem digest) profile.
Proof.
  intros Hs Hd. split.
  - by intros c.
  - intros keep c. unfold same_artefact, prune. simpl. rewrite map_lookup_filter.
    destruct (cf_files c !! _); simpl; [|done]. case_guard as Hst; [done|]. destruct Hst. unfold stale, entry_name.
    destruct (strip_prefix _ _) as [fname|] eqn:Hpre; [|done]. simpl. destruct (has_char slash fname); [done|].
    destruct (ends_with fname ".apparmor") eqn:He; [|by rewrite andb_false_r, ?andb_false_l]. exfalso.
    apply strip_prefix_spec in Hpre. apply ends_with_iff in He as [a ->].
    unfold seccomp_path_for, in_dir in Hpre. rewrite str_app_assoc in Hpre. do 2 apply str_app_inj_l in Hpre.
    assert ((stem +:+ "." +:+ digest +:+ ".sec") +:+ "comp.json" = a +:+ ".apparmor") as Hx by (by rewrite <-Hpre, !str_app_assoc).
    apply str_app_inj in Hx as [_ Hx]; [done|]. str_length_in Hx. simpl in Hx. rewrite !str_length_app. simpl. lia.
  - intros bytes c. apply store_other, seccomp_not_apparmor; [done|done|apply no_dot_name, stem_chars|apply no_dot_hex, digest_chars].
  - intros bytes c. by apply store_other, seccomp_not_te.
Qed.

(** Compiling the allowlist: the path that is returned, and what is there. *)
Lemma compile_seccomp_ok {K : AuditSink} {KF : SinkKeeps w_sec K} profile allow w path w' :
  let json := json_pretty (seccomp_to_value (render_seccomp_json allow)) in
  compile_seccomp cache_dir profile allow w = (Ok path, w') → cache_ok (w_sec w) →
  path = seccomp_path_for cache_dir (sanitize_profile_stem (sp_name profile)) (content_digest json) ∧
  ∃ bytes, cf_files (w_sec w') !! path = Some bytes ∧ content_digest bytes = content_digest json.
Proof.
  intros json. unfold compile_seccomp. fold json.
  set (path0 := seccomp_path_for _ _ _). intros Hc Hok. inv_bind Hc hit w1 Hh. unfold has_file in Hh. run_simpl Hh.
  destruct (cf_files (w_sec w1) !! path0) as [b|] eqn:Hl; simpl in Hc.
  - run_simpl Hc. split; [done|]. exists b. split; [done|].
    eapply Hok; [..|exact Hl]; [apply no_dot_name, stem_chars|apply no_dot_hex, digest_chars].
  - inv_bind Hc u w2 Hp. inv_bind Hc ok w3 Hw. destruct ok; simpl in Hc; [|done].
    inv_bind Hc v w4 Hr. assert (w_sec w4 = w_sec w3) as Hk by
      (apply (f_equal (λ p, w_sec p.2)) in Hr; simpl in Hr; by rewrite <-Hr, (record_keeps (f := w_sec))).
    run_simpl Hc. split; [done|]. exists json. split; [|done]. rewrite Hk. unfold write_file, store in Hw.
    destruct (write_outcome _); simplify_eq/=. apply lookup_insert_eq.
Qed.
End Current.

(** ** Sorted lists *)

Lemma dedup_elem x l : x ∈ dedup l ↔ x ∈ l.
Proof.
  induction l as [|a l IH]; [done|]. destruct l as [|b l]; [done|].
  change (dedup (a :: b :: l)) with (if decide (a = b) then dedup (b :: l) else a :: dedup (b :: l)).
  case_decide as Hab; [subst b; rewrite IH|rewrite elem_of_cons, IH]; set_solver.
Qed.

Lemma dedup_sorted l : StronglySorted String.le l → StronglySorted String.le (dedup l) ∧ NoDup (dedup l).
Proof.
  induction 1 as [|a l Hs [IH1 IH2] Ha]; [by split; constructor|]. cbn [dedup]. destruct l as [|b l]; [repeat constructor; set_solver|].
  case_decide as Hab; [done|]. split.
  - constructor; [done|]. apply Forall_forall. intros x Hx. rewrite dedup_elem in Hx. by apply (proj1 (Forall_forall _ _) Ha).
  - constructor; [|done]. rewrite dedup_elem. intros Hin. apply elem_of_cons in Hin as [|Hin]; [done|].
    apply Hab. apply (anti_symm String.le); [by inversion Ha|]. inversion Hs as [|?? _ Hb]; subst.
    by apply (proj1 (Forall_forall _ _) Hb).
Qed.

(** Sorting and dropping repetitions is the sorted list of the set. *)
Lemma dedup_sort_set l : dedup (merge_sort String.le l) = sorted (list_to_set l).
Proof.
  destruct (dedup_sorted (merge_sort String.le l)) as [Hs Hn]; [apply StronglySorted_merge_sort; apply _|].
  apply (StronglySorted_unique String.le); [done| |].
  - apply Sorted_StronglySorted; [apply _|]. apply sorted_Sorted.
  - apply NoDup_Permutation; [done|apply sorted_NoDup|]. intros x.
    rewrite dedup_elem, elem_of_sorted, merge_sort_Permutation. set_solver.
Qed.

(** ** Operations that do not fail *)

Class NeverFails {A} (c : D A) : Prop := never_fails w e w' : c w ≠ (Err (Fail e), w').
#[export] Instance never_fails_ret {A} (a : A) : NeverFails (mret a).
Proof. done. Qed.
#[export] Instance never_fails_gets {A} (f : World → A) : NeverFails (gets f).
Proof. done. Qed.
#[export] Instance never_fails_modify f : NeverFails (modify f).
Proof. done. Qed.
#[export] Instance never_fails_bind {A B} (c : D A) (k : A → D B) :
  NeverFails c → (∀ a, NeverFails (k a)) → NeverFails (c ≫= k).
Proof. intros Hc Hk w e w' [H|(a & w1 & _ & H)]%bind_err; [by apply Hc in H|by apply Hk in H]. Qed.
#[export] Instance never_fails_attempt {A} (c : D A) : NeverFails (attempt c).
Proof. intros w e w'. unfold attempt. by destruct (c w) as [[|[]] ?]. Qed.
#[export] Instance never_fails_record {E : Env} {K : AuditSink} {KL : AuditSinkLaws K} kind profile container p :
  NeverFails (record kind profile container p).
Proof. intros w e w' H. apply (record_never_fails kind profile container p w e). by rewrite H. Qed.

Section NeverFails.
Context {E : Env} {H : SecHost} {K : AuditSink} {KL : AuditSinkLaws K} (cache_dir : string).

#[export] Instance never_fails_write path bytes : NeverFails (write_file path bytes).
Proof. intros w e w'. unfold write_file. by destruct (store path bytes (w_sec w)). Qed.
#[export] Instance never_fails_command prog args : NeverFails (command prog args).
Proof. done. Qed.
#[export] Instance never_fails_prune stem suffix keep : NeverFails (prune_stale cache_dir stem suffix keep).
Proof. unfold prune_stale. case_match; apply _. Qed.

Ltac solve_never_fails :=
  repeat first
    [ solve [apply _]
    | match goal with |- NeverFails (match ?x with _ => _ end) => destruct x end
    | apply never_fails_bind; [|intros ?] ].

#[export] Instance never_fails_package te md pp : NeverFails (package_and_install te md pp).
Proof. unfold package_and_install, run_step. solve_never_fails. Qed.
#[export] Instance never_fails_apparmor profile : NeverFails (compile_apparmor cache_dir profile).
Proof using KL. unfold compile_apparmor, has_file. solve_never_fails. Qed.
#[export] Instance never_fails_selinux_flavour profile : NeverFails (selinux_flavour cache_dir profile).
Proof using KL. unfold selinux_flavour, maybe_apply_runtime_fallback. solve_never_fails. Qed.
End NeverFails.

(** * Theorems *)

Section SecTheorems.
Context {E : Env} {H : SecHost} {K : AuditSink} {KL : AuditSinkLaws K} {KF : SinkKeeps w_sec K} (cache_dir : string).

(** The compiler owes the log what its interface asks. *)
#[export] Instance SecProfileCompiler_laws : SecCompilerLaws (SecProfileCompiler cache_dir).
Proof using KL.
  intros profile. simpl. unfold compile_profile, seccomp_flavour, compile_seccomp, compile_apparmor, selinux_flavour, compile_selinux,
    maybe_apply_runtime_fallback, package_and_install, run_step, prune_stale, has_file.
  assert (∀ path bytes, LogSafe (write_file path bytes)) as Hw.
  { intros path bytes w. unfold write_file. destruct (store path bytes (w_sec w)) as [ok c]. apply (keeps_log_extends (set_sec c) w _). }
  assert (∀ prog args, LogSafe (command prog args)) as Hc.
  { intros prog args w. unfold command. apply (keeps_log_extends (set_sec _) w _). }
  assert (∀ stem suffix keep, LogSafe (modify (λ w, set_sec (prune cache_dir stem suffix keep (w_sec w)) w))) as Hp.
  { intros stem suffix keep. apply log_safe_modify. by intros w. }
  repeat first
    [ solve [apply _]
    | match goal with |- LogSafe (match ?x with _ => _ end) => destruct x end
    | apply log_safe_bind; [|intros ?]
    | apply log_safe_attempt ].
Qed.

(** The text the compiler writes for an allowlist. *)
Definition seccomp_json (allow : list string) : string := json_pretty (seccomp_to_value (render_seccomp_json allow)).

(** The seccomp profile that refuses every call but [names]. *)
Definition only_calls (names : list string) : Value :=
  JObject [("defaultAction", JString "SCMP_ACT_ERRNO");
           ("architectures", JArray [JString "SCMP_ARCH_X86_64"; JString "SCMP_ARCH_X86"; JString "SCMP_ARCH_X32"; JString "SCMP_ARCH_AARCH64"]);
           ("syscalls", JArray [JObject [("names", JArray (JString <$> names)); ("action", JString "SCMP_ACT_ALLOW")]])].
(** The file at [path] is the text of the profile that allows exactly the calls of
    [allow], each named once, or another text whose SHA-256 has the same first eight
    bytes. *)
Definition holds_json (allow : list string) (path : string) (w : World) : Prop :=
  ∃ names bytes, (∀ call, call ∈ names ↔ call ∈ allow) ∧ NoDup names ∧ cf_files (w_sec w) !! path = Some bytes ∧
    (bytes = json_pretty (only_calls names) ∨
     bytes ≠ json_pretty (only_calls names) ∧ str_take 8 (sha256 bytes) = str_take 8 (sha256 (json_pretty (only_calls names)))).

Lemma holds_json_intro allow path bytes w :
  cf_files (w_sec w) !! path = Some bytes → content_digest bytes = content_digest (seccomp_json allow) → holds_json allow path w.
Proof using.
  intros Hf Hd. exists (dedup (merge_sort String.le allow)), bytes.
  assert (json_pretty (only_calls (dedup (merge_sort String.le allow))) = seccomp_json allow) as -> by done.
  split_and!; [|apply dedup_sorted, StronglySorted_merge_sort; apply _|done|].
  - intros call. by rewrite dedup_elem, merge_sort_Permutation.
  - destruct (decide (bytes = seccomp_json allow)); [by left|right]. split; [done|]. by apply hex_encode_inj.
Qed.

Lemma compile_profile_seccomp profile allow w c w' :
  compile_profile cache_dir profile w = (Ok c, w') → cache_ok cache_dir (w_sec w) →
  syscall_allowlist profile = Some allow →
  ∃ path, seccomp_path c = Some path ∧ holds_json allow path w'.
Proof using KF. clear KL.
  unfold compile_profile. destruct cache_creatable; simpl; [|done]. intros Hc Hok Ha. inv_bind Hc sc w1 Hs.
  unfold seccomp_flavour in Hs. rewrite Ha in Hs. inv_bind Hs r w2 Hr. unfold attempt in Hr.
  destruct (compile_seccomp cache_dir profile allow w) as [[path|[e|m]] w3] eqn:Hcs; simplify_eq/=.
  apply compile_seccomp_ok in Hcs as [-> (bytes & Hb & Hd)]; [|done..]. run_simpl Hs.
  set (stem := sanitize_profile_stem (sp_name profile)) in *. fold (seccomp_json allow) in *.
  assert (has_char dot_char stem = false) as Hst by apply no_dot_name, stem_chars.
  assert (has_char dot_char (content_digest (seccomp_json allow)) = false) as Hdt by apply no_dot_hex, digest_chars.
  pose proof (same_artefact_steps cache_dir (sp_name profile) stem _ Hst Hdt) as HS.
  pose proof (sec_rel_later cache_dir (same_artefact cache_dir stem _) profile
                (Some (seccomp_path_for cache_dir stem (content_digest (seccomp_json allow)))) w1) as Hrel.
  rewrite Hc in Hrel. unfold same_artefact in Hrel. simpl in Hrel.
  inv_bind Hc a w4 Hap. inv_bind Hc ml w5 Hml. destruct ml. run_simpl Hc.
  eexists. split; [done|]. apply (holds_json_intro _ _ bytes); [by rewrite Hrel|done].
Qed.

(** A compiled allowlist is the current one. When compilation succeeds for a
    profile with a syscall allowlist, podman is told to load a file, and that file
    holds the seccomp profile of exactly this allowlist: its sorted names without
    repetitions are allowed and everything else gets an error. The only exception
    is a collision of the digest in the file's name, if the cached files had the
    digests of their names before. *)
Theorem seccomp_artefact_is_current profile allow w c w' :
  compile_profile cache_dir profile w = (Ok c, w') → cache_ok cache_dir (w_sec w) →
  syscall_allowlist profile = Some allow →
  (∃ path, "seccomp=" +:+ path ∈ to_security_opts c ∧ holds_json allow path w') ∧
  render_seccomp_json allow =
    {| default_action := "SCMP_ACT_ERRNO";
       architectures := ["SCMP_ARCH_X86_64"; "SCMP_ARCH_X86"; "SCMP_ARCH_X32"; "SCMP_ARCH_AARCH64"];
       syscalls := [{| sg_names := sorted (list_to_set allow); sg_action := "SCMP_ACT_ALLOW" |}] |}.
Proof using KF. clear KL.
  intros Hc Hok Ha. split; [|by unfold render_seccomp_json; rewrite dedup_sort_set].
  destruct (compile_profile_seccomp _ _ _ _ _ Hc Hok Ha) as (path & Hp & Hj). exists path. split; [|done].
  unfold to_security_opts. rewrite Hp. set_solver.
Qed.

(** The compiler changes its own files only: a file it creates, overwrites or
    deletes is directly in the cache directory, whatever characters the name of
    the profile has, and belongs to the profile by its name. Files of profiles
    with another stem stay as they are. *)
Theorem compiler_touches_own_files profile w p :
  let w' := (compile_profile cache_dir profile w).2 in
  cf_files (w_sec w') !! p ≠ cf_files (w_sec w) !! p →
  in_cache cache_dir p ∧ ∃ name, p = in_dir cache_dir name ∧ own_name (sp_name profile) name.
Proof using KF. clear KL.
  intros w' Hp. destruct (sec_rel_compile cache_dir (only_own cache_dir (sp_name profile)) profile w p Hp) as (name & -> & Hi & Ho).
  eauto.
Qed.

(** The cache stays content-addressed: as long as no write stops in the middle,
    compiling any profile keeps every cached seccomp file at the digest its name
    has, and the audit log valid. *)
Theorem cache_stays_content_addressed profile w :
  let w' := (compile_profile cache_dir profile w).2 in
  (whole_writes → cache_ok cache_dir (w_sec w) → cache_ok cache_dir (w_sec w')) ∧ log_extends w w'.
Proof using KF KL.
  split; [|apply (compile_log_safe (C := SecProfileCompiler cache_dir))].
  exact (sec_rel_compile cache_dir (keeps_ok cache_dir) profile w).
Qed.

(** ** When it fails, and what the other two flavours come to *)

(** What can be said of the host whatever the number of the run or write. *)
Definition all_written : Prop := ∀ n, write_outcome n = WriteOk.
Definition none_written : Prop := ∀ n, write_outcome n ≠ WriteOk.
Definition starts (prog : string) : Prop := ∀ n args, run_program n prog args ≠ None.
Definition never_starts (prog : string) : Prop := ∀ n args, run_program n prog args = None.
Definition succeeds (prog : string) : Prop := ∀ n args, run_program n prog args = Some true.
Definition fails (prog : string) : Prop := ∀ n args, run_program n prog args ≠ Some true.

Lemma compile_apparmor_result profile w o w' :
  compile_apparmor cache_dir profile w = (Ok o, w') →
  let name := apparmor_profile_name (sp_name profile) in
  (o = None ∨ o = Some name) ∧ (all_written → starts "apparmor_parser" → o = Some name) ∧ (never_starts "apparmor_parser" → o = None).
Proof using.
  unfold compile_apparmor. intros Hc. inv_bind Hc hit w1 Hh. inv_bind Hc ok w2 Hok. destruct ok; cbn [negb] in Hc.
  - inv_bind Hc out w3 Ho. unfold command in Ho. injection Ho as <- _.
    destruct (run_program _ _ _) as [b|] eqn:Hr.
    + inv_bind Hc u w4 Hu. injection Hc as <- _. split_and!; [by right|done|]. intros Hn. by rewrite Hn in Hr.
    + injection Hc as <- _. split_and!; [by left| |done]. intros _ Hs. by destruct (Hs _ _ Hr).
  - injection Hc as <- _. split_and!; [by left| |done]. intros Hw _. destruct hit; [done|]. inv_bind Hok u w3 Hu.
    unfold write_file, store in Hok. rewrite Hw in Hok. done.
Qed.

Lemma run_step_result prog args w b w' : run_step prog args w = (Ok b, w') → (succeeds prog → b = true) ∧ (fails prog → b = false).
Proof using.
  unfold run_step. intros Hr. inv_bind Hr o w1 Ho. injection Ho as <- _. injection Hr as <- _. split; intros Hp.
  - rewrite Hp. by apply bool_decide_eq_true.
  - by apply bool_decide_eq_false, Hp.
Qed.
Lemma package_result te md pp w b w' :
  package_and_install te md pp w = (Ok b, w') →
  (succeeds "checkmodule" → succeeds "semodule_package" → succeeds "semodule" → b = true) ∧
  (fails "checkmodule" ∨ fails "semodule_package" ∨ fails "semodule" → b = false).
Proof using.
  unfold package_and_install. intros Hp. inv_bind Hp x w1 Hx. apply run_step_result in Hx as [Sx Fx].
  destruct x; cbn [negb] in Hp; [|injection Hp as <- _; naive_solver]. inv_bind Hp y w2 Hy. apply run_step_result in Hy as [Sy Fy].
  destruct y; cbn [negb] in Hp; [|injection Hp as <- _; naive_solver]. inv_bind Hp z w3 Hz. apply run_step_result in Hz as [Sz Fz].
  injection Hp as <- _. naive_solver.
Qed.

(** SELinux as the operator can predict it: the module's type and the static label
    of a profile. *)
Definition selinux_fallback : option string :=
  if decide (host_var "LINPODX_SELINUX_RUNTIME_FALLBACK" = Some "1") then Some "container_t" else None.
Definition expected_selinux (profile : SandboxProfile) (m l : option string) : Prop :=
  match selinux_label profile, selinux_type profile with
  | Some label, _ => m = None ∧ l = (if decide (trim label = "") then None else Some (trim label))
  | None, None => m = None ∧ l = None
  | None, Some ty =>
      if is_selinux_available then
        (m = Some ty ∧ l = None ∨ m = None ∧ l = selinux_fallback) ∧
        (ty ≠ "" → all_written → succeeds "checkmodule" → succeeds "semodule_package" → succeeds "semodule" → m = Some ty) ∧
        (ty = "" ∨ none_written ∨ fails "checkmodule" ∨ fails "semodule_package" ∨ fails "semodule" → m = None)
      else m = None ∧ l = None
  end.

Lemma fallback_result profile reason w l w' :
  maybe_apply_runtime_fallback profile reason w = (Ok l, w') → l = selinux_fallback.
Proof using.
  unfold maybe_apply_runtime_fallback, runtime_fallback_enabled, selinux_fallback.
  change SELINUX_RUNTIME_FALLBACK_ENV with "LINPODX_SELINUX_RUNTIME_FALLBACK".
  case_bool_decide; case_decide; try done; cbn [negb]; intros Hf; [|by injection Hf as <- _]. inv_bind Hf u w1 Hu. by injection Hf as <- _.
Qed.

Lemma compile_selinux_ok profile ty w o w' :
  selinux_type profile = Some ty → compile_selinux cache_dir profile w = (Ok o, w') →
  (o = Some ty ∨ o = None) ∧
  (ty ≠ "" → succeeds "checkmodule" → succeeds "semodule_package" → succeeds "semodule" → o = Some ty) ∧
  (ty = "" ∨ none_written ∨ fails "checkmodule" ∨ fails "semodule_package" ∨ fails "semodule" → o = None).
Proof using.
  intros Ht. unfold compile_selinux. rewrite Ht. destruct ty as [|c ty]; [intros [= <- <-]; naive_solver|].
  intros Hc. inv_bind Hc ok w1 Hw. destruct ok; cbn [negb] in Hc; [|done].
  assert (¬ none_written) as Hnw.
  { intros Hn. unfold write_file, store in Hw. specialize (Hn (cf_writes (w_sec w))). by destruct (write_outcome _). }
  inv_bind Hc b w2 Hb. apply package_result in Hb as [Hyes Hno]. inv_bind Hc u w3 Hu.
  destruct b; [inv_bind Hc v w4 Hv|]; injection Hc as <- _; naive_solver.
Qed.
Lemma compile_selinux_err profile w e w' :
  compile_selinux cache_dir profile w = (Err (Fail e), w') → ¬ all_written.
Proof using KL.
  unfold compile_selinux. destruct (selinux_type profile) as [[|c ty]|]; [done| |done].
  intros [Hc|(ok & w1 & Hw & Hc)]%bind_err; [by apply never_fails in Hc|]. intros Ha.
  unfold write_file, store in Hw. rewrite Ha in Hw. injection Hw as <- _. cbn [negb] in Hc. revert Hc.
  apply never_fails_bind; [apply _|]. intros []; apply _.
Qed.

Lemma selinux_flavour_result profile w m l w' :
  selinux_flavour cache_dir profile w = (Ok (m, l), w') → expected_selinux profile m l.
Proof using KL.
  unfold selinux_flavour, expected_selinux. destruct (selinux_label profile) as [label|].
  { case_decide as Hl; intros Hs; [by injection Hs as <- <- _|]. inv_bind Hs u w1 Hu. by injection Hs as <- <- _. }
  destruct (selinux_type profile) as [ty|] eqn:Ht; cbn [is_some andb]; [|intros Hs; by injection Hs as <- <- _].
  destruct is_selinux_available; [|intros Hs; by injection Hs as <- <- _].
  intros Hs. inv_bind Hs r w1 Hr. unfold attempt in Hr.
  destruct (compile_selinux cache_dir profile w) as [[o|[e|p]] w2] eqn:Hc; simplify_eq.
  - apply (compile_selinux_ok _ ty) in Hc as (Ho & Hyes & Hno); [|done]. destruct o as [n|].
    + injection Hs as <- <- _. naive_solver.
    + inv_bind Hs fb w3 Hfb. apply fallback_result in Hfb as ->. injection Hs as <- <- _. naive_solver.
  - apply compile_selinux_err in Hc. inv_bind Hs fb w3 Hfb. apply fallback_result in Hfb as ->. injection Hs as <- <- _. naive_solver.
Qed.

(** When the seccomp artefact cannot be made: it is not cached and the write fails. *)
Definition seccomp_artefact (profile : SandboxProfile) (allow : list string) : string :=
  seccomp_path_for cache_dir (sanitize_profile_stem (sp_name profile)) (content_digest (seccomp_json allow)).

Lemma compile_seccomp_fails profile allow w :
  (∃ e, (compile_seccomp cache_dir profile allow w).1 = Err (Fail e)) ↔
  cf_files (w_sec w) !! seccomp_artefact profile allow = None ∧ write_outcome (cf_writes (w_sec w)) ≠ WriteOk.
Proof using KL.
  unfold compile_seccomp. fold (seccomp_json allow). fold (seccomp_artefact profile allow). set (path := seccomp_artefact profile allow).
  unfold mbind at 1, M_bind at 1, has_file, gets. destruct (cf_files (w_sec w) !! path); cbn [is_some]; [split; [intros [e He]|intros [? _]]; done|].
  set (stem := sanitize_profile_stem _).
  assert (∃ w1, prune_stale cache_dir stem ".seccomp.json" path w = (Ok tt, w1) ∧
    cf_writes (w_sec w1) = cf_writes (w_sec w)) as (w1 & Hp & Hwr).
  { unfold prune_stale. destruct cache_listable; eexists; split; done. }
  unfold mbind at 1, M_bind at 1. rewrite Hp. unfold mbind at 1, M_bind at 1, write_file, store. rewrite Hwr.
  destruct (write_outcome _); cbn [negb]; split; try (intros; naive_solver).
  intros [e He]. exfalso. match type of He with fst (?c ?w2) = _ => destruct (c w2) as [r w3] eqn:Hr; simpl in He; subst r; by apply (never_fails (c := c)) in Hr end.
Qed.

Lemma compile_fails profile w r w' :
  compile_profile cache_dir profile w = (r, w') →
  (∃ e, r = Err (Fail e)) ↔
     cache_creatable = false ∨
     ∃ allow, syscall_allowlist profile = Some allow ∧
       cf_files (w_sec w) !! seccomp_artefact profile allow = None ∧ write_outcome (cf_writes (w_sec w)) ≠ WriteOk.
Proof using KL.
  unfold compile_profile. destruct cache_creatable; cbn [negb]; [|intros [= <- <-]; split; [by left|by eexists]].
  intros Hc. transitivity (∃ allow, syscall_allowlist profile = Some allow ∧
    ∃ e, (compile_seccomp cache_dir profile allow w).1 = Err (Fail e)).
  2:{ setoid_rewrite compile_seccomp_fails. split; [by right|]. by intros [|]. }
  split.
  - intros [e ->]. apply bind_err in Hc as [Hs|(a & w1 & Hs & Hc)].
    + unfold seccomp_flavour in Hs. destruct (syscall_allowlist profile) as [allow|]; [|done]. exists allow. split; [done|].
      apply bind_err in Hs as [Hs|(r & w2 & Hs & Hr)]; [by apply never_fails in Hs|]. unfold attempt in Hs.
      destruct (compile_seccomp cache_dir profile allow w) as [[path|[e'|m]] w3]; simplify_eq/=. eauto.
    + exfalso. apply bind_err in Hc as [Hc|(b & w2 & _ & Hc)]; [destruct (_ && _); by apply never_fails in Hc|].
      by apply bind_err in Hc as [Hc%never_fails|([m l] & w3 & _ & Hc)].
  - intros (allow & Ha & e & He). unfold mbind at 1, M_bind at 1, seccomp_flavour in Hc. rewrite Ha in Hc.
    unfold mbind at 1, M_bind at 1, attempt in Hc. destruct (compile_seccomp cache_dir profile allow w) as [r0 w0]. simpl in He. subst r0.
    injection Hc as <- _. eauto.
Qed.
Lemma compile_result profile w c w' :
  compile_profile cache_dir profile w = (Ok c, w') →
    (is_Some (seccomp_path c) ↔ is_Some (syscall_allowlist profile)) ∧
    (apparmor_name c = None ∨ apparmor_name c = Some (apparmor_profile_name (sp_name profile))) ∧
    (apparmor_extra profile = None ∨ is_apparmor_available = false ∨ never_starts "apparmor_parser" → apparmor_name c = None) ∧
    (is_Some (apparmor_extra profile) → is_apparmor_available = true → all_written → starts "apparmor_parser" →
       is_Some (apparmor_name c)) ∧
    expected_selinux profile (selinux_module_name c) (selinux_static_label c).
Proof using KL.
  unfold compile_profile. destruct cache_creatable; cbn [negb]; [|done]. intros Hc.
  inv_bind Hc sp w1 Hsp. inv_bind Hc ap w2 Hap. inv_bind Hc ml w3 Hml. destruct ml as [m l]. apply selinux_flavour_result in Hml.
  injection Hc as <- _. cbn [seccomp_path apparmor_name selinux_module_name selinux_static_label]. split; [|split_and!; [..|done]].
  - unfold seccomp_flavour in Hsp. destruct (syscall_allowlist profile) as [allow|].
    + inv_bind Hsp r0 w4 Hr. destruct r0; [|done]. by injection Hsp as <- _.
    + by injection Hsp as <- _.
  - destruct (_ && _); [apply compile_apparmor_result in Hap; naive_solver|injection Hap as <- _; by left].
  - destruct (apparmor_extra profile), is_apparmor_available; cbn [is_some andb] in Hap; try (by injection Hap as <- _).
    apply compile_apparmor_result in Hap as (_ & _ & Hn). naive_solver.
  - intros [x Hx] Hv. rewrite Hx, Hv in Hap. cbn [is_some andb] in Hap. apply compile_apparmor_result in Hap as (_ & Hy & _). intros Hw Hs. by rewrite (Hy Hw Hs).
Qed.

(** C33: When a compilation fails, and what it comes to otherwise. It fails exactly
    when the cache directory cannot be created, or the profile has a syscall
    allowlist whose artefact is not cached and cannot be written: nothing about
    AppArmor or SELinux makes it fail. When it succeeds, there is a seccomp file
    exactly for a profile with an allowlist. AppArmor is left out unless the profile
    has extra rules and the host has AppArmor; then, when files can be written, the
    profile's name is used as soon as [apparmor_parser] starts, even if it exits with
    a failure, and left out if it does not start. For SELinux a label of the profile
    wins, trimmed, and an empty one asks for nothing; a type becomes the module's type
    when the module is written, built, packaged and installed, and otherwise gives
    way to [container_t] if the operator asked for that fallback, else to nothing. *)
Theorem only_seccomp_fails_compilation profile w r w' :
  compile_profile cache_dir profile w = (r, w') →
  ((∃ e, r = Err (Fail e)) ↔
     cache_creatable = false ∨
     ∃ allow, syscall_allowlist profile = Some allow ∧
       cf_files (w_sec w) !! seccomp_artefact profile allow = None ∧ write_outcome (cf_writes (w_sec w)) ≠ WriteOk) ∧
  ∀ c, r = Ok c →
    (is_Some (seccomp_path c) ↔ is_Some (syscall_allowlist profile)) ∧
    (apparmor_name c = None ∨ apparmor_name c = Some (apparmor_profile_name (sp_name profile))) ∧
    (apparmor_extra profile = None ∨ is_apparmor_available = false ∨ never_starts "apparmor_parser" → apparmor_name c = None) ∧
    (is_Some (apparmor_extra profile) → is_apparmor_available = true → all_written → starts "apparmor_parser" →
       is_Some (apparmor_name c)) ∧
    expected_selinux profile (selinux_module_name c) (selinux_static_label c).
Proof using KL.
  intros Hc. split; [by apply (compile_fails profile w r w')|]. intros c ->. by apply (compile_result profile w c w').
Qed.

(** A truncated artefact is served. A write that stops in the middle fails the
    compilation but leaves the file under its final name; the next compilation
    takes it for a cache hit and succeeds with the truncated profile. *)
Theorem cut_artefact_is_served profile allow w n :
  let path := seccomp_path_for cache_dir (sanitize_profile_stem (sp_name profile)) (content_digest (seccomp_json allow)) in
  cf_files (w_sec w) !! path = None → write_outcome (cf_writes (w_sec w)) = WriteCut n →
  ∃ w1, compile_seccomp cache_dir profile allow w = (Err (Fail (Runtime ("write " +:+ path))), w1) ∧
    compile_seccomp cache_dir profile allow w1 = (Ok path, w1) ∧
    cf_files (w_sec w1) !! path = Some (str_take n (seccomp_json allow)).
Proof using.
  intros path Hn Hw. unfold compile_seccomp. fold (seccomp_json allow). fold path.
  assert (∃ w1, prune_stale cache_dir (sanitize_profile_stem (sp_name profile)) ".seccomp.json" path w = (Ok tt, w1) ∧
    cf_writes (w_sec w1) = cf_writes (w_sec w)) as (w1 & Hp & Hwr).
  { unfold prune_stale. destruct cache_listable; eexists; split; done. }
  eexists. split; [|split].
  - unfold mbind at 1, M_bind at 1, has_file, gets. rewrite Hn. simpl. unfold mbind at 1, M_bind at 1. rewrite Hp.
    unfold mbind at 1, M_bind at 1, write_file, store. rewrite Hwr, Hw. simpl. done.
  - unfold mbind at 1, M_bind at 1, has_file, gets. simpl. rewrite lookup_insert_eq. done.
  - apply lookup_insert_eq.
Qed.
End SecTheorems.

(** * The manager with its compiler *)

Section Composition.
Context {E : Env} {H : SecHost} {W : Wasm} {K : AuditSink} {KF : SinkKeeps w_sec K} {G : ApprovalGateway} (cache_dir : string).
(** The gateway does not write to the compiler's cache. *)
Context {GS : ∀ req, SecRel eq (request req)} (cfg : ManagerConfig).

Lemma sec_rel_ask_gate name timeout gate : SecRel eq (ask_gate name timeout gate).
Proof using GS.
  unfold ask_gate. apply (sec_rel_bind eq); [|intros id].
  { unfold new_request_id. do 2 (apply (sec_rel_bind eq); [by intros w|intros ?]). apply _. }
  do 3 (apply (sec_rel_bind eq); [apply _|intros ?]). destruct (outcome_entry _) as [[kind granted] entry].
  destruct granted; apply _.
Qed.

Lemma finish_applied {C : SecCompiler} name profile opts applied opts' applied' w w' :
  finish_apply cfg name profile opts applied w = (Ok (opts', applied'), w') → applied' = applied.
Proof. unfold finish_apply. intros Hf. inv_bind Hf o w1 Ho. inv_bind Hf u w2 Hu. by run_simpl Hf. Qed.

End Composition.

(** * Examples *)

(** A host without AppArmor and SELinux; [cuts] says which writes are cut after
    three bytes. *)
Definition toy_host (cuts : nat → bool) : SecHost := {|
  host_var := λ _, None;
  host_is_file := λ _, false;
  cache_creatable := true;
  cache_listable := true;
  unlinkable := λ _, true;
  write_outcome := λ n, if cuts n then WriteCut 3 else WriteOk;
  run_program := λ _ _ _, None;
  getenforce := None;
  json_pretty := toy_json |}.
Abbreviation good_host := (toy_host (λ _, false)).
Abbreviation bad_host := (toy_host (λ n, n =? 0)).

Definition with_allowlist (name : string) (allow : list string) : SandboxProfile :=
  let p := plain_profile name in
  {| version := version p; sp_name := name; description := description p; network := network p; mounts := mounts p;
     limits := limits p; capabilities := capabilities p; read_only_rootfs := read_only_rootfs p;
     approval_gates := approval_gates p; approval_timeout_secs := approval_timeout_secs p;
     snapshot_before_run := snapshot_before_run p; passthrough := passthrough p; distro_kind := distro_kind p;
     systemd := systemd p; snapshot_backend := snapshot_backend p; syscall_allowlist := Some allow;
     apparmor_extra := apparmor_extra p; selinux_label := selinux_label p; selinux_type := selinux_type p;
     auto_encrypt_snapshots := auto_encrypt_snapshots p |}.

Lemma cache_ok_empty w : cf_files (w_sec w) = ∅ → cache_ok (E := toy_env) "/cache" (w_sec w).
Proof. intros Hw stem digest bytes _ _. rewrite Hw. by rewrite lookup_empty. Qed.

Lemma seccomp_artefact_is_current_witness :
  let p := compile_profile (E := toy_env) (H := good_host) (K := NoopAuditSink) "/cache" (with_allowlist "../x" ["write"; "read"]) empty_world in
  ∃ path, holds_json (E := toy_env) (H := good_host) ["write"; "read"] path p.2.
Proof.
  intros p. assert (is_ok p.1 = true) as Hok by (vm_compute; reflexivity). destruct p as [[c|e] w'] eqn:Hp; [|discriminate Hok].
  destruct (seccomp_artefact_is_current (E := toy_env) (H := good_host) (K := NoopAuditSink) "/cache"
    (with_allowlist "../x" ["write"; "read"]) ["write"; "read"] empty_world c w' Hp (cache_ok_empty empty_world eq_refl) eq_refl)
    as [(path & _ & Hj) _].
  exists path. exact Hj.
Defined.

Lemma compiler_touches_own_files_witness :
  let path := seccomp_path_for "/cache" "___x" (content_digest (E := toy_env) (seccomp_json (H := good_host) ["read"])) in
  let w' := (compile_profile (E := toy_env) (H := good_host) (K := NoopAuditSink) "/cache" (with_allowlist "../x" ["read"]) empty_world).2 in
  cf_files (w_sec w') !! path ≠ None ∧ in_cache "/cache" path.
Proof.
  intros path w'. assert (cf_files (w_sec w') !! path ≠ cf_files (w_sec empty_world) !! path) as Hne by (vm_compute; discriminate).
  split; [exact Hne|].
  exact (proj1 (compiler_touches_own_files (E := toy_env) (H := good_host) (K := NoopAuditSink) "/cache"
    (with_allowlist "../x" ["read"]) empty_world path Hne)).
Defined.

Lemma cache_stays_content_addressed_witness :
  let w' := (compile_profile (E := toy_env) (H := good_host) (K := NoopAuditSink) "/cache" (with_allowlist "../x" ["read"]) empty_world).2 in
  cache_ok (E := toy_env) "/cache" (w_sec w').
Proof.
  apply (cache_stays_content_addressed (E := toy_env) (H := good_host) (K := NoopAuditSink) "/cache" (with_allowlist "../x" ["read"]) empty_world).
  - intros n k. discriminate.
  - exact (cache_ok_empty empty_world eq_refl).
Defined.

(** A host with SELinux and AppArmor whose helpers all start, but where packaging
    fails and the parser rejects the profile, with the fallback asked for and the
    disk perhaps [full]; and a
    profile that asks for all three flavours. *)
Definition broken_host (full : bool) : SecHost := {|
  host_var := λ v, if decide (v = "PATH") then None else Some "1";
  host_is_file := λ _, false;
  cache_creatable := true;
  cache_listable := true;
  unlinkable := λ _, true;
  write_outcome := λ _, if full then WriteRefused else WriteOk;
  run_program := λ _ prog _, Some (bool_decide (prog = "checkmodule"));
  getenforce := None;
  json_pretty := toy_json |}.
Definition asks_for_all (allow : option (list string)) : SandboxProfile :=
  let p := plain_profile "web" in
  {| version := version p; sp_name := "web"; description := description p; network := network p; mounts := mounts p;
     limits := limits p; capabilities := capabilities p; read_only_rootfs := read_only_rootfs p;
     approval_gates := approval_gates p; approval_timeout_secs := approval_timeout_secs p;
     snapshot_before_run := snapshot_before_run p; passthrough := passthrough p; distro_kind := distro_kind p;
     systemd := systemd p; snapshot_backend := snapshot_backend p; syscall_allowlist := allow;
     apparmor_extra := Some {| aa_deny := []; aa_allow := [] |}; selinux_label := selinux_label p; selinux_type := Some "web_t";
     auto_encrypt_snapshots := auto_encrypt_snapshots p |}.

Lemma only_seccomp_fails_compilation_witness :
  let comp allow full := compile_profile (E := toy_env) (H := broken_host full) (K := NoopAuditSink) "/cache" (asks_for_all allow) empty_world in
  (∃ e, (comp (Some ["read"]) true).1 = Err (Fail e)) ∧ ¬ (∃ e, (comp None false).1 = Err (Fail e)) ∧
  ∃ c, (comp None false).1 = Ok c ∧ selinux_module_name c = None ∧ to_security_opts c = ["apparmor=linpodx-web"; "label=type:container_t"].
Proof.
  intros comp. split; [|split].
  - pose proof (only_seccomp_fails_compilation (E := toy_env) (H := broken_host true) (K := NoopAuditSink) "/cache"
      (asks_for_all (Some ["read"])) empty_world _ _ (surjective_pairing _)) as [Hf _].
    apply Hf. right. exists ["read"]. split; [reflexivity|]. split; [reflexivity|]. vm_compute. discriminate.
  - pose proof (only_seccomp_fails_compilation (E := toy_env) (H := broken_host false) (K := NoopAuditSink) "/cache"
      (asks_for_all None) empty_world _ _ (surjective_pairing _)) as [Hf _].
    intros He. apply Hf in He as [Hc|(allow & Ha & _)]; discriminate.
  - destruct (comp None false) as [r w'] eqn:Hr. assert (is_ok r = true) as Hok.
    { change r with (r, w').1. rewrite <-Hr. vm_compute. reflexivity. }
    destruct r as [c|e]; [|discriminate Hok]. exists c. split; [reflexivity|].
    destruct (only_seccomp_fails_compilation (E := toy_env) (H := broken_host false) (K := NoopAuditSink) "/cache"
      (asks_for_all None) empty_world _ _ Hr) as [_ Hs].
    destruct (Hs c eq_refl) as (_ & _ & _ & _ & _ & _ & Hm). split.
    + apply Hm. right. right. right. left. intros n args. discriminate.
    + assert ((λ p, match p.1 with Ok c => to_security_opts c | Err _ => [] end) (comp None false) = ["apparmor=linpodx-web"; "label=type:container_t"]) as Ho
        by (vm_compute; reflexivity).
      rewrite Hr in Ho. exact Ho.
Defined.

Lemma cut_artefact_is_served_witness :
  let path := seccomp_path_for "/cache" (sanitize_profile_stem "../x") (content_digest (E := toy_env) (seccomp_json (H := bad_host) ["read"])) in
  ∃ w1, compile_seccomp (E := toy_env) (H := bad_host) (K := NoopAuditSink) "/cache" (with_allowlist "../x" ["read"]) ["read"] w1 = (Ok path, w1) ∧
    cf_files (w_sec w1) !! path = Some (str_take 3 (seccomp_json (H := bad_host) ["read"])).
Proof.
  destruct (cut_artefact_is_served (E := toy_env) (H := bad_host) (K := NoopAuditSink) "/cache" (with_allowlist "../x" ["read"])
    ["read"] empty_world 3) as (w1 & _ & H1 & H2); [reflexivity|reflexivity|].
  exists w1. exact (conj H1 H2).
Defined.


(** Names that differ only in the characters that are replaced share their
    artefacts: the second compilation deletes the file the first one returned. *)
Example colliding_names_share_artefacts :
  let comp name allow := compile_profile (E := toy_env) (H := good_host) (K := NoopAuditSink) "/cache" (with_allowlist name allow) in
  let p1 := comp "web.1" ["read"] empty_world in
  let p2 := comp "web_1" ["read"; "write"] p1.2 in
  let path := seccomp_path_for "/cache" "web_1" (content_digest (E := toy_env) (seccomp_json (H := good_host) ["read"])) in
  is_some (cf_files (w_sec p1.2) !! path) = true ∧ is_some (cf_files (w_sec p2.2) !! path) = false ∧
  apparmor_profile_name "web.1" = apparmor_profile_name "web_1".
Proof. vm_compute. done. Qed.
