(* ===== verification/Peers.v ===== *)
(** Cluster peers: the [cluster_peers] table ([linpodx-sandbox/src/cluster_store.rs]),
    the gossip loop ([linpodx-cluster/src/gossip.rs]), the container view
    ([view.rs]) and the routes of the API it talks to ([linpodx-daemon/src/web_ui.rs]).

    Errors of [PeerStore] are values ([Result ClusterError]); a panic is a fault.
    Error texts end before the text of a foreign error or status. Durations stay in
    chrono's range: the thresholds are minutes. *)
From S2P Require Import Prelude Text Json Timestamps Common Database AuditKinds AuditLog Logging Embedding Remote RaftStore.

(** * Data *)

Inductive PeerStatus : Type := PsAlive | PsStale | PsDead.

#[export] Instance PeerStatus_eq_dec : EqDecision PeerStatus.
Proof. solve_decision. Defined.

Definition status_as_str (s : PeerStatus) : string :=
  match s with PsAlive => "alive" | PsStale => "stale" | PsDead => "dead" end.
Definition status_parse (s : string) : PeerStatus :=
  if decide (s = "alive") then PsAlive else if decide (s = "dead") then PsDead else PsStale.

Record PeerInfo : Type := {
  peer_node_id : string;
  peer_addr : string;
  peer_status : PeerStatus;
  peer_last_seen : Z;
  peer_joined_at : Z;
}.

(** One row of [cluster_peers] (migration 0013), in the order of [id]. *)
Record PeerRow : Type := {
  pe_node_id : string;
  pe_addr : string;
  pe_status : string;
  pe_last_seen : string;
  pe_joined_at : string;
}.

Inductive ClusterError : Type :=
| CNotImplemented (s : string)
| CIo
| CHttp (s : string)
| CPeerNotFound (s : string)
| CPeerDuplicate (s : string)
| CInvalidAddr (s : string)
| CStorage (s : string).

Definition cluster_to_err (e : ClusterError) : Error :=
  match e with
  | CInvalidAddr m => InvalidArgument ("cluster: " +:+ m)
  | CPeerNotFound n => NotFound ("cluster peer '" +:+ n +:+ "'")
  | CPeerDuplicate n => Conflict ("cluster peer '" +:+ n +:+ "' already joined")
  | CNotImplemented m => Unsupported ("cluster: " +:+ m)
  | CStorage m | CHttp m => Runtime ("cluster: " +:+ m)
  | CIo => Io
  end.

(** [cl_http] counts the requests sent. *)
Record ClusterState : Type := {
  cl_world : World;
  cl_peers : list PeerRow;
  cl_http : nat;
}.

#[export] Instance ClusterState_HasWorld : HasWorld ClusterState := {|
  world_of := cl_world;
  put_world := λ w s, {| cl_world := w; cl_peers := cl_peers s; cl_http := cl_http s |} |}.
#[export] Instance ClusterState_HasWorldLaws : HasWorldLaws ClusterState.
Proof. split; [done|]. by intros []. Qed.

Definition set_peer_rows (l : list PeerRow) (s : ClusterState) : ClusterState :=
  {| cl_world := cl_world s; cl_peers := l; cl_http := cl_http s |}.
Definition bump_http (s : ClusterState) : ClusterState :=
  {| cl_world := cl_world s; cl_peers := cl_peers s; cl_http := S (cl_http s) |}.

Abbreviation C := (M ClusterState Fault).
Abbreviation CR A := (C (Result ClusterError A)).

(** [reqwest]: the status and body of the [n]-th request to a URL with a bearer
    token, or no response; and the JSON of a list of containers. *)
Class Http := {
  http_send : nat → string → option string → option (N * string);
  containers_from_json : string → option (list ContainerSummary);
}.

(** * Addresses *)

Definition http_addr (trimmed : string) : string :=
  match strip_prefix "wss://" trimmed with
  | Some rest => "https://" +:+ rest
  | None => match strip_prefix "ws://" trimmed with Some rest => "http://" +:+ rest | None => trimmed end
  end.
Definition build_version_url (addr : string) : string := http_addr (trim_end_char slash addr) +:+ "/api/v1/version".
Definition build_containers_url (addr : string) : string := http_addr (trim_end_char slash addr) +:+ "/api/v1/containers".

Definition normalize_addr_for_raft (addr : string) : string :=
  let trimmed := trim_end_char slash (trim addr) in
  let no_ipc := unwrap_or trimmed (strip_suffix "/ipc" trimmed) in
  unwrap_or no_ipc
    (or_else (strip_prefix "wss://" no_ipc) (or_else (strip_prefix "ws://" no_ipc)
      (or_else (strip_prefix "https://" no_ipc) (strip_prefix "http://" no_ipc)))).

(** * The store *)

Section Store.
Context {E : Env} {K : AuditSink}.

Definition parse_ts (s : string) : Z := match ts_parse s with inl t => t | inr _ => 0%Z end.

Definition into_info (r : PeerRow) : PeerInfo :=
  {| peer_node_id := pe_node_id r; peer_addr := pe_addr r; peer_status := status_parse (pe_status r);
     peer_last_seen := parse_ts (pe_last_seen r); peer_joined_at := parse_ts (pe_joined_at r) |}.

(** One statement; its failure is a storage error. *)
Definition cstmt {A} (what : string) (k : CR A) : CR A :=
  r ← attempt_in (on_world stmt);
  match r with
  | Err _ => mret (Err (CStorage what))
  | Ok _ => k
  end.

Definition peers_list : CR (list PeerInfo) :=
  cstmt "list peers" (rows ← gets cl_peers; mret (Ok (into_info <$> rows))).

(** [INSERT ... ON CONFLICT(node_id) DO UPDATE]. *)
Definition join_row (node_id addr at_ : string) (r : PeerRow) : PeerRow :=
  if decide (pe_node_id r = node_id)
  then {| pe_node_id := node_id; pe_addr := addr; pe_status := "alive"; pe_last_seen := at_; pe_joined_at := pe_joined_at r |}
  else r.
Definition upsert_peer_rows (node_id addr at_ : string) (rows : list PeerRow) : list PeerRow :=
  if bool_decide (node_id ∈ pe_node_id <$> rows) then join_row node_id addr at_ <$> rows
  else rows ++ [{| pe_node_id := node_id; pe_addr := addr; pe_status := "alive"; pe_last_seen := at_; pe_joined_at := at_ |}].

Definition peers_upsert (node_id addr : string) : CR PeerInfo :=
  if is_blank node_id then mret (Err (CInvalidAddr ("empty node_id (addr='" +:+ addr +:+ "')")))
  else if is_blank addr then mret (Err (CInvalidAddr ("empty addr (node_id='" +:+ node_id +:+ "')")))
  else
    t ← on_world now;
    let now_str := ts_format t in
    cstmt ("upsert peer '" +:+ node_id +:+ "'") (
      _ ← modify (λ s, set_peer_rows (upsert_peer_rows node_id addr now_str (cl_peers s)) s);
      cstmt ("re-fetch peer '" +:+ node_id +:+ "'") (
        row ← gets (λ s, find (λ r, bool_decide (pe_node_id r = node_id)) (cl_peers s));
        match row with
        | None => mret (Err (CStorage ("re-fetch peer '" +:+ node_id +:+ "'")))
        | Some row =>
            let info := into_info row in
            _ ← audit_both SinkClusterPeerJoined ClusterPeerJoined
                  (JObject [("node_id", JString (peer_node_id info)); ("addr", JString (peer_addr info));
                            ("joined_at", JString (ts_serde (peer_joined_at info)))]);
            mret (Ok info)
        end)).

Definition peers_remove (node_id : string) : CR bool :=
  cstmt ("remove peer '" +:+ node_id +:+ "'") (
    rows ← gets cl_peers;
    let removed := bool_decide (node_id ∈ pe_node_id <$> rows) in
    _ ← modify (set_peer_rows (filter (λ r, pe_node_id r ≠ node_id) rows));
    _ ← (if removed then audit_both SinkClusterPeerLeft ClusterPeerLeft (JObject [("node_id", JString node_id)]) else mret tt);
    mret (Ok removed)).

Definition touch_row (node_id at_ : string) (r : PeerRow) : PeerRow :=
  if decide (pe_node_id r = node_id)
  then {| pe_node_id := pe_node_id r; pe_addr := pe_addr r; pe_status := "alive"; pe_last_seen := at_; pe_joined_at := pe_joined_at r |}
  else r.
Definition touch_seen (node_id : string) (now_ : Z) : CR unit :=
  cstmt ("touch_seen '" +:+ node_id +:+ "'") (
    _ ← modify (λ s, set_peer_rows (touch_row node_id (ts_format now_) <$> cl_peers s) s);
    mret (Ok tt)).

(** [UPDATE cluster_peers SET status = to WHERE status = from AND last_seen < cut]. *)
Definition due (from cut : string) (r : PeerRow) : bool :=
  bool_decide (pe_status r = from) && String.ltb (pe_last_seen r) cut.
Definition roll_row (from to cut : string) (r : PeerRow) : PeerRow :=
  if due from cut r
  then {| pe_node_id := pe_node_id r; pe_addr := pe_addr r; pe_status := to; pe_last_seen := pe_last_seen r; pe_joined_at := pe_joined_at r |}
  else r.
Definition roll (from to cut : string) (rows : list PeerRow) : nat * list PeerRow :=
  (length (filter (λ r, due from cut r = true) rows), roll_row from to cut <$> rows).

Definition peers_sweep (now_ stale_after_secs dead_after_secs : Z) : CR Z :=
  let stale_cut := ts_format (now_ - 1000 * Z.max 0 stale_after_secs) in
  let dead_cut := ts_format (now_ - 1000 * (Z.max 0 stale_after_secs + Z.max 0 dead_after_secs)) in
  cstmt "sweep alive→stale" (
    rows ← gets cl_peers;
    let '(n, rows1) := roll "alive" "stale" stale_cut rows in
    _ ← modify (set_peer_rows rows1);
    cstmt "sweep stale→dead" (
      let '(m, rows2) := roll "stale" "dead" dead_cut rows1 in
      _ ← modify (set_peer_rows rows2);
      mret (Ok (Z.of_nat (n + m))))).

Definition record_view_served (peer_count container_count : nat) : C unit :=
  audit_both SinkClusterViewServed ClusterViewServed
    (JObject [("peer_count", jint (Z.of_nat peer_count)); ("container_count", jint (Z.of_nat container_count))]).

(** * Gossip *)

Context {H : Http}.

Definition DEFAULT_STALE_AFTER_SECS : Z := 60.
Definition DEFAULT_DEAD_AFTER_SECS : Z := 240.

Definition http_get (url : string) (token : option string) : C (option (N * string)) :=
  n ← gets cl_http;
  _ ← modify bump_http;
  mret (http_send n url token).
Definition is_success (status : N) : bool := bool_decide (200 ≤ status < 300)%N.

(** The body of the loop of [run_round]. *)
Definition ping (now_ : Z) (peer : PeerInfo) : C unit :=
  if decide (peer_status peer = PsDead) then mret tt
  else
    resp ← http_get (build_version_url (peer_addr peer)) None;
    match resp with
    | Some (status, _) =>
        if is_success status then _ ← touch_seen (peer_node_id peer) now_; mret tt else mret tt
    | None => mret tt
    end.
Definition run_round : C unit :=
  peers ← peers_list;
  match peers with
  | Err _ => mret tt
  | Ok peers => now_ ← on_world now; for_each (ping now_) peers
  end.

(** One tick of [run_loop]. *)
Definition gossip_tick (stale_after_secs dead_after_secs : Z) : C unit :=
  _ ← run_round;
  now_ ← on_world now;
  _ ← peers_sweep now_ stale_after_secs dead_after_secs;
  mret tt.

Definition alive_or_stale (peers : list PeerInfo) : list PeerInfo :=
  filter (λ p, peer_status p = PsAlive ∨ peer_status p = PsStale) peers.

(** * The container view *)

Definition fetch_peer_containers (peer : PeerInfo) (token : option string) : CR (list ContainerSummary) :=
  resp ← http_get (build_containers_url (peer_addr peer)) token;
  match resp with
  | None => mret (Err (CHttp ("send " +:+ peer_node_id peer)))
  | Some (status, body) =>
      if negb (is_success status)
      then mret (Err (CHttp ("peer " +:+ peer_node_id peer +:+ " returned status ")))
      else match containers_from_json body with
           | Some l => mret (Ok l)
           | None => mret (Err (CHttp ("parse " +:+ peer_node_id peer)))
           end
  end.

Fixpoint aggregate_peers (peers : list PeerInfo) (token : option string) : C (list (string * ContainerSummary)) :=
  match peers with
  | [] => mret []
  | peer :: peers' =>
      r ← fetch_peer_containers peer token;
      rest ← aggregate_peers peers' token;
      mret (match r with Ok items => (λ c, (peer_node_id peer, c)) <$> items | Err _ => [] end ++ rest)
  end.
Definition aggregate_containers (local_node_id : string) (local_containers : list ContainerSummary)
    (peers : list PeerInfo) (token : option string) : C (list (string * ContainerSummary)) :=
  remote ← aggregate_peers (alive_or_stale peers) token;
  mret (((λ c, (local_node_id, c)) <$> local_containers) ++ remote).
End Store.

(** * web_ui.rs: the routes under [/api/v1] *)

(** The patterns of [router]; a segment that starts with a colon matches any
    segment. *)
Definition api_routes : list string :=
  ["/containers"; "/containers/create"; "/images"; "/volumes"; "/volumes/:name/inspect"; "/networks";
   "/networks/:name/inspect"; "/networks/:name/connect"; "/networks/:name/disconnect"; "/pods"; "/pods/create";
   "/pods/:id/start"; "/pods/:id/stop"; "/pods/:id/remove"; "/snapshots"; "/sessions"; "/sandbox/profiles"; "/audit";
   "/metrics/:container_id"; "/containers/:id/inspect"; "/containers/:id/update"; "/containers/:id/logs";
   "/metrics/:container_id/history"; "/system/df"; "/system/info"; "/doctor/run"; "/snapshot/:id/rotate-key";
   "/daemon/tofu-expiry"; "/plugin/key/revoke-cluster"; "/cluster/containers"; "/plugin/keys"; "/sandbox/auto-encrypt";
   "/daemon/pinned-clients"; "/secrets"; "/secrets/create"; "/secrets/:name/remove"].

Fixpoint segments_match (pat path : list string) : bool :=
  match pat, path with
  | [], [] => true
  | p :: pat', s :: path' => (starts_with p ":" || bool_decide (p = s)) && segments_match pat' path'
  | _, _ => false
  end.
Definition route_matches (path pat : string) : bool := segments_match (split slash pat) (split slash path).
(** Whether a path below [/api/v1] reaches a handler; else the answer is 404. *)
Definition api_serves (path : string) : bool := existsb (route_matches path) api_routes.
(** The test of [bearer_auth], which is layered on every route. *)
Definition bearer_ok (token : string) (presented : option string) : bool :=
  match presented with Some t => constant_eq t token | None => false end.
Definition api_reaches (token path : string) (presented : option string) : bool :=
  api_serves path && bearer_ok token presented.

(** * Lemmas *)

Section Sweep.
Context {E : Env} {L : TsLaws E}.

(** When a row was last seen. *)
Definition seen_at (r : PeerRow) (t : Z) : Prop := pe_last_seen r = ts_format t ∧ ts_range t.

(** The state machine of the documentation: what a silence of so many
    milliseconds makes of a status. *)
Definition next_status (stale_ms dead_ms silence : Z) (st : string) : string :=
  if decide (st = "alive") then
    if bool_decide (stale_ms < silence)%Z then (if bool_decide (stale_ms + dead_ms < silence)%Z then "dead" else "stale") else st
  else if decide (st = "stale") then (if bool_decide (stale_ms + dead_ms < silence)%Z then "dead" else st)
  else st.
Definition with_status (st : string) (r : PeerRow) : PeerRow :=
  {| pe_node_id := pe_node_id r; pe_addr := pe_addr r; pe_status := st; pe_last_seen := pe_last_seen r; pe_joined_at := pe_joined_at r |}.

(** How many steps of the state machine lead from one status to the other. *)
Definition steps (st st' : string) : nat :=
  if decide (st = st') then 0 else if decide (st = "alive" ∧ st' = "dead") then 2 else 1.

Lemma due_spec from t cut r : seen_at r t → ts_range cut →
  due from (ts_format cut) r = bool_decide (pe_status r = from) && bool_decide (t < cut)%Z.
Proof. intros [Hs Ht] Hc. unfold due. by rewrite Hs, ts_order. Qed.

Lemma with_status_id r : with_status (pe_status r) r = r.
Proof. by destruct r. Qed.
Lemma seen_at_with_status st r t : seen_at r t → seen_at (with_status st r) t.
Proof. done. Qed.

Lemma roll_row_spec from to t cut r : seen_at r t → ts_range cut →
  roll_row from to (ts_format cut) r =
  with_status (if bool_decide (pe_status r = from) && bool_decide (t < cut)%Z then to else pe_status r) r.
Proof.
  intros Hs Hc. unfold roll_row. rewrite (due_spec _ t) by done.
  case_match; [done|]. by rewrite with_status_id.
Qed.

(** Both statements on one row. *)
Lemma sweep_row_spec r t now_ stale_ms dead_ms :
  seen_at r t → ts_range (now_ - stale_ms) → ts_range (now_ - (stale_ms + dead_ms)) → (0 ≤ dead_ms)%Z →
  let r1 := roll_row "alive" "stale" (ts_format (now_ - stale_ms)) r in
  roll_row "stale" "dead" (ts_format (now_ - (stale_ms + dead_ms))) r1 =
    with_status (next_status stale_ms dead_ms (now_ - t) (pe_status r)) r ∧
  Nat.b2n (due "alive" (ts_format (now_ - stale_ms)) r) + Nat.b2n (due "stale" (ts_format (now_ - (stale_ms + dead_ms))) r1) =
    steps (pe_status r) (next_status stale_ms dead_ms (now_ - t) (pe_status r)).
Proof.
  intros Hs H1 H2 Hd r1. unfold r1. rewrite (roll_row_spec "alive" "stale" t), (due_spec "alive" t) by done.
  rewrite (roll_row_spec "stale" "dead" t), (due_spec "stale" t) by (try apply seen_at_with_status; done).
  unfold next_status, steps.
  destruct r as [i a st l j]. cbn [with_status pe_status pe_node_id pe_addr pe_last_seen pe_joined_at].
  destruct (decide (st = "alive")) as [->|Hal];
    [|rewrite (bool_decide_false (st = "alive")) by done; destruct (decide (st = "stale")) as [->|Hst]];
    repeat case_bool_decide; simplify_eq; try lia; simpl; unfold with_status; simpl;
    repeat case_decide; naive_solver lia.
Qed.

Lemma seen_at_parse r t : seen_at r t → parse_ts (pe_last_seen r) = t.
Proof. intros [-> Ht]. unfold parse_ts. by rewrite ts_roundtrip. Qed.

(** A row whose stamp was written by the store. *)
Definition stamped (r : PeerRow) : Prop := seen_at r (parse_ts (pe_last_seen r)).
Lemma seen_at_stamped r t : seen_at r t → stamped r.
Proof. intros H. unfold stamped. by rewrite (seen_at_parse r t). Qed.

Definition aged (now_ stale_ms dead_ms : Z) (r : PeerRow) : PeerRow :=
  with_status (next_status stale_ms dead_ms (now_ - parse_ts (pe_last_seen r)) (pe_status r)) r.

(** Both statements on the table: what they count and what they leave. *)
Lemma roll_spec rows now_ stale_ms dead_ms :
  Forall stamped rows → ts_range (now_ - stale_ms) → ts_range (now_ - (stale_ms + dead_ms)) → (0 ≤ dead_ms)%Z →
  let p1 := roll "alive" "stale" (ts_format (now_ - stale_ms)) rows in
  let p2 := roll "stale" "dead" (ts_format (now_ - (stale_ms + dead_ms))) p1.2 in
  p2.2 = aged now_ stale_ms dead_ms <$> rows ∧
  p1.1 + p2.1 = sum_list ((λ r, steps (pe_status r) (pe_status (aged now_ stale_ms dead_ms r))) <$> rows).
Proof.
  intros Hall H1 H2 Hd. simpl. induction Hall as [|r rows Hr Hall [IH1 IH2]]; [done|].
  destruct (sweep_row_spec r _ now_ stale_ms dead_ms Hr H1 H2 Hd) as [Hrow Hn].
  rewrite !fmap_cons, !filter_cons, IH1, Hrow. split; [done|]. simpl sum_list. rewrite <-IH2.
  change (pe_status (aged now_ stale_ms dead_ms r)) with (next_status stale_ms dead_ms (now_ - parse_ts (pe_last_seen r)) (pe_status r)).
  rewrite <-Hn. destruct (due "alive" _ r), (due "stale" _ _); cbn [Nat.b2n];
    repeat (rewrite decide_True by done || rewrite decide_False by done); simpl; lia.
Qed.

End Sweep.

Section Theorems.
Context {E : Env} {K : AuditSink}.

(** The state after a statement. *)
Definition db_step (s : ClusterState) : ClusterState := put_world (bump_stmts (cl_world s)) s.

Lemma cstmt_run {A} what (k : CR A) s :
  cstmt what k s = if db_fault (w_stmts (cl_world s)) then (Ok (Err (CStorage what)), db_step s) else k (db_step s).
Proof. unfold cstmt, attempt_in, on_world, stmt, mbind, M_bind. simpl. by destruct (db_fault _). Qed.

Lemma db_step_stmts rows s : w_stmts (cl_world (set_peer_rows rows (db_step s))) = S (w_stmts (cl_world s)).
Proof. done. Qed.

(** Run the next statement. *)
Ltac step_stmt :=
  match goal with |- context [cstmt ?what ?k ?s] =>
    rewrite (cstmt_run what k s); let H := fresh "Hf" in destruct (db_fault (w_stmts (cl_world s))) eqn:H end.

Lemma sweep_run now_ stale_after dead_after s : (0 ≤ stale_after)%Z → (0 ≤ dead_after)%Z →
  let p1 := roll "alive" "stale" (ts_format (now_ - 1000 * stale_after)) (cl_peers s) in
  let p2 := roll "stale" "dead" (ts_format (now_ - 1000 * (stale_after + dead_after))) p1.2 in
  let s1 := set_peer_rows p1.2 (db_step s) in
  peers_sweep now_ stale_after dead_after s =
  if db_fault (w_stmts (cl_world s)) then (Ok (Err (CStorage "sweep alive→stale")), db_step s)
  else if db_fault (S (w_stmts (cl_world s))) then (Ok (Err (CStorage "sweep stale→dead")), db_step s1)
  else (Ok (Ok (Z.of_nat (p1.1 + p2.1))), set_peer_rows p2.2 (db_step s1)).
Proof.
  intros H1 H2. unfold peers_sweep. rewrite !Z.max_r by done. rewrite cstmt_run. destruct (db_fault _); [done|].
  cbv beta iota delta [mbind M_bind gets modify roll]. rewrite cstmt_run, db_step_stmts. by destruct (db_fault _).
Qed.

(** C34: a sweep moves every peer exactly as the documented state machine says (alive
    to stale after more than [stale_after_secs] of silence, on to dead after
    [dead_after_secs] more, nothing else), and changes nothing but statuses; what
    it returns is the number of transitions, two for a peer that goes from alive to
    dead at once. A failed first statement changes nothing; a failed second one
    leaves the peers that went stale. *)
Theorem sweep_ages_by_silence (L : TsLaws E) now_ stale_after dead_after s :
  (0 ≤ stale_after)%Z → (0 ≤ dead_after)%Z →
  ts_range (now_ - 1000 * stale_after) → ts_range (now_ - 1000 * (stale_after + dead_after)) →
  Forall stamped (cl_peers s) →
  let age := aged now_ (1000 * stale_after) (1000 * dead_after) in
  let p := peers_sweep now_ stale_after dead_after s in
  if db_fault (w_stmts (cl_world s)) then p.1 = Ok (Err (CStorage "sweep alive→stale")) ∧ cl_peers p.2 = cl_peers s
  else if db_fault (S (w_stmts (cl_world s))) then
    p.1 = Ok (Err (CStorage "sweep stale→dead")) ∧
    cl_peers p.2 = roll_row "alive" "stale" (ts_format (now_ - 1000 * stale_after)) <$> cl_peers s
  else p.1 = Ok (Ok (Z.of_nat (sum_list ((λ r, steps (pe_status r) (pe_status (age r))) <$> cl_peers s)))) ∧
       cl_peers p.2 = age <$> cl_peers s.
Proof.
  intros H1 H2 Hr1 Hr2 Hall age p. unfold p. rewrite sweep_run by done.
  destruct (db_fault _); [done|]. destruct (db_fault _); [done|]. rewrite Z.mul_add_distr_l in Hr2 |- *.
  destruct (roll_spec (cl_peers s) now_ (1000 * stale_after) (1000 * dead_after)) as [Hrows Hn]; [done..|lia|].
  unfold age. rewrite <-Hrows, <-Hn. done.
Qed.

(** * Invariant: [node_id] is unique *)

Definition peers_inv (s : ClusterState) : Prop := NoDup (pe_node_id <$> cl_peers s).

Lemma upsert_peer_rows_ids id addr at_ rows :
  pe_node_id <$> upsert_peer_rows id addr at_ rows =
  if bool_decide (id ∈ pe_node_id <$> rows) then pe_node_id <$> rows else (pe_node_id <$> rows) ++ [id].
Proof.
  unfold upsert_peer_rows. case_bool_decide; [|by rewrite fmap_app].
  rewrite <-list_fmap_compose. apply list_fmap_ext. intros _ r _. unfold compose, join_row. by case_decide.
Qed.

Lemma upsert_peer_rows_find id addr at_ rows :
  find (λ r, bool_decide (pe_node_id r = id)) (upsert_peer_rows id addr at_ rows) =
  Some {| pe_node_id := id; pe_addr := addr; pe_status := "alive"; pe_last_seen := at_;
          pe_joined_at := from_option pe_joined_at at_ (find (λ r, bool_decide (pe_node_id r = id)) rows) |}.
Proof.
  unfold upsert_peer_rows. case_bool_decide as Hin.
  - induction rows as [|r rows IH]; simpl; [by apply elem_of_nil in Hin|]. destruct (decide (pe_node_id r = id)) as [Hr|Hr].
    + unfold join_row. rewrite (decide_True (P := pe_node_id r = id)) by done. simpl. by rewrite !bool_decide_true.
    + unfold join_row at 1 2. rewrite (decide_False (P := pe_node_id r = id)), (bool_decide_false (pe_node_id r = id)) by done.
      apply IH.
      rewrite fmap_cons in Hin. apply elem_of_cons in Hin as [Heq|Hin]; [by destruct Hr|done].
  - induction rows as [|r rows IH]; simpl; [by rewrite bool_decide_true|].
    rewrite fmap_cons, not_elem_of_cons in Hin. destruct Hin as [Hr Hin].
    rewrite (bool_decide_false (pe_node_id r = id)) by done. by apply IH.
Qed.

Lemma upsert_peer_rows_others id addr at_ rows :
  filter (λ r, pe_node_id r ≠ id) (upsert_peer_rows id addr at_ rows) = filter (λ r, pe_node_id r ≠ id) rows.
Proof.
  unfold upsert_peer_rows. case_bool_decide as Hin; [clear Hin|].
  - induction rows as [|r rows IH]; [done|]. rewrite fmap_cons, !filter_cons, IH.
    destruct (decide (pe_node_id r = id)) as [Hr|Hr]; unfold join_row.
    + rewrite (decide_True (P := pe_node_id r = id)) by done. by rewrite !decide_False by naive_solver.
    + by rewrite (decide_False (P := pe_node_id r = id)) by done.
  - rewrite filter_app, filter_cons_False by auto. simpl. by rewrite app_nil_r.
Qed.

(** Nothing an operation on the tables does reaches the peers. *)
Lemma on_world_peers {A} (c : D A) s : cl_peers (on_world c s).2 = cl_peers s.
Proof. unfold on_world. by destruct (c _). Qed.
Lemma audit_both_peers kind local p s : cl_peers (audit_both kind local p s).2 = cl_peers s.
Proof.
  unfold audit_both, mbind, M_bind. pose proof (on_world_peers (record kind None None p) s) as H1.
  destruct (on_world (record _ _ _ _) s) as [[[]|e] s1]; [|done].
  unfold attempt_in. pose proof (on_world_peers (append local None None p) s1) as H2.
  destruct (on_world (append _ _ _ _) s1) as [[|[]] s2]; simpl in *; by rewrite ?H2.
Qed.

Lemma audit_both_err kind local p s e s' :
  audit_both kind local p s = (Err e, s') → (record kind None None p (cl_world s)).1 = Err e.
Proof.
  intros H. unfold audit_both in H. apply bind_err in H as [H|([] & s1 & H1 & H)].
  { unfold on_world in H. by destruct (record _ _ _ _ _) as [r w]; simplify_eq/=. }
  exfalso. apply bind_err in H as [H|(? & ? & _ & H)]; [|done].
  destruct (attempt_append_returns local None None p (cl_world s1)) as (r & w' & Hr).
  revert H Hr. unfold attempt_in, attempt, on_world. simpl. destruct (append _ _ _ _ _) as [[|[]] ?]; simplify_eq/=; done.
Qed.

(** What a successful join returns. *)
Definition joined (id addr : string) (t : Z) (rows : list PeerRow) : PeerInfo :=
  {| peer_node_id := id; peer_addr := addr; peer_status := PsAlive; peer_last_seen := t;
     peer_joined_at := from_option (parse_ts ∘ pe_joined_at) t (find (λ r, bool_decide (pe_node_id r = id)) rows) |}.

(** Joining rejects a blank id or address before it touches anything; otherwise
    the peer is alive as of now at its new address, its first join time is kept,
    every other row is as it was, no id is listed twice, and what is returned is
    the row now in the table. The only other outcomes are a failed statement and a
    panic of the audit sink. *)
Theorem join_upserts_one_peer (L : TsLaws E) id addr s :
  let t := clock (w_ticks (cl_world s)) in
  let p := peers_upsert id addr s in
  ts_range t →
  match p.1 with
  | Ok (Ok info) =>
      info = joined id addr t (cl_peers s) ∧ is_blank id = false ∧ is_blank addr = false ∧
      into_info <$> find (λ r, bool_decide (pe_node_id r = id)) (cl_peers p.2) = Some info ∧
      filter (λ r, pe_node_id r ≠ id) (cl_peers p.2) = filter (λ r, pe_node_id r ≠ id) (cl_peers s) ∧
      (peers_inv s → peers_inv p.2)
  | Ok (Err (CInvalidAddr _)) => (is_blank id || is_blank addr = true) ∧ p.2 = s
  | Ok (Err e) => ∃ what, e = CStorage what ∧ ∃ n, db_fault n = true
  | Err e => ∃ payload w, (record SinkClusterPeerJoined None None payload w).1 = Err e
  end.
Proof.
  intros t p Ht. unfold p, peers_upsert.
  destruct (is_blank id) eqn:Hid; [done|]. destruct (is_blank addr) eqn:Haddr; [done|].
  cbv beta iota delta [mbind M_bind gets modify]. cbn [on_world now].
  step_stmt; [by simpl; eauto|]. step_stmt; [by simpl; eauto|].
  change (cl_peers (db_step (set_peer_rows ?rows _))) with rows. rewrite upsert_peer_rows_find.
  match goal with |- context [audit_both ?k ?l ?pl ?st] =>
    pose proof (audit_both_peers k l pl st) as Hp; destruct (audit_both k l pl st) as [[[]|e] s3] eqn:Ha end; simpl in *.
  - rewrite Hp, upsert_peer_rows_find, upsert_peer_rows_others. simpl.
    assert (∀ rows, into_info {| pe_node_id := id; pe_addr := addr; pe_status := "alive"; pe_last_seen := ts_format t;
      pe_joined_at := from_option pe_joined_at (ts_format t) (find (λ r, bool_decide (pe_node_id r = id)) rows) |} = joined id addr t rows) as Hj.
    { intros rows. unfold into_info, joined, parse_ts; simpl. rewrite ts_roundtrip by done. f_equal.
      destruct (find _ rows); simpl; [done|]. by rewrite ts_roundtrip. }
    rewrite Hj. repeat split; try done. unfold peers_inv. rewrite Hp, upsert_peer_rows_ids.
    case_bool_decide as Hin; [done|]. intros Hnd. apply NoDup_app. split; [done|]. split; [set_solver|apply NoDup_singleton].
  - apply audit_both_err in Ha. eauto.
Qed.

(** * Gossip *)

Context {H : Http}.

(** Whether request [k] to a peer proves it alive. *)
Definition answers (k : nat) (r : PeerRow) : bool :=
  match http_send k (build_version_url (pe_addr r)) None with
  | Some (st, _) => is_success st
  | None => false
  end.
(** A round: the peers that are not dead are asked in order, those that answer are
    alive as of [at_]. *)
Fixpoint round_spec (at_ : string) (k : nat) (rows : list PeerRow) : list PeerRow :=
  match rows with
  | [] => []
  | r :: rows' =>
      if decide (pe_status r = "dead") then r :: round_spec at_ k rows'
      else (if answers k r then touch_row (pe_node_id r) at_ r else r) :: round_spec at_ (S k) rows'
  end.

Lemma status_parse_dead st : status_parse st = PsDead ↔ st = "dead".
Proof. unfold status_parse. repeat case_decide; naive_solver. Qed.

Lemma touch_row_other id at_ r : pe_node_id r ≠ id → touch_row id at_ r = r.
Proof. intros. unfold touch_row. by case_decide. Qed.
Lemma touch_rows_other id at_ (rows : list PeerRow) : id ∉ pe_node_id <$> rows → touch_row id at_ <$> rows = rows.
Proof.
  induction rows as [|r rows IH]; [done|]. rewrite !fmap_cons, not_elem_of_cons. intros [Hr Hid].
  by rewrite IH, touch_row_other by done.
Qed.
Lemma touch_row_id id at_ r : pe_node_id (touch_row id at_ r) = pe_node_id r.
Proof. unfold touch_row. by case_decide. Qed.

Lemma round_loop t rows1 rows2 s :
  (∀ n, db_fault n = false) → NoDup (pe_node_id <$> (rows1 ++ rows2)) → cl_peers s = rows1 ++ rows2 →
  ∃ s', for_each (ping t) (into_info <$> rows2) s = (Ok tt, s') ∧
    cl_peers s' = rows1 ++ round_spec (ts_format t) (cl_http s) rows2 ∧ w_ticks (cl_world s') = w_ticks (cl_world s).
Proof.
  intros Hdb. revert rows1 s. induction rows2 as [|r rows2 IH]; intros rows1 s Hnd Hs; [by eexists|].
  rewrite fmap_cons. cbn [for_each round_spec]. unfold mbind at 1, M_bind, ping at 1.
  assert (NoDup (pe_node_id <$> ((rows1 ++ [r]) ++ rows2))) as Hnd' by (by rewrite <-app_assoc).
  cbn [into_info peer_status peer_addr peer_node_id].
  destruct (decide (pe_status r = "dead")) as [Hdead|Hdead].
  - rewrite decide_True by (by apply status_parse_dead). simpl.
    destruct (IH (rows1 ++ [r]) s) as (s' & Hr & Hp & Ht); [done|by rewrite <-app_assoc|].
    exists s'. rewrite Hr, Hp, Ht. by rewrite <-app_assoc.
  - rewrite decide_False by (by rewrite status_parse_dead). unfold answers.
    cbv beta iota delta [mbind M_bind http_get gets modify mret M_ret].
    destruct (http_send _ _ _) as [[st b]|]; [destruct (is_success st)|].
    + unfold touch_seen. rewrite cstmt_run, Hdb. cbv beta iota delta [mbind M_bind modify mret M_ret].
      match goal with |- context [for_each _ _ ?s1] => destruct (IH (rows1 ++ [touch_row (pe_node_id r) (ts_format t) r]) s1) as (s' & Hr & Hp & Ht) end.
      * rewrite !fmap_app in Hnd' |- *. simpl in *. by rewrite touch_row_id.
      * simpl. rewrite Hs, fmap_app, fmap_cons, <-app_assoc. rewrite fmap_app, fmap_cons in Hnd.
        apply NoDup_app in Hnd as (_ & Hd & Hnd). apply NoDup_cons in Hnd as [Hr _].
        rewrite !touch_rows_other; [done|done|]. intros Hin. apply (Hd _ Hin). set_solver.
      * exists s'. rewrite Hr, Hp, Ht. by rewrite <-app_assoc.
    + destruct (IH (rows1 ++ [r]) (bump_http s)) as (s' & Hr & Hp & Ht); [done|by rewrite <-app_assoc|].
      exists s'. rewrite Hr, Hp, Ht. by rewrite <-app_assoc.
    + destruct (IH (rows1 ++ [r]) (bump_http s)) as (s' & Hr & Hp & Ht); [done|by rewrite <-app_assoc|].
      exists s'. rewrite Hr, Hp, Ht. by rewrite <-app_assoc.
Qed.

(** A round: every peer that is not dead is asked, in the order they joined. *)
Lemma run_round_spec s :
  (∀ n, db_fault n = false) → peers_inv s →
  ∃ s', run_round s = (Ok tt, s') ∧ w_ticks (cl_world s') = S (w_ticks (cl_world s)) ∧
  cl_peers s' = round_spec (ts_format (clock (w_ticks (cl_world s)))) (cl_http s) (cl_peers s).
Proof.
  intros Hdb Hinv. unfold run_round, peers_list. unfold mbind at 1, M_bind. rewrite cstmt_run, Hdb.
  cbv beta iota delta [mbind M_bind gets mret M_ret]. cbn [on_world now].
  match goal with |- context [for_each (ping ?t) _ ?s1] => destruct (round_loop t [] (cl_peers (db_step s)) s1) as (s' & Hr & Hp & Ht) end;
    [done..|].
  exists s'. by rewrite Hr, Hp, Ht.
Qed.

Lemma round_spec_stamped {L : TsLaws E} t k rows : ts_range t → Forall stamped rows → Forall stamped (round_spec (ts_format t) k rows).
Proof.
  intros Ht Hall. revert k. induction Hall as [|r rows Hr Hall IH]; intros k; simpl; [done|].
  case_decide; constructor; auto. destruct (answers k r); [|done].
  unfold touch_row. rewrite decide_True by done. by eapply seen_at_stamped.
Qed.

Lemma round_spec_dead at_ k rows i r :
  rows !! i = Some r → pe_status r = "dead" → round_spec at_ k rows !! i = Some r.
Proof.
  revert k i. induction rows as [|r' rows IH]; intros k i Hi Hd; [done|]. simpl.
  destruct i as [|i]; simplify_eq/=; case_decide; simpl; eauto; done.
Qed.
Lemma aged_dead now_ stale_ms dead_ms r : pe_status r = "dead" → aged now_ stale_ms dead_ms r = r.
Proof. intros Hd. unfold aged, next_status. rewrite Hd. simpl. rewrite <-Hd. apply with_status_id. Qed.

Lemma gossip_tick_rows {L : TsLaws E} stale_after dead_after s :
  let t2 := clock (S (w_ticks (cl_world s))) in
  let rows := round_spec (ts_format (clock (w_ticks (cl_world s)))) (cl_http s) (cl_peers s) in
  (∀ n, db_fault n = false) → peers_inv s → Forall stamped rows → (0 ≤ stale_after)%Z → (0 ≤ dead_after)%Z →
  ts_range (t2 - 1000 * stale_after) → ts_range (t2 - 1000 * (stale_after + dead_after)) →
  (gossip_tick stale_after dead_after s).1 = Ok tt ∧
  cl_peers (gossip_tick stale_after dead_after s).2 = aged t2 (1000 * stale_after) (1000 * dead_after) <$> rows.
Proof.
  intros t2 rows Hdb Hinv Hst Hs Hd Hr1 Hr2. destruct (run_round_spec s Hdb Hinv) as (s1 & Hround & Hticks & Hrows).
  unfold gossip_tick, mbind, M_bind. rewrite Hround. cbn [on_world now]. change (world_of s1) with (cl_world s1). rewrite Hticks.
  rewrite sweep_run by done. change (cl_world (put_world ?w _)) with w. rewrite !Hdb. cbn [fst snd cl_peers set_peer_rows].
  change (cl_peers (put_world _ s1)) with (cl_peers s1). rewrite Hrows. rewrite Z.mul_add_distr_l in Hr2 |- *.
  destruct (roll_spec rows t2 (1000 * stale_after) (1000 * dead_after)) as [Haged _]; [done..|lia|].
  split; [done|]. simpl in Haged. exact Haged.
Qed.

(** One tick of the gossip loop: every peer that is not dead is asked once, those
    that answer with success are alive as of the round, and then every peer is aged
    by its silence; so a dead peer is never asked again and stays dead, and only a
    join brings it back. *)
Theorem gossip_tick_behaviour (L : TsLaws E) stale_after dead_after s :
  let t1 := clock (w_ticks (cl_world s)) in
  let t2 := clock (S (w_ticks (cl_world s))) in
  (∀ n, db_fault n = false) → peers_inv s → Forall stamped (cl_peers s) → (0 ≤ stale_after)%Z → (0 ≤ dead_after)%Z →
  ts_range t1 → ts_range (t2 - 1000 * stale_after) → ts_range (t2 - 1000 * (stale_after + dead_after)) →
  let p := gossip_tick stale_after dead_after s in
  p.1 = Ok tt ∧
  cl_peers p.2 = aged t2 (1000 * stale_after) (1000 * dead_after) <$> round_spec (ts_format t1) (cl_http s) (cl_peers s) ∧
  ∀ i r, cl_peers s !! i = Some r → pe_status r = "dead" → cl_peers p.2 !! i = Some r.
Proof.
  intros t1 t2 Hdb Hinv Hst Hs Hd Ht1 Hr1 Hr2 p.
  destruct (gossip_tick_rows stale_after dead_after s) as [Hok Hrows]; [by try apply round_spec_stamped..|].
  split; [done|]. unfold p. rewrite Hrows. split; [done|].
  intros i r Hi Hdead. rewrite list_lookup_fmap, (round_spec_dead _ _ _ _ _ Hi Hdead). simpl. by rewrite aged_dead.
Qed.

(** [web_ui.rs] behind an address: a request below [/api/v1] can succeed only if it
    reaches a handler. *)
Definition peer_is_daemon (token addr : string) : Prop :=
  ∀ n path presented st body,
    http_send n (http_addr (trim_end_char slash addr) +:+ "/api/v1" +:+ path) presented = Some (st, body) →
    is_success st = true → api_reaches token path presented = true.

Lemma daemon_never_answers token k r : peer_is_daemon token (pe_addr r) → answers k r = false.
Proof.
  intros Hd. unfold answers. destruct (http_send _ _ _) as [[st b]|] eqn:Hsend; [|done].
  destruct (is_success st) eqn:Hst; [|done]. by specialize (Hd _ "/version" _ _ _ Hsend Hst).
Qed.

Lemma round_spec_daemons token at_ k rows : Forall (λ r, peer_is_daemon token (pe_addr r)) rows → round_spec at_ k rows = rows.
Proof.
  intros Hall. revert k. induction Hall as [|r rows Hr Hall IH]; intros k; simpl; [done|].
  rewrite !IH, (daemon_never_answers token) by done. by case_decide.
Qed.

(** The loop asks for [/api/v1/version], which no route of the API serves: when
    the peers are daemons, a tick finds none of them alive. Each is aged by the time
    since it joined, so every healthy peer goes stale and then dead. *)
Theorem daemons_age_to_death (L : TsLaws E) token stale_after dead_after s :
  let t2 := clock (S (w_ticks (cl_world s))) in
  (∀ n, db_fault n = false) → peers_inv s → Forall stamped (cl_peers s) → (0 ≤ stale_after)%Z → (0 ≤ dead_after)%Z →
  ts_range (t2 - 1000 * stale_after) → ts_range (t2 - 1000 * (stale_after + dead_after)) →
  Forall (λ r, peer_is_daemon token (pe_addr r)) (cl_peers s) →
  cl_peers (gossip_tick stale_after dead_after s).2 = aged t2 (1000 * stale_after) (1000 * dead_after) <$> cl_peers s.
Proof.
  intros t2 Hdb Hinv Hst Hs Hd Hr1 Hr2 Hall.
  destruct (gossip_tick_rows stale_after dead_after s) as [_ Hrows];
    [done|done|by rewrite (round_spec_daemons token)|done..|].
  rewrite Hrows. by rewrite (round_spec_daemons token).
Qed.

(** * What every operation keeps *)

Definition known_status (r : PeerRow) : Prop := pe_status r ∈ ["alive"; "stale"; "dead"].
Definition table_ok (s : ClusterState) : Prop :=
  peers_inv s ∧ Forall (λ r, stamped r ∧ known_status r) (cl_peers s).

Class TableSafe {A} (c : C A) : Prop := table_safe s : table_ok s → table_ok (c s).2.

#[export] Instance table_safe_ret {A} (a : A) : TableSafe (mret a).
Proof. by intros s. Qed.
#[export] Instance table_safe_gets {A} (f : ClusterState → A) : TableSafe (gets f).
Proof. by intros s. Qed.
#[export] Instance table_safe_bind {A B} (c : C A) (k : A → C B) : TableSafe c → (∀ a, TableSafe (k a)) → TableSafe (c ≫= k).
Proof.
  intros Hc Hk s Hs. unfold mbind, M_bind. specialize (Hc s Hs). destruct (c s) as [[a|e] s1]; [|done]. by apply Hk.
Qed.
Lemma table_ok_ext s s' : cl_peers s' = cl_peers s → table_ok s → table_ok s'.
Proof. unfold table_ok, peers_inv. by intros ->. Qed.
#[export] Instance table_safe_on_world {A} (c : D A) : TableSafe (on_world c).
Proof. intros s. apply table_ok_ext, on_world_peers. Qed.
#[export] Instance table_safe_audit_both kind local p : TableSafe (audit_both kind local p).
Proof. intros s. apply table_ok_ext, audit_both_peers. Qed.
#[export] Instance table_safe_cstmt {A} what (k : CR A) : TableSafe k → TableSafe (cstmt what k).
Proof. intros Hk s Hs. rewrite cstmt_run. destruct (db_fault _); [by eapply table_ok_ext|]. apply Hk. by eapply table_ok_ext. Qed.
#[export] Instance table_safe_for_each {A} (body : A → C unit) l : (∀ a, TableSafe (body a)) → TableSafe (for_each body l).
Proof. intros Hb. induction l; cbn [for_each]; apply _. Qed.
Lemma table_safe_modify f : (∀ s, table_ok s → table_ok (f s)) → TableSafe (modify f).
Proof. intros Hf s. apply Hf. Qed.

(** A change of the rows that keeps their ids. *)
Lemma table_ok_map f s :
  (∀ r, pe_node_id (f r) = pe_node_id r) → (∀ r, stamped r ∧ known_status r → stamped (f r) ∧ known_status (f r)) →
  table_ok s → table_ok (set_peer_rows (f <$> cl_peers s) s).
Proof.
  intros Hid Hf [Hinv Hall]. unfold table_ok, peers_inv. simpl. rewrite <-list_fmap_compose.
  rewrite (list_fmap_ext (pe_node_id ∘ f) pe_node_id (cl_peers s) (λ _ r _, Hid r)). split; [done|].
  apply Forall_fmap. eapply Forall_impl; [done|]. intros r. apply Hf.
Qed.
Lemma roll_row_ok from to cut r : to ∈ ["alive"; "stale"; "dead"] →
  stamped r ∧ known_status r → stamped (roll_row from to cut r) ∧ known_status (roll_row from to cut r).
Proof. intros Hto [Hs Hk]. unfold roll_row. by destruct (due _ _ _). Qed.
Lemma roll_row_id from to cut r : pe_node_id (roll_row from to cut r) = pe_node_id r.
Proof. unfold roll_row. by destruct (due _ _ _). Qed.

Section TableSafety.
Context {L : TsLaws E} (Hclock : ∀ n, ts_range (clock n)).

(** [now] yields a reading of the clock. *)
Lemma table_safe_now {A} (k : Z → C A) : (∀ n, TableSafe (k (clock n))) → TableSafe (on_world now ≫= k).
Proof. intros Hk s Hs. unfold mbind, M_bind. cbn [on_world now]. apply Hk. by eapply table_ok_ext. Qed.

Lemma table_safe_touch id t : ts_range t → TableSafe (touch_seen id t).
Proof.
  intros Ht. unfold touch_seen. apply table_safe_cstmt, table_safe_bind; [|apply _]. apply table_safe_modify. intros s.
  apply table_ok_map; [apply touch_row_id|]. intros r Hr. unfold touch_row. case_decide; [|done].
  split; [by eapply seen_at_stamped|]. unfold known_status. set_solver.
Qed.
Lemma table_safe_ping n peer : TableSafe (ping (clock n) peer).
Proof.
  unfold ping, http_get. case_decide; [apply _|]. apply table_safe_bind.
  - repeat (apply table_safe_bind; [|intros ?]); try apply _. by apply table_safe_modify.
  - intros [[st b]|]; [|apply _]. destruct (is_success st); [|apply _].
    apply table_safe_bind; [|apply _]. by apply table_safe_touch.
Qed.
Lemma table_safe_round : TableSafe run_round.
Proof.
  unfold run_round, peers_list. apply table_safe_bind; [apply _|]. intros [peers|]; [|apply _].
  apply table_safe_now. intros n. apply table_safe_for_each. apply table_safe_ping.
Qed.
Lemma table_safe_sweep now_ a b : TableSafe (peers_sweep now_ a b).
Proof.
  clear Hclock. intros s Hs. unfold peers_sweep. rewrite cstmt_run. destruct (db_fault _); [by eapply table_ok_ext|].
  cbv beta iota delta [mbind M_bind gets modify roll]. change (cl_peers (db_step s)) with (cl_peers s).
  assert (∀ cut, table_ok (set_peer_rows (roll_row "alive" "stale" cut <$> cl_peers s) (db_step s))) as H1.
  { intros cut. eapply table_ok_ext; [|apply (table_ok_map (roll_row "alive" "stale" cut)); [apply roll_row_id| |exact Hs]]; [done|].
    intros r. apply roll_row_ok. set_solver. }
  rewrite cstmt_run. destruct (db_fault _); [eapply table_ok_ext; [|apply H1]; done|].
  eapply table_ok_ext; [|eapply (table_ok_map (roll_row "stale" "dead" (ts_format (now_ - 1000 * (Z.max 0 a + Z.max 0 b))))); [apply roll_row_id| |apply H1]]; [done|].
  intros r. apply roll_row_ok. set_solver.
Qed.
Lemma table_safe_upsert id addr : TableSafe (peers_upsert id addr).
Proof.
  unfold peers_upsert. destruct (is_blank id); [apply _|]. destruct (is_blank addr); [apply _|].
  apply table_safe_now. intros n. apply table_safe_cstmt, table_safe_bind.
  - apply table_safe_modify. intros s [Hinv Hall]. split.
    + unfold peers_inv. simpl. rewrite upsert_peer_rows_ids. case_bool_decide; [done|]. apply NoDup_app.
      split; [done|]. split; [set_solver|apply NoDup_singleton].
    + assert (∀ j, ts_range (clock n) → let r := {| pe_node_id := id; pe_addr := addr; pe_status := "alive"; pe_last_seen := ts_format (clock n); pe_joined_at := j |} in
        stamped r ∧ known_status r) as Hnew.
      { intros j Ht. split; [by eapply seen_at_stamped|unfold known_status; set_solver]. }
      simpl. unfold upsert_peer_rows. case_bool_decide; [|apply Forall_app; split; [done|]; constructor; [by apply Hnew|constructor]].
      apply Forall_fmap. eapply Forall_impl; [done|]. intros r Hr. unfold compose, join_row. case_decide; [by apply Hnew|done].
  - intros []. apply table_safe_cstmt, table_safe_bind; [apply _|]. intros [row|]; apply _.
Qed.
Lemma table_safe_remove id : TableSafe (peers_remove id).
Proof.
  unfold peers_remove. apply table_safe_cstmt. intros s [Hinv Hall]. unfold mbind at 1, M_bind, gets.
  set (c := audit_both _ _ _). unfold mbind at 1, M_bind, modify.
  apply (table_safe_bind (if bool_decide (id ∈ pe_node_id <$> cl_peers s) then c else mret tt) (λ _, mret (Ok (bool_decide (id ∈ pe_node_id <$> cl_peers s)))));
    [case_bool_decide; apply _|apply _|].
  split; simpl.
  - eapply sublist_NoDup; [exact Hinv|]. apply fmap_sublist, sublist_filter.
  - rewrite Forall_forall in Hall |- *. intros r [_ Hr]%list_elem_of_filter. auto.
Qed.

(** The operations on the table, and a history of them. *)
Inductive peer_op : Type :=
| OpJoin (id addr : string)
| OpLeave (id : string)
| OpTick (stale_after dead_after : Z).
Definition run_op (op : peer_op) : C unit :=
  match op with
  | OpJoin id addr => _ ← peers_upsert id addr; mret tt
  | OpLeave id => _ ← peers_remove id; mret tt
  | OpTick a b => gossip_tick a b
  end.
Fixpoint run_ops (ops : list peer_op) (s : ClusterState) : ClusterState :=
  match ops with [] => s | op :: ops' => run_ops ops' (run_op op s).2 end.
End TableSafety.

(** Whatever joins, departures, gossip ticks, failed statements and unreachable
    peers follow each other, no peer is listed twice, every time stamp is one the
    store wrote (so the comparison of the stamps' text is that of the times), and
    every status is one of the three. *)
Theorem peer_table_stays_ok (L : TsLaws E) ops s :
  (∀ n, ts_range (clock n)) → table_ok s → table_ok (run_ops ops s).
Proof.
  intros Hclock. revert s. induction ops as [|op ops IH]; intros s Hs; [done|]. simpl. apply IH.
  destruct op as [id addr|id|a b]; simpl.
  - apply (table_safe_bind _ _ (table_safe_upsert Hclock id addr)); [apply _|done].
  - apply (table_safe_bind _ _ (table_safe_remove id)); [apply _|done].
  - apply (table_safe_bind _ _ (table_safe_round Hclock)); [|done]. intros _. apply table_safe_bind; [apply _|]. intros t.
    apply table_safe_bind; [apply table_safe_sweep|apply _].
Qed.

(** * The container view *)

(** What request [k] to a peer contributes. *)
Definition reported (token : option string) (k : nat) (p : PeerInfo) : list ContainerSummary :=
  match http_send k (build_containers_url (peer_addr p)) token with
  | Some (st, body) => if is_success st then unwrap_or [] (containers_from_json body) else []
  | None => []
  end.
Fixpoint view_spec (token : option string) (k : nat) (peers : list PeerInfo) : list (string * ContainerSummary) :=
  match peers with
  | [] => []
  | p :: peers' => ((λ c, (peer_node_id p, c)) <$> reported token k p) ++ view_spec token (S k) peers'
  end.

Lemma fetch_run p token s :
  ∃ r, fetch_peer_containers p token s = (Ok r, bump_http s) ∧
    match r with Ok items => items | Err _ => [] end = reported token (cl_http s) p.
Proof.
  unfold fetch_peer_containers, http_get, reported. cbv beta iota delta [mbind M_bind gets modify mret M_ret].
  destruct (http_send _ _ _) as [[st body]|]; [|by eexists].
  destruct (is_success st); simpl; [|by eexists]. destruct (containers_from_json body); by eexists.
Qed.

Lemma aggregate_peers_run peers token s :
  ∃ s', aggregate_peers peers token s = (Ok (view_spec token (cl_http s) peers), s') ∧
    cl_peers s' = cl_peers s ∧ cl_http s' = cl_http s + length peers.
Proof.
  revert s. induction peers as [|p peers IH]; intros s; simpl; [eexists; repeat split; lia|].
  destruct (fetch_run p token s) as (r & Hr & Hrep). destruct (IH (bump_http s)) as (s' & Hs' & Hp & Hh).
  exists s'. unfold mbind, M_bind. rewrite Hr, Hs'. simpl in *. rewrite <-Hrep, Hp, Hh. split; [by destruct r|]. split; [done|lia].
Qed.

Lemma view_spec_entries token k peers n c : (n, c) ∈ view_spec token k peers →
  ∃ p k', p ∈ peers ∧ n = peer_node_id p ∧ c ∈ reported token k' p.
Proof.
  revert k. induction peers as [|p peers IH]; intros k; simpl; [by intros ?%elem_of_nil|].
  rewrite elem_of_app. intros [Hin|Hin].
  - apply list_elem_of_fmap in Hin as (c' & [= -> ->] & Hc). exists p, k. set_solver.
  - destruct (IH _ Hin) as (p' & k' & Hp & -> & Hc). exists p', k'. set_solver.
Qed.

Lemma aggregate_run local cs peers token s :
  ∃ s', aggregate_containers local cs peers token s =
      (Ok (((λ c, (local, c)) <$> cs) ++ view_spec token (cl_http s) (alive_or_stale peers)), s') ∧
    cl_peers s' = cl_peers s ∧ cl_http s' = cl_http s + length (alive_or_stale peers).
Proof.
  destruct (aggregate_peers_run (alive_or_stale peers) token s) as (s' & Hr & Hrest).
  exists s'. unfold aggregate_containers, mbind, M_bind. by rewrite Hr.
Qed.

Lemma daemon_reports_nothing token k p : peer_is_daemon token (peer_addr p) → reported None k p = [].
Proof.
  intros Hd. unfold reported. destruct (http_send _ _ _) as [[st b]|] eqn:Hsend; [|done].
  destruct (is_success st) eqn:Hst; [|done]. specialize (Hd _ "/containers" _ _ _ Hsend Hst).
  unfold api_reaches in Hd. by rewrite andb_false_r in Hd.
Qed.

(** In the cluster view every container is attributed to this node, which reported
    it, or to a peer that is not dead and whose API answered with success and a list
    containing it; the local ones come first and none is dropped. *)
Theorem view_attributes_containers local cs peers token s :
  ∃ l s', aggregate_containers local cs peers token s = (Ok (((λ c, (local, c)) <$> cs) ++ l), s') ∧
  cl_peers s' = cl_peers s ∧ cl_http s' = cl_http s + length (alive_or_stale peers) ∧
  ∀ n c, (n, c) ∈ l → ∃ p k st body found, p ∈ peers ∧ peer_status p ≠ PsDead ∧ n = peer_node_id p ∧
    http_send k (build_containers_url (peer_addr p)) token = Some (st, body) ∧ is_success st = true ∧
    containers_from_json body = Some found ∧ c ∈ found.
Proof.
  destruct (aggregate_run local cs peers token s) as (s' & Hr & Hp & Hh). eexists _, s'. split; [done|]. split; [done|].
  split; [done|]. intros n c (p & k & Hin & -> & Hc)%view_spec_entries.
  apply list_elem_of_filter in Hin as [Hst Hin]. revert Hc. unfold reported.
  destruct (http_send _ _ _) as [[st body]|] eqn:Hsend; [|by intros ?%elem_of_nil].
  destruct (is_success st) eqn:Hok; [|by intros ?%elem_of_nil].
  destruct (containers_from_json body) as [found|] eqn:Hj; [|by intros ?%elem_of_nil].
  intros Hc. exists p, k, st, body, found. repeat split; try done. by destruct Hst as [->| ->].
Qed.

(** Without a token the view of a cluster of daemons is the local one: each peer's
    API rejects the request. *)
Theorem tokenless_view_is_local token local cs peers s :
  Forall (λ p, peer_is_daemon token (peer_addr p)) peers →
  (aggregate_containers local cs peers None s).1 = Ok ((λ c, (local, c)) <$> cs).
Proof.
  intros Hall. destruct (aggregate_run local cs peers None s) as (s' & -> & _). simpl.
  assert (∀ k ps, Forall (λ p, peer_is_daemon token (peer_addr p)) ps → view_spec None k ps = []) as Hnil.
  { intros k ps Hps. revert k. induction Hps as [|p ps Hp Hps IH]; intros k; simpl; [done|].
    by rewrite IH, (daemon_reports_nothing token). }
  rewrite Hnil, app_nil_r; [done|]. rewrite Forall_forall in Hall |- *. intros p [_ Hin]%list_elem_of_filter. auto.
Qed.
End Theorems.

(** * Witnesses *)

(** A cluster of two peers: one answers a ping, the other is a daemon. *)
Definition example_http : Http := {|
  http_send := λ _ url tok,
    if starts_with url "http://up/" then Some (200%N, "ok")
    else if bool_decide (url = "http://node/api/v1/containers" ∧ tok = Some "secret") then Some (200%N, "[]")
    else Some (404%N, "");
  containers_from_json := λ s, if decide (s = "[]") then Some [] else None |}.
Definition example_row (id addr st : string) (t : Z) : PeerRow :=
  {| pe_node_id := id; pe_addr := addr; pe_status := st; pe_last_seen := ts_format (Env := clock_env) t;
     pe_joined_at := ts_format (Env := clock_env) t |}.
Definition example_cluster (rows : list PeerRow) : ClusterState :=
  {| cl_world := empty_world; cl_peers := rows; cl_http := 0 |}.

Lemma stamped_example id addr st t : ts_range t → stamped (E := clock_env) (example_row id addr st t).
Proof. intros Ht. by apply (seen_at_stamped (E := clock_env) _ t). Qed.

Lemma node_is_daemon : peer_is_daemon (H := example_http) "secret" "http://node".
Proof.
  intros n path presented st body Hsend Hst.
  change (http_addr (trim_end_char slash "http://node")) with "http://node" in Hsend. cbn [example_http http_send] in Hsend.
  change (starts_with _ "http://up/") with false in Hsend. case_bool_decide as Hu; [|by simplify_eq/=].
  destruct Hu as [Hu ->]. by apply (str_app_inj_l "http://node/api/v1" path "/containers") in Hu as ->.
Qed.

Definition example_rows : list PeerRow :=
  [example_row "a" "http://up" "alive" 0; example_row "b" "http://node" "alive" 100000; example_row "c" "http://up" "dead" 0].
Lemma example_rows_stamped : Forall (stamped (E := clock_env)) example_rows.
Proof. repeat constructor; apply stamped_example; unfold ts_range; lia. Qed.
Lemma example_rows_inv : peers_inv (example_cluster example_rows).
Proof. apply (bool_decide_unpack _). vm_compute. done. Qed.

Lemma peer_table_stays_ok_witness :
  table_ok (E := clock_slow_env) (run_ops (E := clock_slow_env) (K := NoopAuditSink) (H := example_http)
    [OpJoin "a" "http://up"; OpJoin "b" "http://node"; OpTick 60 240; OpLeave "a"] (example_cluster [])).
Proof.
  apply (peer_table_stays_ok (E := clock_slow_env) (K := NoopAuditSink) (H := example_http) clock_slow_env_laws).
  - intros n. unfold ts_range. cbn [clock clock_slow_env]. lia.
  - split; [constructor|constructor].
Defined.

Lemma sweep_ages_by_silence_witness :
  let p := peers_sweep (E := clock_env) 310000 60 240 (example_cluster example_rows) in
  p.1 = Ok (Ok 3%Z) ∧ pe_status <$> cl_peers p.2 = ["dead"; "stale"; "dead"].
Proof.
  intros p. destruct (sweep_ages_by_silence (E := clock_env) _ 310000 60 240 (example_cluster example_rows)) as [H1 H2];
    [lia|lia|unfold ts_range; lia|unfold ts_range; lia|apply example_rows_stamped|].
  unfold p. rewrite H1, H2. split; vm_compute; reflexivity.
Defined.

Lemma join_upserts_one_peer_witness :
  let p := peers_upsert (E := clock_env) (K := NoopAuditSink) "b" "http://node:2" (example_cluster example_rows) in
  into_info (E := clock_env) <$> find (λ r, bool_decide (pe_node_id r = "b")) (cl_peers p.2) =
  Some {| peer_node_id := "b"; peer_addr := "http://node:2"; peer_status := PsAlive; peer_last_seen := 1000; peer_joined_at := 100000 |}.
Proof.
  intros p. assert (is_ok p.1 = true) as Hok by (vm_compute; reflexivity).
  pose proof (join_upserts_one_peer (E := clock_env) (K := NoopAuditSink) _ "b" "http://node:2" (example_cluster example_rows)) as Hj.
  assert (p.1 = Ok (Ok (joined (E := clock_env) "b" "http://node:2" 1000 example_rows))) as Hp by (vm_compute; reflexivity).
  unfold p in *. cbv zeta in Hj. rewrite Hp in Hj. destruct Hj as (_ & _ & _ & Hf & _); [unfold ts_range; simpl; lia|].
  rewrite Hf. vm_compute. reflexivity.
Defined.

Lemma gossip_tick_behaviour_witness :
  let p := gossip_tick (E := clock_env) (H := example_http) 60 240 (example_cluster example_rows) in
  p.1 = Ok tt ∧ parse_ts (E := clock_env) ∘ pe_last_seen <$> cl_peers p.2 = [1000; 100000; 0]%Z ∧
  cl_peers p.2 !! 2 = Some (example_row "c" "http://up" "dead" 0).
Proof.
  intros p. destruct (gossip_tick_behaviour (E := clock_env) (H := example_http) _ 60 240 (example_cluster example_rows))
    as (H1 & H2 & H3); [done|apply example_rows_inv|apply example_rows_stamped|lia|lia|unfold ts_range; simpl; lia..|].
  split; [exact H1|]. split; [unfold p; rewrite H2; vm_compute; reflexivity|].
  apply H3; [reflexivity|reflexivity].
Defined.

Definition lone_daemon : ClusterState := example_cluster [example_row "b" "http://node" "alive" (-400000)].

Lemma daemons_age_to_death_witness :
  pe_status <$> cl_peers (gossip_tick (E := clock_env) (H := example_http) 60 240 lone_daemon).2 = ["dead"].
Proof.
  rewrite (daemons_age_to_death (E := clock_env) (H := example_http) _ "secret" 60 240 lone_daemon);
    [vm_compute; reflexivity|done|apply NoDup_singleton| |lia|lia|unfold ts_range; simpl; lia..|].
  - constructor; [|constructor]. apply stamped_example. unfold ts_range. lia.
  - constructor; [exact node_is_daemon|constructor].
Defined.

Lemma tokenless_view_is_local_witness :
  (aggregate_containers (H := example_http) "here" []
    [{| peer_node_id := "b"; peer_addr := "http://node"; peer_status := PsAlive; peer_last_seen := 0; peer_joined_at := 0 |}]
    None (example_cluster [])).1 = Ok [].
Proof.
  apply (tokenless_view_is_local (H := example_http) "secret"). constructor; [exact node_is_daemon|constructor].
Defined.

(** The addresses a peer may be joined with name one Raft address. *)
Example normalized_addresses :
  normalize_addr_for_raft <$> ["node:7878"; "ws://node:7878/ipc"; " wss://node:7878/ipc/ "; "http://node:7878/"; "https://node:7878/ipc"]
  = ["node:7878"; "node:7878"; "node:7878"; "node:7878"; "node:7878"].
Proof. vm_compute. reflexivity. Qed.
