(* ===== verification/RaftNode.v ===== *)
(** The Raft node: [RaftNode] of [linpodx-cluster/src/election.rs], the hooks that
    connect it to gossip ([gossip.rs]) and the daemon's cluster handlers
    ([linpodx-daemon/src/dispatch/cluster.rs]).

    openraft is a parameter ([RaftEnv]): what its calls do to the engine, which the
    node reads through [eng_metrics]. While one operation of the node runs, the
    engine changes only through that operation's calls. The locks of the label and
    address maps are never poisoned: nothing panics while one is held. Error texts
    end before the text of a foreign error or of a [Debug] value. *)
From S2P Require Import Prelude Text Json Timestamps Common Database AuditKinds AuditLog Logging Embedding RaftStore Peers.

(** * Data *)

Inductive LeaderState : Type := LsLeader | LsFollower | LsCandidate | LsLearner | LsUnknown.
(** openraft's. *)
Inductive ServerState : Type := SvLearner | SvFollower | SvCandidate | SvLeader | SvShutdown.

#[export] Instance LeaderState_eq_dec : EqDecision LeaderState.
Proof. solve_decision. Defined.
#[export] Instance ServerState_eq_dec : EqDecision ServerState.
Proof. solve_decision. Defined.

Definition leader_state_from (s : ServerState) : LeaderState :=
  match s with
  | SvLeader => LsLeader
  | SvFollower => LsFollower
  | SvCandidate => LsCandidate
  | SvLearner => LsLearner
  | SvShutdown => LsUnknown
  end.

Record RaftStartConfig : Type := {
  rc_node_id : N;
  rc_node_label : string;
  rc_advertise_addr : string;
  rc_heartbeat_ms : N;
  rc_election_timeout_min_ms : N;
  rc_election_timeout_max_ms : N;
  rc_bootstrap_single_node : bool;
}.
Definition default_start_config : RaftStartConfig :=
  {| rc_node_id := 1; rc_node_label := "local"; rc_advertise_addr := "127.0.0.1:7878"; rc_heartbeat_ms := 250;
     rc_election_timeout_min_ms := 1500; rc_election_timeout_max_ms := 3000; rc_bootstrap_single_node := true |}.

Inductive RaftBootstrapDecision : Type := BdDisabled | BdBootstrapper | BdJoiner.
Definition bootstrap_single_node (d : RaftBootstrapDecision) : bool :=
  match d with BdBootstrapper => true | _ => false end.
Definition decide_raft_bootstrap (raft_enabled multi_node explicit_bootstrap : bool) : RaftBootstrapDecision :=
  if negb raft_enabled then BdDisabled
  else if negb multi_node then BdBootstrapper
  else if explicit_bootstrap then BdBootstrapper
  else BdJoiner.
(** The argument is the value of the environment variable. *)
Definition raft_bootstrap_env_enabled (value : option string) : bool :=
  match value with
  | Some v => bool_decide (to_lower (trim v) ∈ ["1"; "true"; "yes"; "on"])
  | None => false
  end.

(** [RaftMetrics], as far as the node reads it. *)
Record RaftMetrics : Type := {
  mt_leader : option N;
  mt_state : ServerState;
  mt_term : N;
  mt_last_log_index : option N;
  mt_voters : gset N;
  mt_learners : gset N;
  mt_addr : N → option string;
}.

Record MetricSnapshot : Type := {
  ms_leader : option N;
  ms_state : option ServerState;
  ms_term : N;
  ms_last_log_index : option N;
}.
Definition default_snapshot : MetricSnapshot := {| ms_leader := None; ms_state := None; ms_term := 0; ms_last_log_index := None |}.
Definition snapshot_from (m : RaftMetrics) : MetricSnapshot :=
  {| ms_leader := mt_leader m; ms_state := Some (mt_state m); ms_term := mt_term m; ms_last_log_index := mt_last_log_index m |}.

Record MembershipNodeView : Type := { mv_node_id : N; mv_label : option string; mv_addr : option string }.
Record MembershipSnapshot : Type := {
  mem_voters : list MembershipNodeView;
  mem_learners : list MembershipNodeView;
  mem_term : N;
}.
Inductive MembershipRole : Type := RoleVoter | RoleLearner.

(** The result of a membership call under its timeout. *)
Inductive CallResult : Type := CallDone | CallFailed (msg : string) | CallTimedOut.
Inductive InitResult : Type := InitDone | InitNotAllowed | InitFailed.

(** openraft, the standard library's [DefaultHasher] (whose algorithm is not
    specified) and chrono's [to_rfc3339]. *)
Class RaftEnv (T : RaftTypes) (G : Type) := {
  default_hash : string → N;
  to_rfc3339 : Z → string;
  eng_metrics : G → RaftMetrics;
  eng_store : G → StoreInner;
  eng_config_valid : RaftStartConfig → bool;
  eng_new : RaftStartConfig → StoreInner → option G;
  eng_initialize : N → string → G → InitResult * G;
  eng_add_learner : N → string → G → CallResult * G;
  eng_change_membership : gset N → G → CallResult * G;
  eng_client_write : AppData → G → Result string N * G;
}.

(** What openraft documents of the voters, which are those of every configuration of
    a joint one. A membership change has two steps: to the joint configuration of the
    last one and the given ids, and from there to the ids alone. When it succeeds, the
    ids are the voters. When it fails or does not finish in time, it may have changed
    nothing, or have stopped in the joint configuration, with the ids and some of the
    old voters ([kept]: all of them, unless the old configuration was itself joint), or
    have got through (none [kept]). Adding a learner and writing an entry leave the
    voters alone. *)
Class RaftEnvLaws {T G} (R : RaftEnv T G) : Prop := {
  change_done ids g g' : eng_change_membership ids g = (CallDone, g') → mt_voters (eng_metrics g') = ids;
  change_unfinished ids g r g' : eng_change_membership ids g = (r, g') → r ≠ CallDone →
    mt_voters (eng_metrics g') = mt_voters (eng_metrics g) ∨
    ∃ kept, kept ⊆ mt_voters (eng_metrics g) ∧ mt_voters (eng_metrics g') = kept ∪ ids;
  learner_keeps_voters id addr g : mt_voters (eng_metrics (eng_add_learner id addr g).2) = mt_voters (eng_metrics g);
  write_keeps_voters d g : mt_voters (eng_metrics (eng_client_write d g).2) = mt_voters (eng_metrics g);
}.

Record RaftState (G : Type) : Type := {
  rs_engine : G;
  rs_labels : gmap N string;
  rs_addrs : gmap N string;
  rs_snap : MetricSnapshot;
  rs_prev : option ServerState;
  rs_cluster : ClusterState;
}.
Arguments rs_engine {G}.
Arguments rs_labels {G}.
Arguments rs_addrs {G}.
Arguments rs_snap {G}.
Arguments rs_prev {G}.
Arguments rs_cluster {G}.

Section State.
Context {G : Type}.
Implicit Types s : RaftState G.

Definition set_engine (g : G) s : RaftState G :=
  {| rs_engine := g; rs_labels := rs_labels s; rs_addrs := rs_addrs s; rs_snap := rs_snap s; rs_prev := rs_prev s; rs_cluster := rs_cluster s |}.
Definition set_maps (labels addrs : gmap N string) s : RaftState G :=
  {| rs_engine := rs_engine s; rs_labels := labels; rs_addrs := addrs; rs_snap := rs_snap s; rs_prev := rs_prev s; rs_cluster := rs_cluster s |}.
Definition set_seen (snap : MetricSnapshot) (prev : option ServerState) s : RaftState G :=
  {| rs_engine := rs_engine s; rs_labels := rs_labels s; rs_addrs := rs_addrs s; rs_snap := snap; rs_prev := prev; rs_cluster := rs_cluster s |}.
Definition set_cluster (c : ClusterState) s : RaftState G :=
  {| rs_engine := rs_engine s; rs_labels := rs_labels s; rs_addrs := rs_addrs s; rs_snap := rs_snap s; rs_prev := rs_prev s; rs_cluster := c |}.

#[export] Instance RaftState_HasWorld : HasWorld (RaftState G) := {|
  world_of := λ s, cl_world (rs_cluster s);
  put_world := λ w s, set_cluster (put_world w (rs_cluster s)) s |}.
#[export] Instance RaftState_HasWorldLaws : HasWorldLaws (RaftState G).
Proof. split; [done|]. by intros [? ? ? ? ? []]. Qed.
End State.

(** * The node *)

Section Node.
Context {E : Env} {K : AuditSink} {H : Http} {T : RaftTypes} {C : RaftCodec T} {G : Type} {R : RaftEnv T G}.
(** [config], and whether an audit sink was given. *)
Context (cfg : RaftStartConfig) (audited : bool).

Abbreviation RN := (M (RaftState G) Fault).
Abbreviation RNR A := (RN (Result ClusterError A)).

Definition on_cluster {A} (c : M ClusterState Fault A) : RN A := λ s,
  let '(r, cl) := c (rs_cluster s) in (r, set_cluster cl s).
Definition on_engine {A} (f : G → A * G) : RN A := λ s,
  let '(a, g) := f (rs_engine s) in (Ok a, set_engine g s).
Definition metrics : RN RaftMetrics := gets (λ s, eng_metrics (rs_engine s)).

(** [if let Some(sink)]: the payload takes the time, the last field of each. *)
Definition sink_record (kind : AuditSinkKind) (container : option string) (fields : list (string * Value)) : RN unit :=
  if audited then
    t ← on_world now;
    on_world (record kind None container (JObject (fields ++ [("ts", JString (to_rfc3339 t))])))
  else mret tt.

Definition node_id_from_string (label : string) : N :=
  if decide (label = "local") then 1
  else let v := default_hash label in if (v <? 2)%N then (v + 2)%N else v.

Definition jid (id : N) : Value := jint (Z.of_N id).

(** ** Reading *)

Definition current_role (s : RaftState G) : LeaderState :=
  match ms_state (rs_snap s) with Some st => leader_state_from st | None => LsUnknown end.
Definition current_leader (s : RaftState G) : option string :=
  id ← ms_leader (rs_snap s);
  or_else (rs_labels s !! id) (Some (pretty id)).
Definition is_leader (s : RaftState G) : bool := bool_decide (current_role s = LsLeader).

Definition membership_role (id : N) (m : RaftMetrics) : option MembershipRole :=
  if decide (id ∈ mt_voters m) then Some RoleVoter
  else if decide (id ∈ mt_learners m) then Some RoleLearner
  else None.

(** The ids of a [BTreeSet] in order. *)
Definition ids_in_order (ids : gset N) : list N := merge_sort N.le (elements ids).
Definition known_labels (s : RaftState G) : list string := omap (λ id, rs_labels s !! id) (ids_in_order (dom (rs_labels s))).
Definition view_of (m : RaftMetrics) (s : RaftState G) (id : N) : MembershipNodeView :=
  {| mv_node_id := id; mv_label := rs_labels s !! id; mv_addr := or_else (rs_addrs s !! id) (mt_addr m id) |}.
Definition membership_snapshot (s : RaftState G) : MembershipSnapshot :=
  let m := eng_metrics (rs_engine s) in
  {| mem_voters := view_of m s <$> ids_in_order (mt_voters m);
     mem_learners := view_of m s <$> ids_in_order (mt_learners m);
     mem_term := mt_term m |}.

(** ** Membership *)

Definition add_learner (label addr : string) : RNR unit :=
  let id := node_id_from_string label in
  _ ← modify (λ s, set_maps (<[id := label]> (rs_labels s)) (<[id := addr]> (rs_addrs s)) s);
  m ← metrics;
  match membership_role id m with
  | Some _ => mret (Ok tt)
  | None =>
      r ← on_engine (eng_add_learner id addr);
      match r with
      | CallDone => mret (Ok tt)
      | CallFailed msg =>
          m' ← metrics;
          if is_some (membership_role id m') || contains msg "already" || contains msg "exist" then mret (Ok tt)
          else mret (Err (CStorage ("raft.add_learner(" +:+ label +:+ ", " +:+ addr +:+ ") failed: ")))
      | CallTimedOut => mret (Err (CStorage ("raft.add_learner(" +:+ label +:+ ", " +:+ addr +:+ ") timed out after 5s")))
      end
  end.

Definition role_name (r : MembershipRole) : string := match r with RoleVoter => "voter" | RoleLearner => "learner" end.

Definition add_learner_with_audit (label addr : string) : RNR unit :=
  let id := node_id_from_string label in
  m ← metrics;
  let prior_role := membership_role id m in
  res ← add_learner label addr;
  _ ← (if is_ok res then
         sink_record SinkClusterRaftPromoted None
           [("event", JString (if is_some prior_role then "raft_learner_rejoined" else "raft_learner_added"));
            ("node_id", jid id); ("node_label", JString label); ("addr", JString addr);
            ("prior_role", jopt (λ r, JString (role_name r)) prior_role)]
       else mret tt);
  mret res.

(** [change_membership(ids, false)] under its timeout. *)
Definition change_membership (what : string) (ids : gset N) : RNR unit :=
  r ← on_engine (eng_change_membership ids);
  mret (match r with
        | CallDone => Ok tt
        | CallFailed _ => Err (CStorage ("raft.change_membership" +:+ what +:+ " failed: "))
        | CallTimedOut => Err (CStorage ("raft.change_membership" +:+ what +:+ " timed out after 5s"))
        end).

Definition promoted_ids (labels : list string) : gset N :=
  {[ rc_node_id cfg ]} ∪ list_to_set (node_id_from_string <$> labels).
Definition promote_to_voter (labels : list string) : RNR unit := change_membership "" (promoted_ids labels).

Definition promote_with_audit (labels : list string) : RNR (list string) :=
  m ← metrics;
  let newly_promoted := filter (λ l, node_id_from_string l ∉ mt_voters m) labels in
  r ← promote_to_voter labels;
  match r with
  | Err e => mret (Err e)
  | Ok _ =>
      _ ← for_each (λ l, sink_record SinkClusterRaftPromoted None
            [("event", JString "raft_promoted_to_voter"); ("node_id", jid (node_id_from_string l)); ("node_label", JString l);
             ("term", jid (mt_term m))]) newly_promoted;
      mret (Ok newly_promoted)
  end.

Definition remove_node (label : string) : RNR unit :=
  let id := node_id_from_string label in
  m ← metrics;
  let was_voter := bool_decide (id ∈ mt_voters m) in
  let new_ids := mt_voters m ∖ {[ id ]} in
  if decide (new_ids = ∅) then mret (Err (CStorage "refusing to remove the last voter"))
  else
    r ← change_membership " remove" new_ids;
    match r with
    | Err e => mret (Err e)
    | Ok _ =>
        _ ← modify (λ s, set_maps (delete id (rs_labels s)) (delete id (rs_addrs s)) s);
        _ ← (if was_voter then
               sink_record SinkClusterRaftDemoted None
                 [("event", JString "raft_voter_removed"); ("node_id", jid id); ("node_label", JString label); ("term", jid (mt_term m))]
             else mret tt);
        mret (Ok tt)
    end.

(** ** Proposals *)

Definition audit_propose_applied (op node_id container_id : string) (log_index : N) : RN unit :=
  sink_record SinkClusterStateApplied (Some container_id)
    [("op", JString op); ("node_id", JString node_id); ("container_id", JString container_id); ("log_index", jid log_index)].
Definition audit_propose_failed (reason node_id : string) (container_id : option string) : RN unit :=
  sink_record SinkClusterStateProposeFailed container_id
    [("reason", JString reason); ("node_id", JString node_id); ("container_id", jopt JString container_id)].

Definition not_leader {A} : Result ClusterError A := Err (CStorage "not_leader (current role = ").

Definition propose_container (node_id : string) (container : ContainerSummary) : RNR N :=
  leading ← gets is_leader;
  if negb leading then _ ← audit_propose_failed "not_leader" node_id (Some (cs_id container)); mret not_leader
  else
    r ← on_engine (eng_client_write (ProposeContainer node_id container));
    match r with
    | Ok idx => _ ← audit_propose_applied "upsert" node_id (cs_id container) idx; mret (Ok idx)
    | Err e => _ ← audit_propose_failed ("client_write_failed: " +:+ e) node_id (Some (cs_id container));
               mret (Err (CStorage "raft.client_write(ProposeContainer) failed: "))
    end.

Definition propose_container_remove (node_id container_id : string) : RNR N :=
  leading ← gets is_leader;
  if negb leading then _ ← audit_propose_failed "not_leader" node_id (Some container_id); mret not_leader
  else
    r ← on_engine (eng_client_write (RemoveContainer node_id container_id));
    match r with
    | Ok idx => _ ← audit_propose_applied "remove" node_id container_id idx; mret (Ok idx)
    | Err e => _ ← audit_propose_failed ("client_write_failed: " +:+ e) node_id (Some container_id);
               mret (Err (CStorage "raft.client_write(RemoveContainer) failed: "))
    end.

Definition propose_plugin_key_revocation (publisher fingerprint : string) (reason : option string) (revoked_at : Z) : RNR N :=
  leading ← gets is_leader;
  if negb leading then mret not_leader
  else
    r ← on_engine (eng_client_write (RevokePluginKey publisher fingerprint reason revoked_at));
    match r with
    | Ok idx => mret (Ok idx)
    | Err _ => mret (Err (CStorage "raft.client_write(RevokePluginKey) failed: "))
    end.

(** ** The metric pump *)

(** What a change of the server state is worth an entry for. *)
Definition leader_event (prev new : option ServerState) : option AuditSinkKind :=
  let was_leader := bool_decide (prev = Some SvLeader) in
  let now_leader := bool_decide (new = Some SvLeader) in
  if negb was_leader && now_leader then Some SinkClusterLeaderElected
  else if was_leader && negb now_leader then Some SinkClusterLeaderLost
  else None.

(** One turn of the loop. *)
Definition pump_turn : RN unit :=
  m ← metrics;
  let snap := snapshot_from m in
  prev ← gets rs_prev;
  let fields := [("node_id", jid (rc_node_id cfg)); ("node_label", JString (rc_node_label cfg)); ("term", jid (ms_term snap))] in
  _ ← match leader_event prev (ms_state snap) with
      | Some SinkClusterLeaderElected => sink_record SinkClusterLeaderElected None fields
      | Some kind => sink_record kind None (fields ++ [("new_leader", jopt jid (ms_leader snap))])
      | None => mret tt
      end;
  modify (set_seen snap (ms_state snap)).

(** ** Start *)

(** [vote_sink], and whether its statement fails and the row it holds. *)
Definition start_with_network (vote_sink fault : bool) (row : option string) (cl : ClusterState) : Result ClusterError (RaftState G) :=
  let store := load_persisted_vote vote_sink fault row store_new in
  if negb (eng_config_valid cfg) then Err (CStorage "openraft config invalid: ")
  else match eng_new cfg store with
       | None => Err (CStorage "openraft init failed: ")
       | Some g =>
           let started g' := Ok {| rs_engine := g'; rs_labels := {[ rc_node_id cfg := rc_node_label cfg ]};
             rs_addrs := {[ rc_node_id cfg := rc_advertise_addr cfg ]}; rs_snap := default_snapshot; rs_prev := None; rs_cluster := cl |} in
           if rc_bootstrap_single_node cfg then
             match eng_initialize (rc_node_id cfg) (rc_advertise_addr cfg) g with
             | (InitFailed, _) => Err (CStorage "raft initialize failed: ")
             | (_, g') => started g'
             end
           else started g
       end.

(** * Gossip and Raft *)

(** The error is only logged. *)
Definition raft_on_peer_added (label addr : string) : RN unit :=
  _ ← add_learner_with_audit label (normalize_addr_for_raft addr); mret tt.
Definition raft_on_peer_removed (label : string) : RN unit := _ ← remove_node label; mret tt.

(** A [BTreeSet] of strings in order. *)
Definition strings_in_order (l : list string) : list string := merge_sort String.le (elements (list_to_set l : gset string)).
Definition to_promote (voter_labels : list string) (now_ promote_after : Z) (peers : list PeerInfo) : list string :=
  peer_node_id <$> filter (λ p, peer_status p = PsAlive ∧ peer_node_id p ∉ voter_labels ∧ (promote_after ≤ now_ - peer_joined_at p)%Z) peers.
Definition to_remove (voter_labels : list string) (peers : list PeerInfo) : list string :=
  peer_node_id <$> filter (λ p, peer_status p = PsDead ∧ peer_node_id p ∈ voter_labels) peers.

Fixpoint remove_all (labels : list string) : RN (list string) :=
  match labels with
  | [] => mret []
  | label :: labels' =>
      r ← remove_node label;
      rest ← remove_all labels';
      mret (if is_ok r then label :: rest else rest)
  end.

Definition raft_membership_sync_round (peers : list PeerInfo) (now_ promote_after : Z) : RN (list string * list string) :=
  snap ← gets membership_snapshot;
  let voter_labels := strings_in_order (omap mv_label (mem_voters snap)) in
  let candidates := to_promote voter_labels now_ promote_after peers in
  promoted ← (if decide (candidates = []) then mret []
              else r ← promote_with_audit (voter_labels ++ candidates);
                   mret (match r with Ok newly => newly | Err _ => [] end));
  removed ← remove_all (to_remove voter_labels peers);
  mret (promoted, removed).

(** One tick of [run_raft_sync_loop]. *)
Definition raft_sync_tick (promote_after_secs : Z) : RN unit :=
  peers ← on_cluster peers_list;
  match peers with
  | Err _ => mret tt
  | Ok peers => t ← on_world now; _ ← raft_membership_sync_round peers t (1000 * Z.max promote_after_secs 1); mret tt
  end.

(** * The daemon's handlers *)

(** Whether a Raft node is wired, the value of [LINPODX_NODE_ID], and
    [podman.list(true)]. A handler's error is a fault. *)
Context (wired : bool) (env_node_id : option string) (podman_list : D (list ContainerSummary)).

(** [.map_err(cluster_to_err)?]. *)
Definition or_cluster_err {A} (c : RNR A) : RN A :=
  r ← c;
  match r with Ok a => mret a | Err e => throw (Fail (cluster_to_err e)) end.

Definition cluster_join (node_id addr : string) : RN (string * bool) :=
  info ← or_cluster_err (on_cluster (peers_upsert node_id addr));
  _ ← (if wired then raft_on_peer_added node_id addr else mret tt);
  mret (peer_node_id info, true).

Definition cluster_leave (node_id : string) : RN (string * bool) :=
  removed ← or_cluster_err (on_cluster (peers_remove node_id));
  _ ← (if wired then raft_on_peer_removed node_id else mret tt);
  mret (node_id, removed).

Record ClusterPeerSummary : Type := { ps_node_id : string; ps_addr : string; ps_status : string; ps_last_seen : Z }.
Definition cluster_peers : RN (list ClusterPeerSummary) :=
  peers ← or_cluster_err (on_cluster peers_list);
  mret ((λ p, {| ps_node_id := peer_node_id p; ps_addr := peer_addr p; ps_status := status_as_str (peer_status p);
                 ps_last_seen := peer_last_seen p |}) <$> peers).

Definition cluster_container_view : RN (list (string * ContainerSummary)) :=
  snap ← gets (λ s, state_snapshot (eng_store (rs_engine s)));
  if wired && (0 <? snap.1)%N && negb (bool_decide (snap.2 = [])) then
    _ ← on_cluster (record_view_served 0 (length snap.2));
    mret snap.2
  else
    peers ← or_cluster_err (on_cluster peers_list);
    local ← on_world podman_list;
    entries ← on_cluster (aggregate_containers (unwrap_or "local" env_node_id) local peers None);
    _ ← on_cluster (record_view_served (length peers) (length entries));
    mret entries.

Definition cluster_leader_get : RN (option string) :=
  if wired then gets current_leader else mret None.

(** [ClusterRole] has the cases of [LeaderState]. *)
Definition cluster_role_get : RN (string * LeaderState * option string) :=
  if wired then gets (λ s, (rc_node_label cfg, current_role s, current_leader s))
  else mret (unwrap_or "local" env_node_id, LsUnknown, None).

Record RaftMembershipNode : Type := { rm_node_id : string; rm_label : option string; rm_role : string }.
Definition to_membership_node (role : string) (row : MembershipNodeView) : RaftMembershipNode :=
  {| rm_node_id := pretty (mv_node_id row); rm_label := or_else (mv_label row) (mv_addr row); rm_role := role |}.
Record ClusterRaftStatusResponse : Type := {
  st_local_node_id : string;
  st_local_role : LeaderState;
  st_leader : option string;
  st_voters : list RaftMembershipNode;
  st_learners : list RaftMembershipNode;
  st_current_term : N;
}.
Definition unsupported {A} (m : string) : RN A := throw (Fail (Unsupported m)).
Definition cluster_raft_status : RN ClusterRaftStatusResponse :=
  if negb wired then
    unsupported "raft leader-elect not enabled on this daemon (start with --cluster-raft to enable cluster.raft_status)"
  else gets (λ s,
    let snap := membership_snapshot s in
    {| st_local_node_id := rc_node_label cfg; st_local_role := current_role s; st_leader := current_leader s;
       st_voters := to_membership_node "voter" <$> mem_voters snap;
       st_learners := to_membership_node "learner" <$> mem_learners snap; st_current_term := mem_term snap |}).

Definition cluster_raft_promote (node_id : string) : RN (string * string) :=
  if negb wired then
    unsupported "raft leader-elect not enabled on this daemon (start with --cluster-raft to enable cluster.raft_promote)"
  else
    r ← promote_with_audit [node_id];
    match r with
    | Ok _ => mret (node_id, "voter")
    | Err _ => throw (Fail (Runtime ("cluster.raft_promote(" +:+ node_id +:+ ") failed: ")))
    end.

(** Without [state_bytes], the length of the containers' JSON. *)
Definition cluster_state_get : RN (N * list (string * ContainerSummary)) :=
  if negb wired then
    unsupported "cluster.state_get unavailable: daemon was started without --cluster-raft (no replicated state machine)"
  else gets (λ s, state_snapshot (eng_store (rs_engine s))).

Definition cluster_state_propose_container (node_id : string) (container : ContainerSummary) : RN (N * bool) :=
  if negb wired then
    unsupported "cluster.state_propose_container unavailable: daemon was started without --cluster-raft"
  else
    idx ← or_cluster_err (propose_container node_id container);
    mret (idx, true).

End Node.

(** * Lemmas *)

Section Facts.
Context {E : Env} {K : AuditSink} {H : Http} {T : RaftTypes} {C : RaftCodec T} {G : Type} {R : RaftEnv T G}.
Context (cfg : RaftStartConfig) (audited : bool).
Implicit Types s : RaftState G.

Definition voters (s : RaftState G) : gset N := mt_voters (eng_metrics (rs_engine s)).
(** Every label is filed under its own id. *)
Definition labels_right (s : RaftState G) : Prop := ∀ id l, rs_labels s !! id = Some l → node_id_from_string l = id.

(** Operations that leave the node's own state alone: they only log. *)
Definition node_part (s : RaftState G) := (rs_engine s, rs_labels s, rs_addrs s, rs_snap s, rs_prev s).
Class LogsOnly {A} (c : M (RaftState G) Fault A) : Prop := logs_only s : node_part (c s).2 = node_part s.

#[export] Instance logs_only_ret {A} (a : A) : LogsOnly (mret a).
Proof. by intros s. Qed.
#[export] Instance logs_only_throw {A} e : LogsOnly (throw e : M (RaftState G) Fault A).
Proof. by intros s. Qed.
#[export] Instance logs_only_gets {A} (f : RaftState G → A) : LogsOnly (gets f).
Proof. by intros s. Qed.
#[export] Instance logs_only_bind {A B} (c : M (RaftState G) Fault A) (k : A → M (RaftState G) Fault B) :
  LogsOnly c → (∀ a, LogsOnly (k a)) → LogsOnly (c ≫= k).
Proof.
  intros Hc Hk s. unfold mbind, M_bind. specialize (Hc s). destruct (c s) as [[a|e] s1]; [|done].
  rewrite (Hk a s1). done.
Qed.
#[export] Instance logs_only_on_world {A} (c : D A) : LogsOnly (on_world c).
Proof. intros s. unfold on_world. by destruct (c _). Qed.
#[export] Instance logs_only_on_cluster {A} (c : M ClusterState Fault A) : LogsOnly (on_cluster c).
Proof. intros s. unfold on_cluster. by destruct (c _). Qed.
#[export] Instance logs_only_for_each {A} (body : A → M (RaftState G) Fault unit) l :
  (∀ a, LogsOnly (body a)) → LogsOnly (for_each body l).
Proof. intros Hb. induction l; cbn [for_each]; apply _. Qed.
#[export] Instance logs_only_sink kind container fields : LogsOnly (sink_record audited kind container fields).
Proof. unfold sink_record. destruct audited; apply _. Qed.

Lemma logs_only_engine {A} (c : M (RaftState G) Fault A) s : LogsOnly c → rs_engine (c s).2 = rs_engine s.
Proof. intros Hc. by injection (Hc s). Qed.
Lemma logs_only_labels {A} (c : M (RaftState G) Fault A) s : LogsOnly c → rs_labels (c s).2 = rs_labels s.
Proof. intros Hc. by injection (Hc s). Qed.

(** The membership call. *)
Lemma change_membership_run what ids s :
  let q := eng_change_membership ids (rs_engine s) in
  (change_membership what ids s).2 = set_engine q.2 s ∧
  (q.1 = CallDone → (change_membership what ids s).1 = Ok (Ok tt)) ∧
  (q.1 ≠ CallDone → ∃ e, (change_membership what ids s).1 = Ok (Err e)).
Proof.
  simpl. unfold change_membership, on_engine, mbind, M_bind. destruct (eng_change_membership ids (rs_engine s)) as [[| |] g];
    simpl; (split; [done|]); split; naive_solver.
Qed.

Section Laws.
Context {RL : RaftEnvLaws R}.

(** What a change may leave, whatever it returns. *)
Definition moved (old ids new : gset N) : Prop := new = old ∨ ∃ kept, kept ⊆ old ∧ new = kept ∪ ids.
Lemma moved_all old ids : moved old ids ids.
Proof. right. exists ∅. set_solver. Qed.

Lemma change_membership_voters what ids s :
  let s' := (change_membership what ids s).2 in
  rs_labels s' = rs_labels s ∧ moved (voters s) ids (voters s') ∧
  ((change_membership what ids s).1 = Ok (Ok tt) → voters s' = ids).
Proof.
  destruct (change_membership_run what ids s) as (Hs & Hok & Hne). simpl. rewrite Hs. split; [done|]. unfold voters. simpl.
  destruct (eng_change_membership ids (rs_engine s)) as [[|m|] g] eqn:Hq; simpl in *.
  - rewrite (change_done _ _ _ Hq). split; [apply moved_all|done].
  - split; [by apply (change_unfinished _ _ _ _ Hq)|]. destruct Hne as [e ->]; done.
  - split; [by apply (change_unfinished _ _ _ _ Hq)|]. destruct Hne as [e ->]; done.
Qed.

(** What a promotion and a removal do to the voters, whatever they return. *)
Lemma promote_voters labels s :
  let s' := (promote_with_audit cfg audited labels s).2 in
  rs_labels s' = rs_labels s ∧ moved (voters s) (promoted_ids cfg labels) (voters s') ∧
  ∀ newly, (promote_with_audit cfg audited labels s).1 = Ok (Ok newly) →
    newly = filter (λ l, node_id_from_string l ∉ voters s) labels ∧ voters s' = promoted_ids cfg labels.
Proof.
  pose proof (change_membership_voters "" (promoted_ids cfg labels) s) as (Hl & Hv & Hok).
  unfold promote_with_audit, promote_to_voter, metrics, gets. unfold mbind, M_bind.
  destruct (change_membership "" (promoted_ids cfg labels) s) as [[[[]|e]|e] s1]; simpl in *; [|done..].
  set (c := for_each _ _). pose proof (logs_only_engine c s1 _) as He. pose proof (logs_only_labels c s1 _) as Hlab.
  assert (voters (c s1).2 = promoted_ids cfg labels) as Hvot by (unfold voters; rewrite He; by apply Hok).
  destruct (c s1) as [[[]|f] s2]; simpl in *; rewrite Hlab, Hvot; (split; [done|]); (split; [apply moved_all|]); [|done].
  by intros newly [= <-].
Qed.

Lemma remove_voters label s :
  let id := node_id_from_string label in
  let s' := (remove_node audited label s).2 in
  (rs_labels s' = rs_labels s ∨ rs_labels s' = delete id (rs_labels s)) ∧
  (voters s ∖ {[ id ]} ⊆ voters s' ⊆ voters s ∧ (voters s ≠ ∅ → voters s' ≠ ∅)) ∧
  ((remove_node audited label s).1 = Ok (Ok tt) → voters s' = voters s ∖ {[ id ]}).
Proof.
  intros id s'. unfold s', remove_node, metrics, gets. unfold mbind, M_bind. fold id. fold (voters s).
  case_decide as Hempty; [simpl; split_and!; [by left|set_solver..|done]|].
  pose proof (change_membership_voters " remove" (voters s ∖ {[ id ]}) s) as (Hl & Hv & Hok).
  destruct (change_membership " remove" (voters s ∖ {[ id ]}) s) as [[[[]|e]|e] s1]; simpl in *;
    [|split; [by left|]; split; [|done]; destruct Hv as [->|(kept & Hk & ->)]; (split; [set_solver|]); [done|by intros _ [_ He]%empty_union_L]..].
  set (c := if bool_decide (id ∈ voters s) then _ else _).
  assert (LogsOnly c) as Hc by (unfold c; destruct (bool_decide _); apply _).
  set (s2 := set_maps _ _ s1). pose proof (logs_only_engine c s2 _) as He. pose proof (logs_only_labels c s2 _) as Hlab.
  assert (voters (c s2).2 = voters s ∖ {[ id ]}) as Hvot by (unfold voters; rewrite He; by apply Hok).
  destruct (c s2) as [[[]|f] s3]; simpl in *; rewrite Hlab, Hvot, Hl; (split; [by right|]); (split; [split; [set_solver|done]|done]).
Qed.

Lemma add_learner_voters label addr s :
  let s' := (add_learner_with_audit audited label addr s).2 in
  rs_labels s' = <[node_id_from_string label := label]> (rs_labels s) ∧ voters s' = voters s.
Proof.
  assert (rs_labels (add_learner label addr s).2 = <[node_id_from_string label := label]> (rs_labels s) ∧
    voters (add_learner label addr s).2 = voters s) as [Hl Hv].
  { unfold add_learner, metrics, on_engine, gets, modify. cbv beta iota delta [mbind M_bind]. simpl.
    destruct (membership_role _ _); [done|]. unfold voters.
    pose proof (learner_keeps_voters (node_id_from_string label) addr (rs_engine s)) as Hk.
    destruct (eng_add_learner _ _ _) as [[|m|] g]; simpl in *; [done| |done].
    destruct (_ || _); simpl; by rewrite ?Hk. }
  unfold add_learner_with_audit, metrics, gets. unfold mbind, M_bind.
  destruct (add_learner label addr s) as [[res|e] s1]; simpl in *; [|done].
  set (c := if is_ok res then _ else _). assert (LogsOnly c) as Hc by (unfold c; destruct (is_ok res); apply _).
  pose proof (logs_only_engine c s1 _) as He. pose proof (logs_only_labels c s1 _) as Hlab. unfold voters in *.
  destruct (c s1) as [[[]|f] s3]; simpl in *; by rewrite Hlab, He.
Qed.

Lemma elem_of_strings_in_order l x : x ∈ strings_in_order l ↔ x ∈ l.
Proof. unfold strings_in_order. by rewrite merge_sort_Permutation, elem_of_elements, elem_of_list_to_set. Qed.
Lemma elem_of_ids_in_order ids x : x ∈ ids_in_order ids ↔ x ∈ ids.
Proof. unfold ids_in_order. by rewrite merge_sort_Permutation, elem_of_elements. Qed.

(** The labels the synchronisation starts from. *)
Definition voter_labels (s : RaftState G) : list string := strings_in_order (omap mv_label (mem_voters (membership_snapshot s))).
Lemma elem_of_voter_labels s l : l ∈ voter_labels s ↔ ∃ id, id ∈ voters s ∧ rs_labels s !! id = Some l.
Proof.
  unfold voter_labels. rewrite elem_of_strings_in_order, list_elem_of_omap. simpl. split.
  - intros (v & Hv & Hl). apply list_elem_of_fmap in Hv as (id & -> & Hid). exists id. by rewrite elem_of_ids_in_order in Hid.
  - intros (id & Hid & Hl). exists (view_of (eng_metrics (rs_engine s)) s id). split; [|done].
    apply list_elem_of_fmap. exists id. by rewrite elem_of_ids_in_order.
Qed.

(** Removing a list of nodes. *)
Lemma remove_one_voters label s :
  let s' := (remove_node audited label s).2 in
  voters s' ⊆ voters s ∧ ∀ id, id ∈ voters s → id ∉ voters s' → node_id_from_string label = id.
Proof.
  cbv zeta. destruct (remove_voters label s) as (_ & Hv & _). cbv zeta in Hv.
  destruct Hv as [[Hlo Hhi] _]. split; [done|].
  intros id Hin Hout. destruct (decide (node_id_from_string label = id)); [done|]. destruct Hout. set_solver.
Qed.

Lemma remove_all_voters labels s :
  let s' := (remove_all audited labels s).2 in
  voters s' ⊆ voters s ∧ ∀ id, id ∈ voters s → id ∉ voters s' → ∃ l, l ∈ labels ∧ node_id_from_string l = id.
Proof.
  revert s. induction labels as [|l labels IH]; intros s; simpl; [done|].
  unfold mbind, M_bind. destruct (remove_one_voters l s) as [Hsub1 Hid1].
  destruct (remove_node audited l s) as [[r|e] s1]; simpl in *.
  - specialize (IH s1). destruct (remove_all audited labels s1) as [[rest|e] s2]; simpl in *; destruct IH as [Hsub Hid];
      (split; [by etrans|]); intros id Hin Hout;
      (destruct (decide (id ∈ voters s1)) as [Hin1|Hin1];
        [destruct (Hid id Hin1 Hout) as (l' & ? & ?); exists l'; set_solver|exists l; split; [set_solver|auto]]).
  - split; [done|]. intros id Hin Hout. exists l. split; [set_solver|auto].
Qed.

Lemma elem_of_promoted_ids id labels : id ∈ promoted_ids cfg labels ↔ id = rc_node_id cfg ∨ ∃ l, l ∈ labels ∧ node_id_from_string l = id.
Proof. unfold promoted_ids. set_solver. Qed.

(** A round: what the promotion leaves, and then the removals. *)
Lemma sync_round_voters peers now_ promote_after s :
  let candidates := to_promote (voter_labels s) now_ promote_after peers in
  let p := raft_membership_sync_round cfg audited peers now_ promote_after s in
  ∃ vs, moved (voters s) (promoted_ids cfg (voter_labels s ++ candidates)) vs ∧
    (∀ removed promoted, p.1 = Ok (promoted, removed) → promoted ≠ [] → vs = promoted_ids cfg (voter_labels s ++ candidates)) ∧
    voters p.2 ⊆ vs ∧ ∀ id, id ∈ vs → id ∉ voters p.2 → ∃ l, l ∈ to_remove (voter_labels s) peers ∧ node_id_from_string l = id.
Proof.
  intros candidates p.
  set (c1 := if decide (candidates = []) then mret [] else
    promote_with_audit cfg audited (voter_labels s ++ candidates) ≫= λ r, mret (match r with Ok newly => newly | Err _ => [] end)).
  assert (p = (c1 ≫= λ promoted, remove_all audited (to_remove (voter_labels s) peers) ≫= λ removed, mret (promoted, removed)) s) as Hp
    by reflexivity.
  exists (voters (c1 s).2). rewrite Hp. clear Hp p.
  assert (moved (voters s) (promoted_ids cfg (voter_labels s ++ candidates)) (voters (c1 s).2) ∧
    ∀ promoted, (c1 s).1 = Ok promoted → promoted ≠ [] → voters (c1 s).2 = promoted_ids cfg (voter_labels s ++ candidates)) as [Hv Hpr].
  { unfold c1. case_decide; [simpl; split; [by left|]; by intros ? [= <-]|].
    destruct (promote_voters (voter_labels s ++ candidates) s) as (_ & Hv & Hok). unfold mbind, M_bind.
    destruct (promote_with_audit cfg audited _ s) as [[[newly|e]|e] s1]; simpl in *; (split; [done|]); [|by intros ? [= <-]|done].
    intros ? [= <-] _. by eapply Hok. }
  split; [done|]. unfold mbind, M_bind. destruct (c1 s) as [[promoted|e] s1]; simpl in *; [|done].
  destruct (remove_all_voters (to_remove (voter_labels s) peers) s1) as [Hsub Hid].
  destruct (remove_all audited _ s1) as [[removed|e] s2]; simpl in *; (split; [|done]); [|done].
  intros ? ? [= <- <-]. by apply Hpr.
Qed.

(** C35: A synchronisation round takes the vote only from peers that are dead, and gives
    it only to this node and to live peers that joined long enough ago, whatever
    calls fail or time out, also when a change stops half-way in a joint
    configuration; for as long as this node knows the label of every voter. *)
Theorem sync_moves_only_dead_and_settled peers now_ promote_after s :
  labels_right s → (∀ id, id ∈ voters s → is_Some (rs_labels s !! id)) →
  let s' := (raft_membership_sync_round cfg audited peers now_ promote_after s).2 in
  (∀ id, id ∈ voters s → id ∉ voters s' → ∃ p, p ∈ peers ∧ peer_status p = PsDead ∧ node_id_from_string (peer_node_id p) = id) ∧
  (∀ id, id ∈ voters s' → id ∈ voters s ∨ id = rc_node_id cfg ∨
     ∃ p, p ∈ peers ∧ peer_status p = PsAlive ∧ (promote_after ≤ now_ - peer_joined_at p)%Z ∧ node_id_from_string (peer_node_id p) = id).
Proof.
  intros Hr Hlab s'. destruct (sync_round_voters peers now_ promote_after s) as (vs & Hvs & _ & Hsub & Hgone).
  assert (voters s ⊆ vs) as Hkeep.
  { destruct Hvs as [->|(kept & _ & ->)]; [done|]. intros id Hin. apply elem_of_union_r, elem_of_promoted_ids. right.
    destruct (Hlab id Hin) as [l Hl]. exists l. split; [|by apply Hr]. apply elem_of_app. left. apply elem_of_voter_labels. eauto. }
  split.
  - intros id Hin Hout. destruct (Hgone id (Hkeep _ Hin) Hout) as (l & Hl & Hid). unfold to_remove in Hl.
    apply list_elem_of_fmap in Hl as (p & -> & Hp). apply list_elem_of_filter in Hp as [[Hst _] Hp]. eauto.
  - intros id Hin. apply Hsub in Hin. destruct Hvs as [Hvs|(kept & Hk & Hvs)]; rewrite Hvs in Hin; [by left|].
    apply elem_of_union in Hin as [Hin|[->|(l & Hl & Hid)]%elem_of_promoted_ids]; [left; by apply Hk|by right; left|].
    apply elem_of_app in Hl as [Hl|Hl].
    + apply elem_of_voter_labels in Hl as (id' & Hin & Hl). left. by rewrite <-Hid, (Hr _ _ Hl).
    + right; right. unfold to_promote in Hl. apply list_elem_of_fmap in Hl as (p & -> & Hp).
      apply list_elem_of_filter in Hp as [(Hst & _ & Hage) Hp]. eauto 10.
Qed.

(** When a round promotes anyone, a voter whose label this node does not know (it
    was added by an earlier leader, or before a restart) loses its vote, alive or
    not. *)
Theorem sync_drops_unlabelled_voters peers now_ promote_after s promoted removed s' id :
  raft_membership_sync_round cfg audited peers now_ promote_after s = (Ok (promoted, removed), s') →
  promoted ≠ [] → labels_right s → rs_labels s !! id = None → id ≠ rc_node_id cfg →
  (∀ p, p ∈ peers → node_id_from_string (peer_node_id p) ≠ id) →
  id ∉ voters s'.
Proof.
  intros Hrun Hne Hr Hid Hself Hpeers Hin.
  destruct (sync_round_voters peers now_ promote_after s) as (vs & _ & Hpr & Hsub & _). rewrite Hrun in *. simpl in *.
  specialize (Hpr _ _ eq_refl Hne). apply Hsub in Hin. rewrite Hpr in Hin.
  apply elem_of_promoted_ids in Hin as [?|(l & Hl & Hlid)]; [done|]. apply elem_of_app in Hl as [Hl|Hl].
  - apply elem_of_voter_labels in Hl as (id' & _ & Hl). rewrite (Hr _ _ Hl) in Hlid. congruence.
  - unfold to_promote in Hl. apply list_elem_of_fmap in Hl as (p & -> & Hp). apply list_elem_of_filter in Hp as [_ Hp].
    by apply (Hpeers p).
Qed.

(** Promoting one node over IPC does not add it to the voters: it makes this node and
    that one the only voters, and every other voter loses its vote. *)
Theorem promote_replaces_voters node_id s r s' :
  cluster_raft_promote cfg audited true node_id s = (Ok r, s') →
  voters s' = {[ rc_node_id cfg; node_id_from_string node_id ]}.
Proof.
  unfold cluster_raft_promote. simpl. intros (q & s1 & Hp & Hr)%bind_ok.
  destruct (promote_voters [node_id] s) as (_ & _ & Hok). rewrite Hp in Hok. simpl in Hok.
  destruct q as [newly|e]; [|done]. apply ret_inv in Hr as [_ ->].
  destruct (Hok newly eq_refl) as [_ ->]. unfold promoted_ids. set_solver.
Qed.

(** ** What every operation keeps *)

(** There is a voter, and every label is filed under its own id. *)
Definition node_ok (s : RaftState G) : Prop := voters s ≠ ∅ ∧ labels_right s.
Class NodeSafe {A} (c : M (RaftState G) Fault A) : Prop := node_safe s : node_ok s → node_ok (c s).2.

Lemma node_ok_ext s s' : rs_engine s' = rs_engine s → rs_labels s' = rs_labels s → node_ok s → node_ok s'.
Proof. unfold node_ok, voters, labels_right. by intros -> ->. Qed.
#[export] Instance node_safe_logs {A} (c : M (RaftState G) Fault A) : LogsOnly c → NodeSafe c.
Proof. intros Hc s. apply node_ok_ext; [by apply logs_only_engine|by apply logs_only_labels]. Qed.
#[export] Instance node_safe_bind {A B} (c : M (RaftState G) Fault A) (k : A → M (RaftState G) Fault B) :
  NodeSafe c → (∀ a, NodeSafe (k a)) → NodeSafe (c ≫= k).
Proof. intros Hc Hk s Hs. unfold mbind, M_bind. specialize (Hc s Hs). destruct (c s) as [[a|e] s1]; [|done]. by apply Hk. Qed.

#[export] Instance node_safe_learner label addr : NodeSafe (add_learner_with_audit audited label addr).
Proof.
  intros s [Hv Hr]. destruct (add_learner_voters label addr s) as [Hl Hvot]. split; [by rewrite Hvot|].
  intros id l. rewrite Hl. rewrite lookup_insert_Some. intros [[<- <-]|[_ Hlab]]; [done|by apply Hr].
Qed.
#[export] Instance node_safe_remove label : NodeSafe (remove_node audited label).
Proof.
  intros s [Hv Hr]. destruct (remove_voters label s) as (Hl & Hvot & _). split; [by apply Hvot|].
  intros id l. destruct Hl as [->| ->]; [apply Hr|]. rewrite lookup_delete_Some. intros [_ Hlab]. by apply Hr.
Qed.
#[export] Instance node_safe_promote labels : NodeSafe (promote_with_audit cfg audited labels).
Proof.
  intros s [Hv Hr]. destruct (promote_voters labels s) as (Hl & Hvot & _). split; [|intros id l; rewrite Hl; apply Hr].
  destruct Hvot as [->|(kept & _ & ->)]; [done|]. assert (rc_node_id cfg ∈ promoted_ids cfg labels) as Hin
    by (apply elem_of_promoted_ids; by left). set_solver.
Qed.
#[export] Instance node_safe_write d : NodeSafe (on_engine (eng_client_write d)).
Proof.
  intros s [Hv Hr]. unfold on_engine. pose proof (write_keeps_voters d (rs_engine s)) as Hk.
  destruct (eng_client_write d (rs_engine s)) as [r g]. split; [unfold voters; simpl in *; by rewrite Hk|done].
Qed.
#[export] Instance node_safe_pump snap prev : NodeSafe (modify (set_seen snap prev)).
Proof. intros s. by apply node_ok_ext. Qed.
#[export] Instance node_safe_remove_all labels : NodeSafe (remove_all audited labels).
Proof. induction labels as [|l labels IH]; cbn [remove_all]; apply _. Qed.

(** Instance search through the matches of an operation. *)
Ltac solve_node :=
  repeat first [ solve [apply _]
    | match goal with |- NodeSafe (match ?x with _ => _ end) => destruct x end
    | apply node_safe_bind; [solve_node|intros ?] ].

Inductive node_op : Type :=
| NJoin (id addr : string)
| NLeave (id : string)
| NPromote (id : string)
| NPropose (id : string) (c : ContainerSummary)
| NProposeRemove (id container_id : string)
| NRevoke (publisher fingerprint : string) (reason : option string) (at_ : Z)
| NGossip (stale_after dead_after : Z)
| NSync (promote_after : Z)
| NPump.
Definition node_run (op : node_op) : M (RaftState G) Fault unit :=
  match op with
  | NJoin id addr => _ ← cluster_join audited true id addr; mret tt
  | NLeave id => _ ← cluster_leave audited true id; mret tt
  | NPromote id => _ ← cluster_raft_promote cfg audited true id; mret tt
  | NPropose id c => _ ← cluster_state_propose_container audited true id c; mret tt
  | NProposeRemove id c => _ ← propose_container_remove audited id c; mret tt
  | NRevoke p f r t => _ ← propose_plugin_key_revocation p f r t; mret tt
  | NGossip a b => on_cluster (gossip_tick a b)
  | NSync a => raft_sync_tick cfg audited a
  | NPump => pump_turn cfg audited
  end.
Fixpoint node_runs (ops : list node_op) (s : RaftState G) : RaftState G :=
  match ops with [] => s | op :: ops' => node_runs ops' (node_run op s).2 end.

(** C36: Whatever joins, departures, promotions, proposals, gossip rounds,
    synchronisations and failing or unfinished calls follow each other, the cluster is
    never left without a voter, and the node never files a peer's label under another id. *)
Theorem node_never_loses_last_voter ops s : node_ok s → node_ok (node_runs ops s).
Proof.
  revert s. induction ops as [|op ops IH]; intros s Hs; [done|]. simpl. apply IH.
  assert (NodeSafe (node_run op)) as Hsafe; [|by apply Hsafe].
  destruct op; unfold node_run, cluster_join, cluster_leave, cluster_raft_promote, cluster_state_propose_container,
    propose_container, propose_container_remove, propose_plugin_key_revocation, raft_sync_tick, raft_membership_sync_round,
    pump_turn, raft_on_peer_added, raft_on_peer_removed, or_cluster_err, unsupported, audit_propose_failed, audit_propose_applied, metrics; cbn [negb]; solve_node.
Qed.

(** ** A healthy cluster loses its voters *)

(** The engine accepts every change, and the sink never panics. *)
Definition engine_accepts : Prop := ∀ ids g, (eng_change_membership ids g).1 = CallDone.
Definition sink_total : Prop := ∀ kind profile container p w, (record kind profile container p w).1 = Ok tt.

Lemma sink_record_total kind container fields s : sink_total → (sink_record audited kind container fields s).1 = Ok tt.
Proof.
  intros Ht. unfold sink_record. destruct audited; [|done]. unfold mbind, M_bind. cbn [on_world now].
  unfold on_world. match goal with |- context [record ?k ?a ?b ?c ?w] => specialize (Ht k a b c w); destruct (record k a b c w) end.
  by simpl in *.
Qed.

Lemma remove_node_succeeds label s : engine_accepts → sink_total →
  voters s ∖ {[ node_id_from_string label ]} ≠ ∅ →
  ∃ s', remove_node audited label s = (Ok (Ok tt), s') ∧ voters s' = voters s ∖ {[ node_id_from_string label ]}.
Proof.
  intros Hdone Ht Hne. unfold remove_node, metrics, gets. unfold mbind, M_bind. fold (voters s).
  rewrite decide_False by done.
  destruct (change_membership_run " remove" (voters s ∖ {[ node_id_from_string label ]}) s) as (Hs & Hok & _).
  specialize (Hok (Hdone _ _)). pose proof (change_membership_voters " remove" (voters s ∖ {[ node_id_from_string label ]}) s) as (_ & _ & Hv).
  specialize (Hv Hok). destruct (change_membership " remove" _ s) as [r s1]. simpl in *. subst r.
  set (c := if bool_decide _ then _ else _). set (s2 := set_maps _ _ s1).
  assert (LogsOnly c) as Hc by (unfold c; destruct (bool_decide _); apply _).
  assert ((c s2).1 = Ok tt) as Hct by (unfold c; destruct (bool_decide _); [by apply sink_record_total|done]).
  pose proof (logs_only_engine c s2 _) as He. unfold voters in *. simpl in He. simpl.
  destruct (c s2) as [r s3]. simpl in *. subst r. eexists. split; [done|]. by rewrite He.
Qed.

Lemma remove_all_succeeds self labels s : engine_accepts → sink_total →
  self ∈ voters s → (∀ l, l ∈ labels → node_id_from_string l ≠ self) →
  ∃ removed s', remove_all audited labels s = (Ok removed, s') ∧ voters s' ⊆ voters s ∧
    ∀ l, l ∈ labels → node_id_from_string l ∉ voters s'.
Proof.
  intros Hdone Ht. revert s. induction labels as [|l labels IH]; intros s Hself Hl.
  { eexists _, s. split; [done|]. split; [done|]. set_solver. }
  assert (node_id_from_string l ≠ self) as Hne by (apply Hl; set_solver).
  destruct (remove_node_succeeds l s) as (s1 & Hr & Hv); [done..|set_solver|].
  destruct (IH s1) as (removed & s2 & Hr2 & Hsub & Hout); [rewrite Hv; set_solver|set_solver|].
  eexists _, s2. cbn [remove_all]. unfold mbind, M_bind. rewrite Hr, Hr2. split; [done|]. rewrite Hv in Hsub. split; [set_solver|].
  intros l' [->|Hin]%elem_of_cons; [|by apply Hout]. intros Hin. apply Hsub in Hin. set_solver.
Qed.

Lemma aged_silent now_ stale_ms dead_ms r : known_status r → (0 ≤ dead_ms)%Z →
  (stale_ms + dead_ms < now_ - parse_ts (pe_last_seen r))%Z → pe_status (aged now_ stale_ms dead_ms r) = "dead".
Proof.
  intros Hk Hd Hsil. unfold aged, next_status. simpl. rewrite !bool_decide_true by lia.
  unfold known_status in Hk. rewrite !elem_of_cons, elem_of_nil in Hk. destruct Hk as [->|[->|[->|[]]]]; done.
Qed.

(** A synchronisation over peers that are all dead removes their votes. *)
Lemma sync_removes_the_dead peers now_ promote_after s : engine_accepts → sink_total →
  rc_node_id cfg ∈ voters s → Forall (λ p, peer_status p = PsDead) peers →
  (∀ p, p ∈ peers → node_id_from_string (peer_node_id p) ≠ rc_node_id cfg) →
  (∀ p, p ∈ peers → rs_labels s !! node_id_from_string (peer_node_id p) = Some (peer_node_id p)) →
  ∀ p, p ∈ peers → node_id_from_string (peer_node_id p) ∉ voters (raft_membership_sync_round cfg audited peers now_ promote_after s).2.
Proof.
  intros Hdone Ht Hself Hdead Hne Hlab p Hp. rewrite Forall_forall in Hdead.
  assert (to_promote (voter_labels s) now_ promote_after peers = []) as Hnone.
  { unfold to_promote. apply fmap_nil_iff, filter_nil_Forall, Forall_forall. intros q Hq (Hal & _).
    by rewrite (Hdead q Hq) in Hal. }
  unfold raft_membership_sync_round. unfold mbind, M_bind, gets. fold (voter_labels s). rewrite Hnone. cbn [decide list_eq_nil_dec].
  rewrite decide_True by done. simpl.
  destruct (remove_all_succeeds (rc_node_id cfg) (to_remove (voter_labels s) peers) s) as (removed & s' & -> & Hsub & Hout); [done..| |].
  { intros l Hl. unfold to_remove in Hl. apply list_elem_of_fmap in Hl as (q & -> & [_ Hq]%list_elem_of_filter). by apply Hne. }
  simpl. intros Hin. apply (Hout (peer_node_id p)); [|done]. unfold to_remove. apply list_elem_of_fmap. exists p. split; [done|].
  apply list_elem_of_filter. split; [|done]. split; [by apply Hdead|]. apply elem_of_voter_labels. eexists. split; [|by apply Hlab].
  by apply Hsub.
Qed.

(** Gossip and Raft together: when the peers are healthy daemons (which never answer
    the ping) and have been members for longer than the two thresholds, one gossip
    tick followed by one synchronisation takes the vote from every one of them. *)
Theorem healthy_voters_lose_their_vote (L : TsLaws E) token stale_after dead_after promote_after s :
  let cl := rs_cluster s in
  let t2 := clock (S (w_ticks (cl_world cl))) in
  (∀ n, db_fault n = false) → engine_accepts → sink_total → table_ok cl → (0 ≤ stale_after)%Z → (0 ≤ dead_after)%Z →
  ts_range (t2 - 1000 * stale_after) → ts_range (t2 - 1000 * (stale_after + dead_after)) →
  Forall (λ r, peer_is_daemon token (pe_addr r)) (cl_peers cl) →
  Forall (λ r, (1000 * stale_after + 1000 * dead_after < t2 - parse_ts (pe_last_seen r))%Z) (cl_peers cl) →
  rc_node_id cfg ∈ voters s →
  Forall (λ r, node_id_from_string (pe_node_id r) ≠ rc_node_id cfg ∧
               rs_labels s !! node_id_from_string (pe_node_id r) = Some (pe_node_id r)) (cl_peers cl) →
  let s1 := (on_cluster (gossip_tick stale_after dead_after) s).2 in
  let s2 := (raft_sync_tick cfg audited promote_after s1).2 in
  Forall (λ r, node_id_from_string (pe_node_id r) ∉ voters s2) (cl_peers cl).
Proof.
  intros cl t2 Hdb Hacc Hsink [Hinv Hrows] Hs Hd Hr1 Hr2 Hdaemon Hsilent Hself Hlab s1 s2.
  assert (Forall stamped (cl_peers cl)) as Hst by (eapply Forall_impl; [exact Hrows|]; by intros ? []).
  destruct (gossip_tick_rows stale_after dead_after cl) as [Hok Hpeers];
    [done|done|by rewrite (round_spec_daemons token)|done..|].
  rewrite (round_spec_daemons token) in Hpeers by done. fold t2 in Hpeers.
  assert (rs_engine s1 = rs_engine s ∧ rs_labels s1 = rs_labels s ∧ rs_cluster s1 = (gossip_tick stale_after dead_after cl).2) as (He & Hl & Hcl).
  { unfold s1, on_cluster. fold cl. by destruct (gossip_tick _ _ cl). }
  unfold s2, raft_sync_tick. unfold mbind at 1, M_bind. unfold on_cluster at 1, peers_list. rewrite cstmt_run, Hdb.
  cbv beta iota delta [mbind M_bind gets mret M_ret]. cbn [on_world now]. rewrite Hcl. change (cl_peers (db_step ?c)) with (cl_peers c).
  rewrite Hpeers. set (peers := into_info <$> _). set (s1' := put_world _ _).
  assert (rs_engine s1' = rs_engine s ∧ rs_labels s1' = rs_labels s) as [He' Hl'] by done.
  apply Forall_forall. intros r Hr.
  pose proof (sync_removes_the_dead peers) as Hsync.
  match goal with |- context [raft_membership_sync_round _ _ peers ?t ?a s1'] => specialize (Hsync t a s1' Hacc Hsink) end.
  rewrite Forall_forall in Hlab, Hrows, Hsilent.
  assert (∀ p, p ∈ peers → ∃ r, r ∈ cl_peers cl ∧ peer_node_id p = pe_node_id r ∧ peer_status p = PsDead) as Hp.
  { intros p Hp. unfold peers in Hp. apply list_elem_of_fmap in Hp as (r' & -> & Hr'). apply list_elem_of_fmap in Hr' as (r0 & -> & Hr0).
    exists r0. split; [done|]. split; [done|]. unfold into_info. cbn [peer_status].
    rewrite aged_silent; [done|by apply Hrows|lia|by apply Hsilent]. }
  assert (into_info (aged t2 (1000 * stale_after) (1000 * dead_after) r) ∈ peers) as Hin.
  { apply list_elem_of_fmap. eexists. split; [done|]. apply list_elem_of_fmap. eauto. }
  assert (node_id_from_string (pe_node_id r) ∉ voters
    (raft_membership_sync_round cfg audited peers (clock (w_ticks (world_of (set_cluster (db_step (gossip_tick stale_after dead_after cl).2) s1))))
      (1000 * Z.max promote_after 1) s1').2) as Hgone.
  { refine (Hsync _ _ _ _ _ Hin); [unfold voters; by rewrite He'|apply Forall_forall; intros p Hp'; by destruct (Hp p Hp') as (? & _ & _ & ?)| |];
      intros p Hp'; destruct (Hp p Hp') as (r0 & Hr0 & -> & _); [by apply Hlab|]. rewrite Hl'. by apply Hlab. }
  destruct (raft_membership_sync_round _ _ _ _ _ _) as [[[]|] s3]; exact Hgone.
Qed.

(** ** Proposals *)

Lemma sink_record_err kind container fields s e s' :
  sink_record audited kind container fields s = (Err e, s') → ∃ kind c v w, (record kind None c v w).1 ≠ Ok tt.
Proof.
  unfold sink_record. destruct audited; [|done]. intros [Hn|(t & s1 & _ & Hr)]%bind_err; [done|].
  unfold on_world in Hr. destruct (record _ _ _ _ _) as [r w] eqn:Hrec. simplify_eq. eexists _, _, _, _. by rewrite Hrec.
Qed.

(** Run the audit call that ends an operation. *)
Ltac run_sink :=
  match goal with |- context [sink_record ?a ?k ?c ?f ?s] =>
    let Hs := fresh "Hs" in
    pose proof (logs_only_engine (sink_record a k c f) s _) as He; pose proof (logs_only_labels (sink_record a k c f) s _) as Hl;
    destruct (sink_record a k c f s) as [[[]|e] s3] eqn:Hs; [|apply sink_record_err in Hs] end.

(** A container reaches the replicated state only through the node that leads: an
    accepted proposal is one committed write of exactly that entry, with its log index
    as the answer; a node that does not lead refuses without touching the log; and in
    every case the membership is left alone. *)
Theorem proposals_are_leader_writes node_id container s :
  let p := propose_container audited node_id container s in
  rs_labels p.2 = rs_labels s ∧
  match p.1 with
  | Ok (Ok idx) => is_leader s = true ∧ eng_client_write (ProposeContainer node_id container) (rs_engine s) = (Ok idx, rs_engine p.2)
  | Ok (Err e) =>
      if is_leader s then ∃ msg, eng_client_write (ProposeContainer node_id container) (rs_engine s) = (Err msg, rs_engine p.2)
      else e = CStorage "not_leader (current role = " ∧ rs_engine p.2 = rs_engine s
  | Err _ => ∃ kind c v w, (record kind None c v w).1 ≠ Ok tt
  end ∧
  voters p.2 = voters s.
Proof.
  cbv zeta. unfold propose_container, audit_propose_failed, audit_propose_applied. unfold mbind, M_bind, gets.
  destruct (is_leader s) eqn:Hlead; simpl.
  - unfold on_engine. pose proof (write_keeps_voters (ProposeContainer node_id container) (rs_engine s)) as Hk.
    destruct (eng_client_write _ _) as [[idx|msg] g] eqn:Hw; simpl in *; run_sink; simpl in *; unfold voters; rewrite ?Hl, ?He; simpl; eauto 10.
  - run_sink; simpl in *; unfold voters; rewrite ?Hl, ?He; eauto 10.
Qed.
End Laws.
End Facts.

(** * Start and the metric pump *)

Section More.
Context {T : RaftTypes} {C : RaftCodec T} {G : Type} {R : RaftEnv T G}.

(** A node started as the daemon starts it files its own label rightly, and one that
    is not the bootstrapper never initialises a cluster: its engine is the fresh one. *)
Lemma start_state cfg vote_sink fault row cl s :
  start_with_network cfg vote_sink fault row cl = Ok s → rc_node_id cfg = node_id_from_string (rc_node_label cfg) →
  labels_right s ∧ (rc_bootstrap_single_node cfg = false → eng_new cfg (load_persisted_vote vote_sink fault row store_new) = Some (rs_engine s)).
Proof.
  intros Hs Hid. unfold start_with_network in Hs. destruct (eng_config_valid cfg); [|done]. simpl in Hs.
  destruct (eng_new _ _) as [g|]; [|done].
  assert (∀ id l, ({[rc_node_id cfg := rc_node_label cfg]} : gmap N string) !! id = Some l → node_id_from_string l = id) as Hl.
  { intros id l. rewrite lookup_singleton_Some. by intros [<- <-]. }
  destruct (rc_bootstrap_single_node cfg); [|by simplify_eq].
  destruct (eng_initialize _ _ _) as [[| |] g']; by simplify_eq.
Qed.

(** The entries of a run of the pump over the states it sees. *)
Fixpoint leader_events (prev : option ServerState) (states : list ServerState) : list AuditSinkKind :=
  match states with
  | [] => []
  | st :: states' => option_list (leader_event prev (Some st)) ++ leader_events (Some st) states'
  end.

(** Leadership is announced and revoked in turns, beginning with an election, and the
    log says that this node leads exactly while it does. *)
Theorem leadership_audited_in_turns states :
  (∀ i k, leader_events None states !! i = Some k → k = if Nat.even i then SinkClusterLeaderElected else SinkClusterLeaderLost) ∧
  Nat.odd (length (leader_events None states)) = bool_decide (last states = Some SvLeader).
Proof.
  assert (∀ prev, (∀ i k, leader_events prev states !! i = Some k →
      k = if xorb (Nat.even i) (bool_decide (prev = Some SvLeader)) then SinkClusterLeaderElected else SinkClusterLeaderLost) ∧
    xorb (Nat.odd (length (leader_events prev states))) (bool_decide (prev = Some SvLeader)) =
      bool_decide (or_else (last states) prev = Some SvLeader)) as Hgen; [|].
  { induction states as [|st states IH]; intros prev; simpl; [split; [done|by destruct (bool_decide _)]|].
    destruct (IH (Some st)) as [IH1 IH2]. unfold leader_event.
    assert (or_else (last (st :: states)) prev = or_else (last states) (Some st)) as -> by (rewrite last_cons; by destruct (last states)).
    destruct (bool_decide (prev = Some SvLeader)), (bool_decide (Some st = Some SvLeader)); simpl; try done.
    1, 2: (split; [|rewrite <-IH2, Nat.odd_succ, <-Nat.negb_odd; by destruct (Nat.odd _)]);
      intros [|i] k Hi; simpl in Hi; [by simplify_eq|]; rewrite (IH1 i k Hi), Nat.even_succ, <-Nat.negb_even; by destruct (Nat.even i). }
  destruct (Hgen None) as [H1 H2]. rewrite bool_decide_false in H1, H2 by done. split.
  - intros i k Hi. rewrite (H1 i k Hi). by destruct (Nat.even i).
  - rewrite xorb_false_r in H2. rewrite H2. by destruct (last states).
Qed.
End More.

(** * Witnesses *)

(** An engine that leads and keeps only the voters: what a membership change does is
    given. [toy_engine] accepts every change; [slow_engine] stops every change to an id
    it does not know in the joint configuration. *)
Definition voter_engine (change : gset N → gset N → CallResult * gset N) : RaftEnv toy_raft (gset N) := {|
  default_hash := λ l, (10 + N.of_nat (String.length l))%N;
  to_rfc3339 := pretty;
  eng_metrics := λ vs, {| mt_leader := Some 1%N; mt_state := SvLeader; mt_term := 1; mt_last_log_index := None; mt_voters := vs;
                          mt_learners := ∅; mt_addr := λ _, None |};
  eng_store := λ _, store_new;
  eng_config_valid := λ _, true;
  eng_new := λ _ _, Some ∅;
  eng_initialize := λ id _ _, (InitDone, {[ id ]});
  eng_add_learner := λ _ _ g, (CallDone, g);
  eng_change_membership := change;
  eng_client_write := λ _ g, (Ok 7%N, g) |}.
#[local] Instance toy_engine : RaftEnv toy_raft (gset N) := voter_engine (λ ids _, (CallDone, ids)).
#[local] Instance toy_engine_laws : RaftEnvLaws toy_engine.
Proof. split; simpl; intros; by simplify_eq. Qed.
Definition slow_engine : RaftEnv toy_raft (gset N) :=
  voter_engine (λ ids vs, if decide (ids ⊆ vs) then (CallDone, ids) else (CallTimedOut, vs ∪ ids)).
Lemma slow_engine_laws : RaftEnvLaws slow_engine.
Proof.
  split; simpl; [intros ids g g'|intros ids g r g'|done..]; case_decide; intros ?; simplify_eq; [done|done|].
  intros _. right. by exists g.
Qed.

Definition example_node (vs : gset N) (labels : gmap N string) (cl : ClusterState) : RaftState (gset N) :=
  {| rs_engine := vs; rs_labels := labels; rs_addrs := ∅;
     rs_snap := {| ms_leader := Some 1%N; ms_state := Some SvLeader; ms_term := 1; ms_last_log_index := None |};
     rs_prev := Some SvLeader; rs_cluster := cl |}.
Definition two_labels : gmap N string := {[ 1%N := "local"; 11%N := "b" ]}.
Lemma two_labels_right vs cl : labels_right (R := toy_engine) (example_node vs two_labels cl).
Proof.
  intros id l. unfold two_labels. simpl. rewrite lookup_insert_Some, lookup_singleton_Some. by intros [[<- <-]|[_ [<- <-]]].
Qed.
Definition peer_b (st : PeerStatus) : PeerInfo :=
  {| peer_node_id := "b"; peer_addr := "http://node"; peer_status := st; peer_last_seen := 0; peer_joined_at := 0 |}.

Lemma one_votes : 1%N ∈ ({[ 1; 11 ]}%N : gset N).
Proof. set_solver. Qed.

Lemma sync_moves_only_dead_and_settled_witness :
  let s := example_node {[ 1%N; 11%N ]} two_labels (example_cluster []) in
  let s' := (raft_membership_sync_round (E := clock_env) (K := NoopAuditSink) (R := toy_engine) default_start_config true [peer_b PsDead] 0 0 s).2 in
  1%N ∈ voters s'.
Proof.
  intros s s'. destruct (decide (1%N ∈ voters s')) as [Hin|Hout]; [exact Hin|exfalso].
  destruct (sync_moves_only_dead_and_settled (E := clock_env) (K := NoopAuditSink) (R := toy_engine) default_start_config true
    [peer_b PsDead] 0 0 s (two_labels_right _ _)) as [Hgone _].
  - intros id Hid. change (id ∈ ({[ 1; 11 ]}%N : gset N)) in Hid. apply elem_of_union in Hid as [Hid|Hid]; apply elem_of_singleton in Hid as ->; eexists; reflexivity.
  - destruct (Hgone 1%N) as (p & Hp & _ & Hid); [apply one_votes|exact Hout|].
    apply list_elem_of_singleton in Hp as ->. vm_compute in Hid. discriminate Hid.
Defined.

Lemma sync_drops_unlabelled_voters_witness :
  let s := example_node {[ 1%N; 99%N ]} ({[ 1%N := "local" ]}) (example_cluster []) in
  let p := raft_membership_sync_round (E := clock_env) (K := NoopAuditSink) (R := toy_engine) default_start_config true [peer_b PsAlive] 0 0 s in
  p.1 = Ok (["b"], []) ∧ 99%N ∉ voters p.2.
Proof.
  intros s p. assert (p.1 = Ok (["b"], [])) as Hp by (vm_compute; reflexivity). split; [exact Hp|].
  destruct p as [r s'] eqn:Hr. simpl in Hp. subst r.
  apply (sync_drops_unlabelled_voters (E := clock_env) (K := NoopAuditSink) (R := toy_engine) default_start_config true
    [peer_b PsAlive] 0 0 s ["b"] [] s' 99%N Hr); [discriminate| |reflexivity|discriminate|].
  - intros id l. simpl. rewrite lookup_singleton_Some. by intros [<- <-].
  - intros q Hq. apply list_elem_of_singleton in Hq as ->. discriminate.
Defined.

Lemma promote_replaces_voters_witness :
  let s := example_node {[ 1%N; 12%N; 13%N ]} two_labels (example_cluster []) in
  let p := cluster_raft_promote (E := clock_env) (K := NoopAuditSink) (R := toy_engine) default_start_config true true "b" s in
  p.1 = Ok ("b", "voter") ∧ voters p.2 = {[ 1%N; 11%N ]}.
Proof.
  intros s p. assert (p.1 = Ok ("b", "voter")) as Hp by (vm_compute; reflexivity). split; [exact Hp|].
  destruct p as [r s'] eqn:Hr. simpl in Hp. subst r.
  exact (promote_replaces_voters (E := clock_env) (K := NoopAuditSink) (R := toy_engine) default_start_config true "b" s _ s' Hr).
Defined.

Lemma node_never_loses_last_voter_witness :
  let s := example_node {[ 1%N ]} {[ 1%N := "local" ]} (example_cluster []) in
  node_ok (R := slow_engine) (node_runs (E := clock_env) (K := NoopAuditSink) (H := example_http) (R := slow_engine) default_start_config true
    [NJoin "b" "http://node"; NSync 1; NPromote "b"; NLeave "b"; NLeave "local"; NPump] s).
Proof.
  apply (node_never_loses_last_voter (E := clock_env) (K := NoopAuditSink) (H := example_http) (R := slow_engine) default_start_config true (RL := slow_engine_laws)). split.
  - change (({[ 1%N ]} : gset N) ≠ ∅). set_solver.
  - intros id l. simpl. rewrite lookup_singleton_Some. by intros [<- <-].
Defined.

Lemma healthy_voters_lose_their_vote_witness :
  let s := example_node {[ 1%N; 11%N ]} two_labels lone_daemon in
  let s1 := (on_cluster (gossip_tick (E := clock_env) (H := example_http) 60 240) s).2 in
  11%N ∉ voters (R := toy_engine) (raft_sync_tick (E := clock_env) (K := NoopAuditSink) (R := toy_engine) default_start_config true 60 s1).2.
Proof.
  intros s s1.
  assert (Forall (λ r, node_id_from_string (R := toy_engine) (pe_node_id r) ∉
    voters (R := toy_engine) (raft_sync_tick (E := clock_env) (K := NoopAuditSink) (R := toy_engine) default_start_config true 60 s1).2) (cl_peers (rs_cluster s))) as Hall.
  { apply (healthy_voters_lose_their_vote (E := clock_env) (K := NoopAuditSink) (H := example_http) (R := toy_engine) default_start_config true
      clock_env_laws "secret" 60 240 60 s).
    - reflexivity.
    - intros ids g. reflexivity.
    - intros kind pr c p w. reflexivity.
    - split; [apply NoDup_singleton|]. constructor; [|constructor]. split; [apply stamped_example; unfold ts_range; lia|].
      apply elem_of_cons. by left.
    - lia.
    - lia.
    - unfold ts_range. simpl. lia.
    - unfold ts_range. simpl. lia.
    - constructor; [exact node_is_daemon|constructor].
    - constructor; [vm_compute; reflexivity|constructor].
    - apply one_votes.
    - constructor; [split; [discriminate|reflexivity]|constructor]. }
  apply Forall_cons in Hall as [Hb _]. exact Hb.
Defined.

Lemma proposals_are_leader_writes_witness :
  let s := example_node {[ 1%N ]} two_labels (example_cluster []) in
  let p := propose_container (E := clock_env) (K := NoopAuditSink) (R := toy_engine) true "local" web s in
  p.1 = Ok (Ok 7%N) ∧ is_leader s = true ∧ voters (R := toy_engine) p.2 = voters (R := toy_engine) s.
Proof.
  intros s p. destruct (proposals_are_leader_writes (E := clock_env) (K := NoopAuditSink) (R := toy_engine) true "local" web s) as (_ & Hm & Hv).
  assert (p.1 = Ok (Ok 7%N)) as Hp by (vm_compute; reflexivity). split; [exact Hp|]. split; [|exact Hv].
  unfold p in Hp. rewrite Hp in Hm. exact (proj1 Hm).
Defined.

(** A node that does not lead refuses a proposal. *)
Example follower_refuses :
  let s := set_seen {| ms_leader := Some 2%N; ms_state := Some SvFollower; ms_term := 1; ms_last_log_index := None |} None
             (example_node {[ 1%N; 2%N ]} two_labels (example_cluster [])) in
  let p := propose_container (E := clock_env) (K := NoopAuditSink) (R := toy_engine) true "local" web s in
  p.1 = Ok (Err (CStorage "not_leader (current role = ")).
Proof. vm_compute. reflexivity. Qed.
