(* ===== verification/Parse.v ===== *)
(** What podman reports and what its command line takes: the resource types of
    [linpodx-common/src/state.rs], the parsers of podman's JSON
    ([linpodx-runtime/src/parse.rs]), and the texts of [--publish] and [--volume].

    JSON text is read by the environment's parser; the objects it yields have no
    duplicate keys. A field that is missing where podman always has a time gets the
    current time, so the parsers run in [D]. Error texts end before a foreign
    error's text. *)
From S2P Require Import Prelude Text Json Common Database KeyRegistry.

(** * state.rs *)

(** [str::to_lowercase] for the texts it is used on: ASCII letters and the one
    other character whose lower case is an ASCII letter (U+212A, the Kelvin sign);
    no comparison below sees the case of the rest. *)
Fixpoint to_lowercase (s : string) : string :=
  match s with
  | EmptyString => EmptyString
  | String c s' =>
      match s' with
      | String c2 (String c3 s'') =>
          if bool_decide (byte_val c = 226%N) && bool_decide (byte_val c2 = 132%N) && bool_decide (byte_val c3 = 170%N)
          then String (Ascii.ascii_of_N 107) (to_lowercase s'')
          else String (lower_byte c) (to_lowercase s')
      | _ => String (lower_byte c) (to_lowercase s')
      end
  end.

Definition parse_lossy (raw : string) : ContainerState :=
  let s := to_lowercase (trim raw) in
  if decide (s = "created") then CsCreated else if decide (s = "configured") then CsCreated
  else if decide (s = "running") then CsRunning
  else if decide (s = "paused") then CsPaused
  else if decide (s = "exited") then CsExited else if decide (s = "stopped") then CsExited
  else if decide (s = "dead") then CsDead
  else CsUnknown.
Definition state_to_string (c : ContainerState) : string :=
  match c with
  | CsCreated => "created" | CsRunning => "running" | CsPaused => "paused"
  | CsExited => "exited" | CsDead => "dead" | CsUnknown => "unknown"
  end.

Record MountInfo : Type := {
  mi_source : string;
  mi_destination : string;
  mi_kind : string;
  mi_read_only : bool;
}.

Record NetworkSettings : Type := {
  ns_ip_address : option string;
  ns_ports : list string;
}.

Record ContainerInspect : Type := {
  ci_id : string;
  ci_name : string;
  ci_image : string;
  ci_image_id : option string;
  ci_state : ContainerState;
  ci_status : string;
  ci_created : Z;
  ci_command : list string;
  ci_args : list string;
  ci_env : gmap string string;
  ci_mounts : list MountInfo;
  ci_network : NetworkSettings;
  ci_labels : gmap string string;
  ci_raw : option Value;
}.

Record ImageSummary : Type := {
  im_id : string;
  im_repo_tags : list string;
  im_repo_digests : list string;
  im_size_bytes : Z;
  im_created : Z;
  im_labels : gmap string string;
}.

Record ImageConfig : Type := {
  ic_env : list string;
  ic_cmd : list string;
  ic_entrypoint : list string;
  ic_working_dir : option string;
  ic_exposed_ports : list string;
  ic_user : option string;
}.

Record ImageInspect : Type := {
  ii_id : string;
  ii_repo_tags : list string;
  ii_repo_digests : list string;
  ii_size_bytes : Z;
  ii_virtual_size_bytes : Z;
  ii_architecture : string;
  ii_os : string;
  ii_created : Z;
  ii_config : ImageConfig;
  ii_labels : gmap string string;
  ii_raw : option Value;
}.

Record VolumeSummary : Type := {
  vs_name : string;
  vs_driver : string;
  vs_mountpoint : string;
  vs_created : Z;
  vs_labels : gmap string string;
}.

Record VolumeInspect : Type := {
  vi_name : string;
  vi_driver : string;
  vi_mountpoint : string;
  vi_created : Z;
  vi_labels : gmap string string;
  vi_options : gmap string string;
  vi_raw : option Value;
}.

Record NetworkSummary : Type := {
  nw_id : string;
  nw_name : string;
  nw_driver : string;
  nw_subnet : option string;
  nw_gateway : option string;
  nw_created : Z;
  nw_labels : gmap string string;
}.

Record NetworkInspect : Type := {
  ni_id : string;
  ni_name : string;
  ni_driver : string;
  ni_subnet : option string;
  ni_gateway : option string;
  ni_internal : bool;
  ni_dns_enabled : bool;
  ni_created : Z;
  ni_labels : gmap string string;
  ni_raw : option Value;
}.

Definition protocol_to_string (p : PortProtocol) : string :=
  match p with PortTcp => "tcp" | PortUdp => "udp" | PortSctp => "sctp" end.
Definition protocol_from_str (s : string) : Result string PortProtocol :=
  let t := to_lower (trim s) in
  if decide (t = "tcp") then Ok PortTcp
  else if decide (t = "udp") then Ok PortUdp
  else if decide (t = "sctp") then Ok PortSctp
  else Err ("unknown protocol '" +:+ t +:+ "'").

Definition to_publish_arg (pm : PortMapping) : string :=
  let suffix := pretty (host_port pm) +:+ ":" +:+ pretty (container_port pm) +:+ "/" +:+ protocol_to_string (protocol pm) in
  match host_ip pm with
  | Some ip => ip +:+ ":" +:+ suffix
  | None => suffix
  end.

(** The ports of [[host_ip:]host_port:container_port], split from the right. *)
Definition parse_port_head (raw head : string) (proto : PortProtocol) : Result string PortMapping :=
  match rsplit_once colon head with
  | None => Err ("missing host port in '" +:+ raw +:+ "'")
  | Some (rest, cport_str) =>
      let '(hport_str, ip) := match rsplit_once colon rest with
                              | Some (ip, h) => (h, Some ip)
                              | None => (rest, None)
                              end in
      match parse_u16 cport_str with
      | None => Err ("invalid container port '" +:+ cport_str +:+ "' in '" +:+ raw +:+ "'")
      | Some c =>
          match parse_u16 hport_str with
          | None => Err ("invalid host port '" +:+ hport_str +:+ "' in '" +:+ raw +:+ "'")
          | Some h => Ok {| host_port := Z.of_N h; container_port := Z.of_N c; protocol := proto; host_ip := ip |}
          end
      end
  end.
Definition parse_port_mapping (raw : string) : Result string PortMapping :=
  match rsplit_once slash raw with
  | Some (h, p) =>
      match protocol_from_str p with
      | Ok proto => parse_port_head raw h proto
      | Err e => Err e
      end
  | None => parse_port_head raw raw PortTcp
  end.

Definition to_volume_arg (vm : VolumeMount) : string :=
  if vm_read_only vm then source vm +:+ ":" +:+ destination vm +:+ ":ro"
  else source vm +:+ ":" +:+ destination vm.

(** [splitn(3, ':')]. *)
Definition parse_volume_mount (raw : string) : Result string VolumeMount :=
  match split_once colon raw with
  | None => Err ("expected SRC:DST[:ro|rw], got '" +:+ raw +:+ "'")
  | Some (src, rest) =>
      match split_once colon rest with
      | None => Ok {| source := src; destination := rest; vm_read_only := false |}
      | Some (dst, mode) =>
          let m := to_lower mode in
          if decide (m = "ro") then Ok {| source := src; destination := dst; vm_read_only := true |}
          else if decide (m = "rw") then Ok {| source := src; destination := dst; vm_read_only := false |}
          else if decide (m = "") then Ok {| source := src; destination := dst; vm_read_only := false |}
          else Err ("invalid volume mode '" +:+ m +:+ "' (expected ro or rw)")
      end
  end.

(** * parse.rs *)

(** [Value::as_array], [as_object], [as_bool], [as_u64]. *)
Definition as_array (v : Value) : option (list Value) := match v with JArray l => Some l | _ => None end.
Definition as_object (v : Value) : option (list (string * Value)) := match v with JObject m => Some m | _ => None end.
Definition as_bool (v : Value) : option bool := match v with JBool b => Some b | _ => None end.
Definition as_u64 (v : Value) : option Z :=
  match v with JNumber (NInt z) => if decide (0 ≤ z ≤ u64_max)%Z then Some z else None | _ => None end.

(** [v.get(a).or_else(|| v.get(b)) ...]. *)
Fixpoint get_first (v : Value) (keys : list string) : option Value :=
  match keys with
  | [] => None
  | k :: keys' => or_else (get v k) (get_first v keys')
  end.
Definition str_field (v : Value) (keys : list string) : option string := get_first v keys ≫= as_str.

Definition string_array (v : option Value) : list string :=
  match v ≫= as_array with Some a => omap as_str a | None => [] end.
Definition string_map (v : option Value) : gmap string string :=
  match v ≫= as_object with
  | Some m => list_to_map (omap (λ kv, (λ s, (kv.1, s)) <$> as_str kv.2) m)
  | None => ∅
  end.

(** Port numbers are [u64]; a release build wraps. *)
Definition port_range (lo range : Z) : string :=
  if decide (1 < range)%Z then pretty lo +:+ "-" +:+ pretty (wrap_u64 (wrap_u64 (lo + range) - 1)) else pretty lo.
Definition parse_port_entry (x : Value) : option string :=
  match as_str x with
  | Some s => let t := trim s in if decide (t = "") then None else Some t
  | None =>
      o ← as_object x;
      let ip := unwrap_or "" (obj_find "host_ip" o ≫= as_str) in
      let hport := unwrap_or 0%Z (obj_find "host_port" o ≫= as_u64) in
      let cport := unwrap_or 0%Z (obj_find "container_port" o ≫= as_u64) in
      let range := Z.max 1 (unwrap_or 1%Z (obj_find "range" o ≫= as_u64)) in
      let proto := unwrap_or "tcp" (obj_find "protocol" o ≫= as_str) in
      let mapping := port_range hport range +:+ "->" +:+ port_range cport range +:+ "/" +:+ proto in
      Some (if decide (ip = "") then mapping else ip +:+ ":" +:+ mapping)
  end.

Section Parse.
Context {E : Env} {K : MarkerCodec}.

(** The [Created] field: seconds, or RFC 3339 text, or the current time. *)
Definition parse_created (v : option Value) : D Z :=
  match v with
  | Some (JNumber n) =>
      match as_i64 (JNumber n) with
      | Some secs =>
          match from_timestamp secs with
          | Some t => mret t
          | None => throw (Fail (Runtime ("invalid unix timestamp " +:+ pretty secs)))
          end
      | None => throw (Fail (Runtime "created field is non-integer number: "))
      end
  | Some (JString s) =>
      match ts_parse s with
      | inl t => mret t
      | inr _ => throw (Fail (Runtime ("invalid created timestamp '" +:+ s +:+ "': ")))
      end
  | _ => now
  end.

(** [serde_json::from_str(json)?]. *)
Definition from_json (json : string) : D Value :=
  match json_from_str json with Some v => mret v | None => throw (Fail Json) end.
(** The array [podman ... --format=json] prints, element by element. *)
Definition parse_list {A} (what : string) (f : Value → D A) (json : string) : D (list A) :=
  value ← from_json json;
  match as_array value with
  | Some arr => mapM f arr
  | None => throw (Fail (Runtime (what +:+ " did not return an array")))
  end.
(** The first element of the array [podman inspect] prints. *)
Definition first_object (what json : string) : D Value :=
  value ← from_json json;
  match as_array value ≫= head with
  | Some obj => mret obj
  | None => throw (Fail (NotFound what))
  end.
Definition required (v : option string) (message : string) : D string :=
  match v with Some s => mret s | None => throw (Fail (Runtime message)) end.

Definition parse_command (v : option Value) : option string :=
  match v with
  | Some (JString s) => Some s
  | Some (JArray a) => Some (str_concat " " (omap as_str a))
  | _ => None
  end.

Definition parse_container_summary (v : Value) : D ContainerSummary :=
  id ← required (str_field v ["Id"; "ID"]) "container missing Id";
  created ← parse_created (get v "Created");
  mret {| cs_id := id;
          cs_names := string_array (get v "Names");
          cs_image := unwrap_or "" (str_field v ["Image"]);
          cs_state := parse_lossy (unwrap_or "" (str_field v ["State"]));
          cs_status := unwrap_or "" (str_field v ["Status"]);
          cs_created := created;
          cs_command := parse_command (get v "Command");
          cs_ports := match get v "Ports" ≫= as_array with Some a => omap parse_port_entry a | None => [] end;
          cs_labels := string_map (get v "Labels") |}.
Definition parse_container_list : string → D (list ContainerSummary) := parse_list "podman ps" parse_container_summary.

(** [trim_start_matches('/')]. *)
Fixpoint trim_start_char (x : ascii) (s : string) : string :=
  match s with
  | EmptyString => EmptyString
  | String c s' => if decide (c = x) then trim_start_char x s' else s
  end.
Definition non_empty (o : option string) : option string :=
  match o with Some s => if decide (s = "") then None else Some s | None => None end.
(** The keys of an object, in order ([serde_json]'s maps are sorted). *)
Definition object_keys (v : option Value) : list string :=
  match v ≫= as_object with Some m => merge_sort String.le m.*1 | None => [] end.

Definition parse_env_entry (e : Value) : option (string * string) :=
  s ← as_str e; split_once (Ascii.ascii_of_N 61) s.
Definition parse_mount (m : Value) : option MountInfo :=
  o ← as_object m;
  src ← obj_find "Source" o ≫= as_str;
  dst ← obj_find "Destination" o ≫= as_str;
  Some {| mi_source := src; mi_destination := dst;
          mi_kind := unwrap_or "" (obj_find "Type" o ≫= as_str);
          mi_read_only := negb (unwrap_or true (obj_find "RW" o ≫= as_bool)) |}.

(** Collecting into a [HashMap] keeps the last of several values. *)
Definition parse_container_inspect (json : string) : D ContainerInspect :=
  obj ← first_object "container" json;
  id ← required (str_field obj ["Id"]) "inspect missing Id";
  created ← parse_created (get obj "Created");
  let status := unwrap_or "" (get obj "State" ≫= λ s, str_field s ["Status"]) in
  let cfg := get obj "Config" in
  let cfg_field := λ k, cfg ≫= λ c, get c k in
  let net := get obj "NetworkSettings" ≫= as_object in
  mret {| ci_id := id;
          ci_name := trim_start_char slash (unwrap_or "" (str_field obj ["Name"]));
          ci_image := unwrap_or "" (str_field obj ["ImageName"; "Image"]);
          ci_image_id := str_field obj ["Image"];
          ci_state := parse_lossy status;
          ci_status := status;
          ci_created := created;
          ci_command := string_array (cfg_field "Cmd");
          ci_args := string_array (get obj "Args");
          ci_env := match cfg_field "Env" ≫= as_array with
                    | Some a => list_to_map (rev (omap parse_env_entry a))
                    | None => ∅
                    end;
          ci_mounts := match get obj "Mounts" ≫= as_array with Some a => omap parse_mount a | None => [] end;
          ci_network := {| ns_ip_address := non_empty (net ≫= λ n, obj_find "IPAddress" n ≫= as_str);
                           ns_ports := object_keys (net ≫= obj_find "Ports") |};
          ci_labels := string_map (cfg_field "Labels");
          ci_raw := Some obj |}.

Definition parse_image_summary (v : Value) : D ImageSummary :=
  id ← required (str_field v ["Id"; "ID"]) "image missing Id";
  created ← parse_created (get v "Created");
  let digests := string_array (get v "RepoDigests") in
  mret {| im_id := id;
          im_repo_tags := string_array (get_first v ["Names"; "RepoTags"]);
          im_repo_digests := match digests with
                             | [] => match non_empty (str_field v ["Digest"]) with Some d => [d] | None => [] end
                             | _ => digests
                             end;
          im_size_bytes := unwrap_or 0%Z (get v "Size" ≫= as_u64);
          im_created := created;
          im_labels := string_map (get v "Labels") |}.
Definition parse_image_list : string → D (list ImageSummary) := parse_list "podman images" parse_image_summary.

Definition parse_image_inspect (json : string) : D ImageInspect :=
  obj ← first_object "image" json;
  id ← required (str_field obj ["Id"]) "image inspect missing Id";
  created ← parse_created (get obj "Created");
  let size_bytes := unwrap_or 0%Z (get obj "Size" ≫= as_u64) in
  let cfg_field := λ k, get obj "Config" ≫= λ c, get c k in
  mret {| ii_id := id;
          ii_repo_tags := string_array (get obj "RepoTags");
          ii_repo_digests := string_array (get obj "RepoDigests");
          ii_size_bytes := size_bytes;
          ii_virtual_size_bytes := unwrap_or size_bytes (get obj "VirtualSize" ≫= as_u64);
          ii_architecture := unwrap_or "" (str_field obj ["Architecture"]);
          ii_os := unwrap_or "" (str_field obj ["Os"]);
          ii_created := created;
          ii_config := {| ic_env := string_array (cfg_field "Env"); ic_cmd := string_array (cfg_field "Cmd");
                          ic_entrypoint := string_array (cfg_field "Entrypoint");
                          ic_working_dir := non_empty (cfg_field "WorkingDir" ≫= as_str);
                          ic_exposed_ports := object_keys (cfg_field "ExposedPorts");
                          ic_user := non_empty (cfg_field "User" ≫= as_str) |};
          ii_labels := string_map (get obj "Labels");
          ii_raw := Some obj |}.

Definition parse_volume_summary (v : Value) : D VolumeSummary :=
  name ← required (str_field v ["Name"]) "volume missing Name";
  created ← parse_created (get_first v ["CreatedAt"; "Created"]);
  mret {| vs_name := name; vs_driver := unwrap_or "local" (str_field v ["Driver"]);
          vs_mountpoint := unwrap_or "" (str_field v ["Mountpoint"]); vs_created := created;
          vs_labels := string_map (get v "Labels") |}.
Definition parse_volume_list : string → D (list VolumeSummary) := parse_list "podman volume ls" parse_volume_summary.

Definition parse_volume_inspect (json : string) : D VolumeInspect :=
  obj ← first_object "volume" json;
  name ← required (str_field obj ["Name"]) "volume inspect missing Name";
  created ← parse_created (get_first obj ["CreatedAt"; "Created"]);
  mret {| vi_name := name; vi_driver := unwrap_or "local" (str_field obj ["Driver"]);
          vi_mountpoint := unwrap_or "" (str_field obj ["Mountpoint"]); vi_created := created;
          vi_labels := string_map (get obj "Labels"); vi_options := string_map (get obj "Options");
          vi_raw := Some obj |}.

Definition extract_subnet_gateway (v : Value) : option string * option string :=
  match (get_first v ["subnets"; "Subnets"] ≫= as_array) ≫= head with
  | Some first => (str_field first ["subnet"; "Subnet"], str_field first ["gateway"; "Gateway"])
  | None => (None, None)
  end.

Definition network_id_keys : list string := ["id"; "Id"; "ID"; "name"; "Name"].
Definition parse_network_summary (v : Value) : D NetworkSummary :=
  id ← required (str_field v network_id_keys) "network missing id/Name";
  let '(subnet, gateway) := extract_subnet_gateway v in
  created ← parse_created (get_first v ["created"; "Created"]);
  mret {| nw_id := id; nw_name := unwrap_or id (str_field v ["name"; "Name"]);
          nw_driver := unwrap_or "bridge" (str_field v ["driver"; "Driver"]);
          nw_subnet := subnet; nw_gateway := gateway; nw_created := created;
          nw_labels := string_map (get_first v ["labels"; "Labels"]) |}.
Definition parse_network_list : string → D (list NetworkSummary) := parse_list "podman network ls" parse_network_summary.

Definition parse_network_inspect (json : string) : D NetworkInspect :=
  obj ← first_object "network" json;
  id ← required (str_field obj network_id_keys) "network inspect missing id/Name";
  let '(subnet, gateway) := extract_subnet_gateway obj in
  let internal := unwrap_or false (get_first obj ["internal"; "Internal"] ≫= as_bool) in
  let dns_enabled := unwrap_or true (get_first obj ["dns_enabled"; "DnsEnabled"] ≫= as_bool) in
  created ← parse_created (get_first obj ["created"; "Created"]);
  mret {| ni_id := id; ni_name := unwrap_or id (str_field obj ["name"; "Name"]);
          ni_driver := unwrap_or "bridge" (str_field obj ["driver"; "Driver"]);
          ni_subnet := subnet; ni_gateway := gateway; ni_internal := internal; ni_dns_enabled := dns_enabled;
          ni_created := created; ni_labels := string_map (get_first obj ["labels"; "Labels"]);
          ni_raw := Some obj |}.
End Parse.

(** * Theorems *)

Lemma pretty_Z_of_N (n : N) : pretty (Z.of_N n) = pretty n.
Proof. by destruct n. Qed.

Lemma protocol_roundtrip p : protocol_from_str (protocol_to_string p) = Ok p.
Proof. by destruct p. Qed.

Lemma has_char_protocol p : has_char slash (protocol_to_string p) = false.
Proof. by destruct p. Qed.

(** The ports come back from the tail of the text whatever stands before them. *)
Lemma parse_port_head_ports raw (h c : N) p (ip : option string) :
  (h ≤ 65535)%N → (c ≤ 65535)%N →
  parse_port_head raw (match ip with Some i => i +:+ ":" | None => "" end +:+ pretty h +:+ ":" +:+ pretty c) p =
  Ok {| host_port := Z.of_N h; container_port := Z.of_N c; protocol := p; host_ip := ip |}.
Proof.
  intros Hh Hc. unfold parse_port_head.
  assert (rsplit_once colon (match ip with Some i => i +:+ ":" | None => "" end +:+ pretty h +:+ ":" +:+ pretty c) =
          Some (match ip with Some i => i +:+ ":" | None => "" end +:+ pretty h, pretty c)) as ->.
  { rewrite <-str_app_assoc. apply rsplit_once_app. by apply pretty_N_no_char. }
  destruct ip as [i|].
  - assert (rsplit_once colon ((i +:+ ":") +:+ pretty h) = Some (i, pretty h)) as ->.
    { rewrite str_app_assoc. apply rsplit_once_app. by apply pretty_N_no_char. }
    unfold parse_u16. by rewrite !parse_uint_pretty.
  - change ("" +:+ pretty h) with (pretty h : string).
    rewrite (proj2 (rsplit_once_none colon (pretty h))) by by apply pretty_N_no_char.
    unfold parse_u16. by rewrite !parse_uint_pretty.
Qed.

(** What [PortMapping::parse] accepts and what [to_publish_arg] prints agree:
    every mapping with 16-bit ports is read back unchanged from the text podman is
    given, also when its address contains colons or slashes (IPv6). *)
Theorem publish_arg_roundtrip pm :
  (0 ≤ host_port pm ≤ 65535)%Z → (0 ≤ container_port pm ≤ 65535)%Z →
  parse_port_mapping (to_publish_arg pm) = Ok pm.
Proof.
  destruct pm as [h c p ip]. simpl. intros Hh Hc.
  rewrite <-(Z2N.id h), <-(Z2N.id c) by lia. set (hn := Z.to_N h). set (cn := Z.to_N c).
  unfold to_publish_arg. simpl. rewrite !pretty_Z_of_N.
  assert (match ip with
          | Some i => i +:+ ":" +:+ pretty hn +:+ ":" +:+ pretty cn +:+ "/" +:+ protocol_to_string p
          | None => pretty hn +:+ ":" +:+ pretty cn +:+ "/" +:+ protocol_to_string p
          end = (match ip with Some i => i +:+ ":" | None => "" end +:+ pretty hn +:+ ":" +:+ pretty cn) +:+ "/" +:+ protocol_to_string p) as ->.
  { destruct ip; by rewrite ?str_app_assoc. }
  unfold parse_port_mapping. rewrite (rsplit_once_app slash _ _ (has_char_protocol p) : rsplit_once slash (_ +:+ "/" +:+ _) = _).
  rewrite protocol_roundtrip. apply parse_port_head_ports; unfold hn, cn; lia.
Qed.

(** [VolumeMount::parse] reads back what [to_volume_arg] prints exactly when
    neither side of the mount contains a colon: with one, podman is told of another
    mount than the one that was checked. *)
Theorem volume_arg_roundtrip vm :
  parse_volume_mount (to_volume_arg vm) = Ok vm ↔
  has_char colon (source vm) = false ∧ has_char colon (destination vm) = false.
Proof.
  destruct vm as [src dst ro]. unfold to_volume_arg, parse_volume_mount. simpl.
  assert ((if ro then src +:+ ":" +:+ dst +:+ ":ro" else src +:+ ":" +:+ dst) =
          src +:+ ":" +:+ (dst +:+ if ro then ":ro" else "")) as ->.
  { destruct ro; by rewrite ?str_app_nil_r. }
  destruct (has_char colon src) eqn:Hs.
  - split; [|by intros []]. destruct (split_once colon (src +:+ ":" +:+ _)) as [[a b]|] eqn:Hsp; [|done].
    apply split_once_spec in Hsp as [_ Ha]. repeat case_match; intros [= <-]; congruence.
  - rewrite (split_once_app colon src _ Hs : split_once colon (src +:+ ":" +:+ _) = _). destruct (has_char colon dst) eqn:Hd.
    + split; [|by intros []]. destruct (split_once colon (dst +:+ _)) as [[a b]|] eqn:Hsp.
      * apply split_once_spec in Hsp as [_ Ha]. repeat case_match; intros [= <-]; congruence.
      * apply split_once_none in Hsp. rewrite has_char_app, Hd in Hsp. done.
    + split; [by split|]. intros _. destruct ro.
      * by rewrite (split_once_app colon dst "ro" Hd : split_once colon (dst +:+ ":ro") = _).
      * rewrite str_app_nil_r. by rewrite (proj2 (split_once_none colon dst)).
Qed.

(** The state podman prints is the state that is read. *)
Lemma state_roundtrip c : parse_lossy (state_to_string c) = c.
Proof. by destruct c. Qed.

Section Lists.
Context {E : Env} {K : MarkerCodec}.

(** A [Created] field that is absent, in range, or RFC 3339 text. *)
Definition created_ok (v : option Value) : bool :=
  match v with
  | Some (JNumber n) => match as_i64 (JNumber n) ≫= from_timestamp with Some _ => true | None => false end
  | Some (JString s) => match ts_parse s with inl _ => true | inr _ => false end
  | _ => true
  end.
Definition entry_ok (v : Value) : bool := is_some (str_field v ["Id"; "ID"]) && created_ok (get v "Created").

Lemma parse_created_spec v w :
  (∃ t w', parse_created v w = (Ok t, w')) ↔ created_ok v = true.
Proof.
  unfold parse_created, created_ok. destruct v as [[| |n|s|l|m]|]; try (split; [done|intros _; by eexists _, _]).
  - destruct (as_i64 _) as [z|]; [simpl; destruct (from_timestamp z)|]; split; naive_solver.
  - destruct (ts_parse s); split; naive_solver.
Qed.

Lemma parse_container_summary_spec v w :
  match parse_container_summary v w with
  | (Ok c, _) => entry_ok v = true ∧ str_field v ["Id"; "ID"] = Some (cs_id c)
  | (Err _, _) => entry_ok v = false
  end.
Proof.
  unfold parse_container_summary, entry_ok, required. destruct (str_field v ["Id"; "ID"]) as [id|]; [|done].
  unfold mbind, M_bind. cbn [mret M_ret]. pose proof (parse_created_spec (get v "Created") w) as Hc.
  destruct (parse_created (get v "Created") w) as [[t|e] w'].
  - simpl. split; [|done]. apply Hc. by eexists _, _.
  - simpl. destruct (created_ok _); [|done]. destruct Hc as [_ Hc]. by destruct (Hc eq_refl) as (? & ? & ?).
Qed.

Lemma mapM_container_summary arr w :
  match mapM parse_container_summary arr w with
  | (Ok l, _) => Forall (λ v, entry_ok v = true) arr ∧ (λ v, str_field v ["Id"; "ID"]) <$> arr = Some ∘ cs_id <$> l
  | (Err _, _) => ¬ Forall (λ v, entry_ok v = true) arr
  end.
Proof.
  revert w. induction arr as [|v arr IH]; intros w; [done|]. cbn [mapM]. unfold mbind at 1, M_bind at 1.
  pose proof (parse_container_summary_spec v w) as Hv.
  destruct (parse_container_summary v w) as [[c|e] w1]; [|intros Hf; inv Hf; congruence].
  specialize (IH w1). unfold mbind, M_bind. destruct (mapM parse_container_summary arr w1) as [[l|e] w2]; simpl.
  - destruct IH as [IH1 IH2], Hv as [Hv1 Hv2]. split; [by constructor|]. by f_equal.
  - intros Hf. inv Hf. by apply IH.
Qed.

(** Listing containers is all or nothing: podman's array is read, one summary
    per entry with the entry's id and in its order, exactly when every entry has an
    id and a well-formed creation time; a single malformed entry hides all the
    others. *)
Theorem container_list_all_or_nothing json arr w :
  json_from_str json = Some (JArray arr) →
  match parse_container_list json w with
  | (Ok l, _) => Forall (λ v, entry_ok v = true) arr ∧ (λ v, str_field v ["Id"; "ID"]) <$> arr = Some ∘ cs_id <$> l
  | (Err _, _) => ¬ Forall (λ v, entry_ok v = true) arr
  end.
Proof.
  intros Hj. unfold parse_container_list, parse_list, from_json. rewrite Hj.
  exact (mapM_container_summary arr w).
Qed.
End Lists.

(** * Examples *)

Definition v6_mapping : PortMapping :=
  {| host_port := 8443; container_port := 443; protocol := PortUdp; host_ip := Some "fe80::1" |}.
Lemma publish_arg_roundtrip_witness : parse_port_mapping (to_publish_arg v6_mapping) = Ok v6_mapping.
Proof. apply publish_arg_roundtrip; simpl; lia. Defined.

Definition ps_entry (id : string) : Value := JObject [("Id", JString id); ("State", JString "Running")].
Definition ps_env : Env := toy_env_with [("ps", JArray [ps_entry "a"; ps_entry "b"; JObject []])] (λ _, false).
Lemma container_list_all_or_nothing_witness :
  let arr := [ps_entry "a"; ps_entry "b"; JObject []] in
  match parse_container_list (E := ps_env) (K := toy_codec) "ps" empty_world with
  | (Ok l, _) => Forall (λ v, entry_ok (E := ps_env) (K := toy_codec) v = true) arr ∧ (λ v, str_field v ["Id"; "ID"]) <$> arr = Some ∘ cs_id <$> l
  | (Err _, _) => ¬ Forall (λ v, entry_ok (E := ps_env) (K := toy_codec) v = true) arr
  end.
Proof. apply (container_list_all_or_nothing (E := ps_env) (K := toy_codec) "ps"). reflexivity. Defined.
