(* ===== verification/Podman.v ===== *)
(** The adapter over the podman command line ([linpodx-runtime/src/podman.rs],
    [version.rs]) and the flags of desktop passthrough ([passthrough.rs]).

    podman itself is the parameter [podman_exec]: what a call with given arguments
    prints, how it exits and how it changes podman's own state; how it splits its
    arguments into options and values is the parameter [PodmanFlags], with the
    documented syntax as laws. Error texts end before a foreign error's text. *)
From S2P Require Import Prelude Text Json Common Database AuditKinds AuditLog Logging Embedding KeyRegistry Parse.

(** * The process *)

(** A call that could not be started (is the binary missing?), or its exit code
    ([None] after a signal), its two outputs, and the file named by [-o]. *)
Inductive ProcOutcome : Type :=
| SpawnFailed (missing : bool)
| Exited (code : option Z) (stdout stderr : string) (file : option string).

(** The arguments after the binary; the input is what the call reads: standard
    input, or the file named by [-i]. [f32_to_string] and
    [f64_to_string] are the texts of floats. *)
Class PodmanCli (P : Type) := {
  podman_exec : list string → option string → P → ProcOutcome * P;
  f32_to_string : Z → string;
  f64_to_string : Z → string;
}.

Class HasPodman (S P : Type) := {
  podman_of : S → P;
  put_podman : P → S → S;
}.

(** [--root] and [--runroot]; the binary is fixed. *)
Record PodmanConfig : Type := {
  pc_root : option string;
  pc_runroot : option string;
}.

Definition opt_arg (flag : string) (o : option string) : list string :=
  match o with Some v => [flag; v] | None => [] end.
Definition flag_if (b : bool) (flag : string) : list string := if b then [flag] else [].
Definition each_arg {A} (flag : string) (f : A → string) (l : list A) : list string := l ≫= λ x, [flag; f x].
Definition key_value (kv : string * string) : string := kv.1 +:+ "=" +:+ kv.2.

Definition base_command (cfg : PodmanConfig) : list string :=
  opt_arg "--root" (pc_root cfg) ++ opt_arg "--runroot" (pc_runroot cfg).

Definition not_found_phrases : list string :=
  ["no such container"; "no such image"; "no such volume"; "no such network"; "no container with id";
   "no image with id"; "does not exist in local storage"; "image not known"; "container not known";
   "volume not known"; "network not known"].
Definition looks_like_not_found (stderr : string) : bool :=
  let lower := to_lowercase stderr in existsb (contains lower) not_found_phrases.
Definition map_not_found (err : Error) (what : string) : Error :=
  match err with
  | Runtime message => if looks_like_not_found message then NotFound what else err
  | _ => err
  end.

Definition success (code : option Z) : bool := bool_decide (code = Some 0%Z).
Definition is_utf8 (s : string) : bool := bool_decide (from_utf8_lossy s = s).

(** * Arguments *)

(** [passthrough.rs]: the host's environment variables and [/etc/group]. *)
Class HostEnv := {
  host_var : string → option string;
  etc_group : option string;
}.

(** One line [name:password:gid:members] of [/etc/group]. *)
Definition group_line_gid (name line : string) : option N :=
  match split colon line with
  | entry_name :: _ :: gid :: _ => if decide (entry_name = name) then parse_u32 gid else None
  | _ => None
  end.
Fixpoint find_map {A B} (f : A → option B) (l : list A) : option B :=
  match l with
  | [] => None
  | x :: l' => match f x with Some y => Some y | None => find_map f l' end
  end.
Definition parse_group_gid (contents name : string) : option N := find_map (group_line_gid name) (lines contents).

Definition HIDPI_FORWARD : list string :=
  ["GDK_SCALE"; "GDK_DPI_SCALE"; "GDK_BACKEND"; "GTK_THEME"; "GTK_OVERLAY_SCROLLING"; "QT_SCALE_FACTOR";
   "QT_AUTO_SCREEN_SCALE_FACTOR"; "QT_ENABLE_HIGHDPI_SCALING"; "QT_QPA_PLATFORM"; "QT_QPA_PLATFORMTHEME";
   "XCURSOR_SIZE"; "XCURSOR_THEME"].

Definition spec_is_empty (spec : PassthroughSpec) : bool :=
  negb (wayland spec) && negb (x11 spec)
  && match audio spec with AudioNone => true | _ => false end
  && negb (gpu spec) && negb (dbus_session spec) && negb (clipboard spec) && negb (hidpi_inherit spec)
  && negb (is_some (register_app_menu spec)).

Section Passthrough.
Context {H : HostEnv}.

Definition host_uid : N := unwrap_or 1000%N (host_var "UID" ≫= parse_u32).
Definition group_gid (name : string) : option N := etc_group ≫= λ c, parse_group_gid c name.
Definition add_group_by_name (name : string) : list string :=
  opt_arg "--group-add" ((pretty : N → string) <$> group_gid name).

Definition wayland_args (container_xdg : string) : list string :=
  match host_var "XDG_RUNTIME_DIR" with
  | Some xdg =>
      let display := unwrap_or "wayland-0" (host_var "WAYLAND_DISPLAY") in
      ["--volume"; join xdg display +:+ ":" +:+ container_xdg +:+ "/" +:+ display;
       "--env"; "WAYLAND_DISPLAY=" +:+ display; "--env"; "XDG_RUNTIME_DIR=" +:+ container_xdg]
  | None => []
  end.
Definition x11_args : list string :=
  ["--volume"; "/tmp/.X11-unix:/tmp/.X11-unix:ro"; "--env"; "DISPLAY=" +:+ unwrap_or ":0" (host_var "DISPLAY")]
  ++ match host_var "XAUTHORITY" with
     | Some xauth => ["--volume"; xauth +:+ ":" +:+ xauth +:+ ":ro"; "--env"; "XAUTHORITY=" +:+ xauth]
     | None => []
     end.
Definition audio_args (container_xdg : string) (mode : AudioMode) : list string :=
  match mode, host_var "XDG_RUNTIME_DIR" with
  | PipeWire, Some xdg =>
      ["--volume"; join xdg "pipewire-0" +:+ ":" +:+ container_xdg +:+ "/pipewire-0";
       "--env"; "PIPEWIRE_RUNTIME_DIR=" +:+ container_xdg; "--env"; "XDG_RUNTIME_DIR=" +:+ container_xdg]
  | Pulse, Some xdg =>
      ["--volume"; join xdg "pulse" +:+ ":" +:+ container_xdg +:+ "/pulse";
       "--env"; "PULSE_SERVER=unix:" +:+ container_xdg +:+ "/pulse/native"; "--env"; "XDG_RUNTIME_DIR=" +:+ container_xdg]
  | _, _ => []
  end.

Definition apply_passthrough (spec : PassthroughSpec) : list string :=
  if spec_is_empty spec then []
  else
    let container_xdg := "/run/user/" +:+ pretty host_uid in
    (if wayland spec then wayland_args container_xdg else [])
    ++ (if x11 spec then x11_args else [])
    ++ audio_args container_xdg (audio spec)
    ++ (if gpu spec then ["--device"; "/dev/dri"] ++ add_group_by_name "video" ++ add_group_by_name "render" else [])
    ++ (if dbus_session spec then
          ["--volume"; "/run/user/" +:+ pretty host_uid +:+ "/bus:" +:+ container_xdg +:+ "/bus";
           "--env"; "DBUS_SESSION_BUS_ADDRESS=unix:path=" +:+ container_xdg +:+ "/bus"] else [])
    ++ (if clipboard spec then ["--label"; "linpodx.clipboard=requested"] else [])
    ++ (if hidpi_inherit spec then
          HIDPI_FORWARD ≫= λ key, opt_arg "--env" ((λ v, key +:+ "=" +:+ v) <$> host_var key) else [])
    ++ opt_arg "--label" ((λ slug, "linpodx.app_menu=" +:+ slug) <$> register_app_menu spec).
End Passthrough.

(** Of several [label=type:] entries the first is kept. *)
Fixpoint dedup_from (emitted : bool) (opts : list string) : list string :=
  match opts with
  | [] => []
  | s :: opts' =>
      if starts_with s "label=type:" then (if emitted then dedup_from true opts' else s :: dedup_from true opts')
      else s :: dedup_from emitted opts'
  end.
Definition dedup_label_type_first_wins (opts : list string) : list string := dedup_from false opts.

Section Args.
Context {P : Type} {C : PodmanCli P} {H : HostEnv}.

Definition create_flags (opts : CreateOptions) : list string :=
  opt_arg "--name" (co_name opts)
  ++ flag_if (rm opts) "--rm"
  ++ each_arg "--env" key_value (env opts)
  ++ each_arg "--label" key_value (labels opts)
  ++ each_arg "--publish" to_publish_arg (port_mappings opts)
  ++ each_arg "--volume" to_volume_arg (volumes opts)
  ++ each_arg "--network" id (networks opts)
  ++ opt_arg "--cpus" (f32_to_string <$> cpus opts)
  ++ opt_arg "--memory" ((λ m : Z, pretty m +:+ "m") <$> memory_mb opts)
  ++ each_arg "--cap-drop" id (cap_drop opts)
  ++ each_arg "--cap-add" id (cap_add opts)
  ++ flag_if (read_only opts) "--read-only"
  ++ each_arg "--security-opt" id (dedup_label_type_first_wins (security_opts opts))
  ++ match co_passthrough opts with Some spec => apply_passthrough spec | None => [] end
  ++ (if co_systemd opts then ["--systemd=true"; "--tmpfs"; "/run"; "--tmpfs"; "/run/lock"] else [])
  ++ flag_if (auto_restart opts) "--restart=unless-stopped"
  ++ flag_if (keep_user_id opts) "--userns=keep-id".
Definition create_args (opts : CreateOptions) : list string :=
  "create" :: create_flags opts
  ++ match rootfs opts with Some path => ["--rootfs"; path] | None => [image opts] end
  ++ command opts.
End Args.

(** * How podman reads an option list

    podman's argument parser (the Go package pflag) is a parameter. [read_options] splits
    the arguments after the subcommand into the options given, each with its value if it
    has one, and the positional arguments; values are texts, not yet converted. [csv]
    is how an option declared as a slice reads one value. *)
Class PodmanFlags := {
  read_options : list string → list (string * option string) * list string;
  csv : string → list string;
}.

(** Options of podman [create] that take a value, and options that take none. *)
Definition value_options : list string :=
  ["--name"; "--env"; "--label"; "--publish"; "--volume"; "--network"; "--cpus"; "--memory"; "--cap-drop";
   "--cap-add"; "--security-opt"; "--tmpfs"; "--device"; "--group-add"; "--systemd"; "--restart"; "--userns"].
Definition switches : list string := ["--rm"; "--read-only"; "--rootfs"; "--privileged"].

(** A text without a separator or a quote is one field. *)
Definition plain (v : string) : Prop := v ≠ "" ∧ Forall (λ sep, contains v sep = false) [","; dquote; String newline ""; String cr ""].

(** pflag's documented syntax: [--flag value] and [--flag=value] for an option with a
    value (whatever the value looks like), [--flag] for a switch; podman [create] stops at
    the first other argument, which does not begin with a dash. A slice option splits its
    value as a line of comma-separated fields. *)
Class PodmanFlagLaws (F : PodmanFlags) : Prop := {
  read_nil : read_options [] = ([], []);
  read_value flag v rest : flag ∈ value_options →
    read_options (flag :: v :: rest) = ((flag, Some v) :: (read_options rest).1, (read_options rest).2);
  read_assigned flag v rest : flag ∈ value_options →
    read_options ((flag +:+ "=" +:+ v) :: rest) = ((flag, Some v) :: (read_options rest).1, (read_options rest).2);
  read_switch flag rest : flag ∈ switches →
    read_options (flag :: rest) = ((flag, None) :: (read_options rest).1, (read_options rest).2);
  read_positional a rest : starts_with a "-" = false → read_options (a :: rest) = ([], a :: rest);
  csv_plain v : plain v → csv v = [v];
}.

(** The values given to an option, the fields of those given to a slice option, and
    whether an option is there at all. *)
Definition values (flag : string) (fs : list (string * option string)) : list string :=
  omap (λ p, if decide (p.1 = flag) then p.2 else None) fs.
Definition fields {F : PodmanFlags} (flag : string) (fs : list (string * option string)) : list string := values flag fs ≫= csv.
Definition has_option (flag : string) (fs : list (string * option string)) : Prop := flag ∈ fs.*1.

Section Reading.
Context {F : PodmanFlags} {FL : PodmanFlagLaws F}.

(** [args] is read as the options [fs], whatever follows. *)
Definition reads (args : list string) (fs : list (string * option string)) : Prop :=
  ∀ tail, read_options (args ++ tail) = (fs ++ (read_options tail).1, (read_options tail).2).

Lemma reads_nil : reads [] [].
Proof. intros tail. simpl. by destruct (read_options tail). Qed.
Lemma reads_app a b fa fb : reads a fa → reads b fb → reads (a ++ b) (fa ++ fb).
Proof. intros Ha Hb tail. by rewrite <-app_assoc, Ha, Hb, <-app_assoc. Qed.
Lemma reads_value flag v : flag ∈ value_options → reads [flag; v] [(flag, Some v)].
Proof. intros Hf tail. by apply read_value. Qed.
Lemma reads_assigned flag v : flag ∈ value_options → reads [flag +:+ "=" +:+ v] [(flag, Some v)].
Proof. intros Hf tail. by apply read_assigned. Qed.
Lemma reads_switch flag : flag ∈ switches → reads [flag] [(flag, None)].
Proof. intros Hf tail. by apply read_switch. Qed.
Lemma reads_opt flag o : flag ∈ value_options → reads (opt_arg flag o) (match o with Some v => [(flag, Some v)] | None => [] end).
Proof. intros Hf. destruct o; [by apply reads_value|apply reads_nil]. Qed.
Lemma reads_each {A} flag (f : A → string) l : flag ∈ value_options → reads (each_arg flag f l) ((λ x, (flag, Some (f x))) <$> l).
Proof. intros Hf. induction l as [|x l IH]; [apply reads_nil|]. apply (reads_app [flag; f x] _ [_]); [by apply reads_value|done]. Qed.
Lemma reads_flag_if b flag : flag ∈ switches → reads (flag_if b flag) (if b then [(flag, None)] else []).
Proof. destruct b; [apply reads_switch|intros; apply reads_nil]. Qed.
Lemma reads_assigned_if b flag v : flag ∈ value_options →
  reads (flag_if b (flag +:+ "=" +:+ v)) (match (if b then Some v else None) with Some v => [(flag, Some v)] | None => [] end).
Proof. destruct b; [apply reads_assigned|intros; apply reads_nil]. Qed.
Lemma csv_each l : Forall plain l → l ≫= csv = l.
Proof. induction 1 as [|v l Hv _ IH]; [done|]. cbn. by rewrite csv_plain, IH. Qed.
End Reading.

Section ReadBack.
Context {P : Type} {C : PodmanCli P} {H : HostEnv} {F : PodmanFlags} {FL : PodmanFlagLaws F}.

Definition given_opt (flag : string) (o : option string) : list (string * option string) :=
  match o with Some v => [(flag, Some v)] | None => [] end.
Definition given_each {A} (flag : string) (f : A → string) (l : list A) : list (string * option string) :=
  (λ x, (flag, Some (f x))) <$> l.
Definition given_if (b : bool) (flag : string) : list (string * option string) := if b then [(flag, None)] else [].

(** What desktop passthrough adds. *)
Definition passthrough_args (opts : CreateOptions) : list string :=
  match co_passthrough opts with Some spec => apply_passthrough spec | None => [] end.
Definition passthrough_options (opts : CreateOptions) : list (string * option string) := (read_options (passthrough_args opts)).1.

(** What a container that runs systemd adds. *)
Definition systemd_options (opts : CreateOptions) : list (string * option string) :=
  if co_systemd opts then [("--systemd", Some "true"); ("--tmpfs", Some "/run"); ("--tmpfs", Some "/run/lock")] else [].

(** The options a container is created with. *)
Definition create_options (opts : CreateOptions) : list (string * option string) :=
  given_opt "--name" (co_name opts) ++ given_if (rm opts) "--rm"
  ++ given_each "--env" key_value (env opts) ++ given_each "--label" key_value (labels opts)
  ++ given_each "--publish" to_publish_arg (port_mappings opts) ++ given_each "--volume" to_volume_arg (volumes opts)
  ++ given_each "--network" id (networks opts)
  ++ given_opt "--cpus" (f32_to_string <$> cpus opts) ++ given_opt "--memory" ((λ m : Z, pretty m +:+ "m") <$> memory_mb opts)
  ++ given_each "--cap-drop" id (cap_drop opts) ++ given_each "--cap-add" id (cap_add opts)
  ++ given_if (read_only opts) "--read-only"
  ++ given_each "--security-opt" id (dedup_label_type_first_wins (security_opts opts))
  ++ passthrough_options opts
  ++ systemd_options opts
  ++ given_opt "--restart" (if auto_restart opts then Some "unless-stopped" else None)
  ++ given_opt "--userns" (if keep_user_id opts then Some "keep-id" else None).

(** The directory or image the container starts from. *)
Definition create_target (opts : CreateOptions) : string :=
  match rootfs opts with Some path => path | None => image opts end.

Lemma in_options (flag : string) (l : list string) : bool_decide (flag ∈ l) = true → flag ∈ l.
Proof. apply bool_decide_eq_true_1. Qed.
Lemma not_in_options (flag : string) (l : list string) : bool_decide (flag ∈ l) = false → flag ∉ l.
Proof. apply bool_decide_eq_false_1. Qed.

(** Reads an argument list built from the combinators above. *)
Ltac solve_reads :=
  repeat first
    [ apply reads_app
    | apply reads_nil
    | apply reads_opt; apply in_options; reflexivity
    | apply reads_each; apply in_options; reflexivity
    | apply reads_flag_if; apply in_options; reflexivity
    | apply reads_value; apply in_options; reflexivity
    | apply (reads_assigned "--systemd" "true"); apply in_options; reflexivity
    | apply (reads_assigned_if _ "--restart" "unless-stopped"); apply in_options; reflexivity
    | apply (reads_assigned_if _ "--userns" "keep-id"); apply in_options; reflexivity ].

(** [args] is read as options of the given names only. *)
Definition readable (names args : list string) : Prop := ∃ fs, reads args fs ∧ Forall (λ p, p.1 ∈ names) fs.
Lemma readable_app ns a b : readable ns a → readable ns b → readable ns (a ++ b).
Proof. intros (fa & Ha & Na) (fb & Hb & Nb). eexists. split; [by apply reads_app|by apply Forall_app]. Qed.
Lemma readable_self ns a : readable ns a → reads a (read_options a).1 ∧ Forall (λ p, p.1 ∈ ns) (read_options a).1.
Proof. intros (fs & Hr & Hn). pose proof (Hr []) as E. rewrite app_nil_r, read_nil in E. cbn in E. by rewrite E, app_nil_r. Qed.
Lemma readable_nil ns : readable ns [].
Proof. eexists. split; [apply reads_nil|by apply Forall_nil]. Qed.
Lemma readable_pair ns flag v rest :
  flag ∈ value_options → flag ∈ ns → readable ns rest → readable ns (flag :: v :: rest).
Proof.
  intros Hf Hn. apply (readable_app _ [flag; v]). eexists. split; [by apply reads_value|by repeat constructor].
Qed.
Lemma readable_opt ns flag o : flag ∈ value_options → flag ∈ ns → readable ns (opt_arg flag o).
Proof. destruct o; intros; [by apply readable_pair; [..|apply readable_nil]|apply readable_nil]. Qed.
Lemma readable_bind {A} ns (f : A → list string) l : (∀ x, readable ns (f x)) → readable ns (l ≫= f).
Proof. intros Hf. induction l; [apply readable_nil|by apply readable_app]. Qed.

Ltac solve_readable :=
  repeat first
    [ apply readable_app
    | apply readable_nil
    | apply readable_opt; apply in_options; reflexivity
    | apply readable_pair; [apply in_options; reflexivity..|]
    | apply readable_bind; intros ?
    | match goal with |- readable _ (match ?x with _ => _ end) => destruct x end ].

Definition passthrough_names : list string := ["--volume"; "--env"; "--device"; "--group-add"; "--label"].
Lemma passthrough_readable opts : readable passthrough_names (passthrough_args opts).
Proof.
  unfold passthrough_args. destruct (co_passthrough opts); [|apply readable_nil].
  unfold apply_passthrough, wayland_args, x11_args, audio_args, add_group_by_name. solve_readable.
Qed.

Lemma create_flags_read opts : reads (create_flags opts) (create_options opts).
Proof.
  unfold create_flags, create_options.
  assert (reads (match co_passthrough opts with Some spec => apply_passthrough spec | None => [] end) (passthrough_options opts)).
  { apply (readable_self passthrough_names), passthrough_readable. }
  repeat (first [apply reads_app | done | progress solve_reads]).
  unfold systemd_options. destruct (co_systemd opts); [|apply reads_nil].
  apply (reads_app ["--systemd=true"] _ [_]); [solve_reads|].
  apply (reads_app ["--tmpfs"; "/run"] _ [_]); solve_reads.
Qed.

Lemma values_app flag a b : values flag (a ++ b) = values flag a ++ values flag b.
Proof. apply omap_app. Qed.
Lemma values_cons flag n v fs :
  values flag ((n, v) :: fs) = (if decide (n = flag) then match v with Some x => [x] | None => [] end else []) ++ values flag fs.
Proof. unfold values. cbn. destruct (decide (n = flag)), v; done. Qed.
Lemma values_each {A} flag (f : A → string) l : values flag (given_each flag f l) = f <$> l.
Proof.
  induction l as [|x l IH]; [done|]. change (values flag ((flag, Some (f x)) :: given_each flag f l) = f x :: (f <$> l)).
  by rewrite values_cons, decide_True, IH.
Qed.
Lemma values_opt flag o : values flag (given_opt flag o) = match o with Some v => [v] | None => [] end.
Proof. destruct o; [|done]. cbn [given_opt]. by rewrite values_cons, decide_True. Qed.
Lemma values_other flag fs : flag ∉ fs.*1 → values flag fs = [].
Proof.
  induction fs as [|[n v] fs IH]; [done|]. rewrite fmap_cons. intros [Hn Hf]%not_elem_of_cons.
  rewrite values_cons, decide_False, IH; [done..|]. intros ->. by apply Hn.
Qed.
Lemma names_each {A} flag (f : A → string) l n : n ∈ (given_each flag f l).*1 → n = flag.
Proof. unfold given_each. rewrite <-list_fmap_compose. by intros (x & -> & _)%list_elem_of_fmap. Qed.
Lemma names_opt flag o n : n ∈ (given_opt flag o).*1 → n = flag.
Proof. destruct o; [by intros ->%list_elem_of_singleton|by intros ?%elem_of_nil]. Qed.
Lemma names_if b flag n : n ∈ (given_if b flag).*1 → n = flag.
Proof. destruct b; [by intros ->%list_elem_of_singleton|by intros ?%elem_of_nil]. Qed.
Lemma names_passthrough opts n : n ∈ (passthrough_options opts).*1 → n ∈ passthrough_names.
Proof.
  intros (p & -> & Hp)%list_elem_of_fmap.
  exact (proj1 (Forall_forall _ _) (proj2 (readable_self _ _ (passthrough_readable opts))) p Hp).
Qed.

(** The names of the options the adapter gives. *)
Definition known_options : list string := value_options ++ ["--rm"; "--read-only"; "--rootfs"].

(** Drops the parts of the options that have other names. *)
Ltac values_of :=
  rewrite ?values_app;
  repeat match goal with
  | |- context [values ?flag (given_each ?flag' ?f ?l)] =>
      first [ constr_eq flag flag'; rewrite (values_each flag f l)
            | rewrite (values_other flag (given_each flag' f l)) by (let H := fresh in intros H; by apply names_each in H) ]
  | |- context [values ?flag (given_opt ?flag' ?o)] =>
      first [ constr_eq flag flag'; rewrite (values_opt flag o)
            | rewrite (values_other flag (given_opt flag' o)) by (let H := fresh in intros H; by apply names_opt in H) ]
  | |- context [values ?flag (given_if ?b ?flag')] =>
      rewrite (values_other flag (given_if b flag')) by (let H := fresh in intros H; by apply names_if in H)
  end.

Lemma names_systemd opts n : n ∈ (systemd_options opts).*1 → n ∈ ["--systemd"; "--tmpfs"].
Proof. unfold systemd_options. destruct (co_systemd opts); [|by intros ?%elem_of_nil]. cbn. set_solver. Qed.

Lemma create_values opts :
  let fs := create_options opts in
  values "--cap-add" fs = cap_add opts ∧ values "--cap-drop" fs = cap_drop opts ∧
  values "--network" fs = networks opts ∧
  values "--security-opt" fs = dedup_label_type_first_wins (security_opts opts) ∧
  values "--volume" fs = (to_volume_arg <$> volumes opts) ++ values "--volume" (passthrough_options opts) ∧
  values "--cpus" fs = option_list (f32_to_string <$> cpus opts) ∧
  values "--memory" fs = option_list ((λ m : Z, pretty m +:+ "m") <$> memory_mb opts).
Proof.
  intros fs.
  assert (∀ flag, flag ∉ passthrough_names → values flag (passthrough_options opts) = []) as Hp.
  { intros flag Hf. apply values_other. by intros ?%names_passthrough. }
  assert (∀ flag, flag ∉ ["--systemd"; "--tmpfs"] → values flag (systemd_options opts) = []) as Hs.
  { intros flag Hf. apply values_other. by intros ?%names_systemd. }
  unfold fs, create_options. split_and!; values_of; rewrite Hs by (apply not_in_options; reflexivity);
    try rewrite Hp by (apply not_in_options; reflexivity); rewrite ?app_nil_r, ?app_nil_l, ?list_fmap_id; done.
Qed.

Lemma create_names opts n :
  has_option n (create_options opts) →
  n ∈ value_options ∨ (n = "--read-only" ∧ read_only opts = true) ∨ (n = "--rm" ∧ rm opts = true).
Proof.
  unfold has_option, create_options. rewrite !fmap_app, !elem_of_app. intros Hn.
  repeat match type of Hn with _ ∨ _ => destruct Hn as [Hn|Hn] end;
    try (first [apply names_each in Hn | apply names_opt in Hn]; subst; left; by apply in_options).
  - destruct (rm opts); [|by apply elem_of_nil in Hn]. apply list_elem_of_singleton in Hn as ->. by right; right.
  - destruct (read_only opts); [|by apply elem_of_nil in Hn]. apply list_elem_of_singleton in Hn as ->. by right; left.
  - apply names_passthrough in Hn. left. revert n Hn. apply Forall_forall.
    repeat (apply Forall_cons; split; [by apply in_options|]). by apply Forall_nil.
  - apply names_systemd in Hn. left. revert n Hn. apply Forall_forall.
    repeat (apply Forall_cons; split; [by apply in_options|]). by apply Forall_nil.
Qed.

Lemma create_read_only opts : has_option "--read-only" (create_options opts) ↔ read_only opts = true.
Proof.
  split.
  - intros [Hn|[[_ ?]|[? _]]]%create_names; [|done..]. exfalso. revert Hn. by apply not_in_options.
  - intros Hr. unfold has_option, create_options. rewrite !fmap_app, !elem_of_app, Hr. do 11 right. left. by left.
Qed.

Lemma read_target opts : starts_with (create_target opts) "-" = false →
  read_options (match rootfs opts with Some path => ["--rootfs"; path] | None => [image opts] end ++ command opts) =
  (given_if (is_some (rootfs opts)) "--rootfs", create_target opts :: command opts).
Proof.
  unfold create_target. intros Ht. destruct (rootfs opts) as [path|]; [|by apply read_positional]. cbn [app].
  rewrite read_switch by by apply in_options. by rewrite read_positional.
Qed.

(** Everything podman reads before the positional arguments. *)
Definition created_options (opts : CreateOptions) : list (string * option string) :=
  create_options opts ++ given_if (is_some (rootfs opts)) "--rootfs".
Lemma create_read opts : starts_with (create_target opts) "-" = false →
  read_options (tail (create_args opts)) = (created_options opts, create_target opts :: command opts).
Proof. intros Ht. unfold create_args. cbn [tail]. by rewrite create_flags_read, (read_target opts Ht). Qed.
Lemma created_values flag opts : values flag (created_options opts) = values flag (create_options opts).
Proof.
  unfold created_options. rewrite values_app.
  destruct (rootfs opts); cbn [is_some given_if]; [rewrite values_cons; case_decide|]; by rewrite app_nil_r.
Qed.
Lemma created_read_only opts : has_option "--read-only" (created_options opts) ↔ read_only opts = true.
Proof.
  rewrite <-create_read_only. unfold has_option, created_options. rewrite fmap_app, elem_of_app.
  split; [intros [?|H1%names_if]; done|by left].
Qed.


(** The adapter puts no [--] before the image: an image named like a switch is read
    as one, with everything the request decided still in front of it, and the first word
    of the command becomes the image. *)
Theorem dashed_image_is_an_option opts :
  rootfs opts = None → image opts ∈ switches →
  let rest := read_options (command opts) in
  read_options (tail (create_args opts)) = (create_options opts ++ (image opts, None) :: rest.1, rest.2).
Proof.
  intros Hr Hi rest. unfold create_args. cbn [tail]. rewrite Hr, create_flags_read. cbn [app]. by rewrite read_switch.
Qed.
End ReadBack.

(** * Operations *)

Definition MIN_PODMAN_VERSION : string := "4.6.0".

(** The digits a version part starts with; a part without digits, or too large for
    a [u32], counts as 0. *)
Fixpoint leading_digits (s : string) : string :=
  match s with
  | String c s' => match digit_val c with Some _ => String c (leading_digits s') | None => EmptyString end
  | EmptyString => EmptyString
  end.
Definition version_part (p : string) : N := unwrap_or 0%N (parse_u32 (leading_digits p)).
Definition version_parts (s : string) : N * N * N :=
  let ps := version_part <$> split (Ascii.ascii_of_N 46) s in
  (unwrap_or 0%N (ps !! 0), unwrap_or 0%N (ps !! 1), unwrap_or 0%N (ps !! 2)).
Definition compare_versions (a b : string) : comparison :=
  let '(a1, a2, a3) := version_parts a in
  let '(b1, b2, b3) := version_parts b in
  match (a1 ?= b1)%N with
  | Eq => match (a2 ?= b2)%N with Eq => (a3 ?= b3)%N | c => c end
  | c => c
  end.

(** [split_whitespace]. *)
Fixpoint words_from (skip : nat) (cur : string) (s : string) : list string :=
  let flush := if decide (cur = "") then [] else [cur] in
  match s with
  | EmptyString => flush
  | String c s' =>
      match skip with
      | S k => words_from k cur s'
      | O => match ws_len s with
             | O => words_from 0 (cur +:+ String c "") s'
             | S k => flush ++ words_from k "" s'
             end
      end
  end.
Definition split_whitespace (s : string) : list string := words_from 0 "" s.

Record ContainerUpdateParams : Type := {
  up_id : string;
  up_memory_bytes : option Z;
  up_memory_swap_bytes : option Z;
  up_cpus : option Z;
  up_pids_limit : option Z;
  up_restart_policy : option string;
}.

Record ExecOptions : Type := {
  ex_id : string;
  ex_command : list string;
  ex_env : list (string * string);
  ex_tty : bool;
}.

Section Operations.
Context {E : Env} {K : MarkerCodec} {S : Type} {W : HasWorld S} {P : Type} {C : PodmanCli P} {HP : HasPodman S P}.
Context {H : HostEnv} (cfg : PodmanConfig) (binary : string).

(** [Command::output] and [run_capture]. *)
Definition run_command (args : list string) (input : option string) : M S Fault ProcOutcome := λ s,
  let '(o, p) := podman_exec args input (podman_of s) in (Ok o, put_podman p s).
Definition run_with (args : list string) (input : option string) : M S Fault string :=
  o ← run_command args input;
  match o with
  | SpawnFailed _ => throw (Fail Io)
  | Exited code out err _ =>
      if negb (success code) then throw (Fail (Runtime (trim (from_utf8_lossy err))))
      else if negb (is_utf8 out) then throw (Fail (Runtime "invalid utf-8 sequence"))
      else mret out
  end.
Definition run_capture (args : list string) : M S Fault string := run_with (base_command cfg ++ args) None.
(** [.map_err(|e| map_not_found(e, what))]. *)
Definition or_not_found {A} (what : string) (c : M S Fault A) : M S Fault A := λ s,
  match c s with
  | (Err (Fail e), s') => (Err (Fail (map_not_found e what)), s')
  | r => r
  end.

Definition podman_version : M S Fault string :=
  o ← run_command ["--version"] None;
  match o with
  | SpawnFailed missing => throw (Fail (if missing then PodmanNotFound binary else Io))
  | Exited code out err _ =>
      if negb (success code) then throw (Fail (Runtime ("podman --version failed: " +:+ trim (from_utf8_lossy err))))
      else match last (split_whitespace (from_utf8_lossy out)) with
           | Some v => mret (trim v)
           | None => throw (Fail (Runtime "could not parse podman --version output"))
           end
  end.
Definition podman_check : M S Fault string :=
  v ← podman_version;
  match compare_versions v MIN_PODMAN_VERSION with
  | Lt => throw (Fail (PodmanVersionMismatch v MIN_PODMAN_VERSION))
  | _ => mret v
  end.

Definition podman_list (all : bool) : M S Fault (list ContainerSummary) :=
  out ← run_capture (["ps"; "--format=json"] ++ flag_if all "--all");
  on_world (parse_container_list out).
Definition podman_inspect (id : string) : M S Fault ContainerInspect :=
  out ← or_not_found id (run_capture ["inspect"; "--type=container"; id]);
  on_world (parse_container_inspect out).

Definition podman_create (opts : CreateOptions) : M S Fault string :=
  out ← run_capture (create_args opts);
  let id := trim out in
  if decide (id = "") then throw (Fail (Runtime "podman create returned empty id")) else mret id.

Definition podman_start (id : string) : M S Fault unit :=
  _ ← or_not_found id (run_capture ["start"; id]); mret tt.
Definition podman_stop (id : string) (timeout_secs : option Z) : M S Fault unit :=
  _ ← or_not_found id (run_capture (["stop"] ++ opt_arg "--time" ((pretty : Z → string) <$> timeout_secs) ++ [id])); mret tt.
Definition podman_remove (id : string) (force : bool) : M S Fault unit :=
  _ ← or_not_found id (run_capture (["rm"] ++ flag_if force "--force" ++ [id])); mret tt.
Definition podman_pull (image : string) : M S Fault unit := _ ← run_capture ["pull"; image]; mret tt.

Definition update_args (p : ContainerUpdateParams) : list string :=
  ["update"] ++ opt_arg "--memory" ((pretty : Z → string) <$> up_memory_bytes p)
  ++ opt_arg "--memory-swap" ((pretty : Z → string) <$> up_memory_swap_bytes p)
  ++ opt_arg "--cpus" (f64_to_string <$> up_cpus p)
  ++ opt_arg "--pids-limit" ((pretty : Z → string) <$> up_pids_limit p)
  ++ opt_arg "--restart" (up_restart_policy p) ++ [up_id p].
Definition update_applied_fields (p : ContainerUpdateParams) : list string :=
  flag_if (is_some (up_memory_bytes p)) "memory" ++ flag_if (is_some (up_memory_swap_bytes p)) "memory_swap"
  ++ flag_if (is_some (up_cpus p)) "cpus" ++ flag_if (is_some (up_pids_limit p)) "pids_limit"
  ++ flag_if (is_some (up_restart_policy p)) "restart_policy".
Definition container_update (p : ContainerUpdateParams) : M S Fault (string * list string) :=
  let applied := update_applied_fields p in
  if decide (applied = []) then mret (up_id p, applied)
  else _ ← or_not_found (up_id p) (run_capture (update_args p)); mret (up_id p, applied).

Definition podman_logs (id : string) (since : option string) : M S Fault (string * string) :=
  o ← run_command (base_command cfg ++ ["logs"] ++ opt_arg "--since" since ++ [id]) None;
  match o with
  | SpawnFailed _ => throw (Fail Io)
  | Exited code out err _ =>
      if negb (success code) && bool_decide (out = "") && bool_decide (err = "")
      then throw (Fail (Runtime "podman logs failed: "))
      else mret (from_utf8_lossy out, from_utf8_lossy err)
  end.

Definition exec_args (o : ExecOptions) : list string :=
  ["exec"] ++ flag_if (ex_tty o) "-t" ++ each_arg "-e" key_value (ex_env o) ++ [ex_id o] ++ ex_command o.
Definition podman_exec_in (o : ExecOptions) : M S Fault (Z * string * string) :=
  r ← run_command (base_command cfg ++ exec_args o) None;
  match r with
  | SpawnFailed _ => throw (Fail Io)
  | Exited code out err _ =>
      if negb (success code) && bool_decide (out = "") && looks_like_not_found (from_utf8_lossy err)
      then throw (Fail (NotFound (ex_id o)))
      else mret (unwrap_or (-1)%Z code, from_utf8_lossy out, from_utf8_lossy err)
  end.

(** [make_bridge_id]; the microseconds are an [i64]. *)
Definition make_bridge_id (container_id : string) (now_micros : Z) : string :=
  "pty-" +:+ str_take 8 (hex_encode (sha256 (container_id +:+ le_bytes 8 (Z.to_N (wrap_u64 now_micros))))).
Definition pty_args (container_id : string) (env_ : list (string * string)) (command_ : list string) : list string :=
  ["exec"; "-it"] ++ each_arg "-e" key_value env_ ++ [container_id] ++ command_.
End Operations.

(** * Theorems *)

Section Theorems.
Context {E : Env} {K : MarkerCodec} {S : Type} {W : HasWorld S} {P : Type} {C : PodmanCli P} {HP : HasPodman S P}.
Context {H : HostEnv} (cfg : PodmanConfig) (binary : string).

(** How a call ends, from what podman did. *)
Definition captured (o : ProcOutcome) : Result Fault string :=
  match o with
  | SpawnFailed _ => Err (Fail Io)
  | Exited code out err _ =>
      if negb (success code) then Err (Fail (Runtime (trim (from_utf8_lossy err))))
      else if negb (is_utf8 out) then Err (Fail (Runtime "invalid utf-8 sequence"))
      else Ok out
  end.
Lemma run_with_spec args input s :
  run_with args input s =
  (captured (podman_exec args input (podman_of s)).1, put_podman (podman_exec args input (podman_of s)).2 s).
Proof.
  unfold run_with, run_command. cbv [mbind M_bind]. destruct (podman_exec args input (podman_of s)) as [o p]. simpl.
  unfold captured, throw, mret, M_ret. by repeat case_match.
Qed.
Lemma run_capture_spec args s :
  run_capture cfg args s =
  (captured (podman_exec (base_command cfg ++ args) None (podman_of s)).1,
   put_podman (podman_exec (base_command cfg ++ args) None (podman_of s)).2 s).
Proof. apply run_with_spec. Qed.

(** Creating a container is one call with [create_args]. *)
Lemma podman_create_spec opts s :
  (podman_create cfg opts s).2 = put_podman (podman_exec (base_command cfg ++ create_args opts) None (podman_of s)).2 s ∧
  (∀ id, (podman_create cfg opts s).1 = Ok id →
     id ≠ "" ∧ ∃ out, captured (podman_exec (base_command cfg ++ create_args opts) None (podman_of s)).1 = Ok out ∧ id = trim out).
Proof.
  unfold podman_create. cbv [mbind M_bind]. rewrite run_capture_spec.
  destruct (captured _) as [out|e] eqn:Hc; [|done]. case_decide as Hid; simpl; [done|].
  split; [done|]. intros id [= <-]. eauto.
Qed.

(** A version is accepted exactly when its three numbers are at least those of
    the minimum, compared from the left; what follows the digits of a part does not
    count. *)
Theorem check_accepts_from_minimum v s s' :
  podman_version binary s = (Ok v, s') →
  let '(a, b, c) := version_parts v in
  podman_check binary s =
  ((if decide (4 < a ∨ (a = 4 ∧ 6 ≤ b))%N then Ok v else Err (Fail (PodmanVersionMismatch v "4.6.0"))), s').
Proof.
  intros Hv. destruct (version_parts v) as [[a b] c] eqn:Hp. unfold podman_check. cbv [mbind M_bind]. rewrite Hv.
  unfold compare_versions. rewrite Hp. change (version_parts MIN_PODMAN_VERSION) with (4, 6, 0)%N. simpl.
  destruct (N.compare_spec a 4); [destruct (N.compare_spec b 6); [destruct (N.compare_spec c 0); [..|]|..]|..];
    case_decide; simpl; try done; lia.
Qed.
End Theorems.

(** * Examples *)

(** A podman that remembers its calls and answers from a table. *)
Definition Calls : Type := list (list string * option string).
Definition recording_cli (answer : list string → ProcOutcome) : PodmanCli Calls := {|
  podman_exec := λ args input calls, (answer args, calls ++ [(args, input)]);
  f32_to_string := pretty;
  f64_to_string := pretty |}.
Definition exits (out : string) : ProcOutcome := Exited (Some 0%Z) out "" None.
Definition toy_answer (args : list string) : ProcOutcome :=
  match args with
  | ["--version"] => exits "podman version 4.9.3-rhel"
  | "create" :: _ => exits (String.append "c0ffee" (String newline ""))
  | _ => Exited (Some 125%Z) "" "Error: no such container" None
  end.
Definition no_host : HostEnv := {| host_var := λ _, None; etc_group := None |}.
Definition plain_config : PodmanConfig := {| pc_root := None; pc_runroot := None |}.
Definition world_calls_podman : HasPodman (World * Calls) Calls := {| podman_of := snd; put_podman := λ p s, (s.1, p) |}.

Definition bare_opts (img : string) : CreateOptions :=
  {| image := img; co_name := None; command := []; env := []; labels := []; rm := false; detach := true;
     port_mappings := []; volumes := []; networks := []; cap_drop := []; cap_add := []; read_only := false;
     cpus := None; memory_mb := None; sandbox_profile := None; co_passthrough := None; co_systemd := false;
     auto_restart := false; keep_user_id := false; rootfs := None; security_opts := [] |}.
Definition confined_opts : CreateOptions :=
  {| image := "alpine"; co_name := Some "--rm"; command := ["sh"; "-c"; "id"]; env := [("A", "--privileged")]; labels := [];
     rm := false; detach := true; port_mappings := []; volumes := [{| source := "/src"; destination := "/dst"; vm_read_only := true |}];
     networks := ["none"]; cap_drop := ["ALL"]; cap_add := ["CHOWN"]; read_only := true; cpus := None; memory_mb := Some 256%Z;
     sandbox_profile := None; co_passthrough := None; co_systemd := false; auto_restart := false; keep_user_id := false;
     rootfs := None; security_opts := ["seccomp=/p.json"; "label=type:a"; "label=type:b"] |}.

(** A parser that follows the syntax: slices are split at commas. *)
Fixpoint toy_read (args : list string) : list (string * option string) * list string :=
  match args with
  | [] => ([], [])
  | a :: rest =>
      if starts_with a "-" then
        match split_once "=" a with
        | Some (flag, v) => ((flag, Some v) :: (toy_read rest).1, (toy_read rest).2)
        | None =>
            if decide (a ∈ value_options) then
              match rest with
              | v :: rest' => ((a, Some v) :: (toy_read rest').1, (toy_read rest').2)
              | [] => ([(a, None)], [])
              end
            else ((a, None) :: (toy_read rest).1, (toy_read rest).2)
        end
      else ([], args)
  end.
#[export] Instance toy_flags : PodmanFlags := {| read_options := toy_read; csv := split ","%char |}.

Lemma split_whole sep s : contains s (String sep "") = false → split sep s = [s].
Proof.
  induction s as [|c s IH]; [done|]. cbn. intros [Hc Hs]%orb_false_iff.
  rewrite IH by done. destruct (decide (c = sep)) as [->|]; [|done].
  unfold starts_with in Hc. cbn in Hc. destruct (Ascii.ascii_dec sep sep); [by destruct s|done].
Qed.
Lemma toy_read_value flag v rest : flag ∈ value_options →
  toy_read (flag :: v :: rest) = ((flag, Some v) :: (toy_read rest).1, (toy_read rest).2).
Proof.
  intros Hf. assert (starts_with flag "-" = true ∧ split_once "=" flag = None) as [Hd Hn].
  { revert flag Hf. apply Forall_forall. repeat (apply Forall_cons; split; [by split|]). by apply Forall_nil. }
  cbn [toy_read]. by rewrite Hd, Hn, decide_True.
Qed.
#[export] Instance toy_flag_laws : PodmanFlagLaws toy_flags.
Proof.
  split; cbn [read_options csv toy_flags].
  - done.
  - apply toy_read_value.
  - intros flag v rest Hf. assert (starts_with (flag +:+ "=" +:+ v) "-" = true ∧ split_once "=" (flag +:+ "=" +:+ v) = Some (flag, v)) as [Hd Hn].
    { revert flag Hf. apply Forall_forall. repeat (apply Forall_cons; split; [by split|]). by apply Forall_nil. }
    cbn [toy_read]. by rewrite Hd, Hn.
  - intros flag rest Hf.
    assert (starts_with flag "-" = true ∧ split_once "=" flag = None ∧ bool_decide (flag ∈ value_options) = false) as (Hd & Hn & Hv%bool_decide_eq_false_1).
    { revert flag Hf. apply Forall_forall. repeat (apply Forall_cons; split; [by split_and!|]). by apply Forall_nil. }
    cbn [toy_read]. by rewrite Hd, Hn, decide_False.
  - intros a rest Ha. cbn [toy_read]. by rewrite Ha.
  - intros v [_ [Hc _]%List.Forall_cons_iff]. by apply split_whole.
Qed.


(** podman splits a capability at its commas. *)
Example cap_with_comma :
  let C := recording_cli toy_answer in
  fields "--cap-add" (read_options ["--cap-add"; "CHOWN,SYS_ADMIN"; "alpine"]).1 = ["CHOWN"; "SYS_ADMIN"].
Proof. by vm_compute. Qed.

Lemma dashed_image_is_an_option_witness :
  let C := recording_cli toy_answer in
  let opts := bare_opts "--privileged" in
  let rest := read_options (command opts) in
  read_options (tail (create_args (H := no_host) opts)) = (create_options (H := no_host) opts ++ ("--privileged", None) :: rest.1, rest.2).
Proof. intros C opts. by apply (dashed_image_is_an_option (C := C) (H := no_host) (F := toy_flags) opts); [|apply in_options]. Defined.

Lemma check_accepts_from_minimum_witness :
  let C := recording_cli toy_answer in
  let s : World * Calls := (empty_world, []) in
  podman_check (HP := world_calls_podman) "podman" s = (Ok "4.9.3-rhel", (empty_world, [(["--version"], None)])).
Proof.
  intros C s. apply (check_accepts_from_minimum (HP := world_calls_podman) "podman" "4.9.3-rhel" s (empty_world, [(["--version"], None)])).
  vm_compute. reflexivity.
Defined.
