(* ===== verification/Resources.v ===== *)
(** Images, networks, volumes, pods and secrets: the calls behind the resource
    methods of the daemon ([linpodx-runtime/src/image.rs], [network.rs],
    [volume.rs], [pod.rs], [secret.rs]), and the handlers that record what was done
    with a secret ([linpodx-daemon/src/dispatch/secrets.rs]).

    The parameters of a request are arguments; base64 and the texts of chrono are
    parameters. Error texts end before a foreign error's text. *)
From S2P Require Import Prelude Text Json Common Database AuditKinds AuditLog Logging Embedding KeyRegistry Parse Podman.

(** The last line that is not blank, trimmed. *)
Definition last_line (out : string) : string :=
  match last (filter (λ l, is_blank l = false) (lines out)) with Some l => trim l | None => "" end.
(** The lines that are not blank, trimmed. *)
Definition full_lines (out : string) : list string := trim <$> filter (λ l, is_blank l = false) (lines out).

Section Resources.
Context {E : Env} {K : MarkerCodec} {S : Type} {W : HasWorld S} {P : Type} {C : PodmanCli P} {HP : HasPodman S P}.
Context (cfg : PodmanConfig) (b64_decode : string → Result string string) (to_rfc3339 : Z → string).

(** * image.rs *)

Definition image_list (all : bool) (dangling : option bool) : M S Fault (list ImageSummary) :=
  out ← run_capture cfg (["images"; "--format=json"]
    ++ match dangling with
       | Some true => ["--filter"; "dangling=true"]
       | Some false => ["--filter"; "dangling=false"]
       | None => flag_if all "--all"
       end);
  on_world (parse_image_list out).

Definition image_pull (reference : string) : M S Fault string :=
  out ← run_capture cfg ["pull"; reference];
  let id := last_line out in
  if decide (id = "") then throw (Fail (Runtime "podman pull returned no image id")) else mret id.
Definition image_remove (id : string) (force : bool) : M S Fault unit :=
  _ ← or_not_found id (run_capture cfg (["rmi"] ++ flag_if force "--force" ++ [id])); mret tt.
Definition image_inspect (id : string) : M S Fault ImageInspect :=
  out ← or_not_found id (run_capture cfg ["inspect"; "--type=image"; id]);
  on_world (parse_image_inspect out).
Definition image_tag (source_ target : string) : M S Fault unit :=
  _ ← or_not_found source_ (run_capture cfg ["tag"; source_; target]); mret tt.

Definition decode_auth_blob (auth_b64 : string) : Result Error string :=
  match b64_decode (trim auth_b64) with
  | Err e => Err (Runtime ("invalid base64 auth blob: " +:+ e))
  | Ok raw =>
      if negb (is_utf8 raw) then Err (Runtime "auth blob is not valid utf-8: ")
      else if negb (has_char colon raw) then Err (Runtime "auth blob must decode to 'user:password'")
      else Ok raw
  end.
Definition creds_args (auth : option string) : M S Fault (list string) :=
  match auth with
  | None => mret []
  | Some a => match decode_auth_blob a with Ok creds => mret ["--creds"; creds] | Err e => throw (Fail e) end
  end.

(** Tokens between whitespace and quotes; empty ones are left out. *)
Fixpoint tokens_from (skip : nat) (cur : string) (s : string) : list string :=
  let flush := if decide (cur = "") then [] else [cur] in
  match s with
  | EmptyString => flush
  | String c s' =>
      match skip with
      | Datatypes.S k => tokens_from k cur s'
      | O =>
          if bool_decide (byte_val c = 34%N) || bool_decide (byte_val c = 39%N) then flush ++ tokens_from 0 "" s'
          else match ws_len s with
               | O => tokens_from 0 (cur +:+ String c "") s'
               | Datatypes.S k => flush ++ tokens_from k "" s'
               end
      end
  end.
Definition is_alnum (c : ascii) : bool :=
  let b := byte_val c in
  bool_decide (48 ≤ b ≤ 57)%N || bool_decide (65 ≤ b ≤ 90)%N || bool_decide (97 ≤ b ≤ 122)%N.
Definition is_hexdigit (c : ascii) : bool :=
  let b := byte_val c in
  bool_decide (48 ≤ b ≤ 57)%N || bool_decide (65 ≤ b ≤ 70)%N || bool_decide (97 ≤ b ≤ 102)%N.
(** [trim_matches] of the characters outside [p]. *)
Fixpoint trim_left_while (p : ascii → bool) (s : string) : string :=
  match s with String c s' => if p c then trim_left_while p s' else s | EmptyString => EmptyString end.
Fixpoint trim_right_while (p : ascii → bool) (s : string) : string :=
  match s with
  | EmptyString => EmptyString
  | String c s' => match trim_right_while p s' with
                   | EmptyString => if p c then EmptyString else String c EmptyString
                   | t => String c t
                   end
  end.
Definition trim_matches (p : ascii → bool) (s : string) : string := trim_right_while p (trim_left_while p s).
Definition digest_of_token (token : string) : option string :=
  let trimmed := trim_matches (λ c, negb (is_alnum c) && negb (bool_decide (c = colon))) token in
  rest ← strip_prefix "sha256:" trimmed;
  if bool_decide (16 ≤ String.length rest) && str_all is_hexdigit rest then Some ("sha256:" +:+ rest) else None.
Definition extract_digest (stdout : string) : option string := find_map digest_of_token (tokens_from 0 "" stdout).

Definition registry_ref (registry : option string) (reference : string) : option string :=
  (λ reg, trim_end_char slash reg +:+ "/" +:+ reference) <$> registry.
Definition image_push (reference : string) (registry auth cert_dir : option string) : M S Fault (string * option string) :=
  creds ← creds_args auth;
  let destination_ := registry_ref registry reference in
  out ← run_capture cfg (["push"] ++ creds ++ opt_arg "--cert-dir" cert_dir ++ [reference]
                         ++ match destination_ with Some d => [d] | None => [] end);
  mret (unwrap_or reference destination_, extract_digest out).

Definition manifest_already_exists (stderr : string) : bool :=
  let lower := to_lowercase stderr in contains lower "already exists" || contains lower "already in use".
Definition manifest_create (target : string) (refs : list string) : M S Fault (string * list string) :=
  r ← attempt_in (run_capture cfg ["manifest"; "create"; target]);
  _ ← match r with
      | Ok _ => mret tt
      | Err (Runtime message) => if manifest_already_exists message then mret tt else throw (Fail (Runtime message))
      | Err e => throw (Fail e)
      end;
  _ ← for_each (λ reference, _ ← run_capture cfg ["manifest"; "add"; target; reference]; mret tt) refs;
  mret (target, refs).
Definition manifest_push (manifest : string) (registry auth : option string) : M S Fault (string * option string) :=
  creds ← creds_args auth;
  _ ← run_capture cfg (["manifest"; "push"] ++ creds ++ [manifest]
                       ++ match registry_ref registry manifest with Some d => [d] | None => [] end);
  mret (manifest, registry).

(** * network.rs *)

Record NetworkCreateParams : Type := {
  np_name : string;
  np_driver : option string;
  np_subnet : option string;
  np_gateway : option string;
  np_internal : bool;
  np_dns_enabled : bool;
  np_labels : list (string * string);
}.
Record NetworkMember : Type := {
  nm_id : string;
  nm_name : string;
  nm_ipv4 : option string;
  nm_mac : option string;
}.
Record NetworkDetail : Type := {
  nd_name : string;
  nd_driver : string;
  nd_subnets : list (string * string);
  nd_dns_enabled : bool;
  nd_internal : bool;
  nd_containers : list NetworkMember;
}.

Definition network_list : M S Fault (list NetworkSummary) :=
  out ← run_capture cfg ["network"; "ls"; "--format=json"];
  on_world (parse_network_list out).
Definition network_create (p : NetworkCreateParams) : M S Fault string :=
  out ← run_capture cfg (["network"; "create"] ++ opt_arg "--driver" (np_driver p) ++ opt_arg "--subnet" (np_subnet p)
    ++ opt_arg "--gateway" (np_gateway p) ++ flag_if (np_internal p) "--internal"
    ++ flag_if (negb (np_dns_enabled p)) "--disable-dns" ++ each_arg "--label" key_value (np_labels p) ++ [np_name p]);
  let name := trim out in
  if decide (name = "") then throw (Fail (Runtime "podman network create returned empty name")) else mret name.
Definition network_remove (name : string) (force : bool) : M S Fault unit :=
  _ ← or_not_found name (run_capture cfg (["network"; "rm"] ++ flag_if force "--force" ++ [name])); mret tt.
Definition network_inspect (name : string) : M S Fault NetworkInspect :=
  out ← or_not_found name (run_capture cfg ["network"; "inspect"; name]);
  on_world (parse_network_inspect out).

Definition parse_all_subnets (v : Value) : list (string * string) :=
  match get_first v ["subnets"; "Subnets"] ≫= as_array with
  | Some arr => omap (λ s, (λ sub, (sub, unwrap_or "" (str_field s ["gateway"; "Gateway"]))) <$> str_field s ["subnet"; "Subnet"]) arr
  | None => []
  end.
(** Objects are iterated in the order of their keys. *)
Definition by_key (m : list (string * Value)) : list (string * Value) :=
  omap (λ k, (λ v, (k, v)) <$> obj_find k m) (merge_sort String.le m.*1).
Definition first_interface_addr (entry : Value) : option string * option string :=
  match get entry "interfaces" ≫= as_object with
  | None => (None, None)
  | Some ifaces =>
      match by_key ifaces with
      | [] => (None, None)
      | (_, iface) :: _ =>
          ((λ s, unwrap_or s (head (split slash s))) <$>
             (((get iface "subnets" ≫= as_array) ≫= head) ≫= λ s, str_field s ["ipnet"; "IPNet"]),
           non_empty (str_field iface ["mac_address"; "MacAddress"]))
      end
  end.
Definition parse_members (v : Value) : list NetworkMember :=
  match get v "containers" ≫= as_object with
  | None => []
  | Some m =>
      (λ '(id, entry), let '(ipv4, mac) := first_interface_addr entry in
         {| nm_id := id; nm_name := unwrap_or "" (str_field entry ["name"]); nm_ipv4 := ipv4; nm_mac := mac |}) <$> by_key m
  end.
Definition ps_member (c : Value) : option NetworkMember :=
  id ← str_field c ["Id"; "ID"; "id"];
  let name := unwrap_or "" (or_else (((get c "Names" ≫= as_array) ≫= head) ≫= as_str) (get c "Names" ≫= as_str)) in
  Some {| nm_id := id; nm_name := name; nm_ipv4 := None; nm_mac := None |}.
Definition members_via_ps (network : string) : M S Fault (list NetworkMember) :=
  out ← run_capture cfg ["ps"; "--filter"; "network=" +:+ network; "--format=json"];
  value ← on_world (from_json out);
  mret (omap ps_member (unwrap_or [] (as_array value))).
Definition network_inspect_detail (name : string) : M S Fault NetworkDetail :=
  out ← or_not_found name (run_capture cfg ["network"; "inspect"; name]);
  value ← on_world (from_json out);
  match as_array value ≫= head with
  | None => throw (Fail (NotFound ("network '" +:+ name +:+ "'")))
  | Some obj =>
      containers ← match parse_members obj with
                   | [] => r ← attempt_in (members_via_ps name); mret (match r with Ok l => l | Err _ => [] end)
                   | l => mret l
                   end;
      mret {| nd_name := unwrap_or name (str_field obj ["name"; "Name"]);
              nd_driver := unwrap_or "bridge" (str_field obj ["driver"; "Driver"]);
              nd_subnets := parse_all_subnets obj;
              nd_dns_enabled := unwrap_or true (get_first obj ["dns_enabled"; "DnsEnabled"] ≫= as_bool);
              nd_internal := unwrap_or false (get_first obj ["internal"; "Internal"] ≫= as_bool);
              nd_containers := containers |}
  end.
Definition network_connect (network container : string) : M S Fault (string * string * string) :=
  _ ← or_not_found network (run_capture cfg ["network"; "connect"; network; container]);
  mret (network, container, "connected").
Definition network_disconnect (network container : string) (force : bool) : M S Fault (string * string * string) :=
  _ ← or_not_found network (run_capture cfg (["network"; "disconnect"] ++ flag_if force "--force" ++ [network; container]));
  mret (network, container, "disconnected").
Definition network_prune : M S Fault (list string) :=
  out ← run_capture cfg ["network"; "prune"; "--force"]; mret (full_lines out).

(** * volume.rs *)

Record VolumeDetail : Type := {
  vd_name : string;
  vd_mountpoint : string;
  vd_driver : string;
  vd_created : option string;
  vd_size_bytes : option Z;
  vd_in_use_by : list string;
}.

Definition volume_list : M S Fault (list VolumeSummary) :=
  out ← run_capture cfg ["volume"; "ls"; "--format=json"];
  on_world (parse_volume_list out).
Definition volume_create (name driver : option string) (labels_ options_ : list (string * string)) : M S Fault string :=
  out ← run_capture cfg (["volume"; "create"] ++ opt_arg "--driver" driver ++ each_arg "--label" key_value labels_
    ++ each_arg "--opt" key_value options_ ++ match name with Some n => [n] | None => [] end);
  let n := trim out in
  if decide (n = "") then throw (Fail (Runtime "podman volume create returned empty name")) else mret n.
Definition volume_remove (name : string) (force : bool) : M S Fault unit :=
  _ ← or_not_found name (run_capture cfg (["volume"; "rm"] ++ flag_if force "--force" ++ [name])); mret tt.
Definition volume_inspect (name : string) : M S Fault VolumeInspect :=
  out ← or_not_found name (run_capture cfg ["volume"; "inspect"; name]);
  on_world (parse_volume_inspect out).
Definition volume_row_size (name : string) (row : Value) : option Z :=
  row_name ← str_field row ["VolumeName"; "Name"];
  if decide (row_name = name) then get row "Size" ≫= as_u64 else None.
Definition volume_size_bytes (name : string) : M S Fault (option Z) :=
  r ← attempt_in (run_capture cfg ["system"; "df"; "-v"; "--format=json"]);
  mret (match r with
        | Ok out => (json_from_str out ≫= λ v, get v "Volumes" ≫= as_array) ≫= find_map (volume_row_size name)
        | Err _ => None
        end).
Definition volume_in_use_by (name : string) : M S Fault (list string) :=
  r ← attempt_in (run_capture cfg ["ps"; "-a"; "--filter"; "volume=" +:+ name; "--format=json"]);
  match r with
  | Err _ => mret []
  | Ok out =>
      l ← attempt_in (on_world (parse_container_list out));
      mret (match l with Ok cs => (λ c, unwrap_or (cs_id c) (head (cs_names c))) <$> cs | Err _ => [] end)
  end.
Definition volume_inspect_detail (name : string) : M S Fault VolumeDetail :=
  base ← volume_inspect name;
  size_bytes ← volume_size_bytes name;
  in_use_by ← volume_in_use_by name;
  mret {| vd_name := vi_name base; vd_mountpoint := vi_mountpoint base; vd_driver := vi_driver base;
          vd_created := Some (to_rfc3339 (vi_created base)); vd_size_bytes := size_bytes; vd_in_use_by := in_use_by |}.
Definition volume_prune : M S Fault (list string) :=
  out ← run_capture cfg ["volume"; "prune"; "--force"]; mret (full_lines out).

(** * pod.rs *)

Record PodSummary : Type := {
  po_id : string;
  po_name : string;
  po_status : string;
  po_created : string;
  po_num_containers : Z;
  po_infra_id : option string;
  po_labels : gmap string string;
}.

Definition DOCKER_COMPOSE_PROJECT_LABEL : string := "com.docker.compose.project".
Definition PODMAN_COMPOSE_PROJECT_LABEL : string := "io.podman.compose.project".

(** Unlike [str_field], a key whose value is not a string is passed over. *)
Definition string_field (v : Value) (keys : list string) : option string := find_map (λ k, get v k ≫= as_str) keys.
Definition container_label (key : string) (c : Value) : option string :=
  get_first c ["Labels"; "labels"] ≫= λ l, get l key ≫= as_str.
Definition stack_label_from_container_rows (v : Value) : option (string * string) :=
  containers ← get v "Containers" ≫= as_array;
  find_map (λ key, (λ value, (key, value)) <$> find (λ s, negb (bool_decide (s = ""))) (omap (container_label key) containers))
    [DOCKER_COMPOSE_PROJECT_LABEL; PODMAN_COMPOSE_PROJECT_LABEL].

Definition created_rfc3339 (v : option Value) : D string :=
  match v with
  | Some (JString s) =>
      match ts_parse s with
      | inl t => mret (to_rfc3339 t)
      | inr _ => throw (Fail (Runtime ("invalid pod created timestamp '" +:+ s +:+ "': ")))
      end
  | Some (JNumber n) =>
      match as_i64 (JNumber n) with
      | None => throw (Fail (Runtime "pod created field is non-integer number: "))
      | Some secs =>
          match from_timestamp secs with
          | Some t => mret (to_rfc3339 t)
          | None => throw (Fail (Runtime ("invalid pod unix timestamp " +:+ pretty secs)))
          end
      end
  | _ => t ← now; mret (to_rfc3339 t)
  end.
Definition parse_pod_summary (v : Value) : D PodSummary :=
  id ← required (string_field v ["Id"; "ID"; "id"]) "pod missing Id";
  name ← required (string_field v ["Name"; "name"]) "pod missing Name";
  created ← created_rfc3339 (get_first v ["Created"; "CreatedAt"]);
  let labels := string_map (get_first v ["Labels"; "labels"]) in
  let labels' := if is_some (labels !! DOCKER_COMPOSE_PROJECT_LABEL) || is_some (labels !! PODMAN_COMPOSE_PROJECT_LABEL) then labels
                 else match stack_label_from_container_rows v with Some (k, x) => <[k := x]> labels | None => labels end in
  let count := or_else (get_first v ["NumContainers"; "NumberOfContainers"; "num_containers"] ≫= as_u64)
                       ((λ a : list Value, Z.of_nat (length a)) <$> (get v "Containers" ≫= as_array)) in
  mret {| po_id := id; po_name := name;
          po_status := unwrap_or "" (string_field v ["Status"; "State"; "status"; "state"]);
          po_created := created;
          po_num_containers := (unwrap_or 0 count mod 2 ^ 32)%Z;
          po_infra_id := non_empty (string_field v ["InfraId"; "InfraID"; "InfraContainerID"; "infra_id"; "infraId"]);
          po_labels := labels' |}.
Definition parse_pod_list : string → D (list PodSummary) := parse_list "podman pod ps" parse_pod_summary.

Definition pod_list : M S Fault (list PodSummary) :=
  out ← run_capture cfg ["pod"; "ps"; "--format"; "json"];
  on_world (parse_pod_list out).
Definition pod_create (name : string) (ports : list PortMapping) (labels_ : list (string * string)) : M S Fault (string * string) :=
  if is_blank name then throw (Fail (InvalidArgument "pod name must not be empty"))
  else
    out ← run_capture cfg (["pod"; "create"; "--name"; name] ++ each_arg "--publish" to_publish_arg ports
                           ++ each_arg "--label" key_value labels_);
    let id := trim out in
    if decide (id = "") then throw (Fail (Runtime "podman pod create returned empty id")) else mret (id, name).

Definition pod_phrases : list string :=
  ["no such pod"; "pod not known"; "no pod with id"; "no pod with name"; "unable to find pod"; "does not exist in local storage"].
Definition map_pod_not_found (err : Error) (what : string) : Error :=
  match err with
  | Runtime message => if existsb (contains (to_lowercase message)) pod_phrases then NotFound what else err
  | _ => err
  end.
Definition or_pod_not_found {A} (what : string) (c : M S Fault A) : M S Fault A := λ s,
  match c s with (Err (Fail e), s') => (Err (Fail (map_pod_not_found e what)), s') | r => r end.

Definition pod_matches (id_or_name : string) (pod : PodSummary) : bool :=
  bool_decide (po_id pod = id_or_name) || starts_with (po_id pod) id_or_name || bool_decide (po_name pod = id_or_name).
Definition pod_status_response (id_or_name fallback_status : string) : M S Fault (string * string) :=
  r ← attempt_in pod_list;
  match r with
  | Ok pods =>
      match find (pod_matches id_or_name) pods with
      | Some pod => mret (po_id pod, po_status pod)
      | None => throw (Fail (NotFound id_or_name))
      end
  | Err _ => mret (id_or_name, fallback_status)
  end.
Definition pod_start (id_or_name : string) : M S Fault (string * string) :=
  _ ← or_pod_not_found id_or_name (run_capture cfg ["pod"; "start"; id_or_name]);
  pod_status_response id_or_name "Running".
Definition pod_stop (id_or_name : string) : M S Fault (string * string) :=
  _ ← or_pod_not_found id_or_name (run_capture cfg ["pod"; "stop"; id_or_name]);
  pod_status_response id_or_name "Stopped".
Definition pod_remove (id_or_name : string) (force : bool) : M S Fault (string * string) :=
  out ← or_pod_not_found id_or_name (run_capture cfg (["pod"; "rm"] ++ flag_if force "--force" ++ [id_or_name]));
  mret (unwrap_or id_or_name (head (full_lines out)), "Removed").

(** * secret.rs *)

Record SecretSummary : Type := {
  se_id : string;
  se_name : string;
  se_created : string;
  se_driver : string;
}.

Definition LIST_FORMAT : string := "{{json .}}".
Definition looks_like_secret_not_found (stderr : string) : bool :=
  let lower := to_lowercase stderr in contains lower "no such secret" || contains lower "no secret with name".
Definition parse_secret_summary_line (line : string) : Result Error SecretSummary :=
  match json_from_str line with
  | None => Err (Runtime "failed to parse `podman secret ls` line: ")
  | Some v =>
      match str_field v ["ID"] with
      | None => Err (Runtime "secret ls row missing ID")
      | Some id =>
          match str_field v ["Name"] with
          | None => Err (Runtime "secret ls row missing Name")
          | Some name => Ok {| se_id := id; se_name := name; se_created := unwrap_or "" (str_field v ["CreatedAt"]);
                               se_driver := unwrap_or "file" (str_field v ["Driver"]) |}
          end
      end
  end.
Definition secret_list : M S Fault (list SecretSummary) :=
  out ← run_capture cfg ["secret"; "ls"; "--format"; LIST_FORMAT];
  match collect (parse_secret_summary_line <$> filter (λ l, is_blank l = false) (lines out)) with
  | Ok l => mret l
  | Err e => throw (Fail e)
  end.
Definition secret_create (name value : string) : M S Fault string :=
  out ← run_with (base_command cfg ++ ["secret"; "create"; name; "-"]) (Some value);
  let id := trim out in
  if decide (id = "") then throw (Fail (Runtime "podman secret create returned empty id")) else mret id.
Definition secret_remove (name : string) : M S Fault unit := λ s,
  match (run_capture cfg ["secret"; "rm"; name]) s with
  | (Ok _, s') => (Ok tt, s')
  | (Err (Fail (Runtime message)), s') =>
      (Err (Fail (if looks_like_secret_not_found message then NotFound name else Runtime message)), s')
  | (Err e, s') => (Err e, s')
  end.
End Resources.

(** * dispatch/secrets.rs *)

Section Secrets.
Context {E : Env} {A : AuditSink} {S : Type} {W : HasWorld S} {P : Type} {C : PodmanCli P} {HP : HasPodman S P}.
Context (cfg : PodmanConfig).

Definition secret_audit_payload (name : string) : Value := JObject [("name", JString name)].
Definition secret_create_handler (name value : string) : M S Fault (string * string) :=
  id ← secret_create cfg name value;
  _ ← on_world (record SinkSecretCreated None None (secret_audit_payload name));
  _ ← on_world (publish TSecret Created name JNull);
  mret (id, name).
Definition secret_remove_handler (name : string) : M S Fault (string * bool) :=
  r ← attempt_in (secret_remove cfg name);
  removed ← (match r with
             | Ok _ => mret true
             | Err (NotFound _) => mret false
             | Err e => throw (Fail e)
             end : M S Fault bool);
  _ ← on_world (record SinkSecretRemoved None None (secret_audit_payload name));
  _ ← (if (removed : bool) then on_world (publish TSecret Removed name JNull) else mret tt);
  mret (name, removed).

(** A secret's value goes to podman's standard input and nowhere else: with a
    podman that does not look at its input, two values cannot be told apart by the
    arguments of any call, the answer, the audit log, the events or an error. *)
Theorem secret_value_reaches_only_podman name v1 v2 s :
  (∀ args i j p, podman_exec args i p = podman_exec args j p) →
  secret_create_handler name v1 s = secret_create_handler name v2 s.
Proof.
  intros Hblind. unfold secret_create_handler. cbv [mbind M_bind].
  assert (secret_create cfg name v1 s = secret_create cfg name v2 s) as ->; [|done].
  unfold secret_create. cbv [mbind M_bind]. by rewrite !run_with_spec, (Hblind _ (Some v1) (Some v2)).
Qed.
End Secrets.

Section Theorems.
Context {E : Env} {K : MarkerCodec} {S : Type} {W : HasWorld S} {P : Type} {C : PodmanCli P} {HP : HasPodman S P}.

(** A digest that is reported is [sha256:] with at least 16 hexadecimal digits. *)
Lemma find_map_some {X Y} (f : X → option Y) l y : find_map f l = Some y → ∃ x, x ∈ l ∧ f x = Some y.
Proof.
  induction l as [|x l IH]; [done|]. simpl. destruct (f x) as [z|] eqn:Hf.
  - intros [= ->]. exists x. split; [by left|done].
  - intros (x' & Hx & Hf')%IH. exists x'. split; [by right|done].
Qed.
Theorem reported_digest_is_one out d :
  extract_digest out = Some d → ∃ hex, d = "sha256:" +:+ hex ∧ 16 ≤ String.length hex ∧ str_all is_hexdigit hex = true.
Proof.
  intros (token & _ & Hd)%find_map_some. unfold digest_of_token in Hd.
  destruct (strip_prefix _ _) as [rest|]; [|done]. simpl in Hd.
  destruct (bool_decide _ && _) eqn:Hc; [|done]. injection Hd as <-.
  apply andb_true_iff in Hc as [Hl%bool_decide_eq_true Hh]. by exists rest.
Qed.

(** A pod is looked up by name or by a prefix of its id in one pass: the pod that
    was started can be hidden by an earlier one whose id begins with its name. *)
Theorem status_can_be_another_pods name pods other :
  head pods = Some other → starts_with (po_id other) name = true →
  find (pod_matches name) pods = Some other.
Proof.
  destruct pods as [|p pods]; [done|]. intros [= ->] Hs. simpl. unfold pod_matches. by rewrite Hs, orb_true_r.
Qed.
End Theorems.
