(* ===== verification/Sessions.v ===== *)
(** Sessions: the lifetime of a container as one row of [mcp_sessions], and the
    timeline that merges its audit entries with its MCP events
    ([linpodx-sandbox/src/session.rs], [record_mcp_event] of [mcp_audit.rs]).

    Rows are kept in the order of their ids, which is the order in which SQLite
    returns the rows of one session or container. *)
From S2P Require Import Prelude Json Timestamps Common Database AuditKinds AuditLog Logging Embedding.

(** * Data *)

(** A row of [mcp_sessions] (migration 0005). *)
Record SessionRow : Type := {
  sr_id : Z;
  sr_container_id : string;
  sr_container_name : string;
  sr_profile : option string;
  sr_started_at : string;
  sr_ended_at : option string;
  sr_status : string;
}.

(** A row of [mcp_events] (migration 0006). *)
Record McpEventRow : Type := {
  me_id : Z;
  me_session : Z;
  me_ts : string;
  me_direction : string;
  me_tool_name : option string;
  me_payload : string;
  me_decision : option string;
}.

Record SessionSummary : Type := {
  sn_id : Z;
  sn_container_id : string;
  sn_container_name : string;
  sn_profile : option string;
  sn_started_at : Z;
  sn_ended_at : option Z;
  sn_status : string;
}.

Record TimelineEntry : Type := {
  tl_source : string;
  tl_ts : Z;
  tl_kind : string;
  tl_payload : Value;
}.

(** The tables, with the [AUTOINCREMENT] counters. *)
Record SessionTables : Type := {
  st_sessions : list SessionRow;
  st_seq : Z;
  st_events : list McpEventRow;
  st_event_seq : Z;
}.
Definition no_sessions : SessionTables := {| st_sessions := []; st_seq := 0; st_events := []; st_event_seq := 0 |}.

(** A state that contains the tables. *)
Class HasSessions (S : Type) := {
  sessions_of : S → SessionTables;
  put_sessions : SessionTables → S → S;
}.
Class HasSessionsLaws (S : Type) {W : HasWorld S} {T : HasSessions S} : Prop := {
  sessions_of_put t (s : S) : sessions_of (put_sessions t s) = t;
  world_of_put_sessions t (s : S) : world_of (put_sessions t s) = world_of s;
  sessions_of_put_world w (s : S) : sessions_of (put_world w s) = sessions_of s;
}.

Definition set_session_rows (rows : list SessionRow) (seq : Z) (t : SessionTables) : SessionTables :=
  {| st_sessions := rows; st_seq := seq; st_events := st_events t; st_event_seq := st_event_seq t |}.
Definition set_event_rows (rows : list McpEventRow) (seq : Z) (t : SessionTables) : SessionTables :=
  {| st_sessions := st_sessions t; st_seq := st_seq t; st_events := rows; st_event_seq := seq |}.

(** [sort_by_key], which is stable. *)
Fixpoint insert_by {A} (key : A → Z) (x : A) (l : list A) : list A :=
  match l with
  | [] => [x]
  | y :: l' => if decide (key x ≤ key y)%Z then x :: y :: l' else y :: insert_by key x l'
  end.
Definition sort_by {A} (key : A → Z) (l : list A) : list A := foldr (insert_by key) [] l.

(** * Operations *)

Section Sessions.
Context {E : Env} {S : Type} {W : HasWorld S} {T : HasSessions S}.

Definition tables : M S Fault SessionTables := gets sessions_of.
Definition put_tables (f : SessionTables → SessionTables) : M S Fault unit := modify (λ s, put_sessions (f (sessions_of s)) s).

Definition session_parse_ts (raw : string) : Result Error Z :=
  match ts_parse raw with inl t => Ok t | inr e => Err (Runtime ("invalid session ts '" +:+ raw +:+ "': " +:+ e)) end.
Definition session_into_summary (r : SessionRow) : Result Error SessionSummary :=
  match session_parse_ts (sr_started_at r) with
  | Err e => Err e
  | Ok started =>
      let mk := λ ended, {| sn_id := sr_id r; sn_container_id := sr_container_id r; sn_container_name := sr_container_name r;
                            sn_profile := sr_profile r; sn_started_at := started; sn_ended_at := ended; sn_status := sr_status r |} in
      match sr_ended_at r with
      | None => Ok (mk None)
      | Some raw => match session_parse_ts raw with Ok t => Ok (mk (Some t)) | Err e => Err e end
      end
  end.
Definition lift_to {A} (r : Result Error A) : M S Fault A := match r with Ok a => mret a | Err e => throw (Fail e) end.

Definition session_start (container_id container_name : string) (profile : option string) : M S Fault Z :=
  t ← on_world now;
  _ ← on_world stmt;
  tb ← tables;
  if decide (st_seq tb = i64_max) then throw (Fail Sqlx) (* SQLITE_FULL *)
  else
    let id := (st_seq tb + 1)%Z in
    let row := {| sr_id := id; sr_container_id := container_id; sr_container_name := container_name; sr_profile := profile;
                  sr_started_at := ts_format t; sr_ended_at := None; sr_status := "active" |} in
    _ ← put_tables (set_session_rows (st_sessions tb ++ [row]) id);
    _ ← on_world (append SessionStarted profile (Some container_id)
          (JObject [("session_id", jint id); ("container_id", JString container_id); ("container_name", JString container_name);
                    ("profile_name", jopt JString profile)]));
    _ ← on_world (publish TSession Started container_id
          (JObject [("session_id", jint id); ("container_name", JString container_name); ("profile_name", jopt JString profile)]));
    mret id.

Definition is_active (container_id : string) (r : SessionRow) : bool :=
  bool_decide (sr_container_id r = container_id) && bool_decide (sr_status r = "active").
Definition close_row (id : Z) (at_ : string) (r : SessionRow) : SessionRow :=
  if decide (sr_id r = id)
  then {| sr_id := sr_id r; sr_container_id := sr_container_id r; sr_container_name := sr_container_name r;
          sr_profile := sr_profile r; sr_started_at := sr_started_at r; sr_ended_at := Some at_; sr_status := "ended" |}
  else r.
Definition session_end (container_id : string) : M S Fault unit :=
  _ ← on_world stmt;
  tb ← tables;
  match last (filter (λ r, is_active container_id r = true) (st_sessions tb)) with
  | None => mret tt
  | Some row =>
      let id := sr_id row in
      _ ← on_world (append SessionEnded None (Some container_id)
            (JObject [("session_id", jint id); ("container_id", JString container_id)]));
      t ← on_world now;
      _ ← on_world stmt;
      _ ← put_tables (λ tb, set_session_rows (close_row id (ts_format t) <$> st_sessions tb) (st_seq tb) tb);
      on_world (publish TSession Stopped container_id (JObject [("session_id", jint id)]))
  end.

Definition profile_for_container (container_id : string) : M S Fault (option string) :=
  _ ← on_world stmt;
  tb ← tables;
  mret (last (filter (λ r, sr_container_id r = container_id) (st_sessions tb)) ≫= sr_profile).

(** Newest first, at most 1000. *)
Definition session_list (container_id : option string) (limit : option Z) : M S Fault (list SessionSummary) :=
  let limit := Z.min 1000 (unwrap_or 100%Z limit) in
  _ ← on_world stmt;
  tb ← tables;
  let rows := match container_id with
              | Some cid => filter (λ r, sr_container_id r = cid) (st_sessions tb)
              | None => st_sessions tb
              end in
  lift_to (collect (session_into_summary <$> take (Z.to_nat limit) (reverse rows))).
Definition session_inspect (id : Z) : M S Fault SessionSummary :=
  _ ← on_world stmt;
  tb ← tables;
  match find (λ r, bool_decide (sr_id r = id)) (st_sessions tb) with
  | None => throw (Fail (NotFound ("session " +:+ pretty id)))
  | Some row => lift_to (session_into_summary row)
  end.

(** [record_mcp_event]; the session must exist (a foreign key). *)
Definition record_mcp_event (session_id : Z) (direction : string) (tool_name : option string) (payload : string) (decision : option string) : M S Fault Z :=
  t ← on_world now;
  _ ← on_world stmt;
  tb ← tables;
  if bool_decide (session_id ∈ sr_id <$> st_sessions tb) && negb (bool_decide (st_event_seq tb = i64_max)) then
    let id := (st_event_seq tb + 1)%Z in
    let row := {| me_id := id; me_session := session_id; me_ts := ts_format t; me_direction := direction;
                  me_tool_name := tool_name; me_payload := payload; me_decision := decision |} in
    _ ← put_tables (set_event_rows (st_events tb ++ [row]) id);
    mret id
  else throw (Fail Sqlx).

(** * Timeline *)

Definition wanted (kinds : list string) (kind : string) : bool := bool_decide (kinds = []) || bool_decide (kind ∈ kinds).
Definition audit_in_window (container_id started ended : string) (r : AuditRow) : bool :=
  bool_decide (ar_container r = Some container_id) && String.leb started (ar_ts r) && String.ltb (ar_ts r) ended.
Definition audit_to_entry (r : AuditRow) : Result Error TimelineEntry :=
  match session_parse_ts (ar_ts r) with
  | Err e => Err e
  | Ok t => Ok {| tl_source := "audit"; tl_ts := t; tl_kind := ar_kind r;
                  tl_payload := unwrap_or JNull (json_from_str (ar_payload r)) |}
  end.
Definition event_to_entry (r : McpEventRow) : Result Error TimelineEntry :=
  match session_parse_ts (me_ts r) with
  | Err e => Err e
  | Ok t => Ok {| tl_source := "mcp"; tl_ts := t; tl_kind := me_direction r;
                  tl_payload := JObject [("tool_name", jopt JString (me_tool_name r)); ("payload", JString (me_payload r));
                                         ("decision", jopt JString (me_decision r))] |}
  end.
Definition timeline (id : Z) (kinds : list string) : M S Fault (list TimelineEntry) :=
  session ← session_inspect id;
  let started := ts_format (sn_started_at session) in
  let ended := unwrap_or FAR_FUTURE (ts_format <$> sn_ended_at session) in
  _ ← on_world stmt;
  audit ← gets (λ s, w_audit (world_of s));
  let audit_rows := filter (λ r, audit_in_window (sn_container_id session) started ended r = true) audit in
  _ ← on_world stmt;
  tb ← tables;
  let mcp_rows := filter (λ r, me_session r = id) (st_events tb) in
  a ← lift_to (collect (audit_to_entry <$> filter (λ r, wanted kinds (ar_kind r) = true) audit_rows));
  m ← lift_to (collect (event_to_entry <$> filter (λ r, wanted kinds (me_direction r) = true) mcp_rows));
  mret (sort_by tl_ts (a ++ m)).
End Sessions.

(** * Sorting *)

Lemma insert_by_perm {A} (key : A → Z) x l : insert_by key x l ≡ₚ x :: l.
Proof. induction l as [|y l IH]; [done|]. cbn [insert_by]. case_decide; [done|]. rewrite IH. constructor. Qed.
Lemma sort_by_perm {A} (key : A → Z) l : sort_by key l ≡ₚ l.
Proof. induction l as [|x l IH]; [done|]. simpl. by rewrite insert_by_perm, IH. Qed.

Definition by_time (a b : TimelineEntry) : Prop := (tl_ts a ≤ tl_ts b)%Z.
Lemma insert_by_sorted x l : StronglySorted by_time l → StronglySorted by_time (insert_by tl_ts x l).
Proof.
  induction 1 as [|y l Hl IH Hy]; simpl; [by repeat constructor|]. case_decide as Hxy.
  - constructor; [by constructor|]. constructor; [done|]. apply (Forall_impl _ _ _ Hy). unfold by_time. intros z Hz. lia.
  - constructor; [done|]. rewrite insert_by_perm. constructor; [unfold by_time; lia|done].
Qed.
Lemma sort_by_sorted l : StronglySorted by_time (sort_by tl_ts l).
Proof. induction l; [constructor|by apply insert_by_sorted]. Qed.

(** * Lemmas *)

Section Lemmas.
Context {E : Env} {L : TsLaws E}.

(** Text that stands for a time. *)
Definition ts_is (raw : string) (t : Z) : Prop := raw = ts_format t ∧ ts_range t.
Definition time_of (raw : string) : Z := match ts_parse raw with inl t => t | inr _ => 0%Z end.
Definition is_ts (raw : string) : Prop := ts_is raw (time_of raw).

Lemma ts_is_time raw t : ts_is raw t → time_of raw = t.
Proof. intros [-> Hr]. unfold time_of. by rewrite ts_roundtrip. Qed.
Lemma ts_is_ts raw t : ts_is raw t → is_ts raw.
Proof. intros H. unfold is_ts. by rewrite (ts_is_time raw t). Qed.
Lemma session_parse_is raw : is_ts raw → session_parse_ts raw = Ok (time_of raw).
Proof. intros [Hr Ht]. unfold session_parse_ts. rewrite Hr at 1. by rewrite ts_roundtrip. Qed.
Lemma format_time_of raw : is_ts raw → ts_format (time_of raw) = raw.
Proof. intros [Hr _]. by rewrite Hr at 2. Qed.
Lemma ltb_times a b : is_ts a → is_ts b → String.ltb a b = bool_decide (time_of a < time_of b)%Z.
Proof. intros [Ha Ra] [Hb Rb]. rewrite Ha at 1. rewrite Hb at 1. by apply ts_order. Qed.
Lemma leb_times a b : is_ts a → is_ts b → String.leb a b = bool_decide (time_of a ≤ time_of b)%Z.
Proof.
  intros Ha Hb. assert (String.leb a b = negb (String.ltb b a)) as ->.
  { unfold String.leb, String.ltb. rewrite (String.compare_antisym b a). by destruct (String.compare a b). }
  rewrite ltb_times by done. repeat case_bool_decide; done || lia.
Qed.
Lemma far_future_is_ts : is_ts FAR_FUTURE ∧ time_of FAR_FUTURE = 253402300799999%Z.
Proof.
  assert (ts_is FAR_FUTURE 253402300799999) as H by (split; [by rewrite ts_last|unfold ts_range; lia]).
  split; [by eapply ts_is_ts|by apply ts_is_time].
Qed.

(** The window of a session in time. *)
Definition session_end_time (row : SessionRow) : Z :=
  match sr_ended_at row with Some raw => time_of raw | None => 253402300799999%Z end.
Definition in_session (row : SessionRow) (kinds : list string) (r : AuditRow) : Prop :=
  ar_container r = Some (sr_container_id row) ∧ (time_of (sr_started_at row) ≤ time_of (ar_ts r) < session_end_time row)%Z ∧
  wanted kinds (ar_kind r) = true.
#[export] Instance in_session_dec row kinds r : Decision (in_session row kinds r).
Proof. unfold in_session. apply _. Defined.
Definition session_stamped (row : SessionRow) : Prop :=
  is_ts (sr_started_at row) ∧ match sr_ended_at row with Some raw => is_ts raw | None => True end.

Definition audit_entry (r : AuditRow) : TimelineEntry :=
  {| tl_source := "audit"; tl_ts := time_of (ar_ts r); tl_kind := ar_kind r;
     tl_payload := unwrap_or JNull (json_from_str (ar_payload r)) |}.
Definition event_entry (r : McpEventRow) : TimelineEntry :=
  {| tl_source := "mcp"; tl_ts := time_of (me_ts r); tl_kind := me_direction r;
     tl_payload := JObject [("tool_name", jopt JString (me_tool_name r)); ("payload", JString (me_payload r));
                            ("decision", jopt JString (me_decision r))] |}.

Lemma window_spec row r : session_stamped row → is_ts (ar_ts r) →
  audit_in_window (sr_container_id row) (sr_started_at row) (unwrap_or FAR_FUTURE (sr_ended_at row)) r = true ↔
  ar_container r = Some (sr_container_id row) ∧ (time_of (sr_started_at row) ≤ time_of (ar_ts r) < session_end_time row)%Z.
Proof.
  intros [Hs He] Hr. unfold audit_in_window, session_end_time. rewrite leb_times by done.
  destruct far_future_is_ts as [Hf Hft].
  assert (String.ltb (ar_ts r) (unwrap_or FAR_FUTURE (sr_ended_at row)) =
          bool_decide (time_of (ar_ts r) < match sr_ended_at row with Some raw => time_of raw | None => 253402300799999%Z end)%Z) as ->.
  { destruct (sr_ended_at row); simpl; rewrite ltb_times by done; [done|by rewrite Hft]. }
  rewrite !andb_true_iff, !bool_decide_eq_true. naive_solver.
Qed.

Lemma summary_of_row row : session_stamped row →
  session_into_summary row =
  Ok {| sn_id := sr_id row; sn_container_id := sr_container_id row; sn_container_name := sr_container_name row;
        sn_profile := sr_profile row; sn_started_at := time_of (sr_started_at row); sn_ended_at := time_of <$> sr_ended_at row;
        sn_status := sr_status row |}.
Proof.
  intros [Hs He]. unfold session_into_summary. rewrite session_parse_is by done.
  destruct (sr_ended_at row); [|done]. by rewrite session_parse_is.
Qed.

(** What the two queries select, as entries. *)
Lemma selected_audit row kinds rows : session_stamped row → Forall (λ r, is_ts (ar_ts r)) rows →
  collect (audit_to_entry <$> filter (λ r, wanted kinds (ar_kind r) = true)
    (filter (λ r, audit_in_window (sr_container_id row) (sr_started_at row) (unwrap_or FAR_FUTURE (sr_ended_at row)) r = true) rows))
  = Ok (audit_entry <$> filter (in_session row kinds) rows).
Proof.
  intros Hst. induction 1 as [|r rows Hr _ IH]; [done|]. rewrite !filter_cons.
  pose proof (window_spec row r Hst Hr) as Hw.
  destruct (decide (in_session row kinds r)) as [Hin|Hout].
  - destruct Hin as (Hc & Ht & Hk). rewrite decide_True by by apply Hw. rewrite filter_cons, decide_True by done.
    rewrite !fmap_cons. cbn [collect]. unfold audit_to_entry at 1. rewrite session_parse_is by done. by rewrite IH.
  - case_decide as Hwin; [|done]. rewrite filter_cons, decide_False; [done|].
    intros Hk. apply Hout. apply Hw in Hwin as [Hc Ht]. exact (conj Hc (conj Ht Hk)).
Qed.
Lemma selected_events id kinds rows : Forall (λ r, is_ts (me_ts r)) rows →
  collect (event_to_entry <$> filter (λ r, wanted kinds (me_direction r) = true) (filter (λ r, me_session r = id) rows))
  = Ok (event_entry <$> filter (λ r, me_session r = id ∧ wanted kinds (me_direction r) = true) rows).
Proof.
  induction 1 as [|r rows Hr _ IH]; [done|]. rewrite !filter_cons.
  destruct (decide (me_session r = id)) as [Hid|Hid]; [|rewrite decide_False by naive_solver; done].
  rewrite filter_cons. destruct (decide (wanted kinds (me_direction r) = true)) as [Hk|Hk].
  - rewrite decide_True by done. rewrite !fmap_cons. cbn [collect]. unfold event_to_entry at 1.
    rewrite session_parse_is by done. by rewrite IH.
  - rewrite decide_False by naive_solver. done.
Qed.
End Lemmas.

Section Theorems.
Context {E : Env} {S : Type} {W : HasWorld S} {T : HasSessions S} {WL : HasWorldLaws S} {TL : HasSessionsLaws S}.

Lemma on_world_run {A} (c : D A) (s : S) : on_world c s = ((c (world_of s)).1, put_world (c (world_of s)).2 s).
Proof. unfold on_world. by destruct (c (world_of s)). Qed.
Lemma stmt_run w : db_fault (w_stmts w) = false → stmt w = (Ok tt, bump_stmts w).
Proof. intros H. unfold stmt. by rewrite H. Qed.
Lemma on_stmt (Hdb : ∀ n, db_fault n = false) (s : S) : on_world stmt s = (Ok tt, put_world (bump_stmts (world_of s)) s).
Proof. rewrite on_world_run. by rewrite stmt_run. Qed.

(** C27: The timeline of a session is its window: with well-formed times it returns,
    sorted by time, exactly the wanted audit entries of its container from its start
    up to, but not including, its end, and the wanted MCP events of the session, each
    once. *)
Theorem timeline_is_the_window (L : TsLaws E) id kinds row s :
  (∀ n, db_fault n = false) →
  find (λ r, bool_decide (sr_id r = id)) (st_sessions (sessions_of s)) = Some row →
  session_stamped row → Forall (λ r, is_ts (ar_ts r)) (w_audit (world_of s)) →
  Forall (λ r, is_ts (me_ts r)) (st_events (sessions_of s)) →
  ∃ l s', timeline id kinds s = (Ok l, s') ∧ StronglySorted by_time l ∧
    l ≡ₚ (audit_entry <$> filter (in_session row kinds) (w_audit (world_of s)))
         ++ (event_entry <$> filter (λ r, me_session r = id ∧ wanted kinds (me_direction r) = true) (st_events (sessions_of s))).
Proof.
  intros Hdb Hrow Hst Haud Hev. unfold timeline, session_inspect. cbv [mbind M_bind].
  rewrite (on_stmt Hdb). unfold tables, gets at 1. cbn. rewrite sessions_of_put_world, Hrow.
  rewrite (summary_of_row row Hst). cbn. rewrite !(on_stmt Hdb). cbn.
  rewrite !world_of_put, !sessions_of_put_world.
  assert (ts_format <$> (time_of <$> sr_ended_at row) = sr_ended_at row) as ->.
  { destruct Hst as [_ He]. destruct (sr_ended_at row); [|done]. cbn. by rewrite format_time_of. }
  rewrite format_time_of by apply Hst.
  rewrite (selected_audit row kinds _ Hst), (selected_events id kinds) by done. cbn.
  eexists _, _. split; [done|]. split; [apply sort_by_sorted|apply (sort_by_perm tl_ts)].
Qed.

(** The daemon's operations leave the session tables alone. *)
Lemma on_world_sessions {A} (c : D A) (s s' : S) r : on_world c s = (r, s') → sessions_of s' = sessions_of s.
Proof. rewrite on_world_run. intros [= _ <-]. apply sessions_of_put_world. Qed.

(** * The table *)

Definition row_ok (r : SessionRow) : Prop :=
  (sr_status r = "active" ∧ sr_ended_at r = None) ∨ (sr_status r = "ended" ∧ is_Some (sr_ended_at r)).
Definition sessions_ok (tb : SessionTables) : Prop :=
  NoDup (sr_id <$> st_sessions tb) ∧ Forall (λ r, (sr_id r ≤ st_seq tb)%Z ∧ row_ok r) (st_sessions tb) ∧
  Forall (λ e, me_session e ∈ sr_id <$> st_sessions tb) (st_events tb).

Lemma close_row_id id at_ r : sr_id (close_row id at_ r) = sr_id r.
Proof. unfold close_row. by case_decide. Qed.
Lemma close_rows_ids id at_ (rows : list SessionRow) : sr_id <$> (close_row id at_ <$> rows) = sr_id <$> rows.
Proof. rewrite <-list_fmap_compose. apply list_fmap_ext. intros i r _. apply close_row_id. Qed.
Lemma close_row_ok id at_ r : row_ok r → row_ok (close_row id at_ r).
Proof. unfold close_row. case_decide; [|done]. intros _. right. split; [done|by eexists]. Qed.

Lemma sessions_ok_open tb row : sessions_ok tb → sr_id row = (st_seq tb + 1)%Z → row_ok row →
  sessions_ok (set_session_rows (st_sessions tb ++ [row]) (st_seq tb + 1) tb).
Proof.
  intros (Hnd & Hrows & Hev) Hid Hrow. unfold sessions_ok. cbn. rewrite fmap_app. split_and!.
  - apply NoDup_app. split_and!; [done| |apply NoDup_singleton]. intros i Hi ->%list_elem_of_singleton.
    apply list_elem_of_fmap in Hi as (r & Hr & Hin). rewrite Forall_forall in Hrows. destruct (Hrows r Hin). lia.
  - apply Forall_app. split; [|apply Forall_singleton; split; [lia|done]].
    apply (Forall_impl _ _ _ Hrows). intros r [? ?]. split; [lia|done].
  - apply (Forall_impl _ _ _ Hev). intros e He. apply elem_of_app. by left.
Qed.
Lemma sessions_ok_close tb id at_ : sessions_ok tb →
  sessions_ok (set_session_rows (close_row id at_ <$> st_sessions tb) (st_seq tb) tb).
Proof.
  intros (Hnd & Hrows & Hev). unfold sessions_ok. cbn. rewrite close_rows_ids. split_and!; [done| |done].
  apply Forall_fmap. apply (Forall_impl _ _ _ Hrows). intros r [? ?]. cbn. rewrite close_row_id. split; [done|by apply close_row_ok].
Qed.

(** The operations of the session manager. *)
Inductive SessionOp : Type :=
| OpStart (container_id container_name : string) (profile : option string)
| OpEnd (container_id : string)
| OpEvent (session_id : Z) (direction : string) (tool_name : option string) (payload : string) (decision : option string).
Definition run_session_op (op : SessionOp) (s : S) : S :=
  match op with
  | OpStart c n p => (session_start c n p s).2
  | OpEnd c => (session_end c s).2
  | OpEvent i d t p x => (record_mcp_event i d t p x s).2
  end.

(** Runs an operation on the daemon's tables, which keeps the session tables. *)
Ltac tables_done :=
  cbn; repeat match goal with H : sessions_of ?x = _ |- sessions_ok (sessions_of ?x) => rewrite H end; auto; fail.
Ltac step_world :=
  match goal with
  | |- context [on_world ?c ?s] =>
      let H := fresh "Hrun" in
      destruct (on_world c s) as [[?|?] ?] eqn:H; apply on_world_sessions in H; cbn;
      rewrite ?sessions_of_put, ?sessions_of_put_world in H; [|tables_done]
  end.

Lemma session_op_ok op s : sessions_ok (sessions_of s) → sessions_ok (sessions_of (run_session_op op s)).
Proof.
  intros Hok. destruct op as [cid name prof|cid|sid d t p x]; cbn [run_session_op].
  - unfold session_start, tables, put_tables, gets, modify, throw. cbv [mbind M_bind]. do 2 step_world.
    case_decide; [tables_done|]. cbn. rewrite Hrun0, Hrun.
    assert (∀ row, sr_id row = (st_seq (sessions_of s) + 1)%Z → row_ok row →
      sessions_ok (set_session_rows (st_sessions (sessions_of s) ++ [row]) (st_seq (sessions_of s) + 1) (sessions_of s))) as Hopen
      by (intros; by apply sessions_ok_open).
    unshelve epose proof (Hopen {| sr_id := st_seq (sessions_of s) + 1; sr_container_id := cid; sr_container_name := name;
      sr_profile := prof; sr_started_at := ts_format a; sr_ended_at := None; sr_status := "active" |} _ _) as Hnew; [done|by left|].
    do 2 step_world. tables_done.
  - unfold session_end, tables, put_tables, gets, modify. cbv [mbind M_bind]. step_world.
    destruct (last _) as [row|]; [|tables_done]. do 2 step_world. cbn.
    assert (sessions_of s2 = sessions_of s) as Hs by congruence. rewrite Hs.
    rewrite on_world_run. cbn. rewrite sessions_of_put_world, sessions_of_put. by apply sessions_ok_close.
  - unfold record_mcp_event, tables, put_tables, gets, modify, throw. cbv [mbind M_bind]. do 2 step_world.
    destruct (bool_decide _ && _) eqn:Hc; [|tables_done]. cbn. rewrite sessions_of_put, Hrun0, Hrun in *.
    apply andb_true_iff in Hc as [Hc%bool_decide_eq_true _]. destruct Hok as (Hnd & Hrows & Hev).
    split_and!; [done..|]. cbn. apply Forall_app. split; [done|]. by apply Forall_singleton.
Qed.

(** The session table stays well-formed under any sequence of opens, closes and
    recorded messages, failing statements included: ids are unique, a session is
    either active without an end or ended with one, and every recorded message
    belongs to a session. *)
Theorem session_table_stays_ok ops s :
  sessions_ok (sessions_of s) → sessions_ok (sessions_of (foldl (λ s op, run_session_op op s) s ops)).
Proof. revert s. induction ops as [|op ops IH]; intros s Hok; [done|]. cbn. apply IH. by apply session_op_ok. Qed.

(** * Closing a session *)

Lemma on_stmt_cases (s : S) :
  on_world stmt s = (Ok tt, put_world (bump_stmts (world_of s)) s) ∨ ∃ e s', on_world stmt s = (Err e, s').
Proof. rewrite on_world_run. unfold stmt. destruct (db_fault _); [right; eauto|by left]. Qed.

#[local] Arguments append {_} _ _ _ _ _ : simpl never.

Lemma append_ticks kind profile container p w : w_ticks (append kind profile container p w).2 = Datatypes.S (w_ticks w).
Proof.
  unfold append, stmt, now. unfold mbind, M_bind, mret, M_ret, gets, throw, modify. simpl. by repeat case_match; simplify_eq/=.
Qed.

Lemma find_close id at_ rows row : NoDup (sr_id <$> rows) → row ∈ rows → sr_id row = id →
  find (λ r, bool_decide (sr_id r = id)) (close_row id at_ <$> rows) = Some (close_row id at_ row).
Proof.
  induction rows as [|r rows IH]; intros Hnd Hin Hid; [by apply elem_of_nil in Hin|].
  rewrite fmap_cons. rewrite fmap_cons in Hnd. apply NoDup_cons in Hnd as [Hni Hnd]. cbn [find]. rewrite close_row_id.
  apply elem_of_cons in Hin as [->|Hin]; [by rewrite bool_decide_true|].
  rewrite bool_decide_false; [by apply IH|]. intros Hr. apply Hni. rewrite Hr, <-Hid. by apply list_elem_of_fmap_2.
Qed.

(** Closing a session writes its closing entry first and its end second, and the
    timeline stops strictly before the end: the entry is part of the timeline exactly
    when the clock has moved on in between (a millisecond); otherwise it is lost. *)
Theorem closing_entry_needs_a_later_clock (L : TsLaws E) cid row s s' :
  let n := w_ticks (world_of s) in
  let closing := new_row (bump_stmts (world_of s)) SessionEnded None (Some cid)
                   (JObject [("session_id", jint (sr_id row)); ("container_id", JString cid)]) in
  sessions_ok (sessions_of s) → ts_range (clock n) → ts_range (clock (Datatypes.S n)) →
  is_ts (sr_started_at row) → (time_of (sr_started_at row) ≤ clock n)%Z →
  last (filter (λ r, is_active cid r = true) (st_sessions (sessions_of s))) = Some row →
  session_end cid s = (Ok tt, s') →
  w_audit (world_of s') = w_audit (world_of s) ++ [closing] ∧
  ∃ row', find (λ r, bool_decide (sr_id r = sr_id row)) (st_sessions (sessions_of s')) = Some row' ∧
    sr_status row' = "ended" ∧ sr_ended_at row' = Some (ts_format (clock (Datatypes.S n))) ∧
    (in_session row' [] closing ↔ (clock n < clock (Datatypes.S n))%Z).
Proof.
  intros n closing Hok Rn Rm Hst Hle Hlast. unfold session_end, tables, put_tables, gets, modify. cbv [mbind M_bind].
  destruct (on_stmt_cases s) as [->|(e & s1 & ->)]; [|done]. cbn. rewrite sessions_of_put_world, Hlast.
  rewrite on_world_run, world_of_put. set (w := bump_stmts (world_of s)).
  destruct (append SessionEnded None (Some cid) _ w) as [[e|e] w1] eqn:Happ; [|done]. cbn.
  pose proof (append_ticks SessionEnded None (Some cid) (JObject [("session_id", jint (sr_id row)); ("container_id", JString cid)]) w) as Htick.
  rewrite Happ in Htick. cbn in Htick. fold n in Htick. apply append_spec in Happ as [[Haud _] _].
  match goal with |- context [on_world stmt ?x] => destruct (on_stmt_cases x) as [->|(e1 & s1 & ->)] end; [|done].
  cbn. intros [= <-]. rewrite !world_of_put. cbn.
  rewrite world_of_put_sessions, !world_of_put. cbn. rewrite Haud, Htick. split; [done|].
  rewrite ?sessions_of_put_world, sessions_of_put. cbn. rewrite ?sessions_of_put_world.
  assert (row ∈ st_sessions (sessions_of s)) as Hin.
  { apply last_Some_elem_of in Hlast. by apply list_elem_of_filter in Hlast as [_ ?]. }
  assert (ar_container closing = Some (sr_container_id row)) as Hcont.
  { apply last_Some_elem_of in Hlast. apply list_elem_of_filter in Hlast as [Ha _]. unfold is_active in Ha.
    apply andb_true_iff in Ha as [->%bool_decide_eq_true _]. done. }
  exists (close_row (sr_id row) (ts_format (clock (Datatypes.S n))) row).
  split; [by apply find_close; [apply Hok|..]|]. unfold close_row. rewrite decide_True by done. cbn. split_and!; [done..|].
  assert (time_of (ar_ts closing) = clock n) as Hta by (apply ts_is_time; split; [done|done]).
  assert (time_of (ts_format (clock (Datatypes.S n))) = clock (Datatypes.S n)) as Htb by (apply ts_is_time; done).
  unfold in_session, session_end_time. cbn. cbn in Hta, Hcont. rewrite Hta, Htb. intuition lia.
Qed.

(** Every operation only adds valid entries to the log. *)
#[export] Instance put_tables_safe f : SafeIn (put_tables f).
Proof. apply safe_in_modify. intros s. apply world_of_put_sessions. Qed.
#[export] Instance session_start_safe c n p : SafeIn (session_start c n p).
Proof. unfold session_start, tables. solve_safe. Qed.
#[export] Instance session_end_safe c : SafeIn (session_end c).
Proof. unfold session_end, tables. solve_safe. Qed.
End Theorems.

(** * Examples *)

(** One container whose session was opened at 1 s and is closed by a clock that
    advances a second per reading. *)
Definition demo_row : SessionRow :=
  {| sr_id := 1; sr_container_id := "c1"; sr_container_name := "web"; sr_profile := Some "dev";
     sr_started_at := ts_format (Env := clock_env) 1000; sr_ended_at := None; sr_status := "active" |}.
Definition demo_event : McpEventRow :=
  {| me_id := 1; me_session := 1; me_ts := ts_format (Env := clock_env) 5000; me_direction := "host_to_container";
     me_tool_name := Some "tools/call"; me_payload := "{}"; me_decision := None |}.
Definition demo_tables : SessionTables := {| st_sessions := [demo_row]; st_seq := 1; st_events := [demo_event]; st_event_seq := 1 |}.
Definition demo_state : World * SessionTables := (empty_world, demo_tables).
#[local] Instance demo_world : HasWorld (World * SessionTables) := {| world_of := fst; put_world := λ w s, (w, s.2) |}.
#[local] Instance demo_sessions : HasSessions (World * SessionTables) := {| sessions_of := snd; put_sessions := λ t s, (s.1, t) |}.
#[local] Instance demo_world_laws : HasWorldLaws (World * SessionTables).
Proof. split; [done|]. by intros []. Qed.
#[local] Instance demo_sessions_laws : HasSessionsLaws (World * SessionTables).
Proof. by split. Qed.

Lemma demo_ok : sessions_ok demo_tables.
Proof.
  split_and!; cbn; [apply NoDup_singleton| |].
  - apply Forall_singleton. split; [done|]. by left.
  - apply Forall_singleton. by left.
Qed.
Lemma demo_stamp t : ts_range t → is_ts (E := clock_env) (ts_format (Env := clock_env) t).
Proof. intros Ht. by apply (ts_is_ts (E := clock_env) _ t). Qed.

Lemma timeline_is_the_window_witness :
  ∃ l s', timeline (E := clock_env) 1 [] demo_state = (Ok l, s') ∧ StronglySorted by_time l ∧
    l ≡ₚ (audit_entry (E := clock_env) <$> filter (in_session (E := clock_env) demo_row []) (w_audit (world_of demo_state)))
         ++ (event_entry (E := clock_env) <$> filter (λ r, me_session r = 1%Z ∧ wanted [] (me_direction r) = true) (st_events (sessions_of demo_state))).
Proof.
  apply (timeline_is_the_window (E := clock_env) clock_env_laws 1 [] demo_row demo_state).
  - done.
  - done.
  - split; [apply demo_stamp; unfold ts_range; lia|done].
  - by apply Forall_nil.
  - apply Forall_singleton. apply demo_stamp. unfold ts_range. lia.
Defined.

Lemma session_table_stays_ok_witness :
  sessions_ok (sessions_of (foldl (λ s op, run_session_op (E := clock_env) op s) demo_state [OpStart "c2" "db" None; OpEnd "c1"])).
Proof. apply (session_table_stays_ok (E := clock_env) [OpStart "c2" "db" None; OpEnd "c1"] demo_state). exact demo_ok. Defined.

Lemma closing_entry_needs_a_later_clock_witness :
  let n := w_ticks (world_of demo_state) in
  let closing := new_row (E := clock_env) (bump_stmts (world_of demo_state)) SessionEnded None (Some "c1")
                   (JObject [("session_id", jint (sr_id demo_row)); ("container_id", JString "c1")]) in
  let s' := (session_end (E := clock_env) "c1" demo_state).2 in
  w_audit (world_of s') = w_audit (world_of demo_state) ++ [closing] ∧
  ∃ row', find (λ r, bool_decide (sr_id r = sr_id demo_row)) (st_sessions (sessions_of s')) = Some row' ∧
    sr_status row' = "ended" ∧ sr_ended_at row' = Some (ts_format (Env := clock_env) (clock (Env := clock_env) (S n))) ∧
    (in_session (E := clock_env) row' [] closing ↔ (clock (Env := clock_env) n < clock (Env := clock_env) (S n))%Z).
Proof.
  apply (closing_entry_needs_a_later_clock (E := clock_env) clock_env_laws "c1" demo_row demo_state (session_end (E := clock_env) "c1" demo_state).2).
  - exact demo_ok.
  - cbn. unfold ts_range. lia.
  - cbn. unfold ts_range. lia.
  - apply demo_stamp. unfold ts_range. lia.
  - vm_compute. discriminate.
  - vm_compute. reflexivity.
  - vm_compute. reflexivity.
Defined.
