(* ===== verification/SnapCrypto.v ===== *)
(** Snapshot encryption at rest: keys and ciphers
    ([linpodx-runtime/src/snapshot_crypto.rs]), the encrypted store
    ([snapshot.rs], from [EncryptedSnapshotMeta] to [remove_encrypted_artifacts]),
    key rotation ([snapshot_key_rotation.rs]), the hook that encrypts committed
    snapshots ([linpodx-sandbox/src/snapshot_trigger.rs],
    [linpodx-daemon/src/snapshot_auto_encrypt.rs]) and the daemon's handlers
    ([dispatch/snapshots.rs]).

    The ciphers, Argon2, base64, the random numbers, the environment variables and
    the JSON text of the side-car are parameters. A file operation may fail, and a
    failing write may leave the first bytes of what it was given; renames are
    atomic. Error texts end before a foreign error's text. *)
From S2P Require Import Prelude Text Json Common Schema Database AuditKinds AuditLog Logging Embedding KeyRegistry Parse Podman.

(** * Keys and ciphers *)

Definition NONCE_LEN : nat := 12.
Definition TAG_LEN : nat := 16.
Definition KEY_LEN : nat := 32.
Definition ALGORITHM : string := "aes-256-gcm".
Definition KDF_SALT_DEFAULT : string := "linpodx-snap/v1.".
Definition ENV_KEY : string := "LINPODX_SNAPSHOT_KEY".
Definition ENV_PASSPHRASE : string := "LINPODX_SNAPSHOT_ENCRYPT_PASSPHRASE".
Definition ENV_KDF : string := "LINPODX_SNAPSHOT_KDF".
Definition LEGACY_SHA256_ROUNDS : Z := 1000.

Inductive Kdf : Type :=
| Argon2id (m_cost t_cost p_cost : Z)
| Sha256Rounds (rounds : Z).

#[export] Instance Kdf_eq_dec : EqDecision Kdf.
Proof. solve_decision. Defined.

Definition argon2id_default : Kdf := Argon2id 19456 2 1.
Definition sha256_legacy : Kdf := Sha256Rounds LEGACY_SHA256_ROUNDS.
Definition kdf_as_str (k : Kdf) : string :=
  match k with Argon2id _ _ _ => "argon2id" | Sha256Rounds _ => "sha256-rounds" end.

Inductive KeySource : Type := KsEnv | KsPassphrase | KsExplicit.
Definition key_source_as_str (k : KeySource) : string :=
  match k with KsEnv => "env" | KsPassphrase => "passphrase" | KsExplicit => "explicit" end.

Inductive CryptoError : Type :=
| ShortBlob
| CeDecrypt
| KeyDecode (s : string)
| KeyLength (n : nat)
| CeEncrypt
| CeArgon2 (e : string)
| CeArgon2Params (m_cost t_cost p_cost : Z) (e : string)
| KdfUnknown (s : string).

Definition crypto_to_string (e : CryptoError) : string :=
  match e with
  | ShortBlob => "ciphertext shorter than nonce length"
  | CeDecrypt => "AEAD decrypt failed (wrong key, tampered ciphertext, or wrong nonce)"
  | KeyDecode s => "invalid base64 key in " +:+ ENV_KEY +:+ ": " +:+ s
  | KeyLength n => ENV_KEY +:+ " key length must be 32 bytes after base64 decode, got " +:+ pretty n
  | CeEncrypt => "AEAD encrypt failed"
  | CeArgon2 _ => "argon2 KDF failed"
  | CeArgon2Params m t p _ =>
      "invalid argon2 parameters (m_cost=" +:+ pretty m +:+ ", t_cost=" +:+ pretty t +:+ ", p_cost=" +:+ pretty p +:+ ")"
  | KdfUnknown s => "unknown KDF identifier `" +:+ s +:+ "` (expected `argon2id` or `sha256-1k`)"
  end.

Record EncryptionConfig : Type := {
  ec_key : string;
  ec_algorithm : string;
  ec_key_source : KeySource;
  ec_kdf : Kdf;
}.

(** What a file operation does: succeed, fail, or (a write) fail after some bytes. *)
Inductive IoOutcome : Type := IoOk | IoErr | IoCut (n : nat).

(** The fields serde finds in [meta.json]: those with a default may be absent. *)
Record MetaFields : Type := {
  mf_algorithm : string;
  mf_key_source : string;
  mf_ciphertext_sha256 : string;
  mf_original_image_ref : string;
  mf_created_at : Z;
  mf_plaintext_len : N;
  mf_kdf : option Kdf;
  mf_rotated_from : option Z;
  mf_rotated_at : option Z;
}.

(** AES-256-GCM by key and nonce; Argon2 with its parameter check; base64;
    [OsRng]; [std::env::var]; where temporary files go; the JSON of the side-car and
    of a [Kdf]; and the outcome of the [n]-th file operation. *)
Class CryptoEnv := {
  aead_encrypt : string → string → string → option string;
  aead_decrypt : string → string → string → option string;
  os_random : nat → string;
  argon2_params : Z → Z → Z → Result string unit;
  argon2_hash : Z → Z → Z → string → string → Result string string;
  b64_key : string → Result string string;
  env_text : string → option string;
  temp_file : nat → string;
  meta_print : MetaFields → string;
  meta_read : string → Result string MetaFields;
  kdf_print : Kdf → string;
  io_outcome : nat → IoOutcome;
}.
Class CryptoLaws (X : CryptoEnv) : Prop := {
  aead_roundtrip k n p c : aead_encrypt k n p = Some c → aead_decrypt k n c = Some p;
  aead_length k n p c : aead_encrypt k n p = Some c → String.length c = String.length p + TAG_LEN;
  os_random_length n : String.length (os_random n) = NONCE_LEN;
  meta_roundtrip m : meta_read (meta_print m) = Ok m;
}.

Section Crypto.
Context {E : Env} {X : CryptoEnv}.

Definition from_env_var (raw : string) : Result CryptoError Kdf :=
  let trimmed := trim raw in
  if decide (trimmed = "") then Ok argon2id_default
  else
    let lower := to_lower trimmed in
    if decide (lower = "argon2id") then Ok argon2id_default
    else if decide (lower = "sha256-1k") then Ok sha256_legacy
    else if decide (lower = "sha256-rounds") then Ok sha256_legacy
    else Err (KdfUnknown lower).

Definition derive_key_argon2id (passphrase salt : string) (m t p : Z) : Result CryptoError string :=
  match argon2_params m t p with
  | Err e => Err (CeArgon2Params m t p e)
  | Ok _ => match argon2_hash m t p passphrase salt with Ok k => Ok k | Err e => Err (CeArgon2 e) end
  end.

(** [u32::to_be_bytes]. *)
Definition u32_to_be_bytes (v : N) : string :=
  let b := λ k, Ascii.ascii_of_N ((v / 256 ^ k) mod 256)%N in
  String (b 3%N) (String (b 2%N) (String (b 1%N) (String (b 0%N) ""))).
(** The rounds [1..rounds]. *)
Fixpoint rehash (fuel : nat) (round : N) (salt state : string) : string :=
  match fuel with
  | O => state
  | S k => rehash k (round + 1) salt (sha256 (state +:+ u32_to_be_bytes round +:+ salt))
  end.
Definition derive_key_sha256_rounds (passphrase salt : string) (rounds : Z) : string :=
  rehash (Z.to_nat (rounds - 1)) 1 salt (sha256 (salt +:+ passphrase)).
Definition derive_key_from_passphrase (passphrase salt : string) : string :=
  derive_key_sha256_rounds passphrase salt LEGACY_SHA256_ROUNDS.

(** The passphrase is text, so [from_utf8] gives it back. *)
Definition derive_key (passphrase salt : string) (kdf : Kdf) : Result CryptoError string :=
  match kdf with
  | Argon2id m t p => derive_key_argon2id passphrase salt m t p
  | Sha256Rounds rounds => Ok (derive_key_sha256_rounds (if is_utf8 passphrase then passphrase else "") salt rounds)
  end.

Definition key_from_base64 (raw : string) : Result CryptoError string :=
  match b64_key (trim raw) with
  | Err e => Err (KeyDecode e)
  | Ok bytes => if decide (String.length bytes = KEY_LEN) then Ok bytes else Err (KeyLength (String.length bytes))
  end.

Definition from_key (key : string) : EncryptionConfig :=
  {| ec_key := key; ec_algorithm := ALGORITHM; ec_key_source := KsExplicit; ec_kdf := argon2id_default |}.
Definition from_passphrase_with_kdf (passphrase : string) (kdf : Kdf) : Result CryptoError EncryptionConfig :=
  match derive_key passphrase KDF_SALT_DEFAULT kdf with
  | Ok key => Ok {| ec_key := key; ec_algorithm := ALGORITHM; ec_key_source := KsPassphrase; ec_kdf := kdf |}
  | Err e => Err e
  end.
Definition from_passphrase (passphrase : string) : EncryptionConfig :=
  match from_passphrase_with_kdf passphrase argon2id_default with
  | Ok cfg => cfg
  | Err _ => {| ec_key := derive_key_sha256_rounds passphrase KDF_SALT_DEFAULT LEGACY_SHA256_ROUNDS; ec_algorithm := ALGORITHM;
                ec_key_source := KsPassphrase; ec_kdf := sha256_legacy |}
  end.

(** A variable that is set to something. *)
Definition env_set (var : string) : option string :=
  match env_text var with Some raw => if decide (raw = "") then None else Some raw | None => None end.
Definition from_env : Result CryptoError (option EncryptionConfig) :=
  match env_set ENV_KEY with
  | Some raw =>
      match key_from_base64 raw with
      | Ok key => Ok (Some {| ec_key := key; ec_algorithm := ALGORITHM; ec_key_source := KsEnv; ec_kdf := argon2id_default |})
      | Err e => Err e
      end
  | None =>
      match env_set ENV_PASSPHRASE with
      | Some raw =>
          let kdf := match env_text ENV_KDF with Some v => from_env_var v | None => Ok argon2id_default end in
          match kdf with
          | Err e => Err e
          | Ok kdf => match from_passphrase_with_kdf raw kdf with Ok cfg => Ok (Some cfg) | Err e => Err e end
          end
      | None => Ok None
      end
  end.

(** The nonce is the [n]-th random one. *)
Definition encrypt_bytes (n : nat) (plain : string) (cfg : EncryptionConfig) : Result CryptoError string :=
  let nonce := os_random n in
  match aead_encrypt (ec_key cfg) nonce plain with
  | Some ct => Ok (nonce +:+ ct)
  | None => Err CeEncrypt
  end.

Fixpoint str_drop (n : nat) (s : string) : string :=
  match n, s with S k, String _ s' => str_drop k s' | _, _ => s end.
Definition decrypt_bytes (blob : string) (cfg : EncryptionConfig) : Result CryptoError string :=
  if decide (String.length blob < NONCE_LEN + TAG_LEN) then Err ShortBlob
  else
    match aead_decrypt (ec_key cfg) (str_take NONCE_LEN blob) (str_drop NONCE_LEN blob) with
    | Some p => Ok p
    | None => Err CeDecrypt
    end.

Definition snap_sha256_hex (bytes : string) : string := hex_encode (sha256 bytes).

(** [EncryptedSnapshotMeta]: the fields with their defaults filled in. *)
Record EncryptedSnapshotMeta : Type := {
  em_algorithm : string;
  em_key_source : string;
  em_ciphertext_sha256 : string;
  em_original_image_ref : string;
  em_created_at : Z;
  em_plaintext_len : N;
  em_kdf : Kdf;
  em_rotated_from : option Z;
  em_rotated_at : option Z;
}.
Definition default_legacy_kdf : Kdf := sha256_legacy.
Definition meta_of_fields (f : MetaFields) : EncryptedSnapshotMeta :=
  {| em_algorithm := mf_algorithm f; em_key_source := mf_key_source f; em_ciphertext_sha256 := mf_ciphertext_sha256 f;
     em_original_image_ref := mf_original_image_ref f; em_created_at := mf_created_at f; em_plaintext_len := mf_plaintext_len f;
     em_kdf := unwrap_or default_legacy_kdf (mf_kdf f); em_rotated_from := mf_rotated_from f; em_rotated_at := mf_rotated_at f |}.
Definition meta_to_fields (m : EncryptedSnapshotMeta) : MetaFields :=
  {| mf_algorithm := em_algorithm m; mf_key_source := em_key_source m; mf_ciphertext_sha256 := em_ciphertext_sha256 m;
     mf_original_image_ref := em_original_image_ref m; mf_created_at := em_created_at m; mf_plaintext_len := em_plaintext_len m;
     mf_kdf := Some (em_kdf m); mf_rotated_from := em_rotated_from m; mf_rotated_at := em_rotated_at m |}.
Definition meta_to_vec (m : EncryptedSnapshotMeta) : string := meta_print (meta_to_fields m).
Definition meta_from_slice (bytes : string) : Result string EncryptedSnapshotMeta :=
  match meta_read bytes with Ok f => Ok (meta_of_fields f) | Err e => Err e end.

(** The directories of the store. *)
Definition encrypted_store_root : string :=
  match env_set "LINPODX_ENCRYPTED_SNAPSHOT_ROOT" with
  | Some custom => custom
  | None =>
      let base := match env_set "XDG_DATA_HOME" with
                  | Some d => d
                  | None => match env_text "HOME" with Some h => join h ".local/share" | None => "/tmp" end
                  end in
      join base "linpodx/encrypted-snapshots"
  end.
Definition encrypted_image_dir (image_ref : string) : string :=
  join encrypted_store_root (str_take 16 (snap_sha256_hex image_ref)).
End Crypto.
