(* ===== verification/SnapStore.v ===== *)
(** The encrypted snapshot store: what [encrypt_committed_image] and its inverse
    ([linpodx-runtime/src/snapshot.rs]), key rotation ([snapshot_key_rotation.rs]),
    the hook on committed snapshots ([linpodx-sandbox/src/snapshot_trigger.rs],
    [linpodx-daemon/src/snapshot_auto_encrypt.rs]) and the daemon's handlers
    ([dispatch/snapshots.rs], [dispatch.rs], [dispatch/sandbox.rs]) do to it.

    The state holds the [snapshots] and [snapshot_jobs] tables, the directories of
    the store, and how far the run has got in the outcomes of file operations and in
    the random numbers. A file operation may fail, a failing write may leave the first
    bytes of what it was given, and renames are atomic. *)
From S2P Require Import Prelude Text Json Common Schema Database AuditKinds AuditLog Logging Embedding KeyRegistry Parse Podman SnapCrypto.

(** * State *)

(** A row of [snapshots]. *)
Record SnapRow : Type := {
  sw_id : Z;
  sw_container_id : string;
  sw_label : option string;
  sw_image_ref : string;
  sw_parent_id : option Z;
  sw_created_at : string;
  sw_size_bytes : option Z;
  sw_backend : string;
  sw_encrypted : Z;
  sw_algorithm : option string;
  sw_key_source : option string;
  sw_ciphertext_sha256 : option string;
  sw_kdf_algorithm : option string;
  sw_kdf_params : option string;
  sw_rotated_from : option Z;
  sw_rotated_at : option Z;
}.

(** A row of [snapshot_jobs]. *)
Record JobRow : Type := {
  jb_job_id : string;
  jb_container_id : string;
  jb_label : option string;
  jb_status : string;
  jb_snapshot_id : option Z;
  jb_image_ref : option string;
  jb_last_progress : option string;
  jb_error_message : option string;
  jb_started_at : string;
  jb_ended_at : option string;
}.

(** [AutoEncryptHook]: the toggle, the encryptor and the statistics. *)
Record HookState : Type := {
  hk_enabled : bool;
  hk_encryptor : option EncryptionConfig;
  hk_count : Z;
  hk_last : option string;
}.

(** Directories by path, files by name. *)
Record SnapState : Type := {
  ss_rows : list SnapRow;
  ss_seq : Z;
  ss_jobs : list JobRow;
  ss_dirs : gmap string (gmap string string);
  ss_io : nat;
  ss_rng : nat;
  ss_hook : HookState;
}.
Definition new_hook (enabled : bool) : HookState := {| hk_enabled := enabled; hk_encryptor := None; hk_count := 0; hk_last := None |}.
Definition no_snaps : SnapState :=
  {| ss_rows := []; ss_seq := 0; ss_jobs := []; ss_dirs := ∅; ss_io := 0; ss_rng := 0; ss_hook := new_hook true |}.

Definition set_rows (rows : list SnapRow) (seq : Z) (t : SnapState) : SnapState :=
  {| ss_rows := rows; ss_seq := seq; ss_jobs := ss_jobs t; ss_dirs := ss_dirs t; ss_io := ss_io t; ss_rng := ss_rng t; ss_hook := ss_hook t |}.
Definition set_jobs (jobs : list JobRow) (t : SnapState) : SnapState :=
  {| ss_rows := ss_rows t; ss_seq := ss_seq t; ss_jobs := jobs; ss_dirs := ss_dirs t; ss_io := ss_io t; ss_rng := ss_rng t; ss_hook := ss_hook t |}.
Definition set_dirs (dirs : gmap string (gmap string string)) (t : SnapState) : SnapState :=
  {| ss_rows := ss_rows t; ss_seq := ss_seq t; ss_jobs := ss_jobs t; ss_dirs := dirs; ss_io := ss_io t; ss_rng := ss_rng t; ss_hook := ss_hook t |}.
Definition set_hook (h : HookState) (t : SnapState) : SnapState :=
  {| ss_rows := ss_rows t; ss_seq := ss_seq t; ss_jobs := ss_jobs t; ss_dirs := ss_dirs t; ss_io := ss_io t; ss_rng := ss_rng t; ss_hook := h |}.
Definition bump_io (t : SnapState) : SnapState :=
  {| ss_rows := ss_rows t; ss_seq := ss_seq t; ss_jobs := ss_jobs t; ss_dirs := ss_dirs t; ss_io := S (ss_io t); ss_rng := ss_rng t; ss_hook := ss_hook t |}.
Definition bump_rng (t : SnapState) : SnapState :=
  {| ss_rows := ss_rows t; ss_seq := ss_seq t; ss_jobs := ss_jobs t; ss_dirs := ss_dirs t; ss_io := ss_io t; ss_rng := S (ss_rng t); ss_hook := ss_hook t |}.

Class HasSnaps (S : Type) := {
  snaps_of : S → SnapState;
  put_snaps : SnapState → S → S;
}.
(** The tables, podman's state and the store are separate parts of the state. *)
Class SnapLaws (S : Type) {W : HasWorld S} {T : HasSnaps S} : Prop := {
  snaps_of_put t (s : S) : snaps_of (put_snaps t s) = t;
  snaps_of_put_world w (s : S) : snaps_of (put_world w s) = snaps_of s;
  world_of_put_snaps t (s : S) : world_of (put_snaps t s) = world_of s;
  world_of_put_self w (s : S) : world_of (put_world w s) = w;
}.
Class PodmanLaws (S P : Type) {W : HasWorld S} {HP : HasPodman S P} {T : HasSnaps S} : Prop := {
  podman_of_put p (s : S) : podman_of (put_podman p s) = p;
  podman_of_put_world w (s : S) : podman_of (put_world w s) = podman_of s;
  podman_of_put_snaps t (s : S) : podman_of (put_snaps t s) = podman_of s;
  snaps_of_put_podman p (s : S) : snaps_of (put_podman p s) = snaps_of s;
  world_of_put_podman p (s : S) : world_of (put_podman p s) = world_of s;
}.
Ltac snap_simpl :=
  repeat first [rewrite snaps_of_put | rewrite snaps_of_put_world | rewrite world_of_put_snaps | rewrite world_of_put_self
               | rewrite podman_of_put | rewrite podman_of_put_world | rewrite podman_of_put_snaps | rewrite snaps_of_put_podman
               | rewrite world_of_put_podman].

Definition find_snap (id : Z) (rows : list SnapRow) : option SnapRow := find (λ r, bool_decide (sw_id r = id)) rows.

(** * Files *)

Inductive ReadOutcome : Type := ReadOk (bytes : string) | ReadMissing | ReadFailed.

Section Files.
Context {X : CryptoEnv} {S : Type} {T : HasSnaps S}.

Definition put_state (f : SnapState → SnapState) : M S Fault unit := modify (λ s, put_snaps (f (snaps_of s)) s).
Definition snaps : M S Fault SnapState := gets snaps_of.
Definition io_step : M S Fault IoOutcome :=
  t ← snaps;
  _ ← put_state bump_io;
  mret (io_outcome (ss_io t)).
Definition files_in (dir : string) : M S Fault (option (gmap string string)) := t ← snaps; mret (ss_dirs t !! dir).
Definition put_file (dir name bytes : string) (t : SnapState) : SnapState :=
  set_dirs (alter (insert name bytes) dir (ss_dirs t)) t.

(** [create_dir_all]. *)
Definition create_dir (dir : string) : M S Fault bool :=
  o ← io_step;
  match o with
  | IoOk => _ ← put_state (λ t, set_dirs (<[dir := unwrap_or ∅ (ss_dirs t !! dir)]> (ss_dirs t)) t); mret true
  | _ => mret false
  end.
(** [std::fs::write]: needs the directory; a cut write leaves the first bytes. *)
Definition write_file (dir name bytes : string) : M S Fault bool :=
  o ← io_step;
  d ← files_in dir;
  match d, o with
  | Some _, IoOk => _ ← put_state (put_file dir name bytes); mret true
  | Some _, IoCut n => _ ← put_state (put_file dir name (str_take n bytes)); mret false
  | _, _ => mret false
  end.
Definition move_file (old new : string) (m : gmap string string) : gmap string string :=
  match m !! old with Some b => <[new := b]> (delete old m) | None => m end.
(** [std::fs::rename] within a directory. *)
Definition rename_file (dir old new : string) : M S Fault bool :=
  o ← io_step;
  d ← files_in dir;
  match d ≫= (λ m, m !! old), o with
  | Some _, IoOk => _ ← put_state (λ t, set_dirs (alter (move_file old new) dir (ss_dirs t)) t); mret true
  | _, _ => mret false
  end.
Definition read_file (dir name : string) : M S Fault ReadOutcome :=
  o ← io_step;
  d ← files_in dir;
  match o, d ≫= (λ m, m !! name) with
  | IoOk, Some b => mret (ReadOk b)
  | IoOk, None => mret ReadMissing
  | _, _ => mret ReadFailed
  end.
(** [Path::is_file] and [Path::exists] are false after an error. *)
Definition file_exists (dir name : string) : M S Fault bool :=
  o ← io_step;
  d ← files_in dir;
  mret (match o, d ≫= (λ m, m !! name) with IoOk, Some _ => true | _, _ => false end).
Definition dir_exists (dir : string) : M S Fault bool :=
  o ← io_step;
  d ← files_in dir;
  mret (match o, d with IoOk, Some _ => true | _, _ => false end).
(** [remove_dir_all]; a cut one has removed some of the files. *)
Definition remove_dir (dir : string) : M S Fault bool :=
  o ← io_step;
  d ← files_in dir;
  match d, o with
  | Some _, IoOk => _ ← put_state (λ t, set_dirs (delete dir (ss_dirs t)) t); mret true
  | Some m, IoCut n => _ ← put_state (λ t, set_dirs (<[dir := list_to_map (skipn n (map_to_list m))]> (ss_dirs t)) t); mret false
  | _, _ => mret false
  end.
End Files.

(** * The store *)

Definition fail_with {S A} (message : string) : M S Fault A := throw (Fail (Runtime message)).
Definition check_io {S} (ok : bool) (message : string) : M S Fault unit := if ok then mret tt else fail_with message.

Section Store.
Context {E : Env} {X : CryptoEnv} {S : Type} {W : HasWorld S} {P : Type} {C : PodmanCli P} {HP : HasPodman S P} {T : HasSnaps S}.
Context (pcfg : PodmanConfig).

(** [spawn_blocking(..).await]: a task that could not be joined is an error. *)
Definition blocking {A} (join_error : string) (c : M S Fault A) : M S Fault A :=
  o ← on_world (spawn_blocking tt);
  match o with Some _ => c | None => fail_with join_error end.

Definition encrypt_with (ctx : string) (plain : string) (cfg : EncryptionConfig) : M S Fault string :=
  t ← snaps;
  _ ← put_state bump_rng;
  match encrypt_bytes (ss_rng t) plain cfg with
  | Ok blob => mret blob
  | Err e => fail_with (ctx +:+ crypto_to_string e)
  end.

(** Both files are written beside their final names and renamed, the blob first. *)
Definition store_pair (ctx dir blob : string) (meta : EncryptedSnapshotMeta) : M S Fault unit :=
  let path := λ name, join dir name in
  w1 ← write_file dir "blob.enc.tmp" blob;
  _ ← check_io w1 (ctx +:+ "write " +:+ path "blob.enc.tmp" +:+ ": ");
  r1 ← rename_file dir "blob.enc.tmp" "blob.enc";
  _ ← check_io r1 (ctx +:+ "rename " +:+ path "blob.enc.tmp" +:+ " -> " +:+ path "blob.enc" +:+ ": ");
  w2 ← write_file dir "meta.json.tmp" (meta_to_vec meta);
  _ ← check_io w2 (ctx +:+ "write " +:+ path "meta.json.tmp" +:+ ": ");
  r2 ← rename_file dir "meta.json.tmp" "meta.json";
  check_io r2 (ctx +:+ "rename " +:+ path "meta.json.tmp" +:+ " -> " +:+ path "meta.json" +:+ ": ").

Definition read_encrypted_meta (image_ref : string) : M S Fault (option EncryptedSnapshotMeta) :=
  let dir := encrypted_image_dir image_ref in
  r ← read_file dir "meta.json";
  match r with
  | ReadOk bytes =>
      match meta_from_slice bytes with
      | Ok meta => mret (Some meta)
      | Err _ => fail_with ("encrypted meta " +:+ join dir "meta.json" +:+ " parse error: ")
      end
  | ReadMissing => mret None
  | ReadFailed => fail_with ("encrypted meta " +:+ join dir "meta.json" +:+ " read error: ")
  end.

(** [oci_tar::save_image]; the file podman wrote, if it wrote one. *)
Definition save_image (image_ref dest : string) : M S Fault (option string) :=
  o ← run_command (base_command pcfg ++ ["save"; image_ref; "-o"; dest]) None;
  match o with
  | SpawnFailed _ => fail_with "podman save spawn failed: "
  | Exited code _ err file =>
      if negb (success code) then fail_with ("podman save failed: " +:+ trim (from_utf8_lossy err)) else mret file
  end.
(** [snapshot::remove]: [podman rmi]. *)
Definition snap_remove (image_ref : string) (force : bool) : M S Fault unit :=
  _ ← or_not_found image_ref (run_capture pcfg (["rmi"] ++ flag_if force "--force" ++ [image_ref])); mret tt.

(** [tempfile::tempdir] with the path of a file in it. *)
Definition temp_path (ctx : string) : M S Fault string :=
  t ← snaps;
  o ← io_step;
  match o with IoOk => mret (join (temp_file (ss_io t)) "image.tar") | _ => fail_with (ctx +:+ " tempdir: ") end.

Definition encrypt_committed_image (image_ref : string) (cfg : EncryptionConfig) (keep_local_image : bool) :
    M S Fault EncryptedSnapshotMeta :=
  let dir := encrypted_image_dir image_ref in
  _ ← blocking "encrypted dir spawn join: " (
    ok ← create_dir dir; check_io ok ("create encrypted snapshot dir " +:+ dir +:+ ": "));
  plain_path ← temp_path "encrypt";
  file ← save_image image_ref plain_path;
  meta ← blocking "encrypt blocking join: " (
    o ← io_step;
    match o, file with
    | IoOk, Some plain =>
        blob ← encrypt_with "snapshot encrypt: " plain cfg;
        created ← on_world now;
        let meta := {| em_algorithm := ec_algorithm cfg; em_key_source := key_source_as_str (ec_key_source cfg);
                       em_ciphertext_sha256 := snap_sha256_hex blob; em_original_image_ref := image_ref; em_created_at := created;
                       em_plaintext_len := N.of_nat (String.length plain); em_kdf := ec_kdf cfg;
                       em_rotated_from := None; em_rotated_at := None |} in
        _ ← store_pair "" dir blob meta;
        mret meta
    | _, _ => fail_with ("read plaintext tar " +:+ plain_path +:+ ": ")
    end);
  _ ← (if keep_local_image then mret tt else _ ← attempt_in (snap_remove image_ref true); mret tt);
  mret meta.

(** The plaintext of a stored pair whose blob has the recorded digest; the callers
    word their errors differently. *)
Definition open_pair (read_error digest_error : string → string → string) (decrypt_ctx parse_error : string) (dir : string)
    (cfg : EncryptionConfig) : M S Fault (EncryptedSnapshotMeta * string) :=
  mb ← read_file dir "meta.json";
  match mb with
  | ReadOk meta_bytes =>
      match meta_from_slice meta_bytes with
      | Err _ => fail_with parse_error
      | Ok meta =>
          bb ← read_file dir "blob.enc";
          match bb with
          | ReadOk blob =>
              let actual := snap_sha256_hex blob in
              if decide (actual ≠ em_ciphertext_sha256 meta) then fail_with (digest_error (em_ciphertext_sha256 meta) actual)
              else match decrypt_bytes blob cfg with
                   | Ok plain => mret (meta, plain)
                   | Err e => fail_with (decrypt_ctx +:+ crypto_to_string e)
                   end
          | _ => fail_with (read_error "blob " (join dir "blob.enc"))
          end
      end
  | _ => fail_with (read_error "meta " (join dir "meta.json"))
  end.

Definition decrypt_and_load (image_ref : string) (cfg : EncryptionConfig) : M S Fault EncryptedSnapshotMeta :=
  let dir := encrypted_image_dir image_ref in
  mp ← blocking "decrypt blocking join: " (
    open_pair (λ file path, "read encrypted " +:+ file +:+ path +:+ ": ")
      (λ expected actual, "ciphertext sha256 mismatch (expected " +:+ expected +:+ ", got " +:+ actual +:+ ")")
      "snapshot decrypt: " "parse encrypted meta: " dir cfg);
  load_path ← temp_path "decrypt";
  _ ← blocking "decrypt write join: " (
    o ← io_step;
    check_io (match o with IoOk => true | _ => false end) ("write decrypted tar " +:+ load_path +:+ ": "));
  _ ← run_with (base_command pcfg ++ ["load"; "-i"; load_path]) (Some mp.2);
  mret mp.1.

Definition is_image_encrypted (image_ref : string) : M S Fault bool := file_exists (encrypted_image_dir image_ref) "meta.json".
Definition remove_encrypted_artifacts (image_ref : string) : M S Fault unit :=
  let dir := encrypted_image_dir image_ref in
  there ← dir_exists dir;
  if negb there then mret tt
  else ok ← remove_dir dir; check_io ok ("remove encrypted dir " +:+ dir +:+ ": ").
End Store.

(** * Key rotation *)

(** A key given by the client ([NewKeySource] and the IPC type it mirrors, where the
    KDF of a passphrase is the daemon's). *)
Inductive NewKeySource : Type :=
| NkPassphrase (passphrase : string) (kdf : Kdf)
| NkExplicit (key_b64 : string)
| NkEnv (var : string).
Inductive SnapshotKeySource : Type :=
| SkPassphrase (passphrase : string)
| SkExplicit (key_b64 : string)
| SkEnv (var : string).

Record RotateOutcome : Type := {
  ro_snapshot_id : Z;
  ro_image_ref : string;
  ro_algorithm : string;
  ro_kdf : string;
  ro_ciphertext_sha256 : string;
  ro_rotated_at : Z;
}.
(** u32 counters; an addition wraps in a release build. *)
Record ReEncryptAllOutcome : Type := {
  re_total_seen : Z;
  re_re_encrypted : Z;
  re_skipped : Z;
  re_failed : Z;
}.
Definition u32_inc (z : Z) : Z := ((z + 1) mod 2 ^ 32)%Z.

Section Config.
Context {E : Env} {X : CryptoEnv}.

Definition into_config (source : NewKeySource) : Result Error EncryptionConfig :=
  match source with
  | NkPassphrase passphrase kdf =>
      match derive_key passphrase KDF_SALT_DEFAULT kdf with
      | Ok key => Ok {| ec_key := key; ec_algorithm := ALGORITHM; ec_key_source := KsPassphrase; ec_kdf := kdf |}
      | Err e => Err (Runtime ("rotate: derive new key: " +:+ crypto_to_string e))
      end
  | NkExplicit key_b64 =>
      match key_from_base64 key_b64 with
      | Ok key => Ok {| ec_key := key; ec_algorithm := ALGORITHM; ec_key_source := KsExplicit; ec_kdf := argon2id_default |}
      | Err e => Err (Runtime ("rotate: decode explicit key: " +:+ crypto_to_string e))
      end
  | NkEnv var =>
      match env_text var with
      | None => Err (Runtime ("rotate: env var " +:+ var +:+ " is not set"))
      | Some raw =>
          match key_from_base64 raw with
          | Ok key => Ok {| ec_key := key; ec_algorithm := ALGORITHM; ec_key_source := KsEnv; ec_kdf := argon2id_default |}
          | Err e => Err (Runtime ("rotate: decode env key from " +:+ var +:+ ": " +:+ crypto_to_string e))
          end
      end
  end.

(** The daemon's two resolutions ([dispatch.rs]). *)
Definition resolve_old_snapshot_cfg : Result Error EncryptionConfig :=
  match from_env with
  | Err e => Err (Runtime ("snapshot.key_rotate: resolve current key: " +:+ crypto_to_string e))
  | Ok (Some cfg) => Ok cfg
  | Ok None => Err (Unsupported (String.append "snapshot.key_rotate: daemon was not started with LINPODX_SNAPSHOT_KEY / "
                      "LINPODX_SNAPSHOT_ENCRYPT_PASSPHRASE — nothing to rotate"))
  end.
Definition resolve_new_snapshot_cfg (new_key : SnapshotKeySource) : Result Error EncryptionConfig :=
  match new_key with
  | SkPassphrase passphrase =>
      match env_text ENV_KDF with
      | None => into_config (NkPassphrase passphrase argon2id_default)
      | Some v =>
          match from_env_var v with
          | Ok kdf => into_config (NkPassphrase passphrase kdf)
          | Err e => Err (Runtime ("snapshot.key_rotate: parse " +:+ ENV_KDF +:+ " env var: " +:+ crypto_to_string e))
          end
      end
  | SkExplicit key_b64 => into_config (NkExplicit key_b64)
  | SkEnv var => into_config (NkEnv var)
  end.
(** [make_encryptor]: no encryptor without a valid configuration. *)
Definition make_encryptor : option EncryptionConfig := match from_env with Ok (Some cfg) => Some cfg | _ => None end.
End Config.

Section Rotation.
Context {E : Env} {X : CryptoEnv} {S : Type} {W : HasWorld S} {T : HasSnaps S}.

Definition rotate_on_disk (image_ref : string) (snapshot_id : Z) (old_cfg new_cfg : EncryptionConfig) :
    M S Fault (EncryptedSnapshotMeta * Z) :=
  let dir := encrypted_image_dir image_ref in
  blocking "rotate: blocking join: " (
    mp ← open_pair (λ _ path, "rotate: read " +:+ path +:+ ": ")
           (λ expected actual, "rotate: ciphertext sha mismatch (meta=" +:+ expected +:+ " disk=" +:+ actual +:+ ")")
           "rotate: decrypt under old key: " "rotate: parse meta.json: " dir old_cfg;
    new_blob ← encrypt_with "rotate: encrypt under new key: " mp.2 new_cfg;
    rotated_at ← on_world now;
    let new_meta := {| em_algorithm := ec_algorithm new_cfg; em_key_source := key_source_as_str (ec_key_source new_cfg);
                       em_ciphertext_sha256 := snap_sha256_hex new_blob; em_original_image_ref := image_ref;
                       em_created_at := em_created_at mp.1; em_plaintext_len := em_plaintext_len mp.1; em_kdf := ec_kdf new_cfg;
                       em_rotated_from := Some snapshot_id; em_rotated_at := Some rotated_at |} in
    _ ← store_pair "rotate: " dir new_blob new_meta;
    mret (new_meta, rotated_at)).

Definition record_rotation (m : EncryptedSnapshotMeta) (id rotated_at : Z) (r : SnapRow) : SnapRow :=
  if decide (sw_id r = id)
  then {| sw_id := sw_id r; sw_container_id := sw_container_id r; sw_label := sw_label r; sw_image_ref := sw_image_ref r;
          sw_parent_id := sw_parent_id r; sw_created_at := sw_created_at r; sw_size_bytes := sw_size_bytes r;
          sw_backend := sw_backend r; sw_encrypted := sw_encrypted r; sw_algorithm := Some (em_algorithm m);
          sw_key_source := Some (em_key_source m); sw_ciphertext_sha256 := Some (em_ciphertext_sha256 m);
          sw_kdf_algorithm := Some (kdf_as_str (em_kdf m)); sw_kdf_params := Some (kdf_print (em_kdf m));
          sw_rotated_from := Some id; sw_rotated_at := Some rotated_at |}
  else r.

Definition rotate_snapshot_key (snapshot_id : Z) (old_cfg new_cfg : EncryptionConfig) : M S Fault RotateOutcome :=
  _ ← on_world stmt;
  t ← snaps;
  match find_snap snapshot_id (ss_rows t) with
  | None => throw (Fail (NotFound ("snapshot id " +:+ pretty snapshot_id)))
  | Some row =>
      let image_ref := sw_image_ref row in
      sealed ← is_image_encrypted image_ref;
      if negb sealed
      then fail_with ("snapshot " +:+ pretty snapshot_id +:+ " (" +:+ image_ref +:+ ") is not encrypted — nothing to rotate")
      else
        nm ← rotate_on_disk image_ref snapshot_id old_cfg new_cfg;
        _ ← on_world stmt;
        _ ← put_state (λ t, set_rows (record_rotation nm.1 snapshot_id (nm.2 / 1000) <$> ss_rows t) (ss_seq t) t);
        mret {| ro_snapshot_id := snapshot_id; ro_image_ref := image_ref; ro_algorithm := em_algorithm nm.1;
                ro_kdf := kdf_as_str (em_kdf nm.1); ro_ciphertext_sha256 := em_ciphertext_sha256 nm.1; ro_rotated_at := nm.2 |}
  end.

Fixpoint re_encrypt_rows (ids : list Z) (old_cfg new_cfg : EncryptionConfig) (o : ReEncryptAllOutcome) :
    M S Fault ReEncryptAllOutcome :=
  match ids with
  | [] => mret o
  | id :: ids' =>
      let total := u32_inc (re_total_seen o) in
      r ← attempt_in (rotate_snapshot_key id old_cfg new_cfg);
      re_encrypt_rows ids' old_cfg new_cfg
        (match r with
         | Ok _ => {| re_total_seen := total; re_re_encrypted := u32_inc (re_re_encrypted o); re_skipped := re_skipped o; re_failed := re_failed o |}
         | Err (Runtime message) =>
             if contains message "is not encrypted"
             then {| re_total_seen := total; re_re_encrypted := re_re_encrypted o; re_skipped := u32_inc (re_skipped o); re_failed := re_failed o |}
             else {| re_total_seen := total; re_re_encrypted := re_re_encrypted o; re_skipped := re_skipped o; re_failed := u32_inc (re_failed o) |}
         | Err _ => {| re_total_seen := total; re_re_encrypted := re_re_encrypted o; re_skipped := re_skipped o; re_failed := u32_inc (re_failed o) |}
         end)
  end.
(** The table is kept in the order of its ids. *)
Definition re_encrypt_all (old_cfg new_cfg : EncryptionConfig) : M S Fault ReEncryptAllOutcome :=
  _ ← on_world stmt;
  t ← snaps;
  re_encrypt_rows (sw_id <$> ss_rows t) old_cfg new_cfg
    {| re_total_seen := 0; re_re_encrypted := 0; re_skipped := 0; re_failed := 0 |}.
End Rotation.

Definition meta_indicates_rotation (m : EncryptedSnapshotMeta) : bool :=
  is_some (em_rotated_at m) || is_some (em_rotated_from m).

(** * The hook on committed snapshots *)

(** What goes wrong inside the hook; an append to the audit log is the only failure
    its caller sees. *)
Inductive SandboxError : Type := SbEncryptor | SbAudit.

Record AutoEncryptStatus : Type := {
  as_enabled : bool;
  as_last_image_ref : option string;
  as_trigger_count : Z;
}.

Section Hook.
Context {E : Env} {X : CryptoEnv} {S : Type} {W : HasWorld S} {P : Type} {C : PodmanCli P} {HP : HasPodman S P} {T : HasSnaps S}.
Context (pcfg : PodmanConfig).

(** [RuntimeSnapshotEncryptor::encrypt]: the local image is kept. *)
Definition encryptor_encrypt (cfg : EncryptionConfig) (image_ref : string) : M S Fault (Result SandboxError unit) :=
  r ← attempt_in (encrypt_committed_image pcfg image_ref cfg true);
  mret (match r with Ok _ => Ok tt | Err _ => Err SbEncryptor end).

Definition hook_set_enabled (enabled : bool) : M S Fault bool :=
  t ← snaps;
  _ ← put_state (λ t, let h := ss_hook t in
        set_hook {| hk_enabled := enabled; hk_encryptor := hk_encryptor h; hk_count := hk_count h; hk_last := hk_last h |} t);
  mret (hk_enabled (ss_hook t)).
Definition hook_set_encryptor (enc : option EncryptionConfig) : M S Fault unit :=
  put_state (λ t, let h := ss_hook t in
    set_hook {| hk_enabled := hk_enabled h; hk_encryptor := enc; hk_count := hk_count h; hk_last := hk_last h |} t).
Definition hook_status : M S Fault AutoEncryptStatus :=
  t ← snaps;
  let h := ss_hook t in
  mret {| as_enabled := hk_enabled h; as_last_image_ref := hk_last h; as_trigger_count := hk_count h |}.
(** [fetch_add] and the last image. *)
Definition hook_fired (image_ref : string) (t : SnapState) : SnapState :=
  let h := ss_hook t in
  set_hook {| hk_enabled := hk_enabled h; hk_encryptor := hk_encryptor h; hk_count := wrap_u64 (hk_count h + 1);
              hk_last := Some image_ref |} t.

Definition on_commit_snapshot (image_ref : string) (profile : option SandboxProfile) : M S Fault (Result SandboxError bool) :=
  t ← snaps;
  if negb (hk_enabled (ss_hook t)) then mret (Ok false)
  else if negb (unwrap_or true (auto_encrypt_snapshots <$> profile)) then mret (Ok false)
  else
    outcome ← (match hk_encryptor (ss_hook t) with
               | Some cfg => r ← encryptor_encrypt cfg image_ref;
                             mret (match r with Ok _ => "encrypted" | Err _ => "encryptor_failed" end)
               | None => mret "no_encryptor"
               end : M S Fault string);
    _ ← put_state (hook_fired image_ref);
    t' ← snaps;
    a ← attempt_in (on_world (append SandboxSnapshotAutoTriggered (sp_name <$> profile) None
          (JObject [("image_ref", JString image_ref); ("profile_name", jopt JString (sp_name <$> profile));
                    ("key_source", JString (key_source_as_str KsEnv)); ("outcome", JString outcome);
                    ("trigger_count", jint (hk_count (ss_hook t')))])));
    mret (match a with Ok _ => Ok (bool_decide (outcome = "encrypted")) | Err _ => Err SbAudit end).
End Hook.

(** * Handlers *)

Record EncryptionStatus : Type := {
  es_snapshot_id : Z;
  es_encrypted : bool;
  es_algorithm : option string;
  es_key_source : option string;
  es_ciphertext_sha256 : option string;
}.

Section Handlers.
Context {E : Env} {X : CryptoEnv} {A : AuditSink} {S : Type} {W : HasWorld S} {T : HasSnaps S}.
Context (to_rfc3339 : Z → string).

Definition of_result {B} (r : Result Error B) : M S Fault B := match r with Ok b => mret b | Err e => throw (Fail e) end.

(** The side-car decides; the columns answer when there is none. *)
Definition snapshot_encryption_status (id : Z) : M S Fault EncryptionStatus :=
  _ ← on_world stmt;
  t ← snaps;
  match find_snap id (ss_rows t) with
  | None => throw (Fail (NotFound ("snapshot id " +:+ pretty id)))
  | Some row =>
      m ← read_encrypted_meta (sw_image_ref row);
      mret (match m with
            | Some meta => {| es_snapshot_id := id; es_encrypted := true; es_algorithm := Some (em_algorithm meta);
                              es_key_source := Some (em_key_source meta); es_ciphertext_sha256 := Some (em_ciphertext_sha256 meta) |}
            | None => {| es_snapshot_id := id; es_encrypted := negb (bool_decide (sw_encrypted row = 0%Z)); es_algorithm := sw_algorithm row;
                         es_key_source := sw_key_source row; es_ciphertext_sha256 := sw_ciphertext_sha256 row |}
            end)
  end.

(** The answer repeats the outcome. *)
Definition snapshot_key_rotate (snapshot_id : Z) (new_key : SnapshotKeySource) : M S Fault RotateOutcome :=
  old_cfg ← of_result resolve_old_snapshot_cfg;
  new_cfg ← of_result (resolve_new_snapshot_cfg new_key);
  outcome ← rotate_snapshot_key snapshot_id old_cfg new_cfg;
  _ ← on_world (record SinkSnapshotKeyRotated None None
        (JObject [("snapshot_id", jint (ro_snapshot_id outcome)); ("image_ref", JString (ro_image_ref outcome));
                  ("algorithm", JString (ro_algorithm outcome)); ("kdf", JString (ro_kdf outcome));
                  ("ciphertext_sha256", JString (ro_ciphertext_sha256 outcome));
                  ("rotated_at", JString (to_rfc3339 (ro_rotated_at outcome)))]));
  mret outcome.
Definition snapshot_re_encrypt_all (new_key : SnapshotKeySource) : M S Fault ReEncryptAllOutcome :=
  old_cfg ← of_result resolve_old_snapshot_cfg;
  new_cfg ← of_result (resolve_new_snapshot_cfg new_key);
  outcome ← re_encrypt_all old_cfg new_cfg;
  _ ← on_world (record SinkSnapshotReEncryptCompleted None None
        (JObject [("total_seen", jint (re_total_seen outcome)); ("re_encrypted", jint (re_re_encrypted outcome));
                  ("skipped", jint (re_skipped outcome)); ("failed", jint (re_failed outcome))]));
  mret outcome.

(** The daemon always installs the hook, so [hook not wired] is not reached. *)
Definition sandbox_snapshot_auto_trigger_status : M S Fault AutoEncryptStatus := hook_status.
Definition sandbox_snapshot_auto_trigger_enable (enabled : bool) : M S Fault AutoEncryptStatus :=
  _ ← hook_set_enabled enabled; hook_status.
End Handlers.

(** * Theorems *)

(** A stored pair that opens under [cfg] and gives [plain]. *)
Section Sealed.
Context {E : Env} {X : CryptoEnv} {S : Type} {T : HasSnaps S}.

Definition dirs_of (s : S) : gmap string (gmap string string) := ss_dirs (snaps_of s).
Definition stored (dir blob : string) (meta : EncryptedSnapshotMeta) (s : S) : Prop :=
  ∃ m bytes, dirs_of s !! dir = Some m ∧ m !! "blob.enc" = Some blob ∧ m !! "meta.json" = Some bytes ∧ meta_from_slice bytes = Ok meta.
Definition sealed (cfg : EncryptionConfig) (dir plain : string) (s : S) : Prop :=
  ∃ blob meta, stored dir blob meta s ∧ em_ciphertext_sha256 meta = snap_sha256_hex blob ∧ decrypt_bytes blob cfg = Ok plain.
(** A blob that would open, beside a side-car that records another digest. *)
Definition torn (cfg : EncryptionConfig) (dir plain : string) (s : S) : Prop :=
  ∃ blob meta, stored dir blob meta s ∧ em_ciphertext_sha256 meta ≠ snap_sha256_hex blob ∧ decrypt_bytes blob cfg = Ok plain.
End Sealed.

Lemma str_take_app s t : str_take (String.length s) (s +:+ t) = s.
Proof. induction s as [|a s IH]; [by destruct t|]. simpl. by rewrite IH. Qed.
Lemma str_drop_app s t : str_drop (String.length s) (s +:+ t) = t.
Proof. induction s as [|a s IH]; [done|]. exact IH. Qed.

Section Crypto.
Context {E : Env} {X : CryptoEnv} {XL : CryptoLaws X}.

Lemma decrypt_encrypt n plain cfg blob : encrypt_bytes n plain cfg = Ok blob → decrypt_bytes blob cfg = Ok plain.
Proof.
  unfold encrypt_bytes. destruct (aead_encrypt _ _ _) as [ct|] eqn:Hc; [|done]. intros [= <-].
  unfold decrypt_bytes. pose proof (os_random_length n) as Hn. pose proof (aead_length _ _ _ _ Hc) as Ht.
  rewrite decide_False; [|rewrite str_length_app; lia].
  rewrite <-Hn, str_take_app, str_drop_app. by rewrite (aead_roundtrip _ _ _ _ Hc).
Qed.
Lemma meta_from_to m : meta_from_slice (meta_to_vec m) = Ok m.
Proof. unfold meta_from_slice, meta_to_vec. rewrite meta_roundtrip. by destruct m. Qed.
End Crypto.

Section Files.
Context {E : Env} {X : CryptoEnv} {S : Type} {W : HasWorld S} {T : HasSnaps S} {L : SnapLaws S}.
Implicit Types s : S.

(** Runs that leave a part of the state alone. *)
Definition keeps {B A} (f : S → B) (c : M S Fault A) : Prop := ∀ s, f (c s).2 = f s.
Definition rows_of (s : S) : list SnapRow := ss_rows (snaps_of s).
Abbreviation keeps_dirs := (keeps dirs_of).
Abbreviation keeps_rows := (keeps rows_of).
Lemma wp_keeps {A} (c : M S Fault A) s (Q : Result Fault A → S → Prop) :
  keeps_dirs c → (∀ r s', dirs_of s' = dirs_of s → Q r s') → wp c s Q.
Proof. intros Hc HQ. apply HQ, Hc. Qed.
Lemma keeps_snaps {A} (c : D A) s : snaps_of (on_world c s).2 = snaps_of s.
Proof. unfold on_world. destruct (c (world_of s)) as [r w]. simpl. by snap_simpl. Qed.
Lemma keeps_on_world {A} (c : D A) : keeps_dirs (on_world c).
Proof. intros s. unfold dirs_of. by rewrite keeps_snaps. Qed.
Lemma keeps_rows_on_world {A} (c : D A) : keeps_rows (on_world c).
Proof. intros s. unfold rows_of. by rewrite keeps_snaps. Qed.
Lemma keeps_bind {B A A'} (f : S → B) (c : M S Fault A) (k : A → M S Fault A') : keeps f c → (∀ a, keeps f (k a)) → keeps f (c ≫= k).
Proof. intros Hc Hk s. cbv [mbind M_bind]. specialize (Hc s). destruct (c s) as [[a|e] s']; [by rewrite Hk|done]. Qed.
Lemma keeps_attempt {B A} (f : S → B) (c : M S Fault A) : keeps f c → keeps f (attempt_in c).
Proof. intros Hc s. specialize (Hc s). unfold attempt_in. by destruct (c s) as [[a|[e|p]] s']. Qed.
Lemma keeps_rows_put g : (∀ t, ss_rows (g t) = ss_rows t) → keeps_rows (put_state g).
Proof. intros Hg s. unfold rows_of. simpl. by rewrite snaps_of_put, Hg. Qed.

(** The state after [n] file operations that left the directories [d]. *)
Lemma wp_io_step s (Q : Result Fault IoOutcome → S → Prop) :
  (∀ s', dirs_of s' = dirs_of s → world_of s' = world_of s →
     ss_io (snaps_of s') = Datatypes.S (ss_io (snaps_of s)) → Q (Ok (io_outcome (ss_io (snaps_of s)))) s') →
  wp io_step s Q.
Proof. intros HQ. unfold wp, dirs_of. simpl. apply HQ; unfold dirs_of; by snap_simpl. Qed.
Lemma keeps_io_step : keeps_dirs io_step.
Proof. intros s. apply (wp_io_step s (λ _ s', dirs_of s' = dirs_of s)). by intros. Qed.

Lemma wp_write_file dir name bytes m s (Q : Result Fault bool → S → Prop) :
  dirs_of s !! dir = Some m →
  (∀ ok b s', dirs_of s' = <[dir := <[name := b]> m]> (dirs_of s) → (ok = true → b = bytes) → Q (Ok ok) s') →
  (∀ s', dirs_of s' = dirs_of s → Q (Ok false) s') →
  wp (write_file dir name bytes) s Q.
Proof.
  intros Hm Hw Hn. unfold write_file. apply wp_bind, wp_io_step. intros s1 Hd _ _.
  assert (dirs_of s1 !! dir = Some m) as Hm1 by by rewrite Hd.
  unfold wp, files_in. cbv [mbind M_bind]. simpl. change (ss_dirs (snaps_of s1)) with (dirs_of s1). rewrite Hm1.
  destruct (io_outcome _) as [| |n]; simpl.
  - apply (Hw true bytes); [|done]. unfold dirs_of. snap_simpl. simpl. change (ss_dirs (snaps_of s1)) with (dirs_of s1).
    by rewrite (alter_alt_Some _ _ _ _ Hm1), Hd.
  - by apply Hn.
  - apply (Hw false (str_take n bytes)); [|done]. unfold dirs_of. snap_simpl. simpl. change (ss_dirs (snaps_of s1)) with (dirs_of s1).
    by rewrite (alter_alt_Some _ _ _ _ Hm1), Hd.
Qed.

Lemma wp_rename_file dir old new m b s (Q : Result Fault bool → S → Prop) :
  dirs_of s !! dir = Some m → m !! old = Some b →
  (∀ s', dirs_of s' = <[dir := <[new := b]> (delete old m)]> (dirs_of s) → Q (Ok true) s') →
  (∀ s', dirs_of s' = dirs_of s → Q (Ok false) s') →
  wp (rename_file dir old new) s Q.
Proof.
  intros Hm Hb Hw Hn. unfold rename_file. apply wp_bind, wp_io_step. intros s1 Hd _ _.
  assert (dirs_of s1 !! dir = Some m) as Hm1 by by rewrite Hd.
  unfold wp, files_in. cbv [mbind M_bind]. simpl. change (ss_dirs (snaps_of s1)) with (dirs_of s1). rewrite Hm1.
  cbv [option_bind]. rewrite Hb. destruct (io_outcome _) as [| |n]; simpl; [|by apply Hn..].
  apply Hw. unfold dirs_of. snap_simpl. simpl. change (ss_dirs (snaps_of s1)) with (dirs_of s1).
  rewrite (alter_alt_Some _ _ _ _ Hm1), Hd. unfold move_file. by rewrite Hb.
Qed.

Lemma wp_check_io ok message s (Q : Result Fault unit → S → Prop) :
  (ok = true → Q (Ok tt) s) → (ok = false → Q (Err (Fail (Runtime message))) s) → wp (check_io ok message) s Q.
Proof. destruct ok; intros H1 H2; [by apply H1|by apply H2]. Qed.

(** Both files are in place, or the side-car is the old one and the blob is the old
    one or the new one; only [dir] changes. *)
Lemma wp_store_pair ctx dir blob meta m s :
  dirs_of s !! dir = Some m →
  wp (store_pair ctx dir blob meta) s (λ r s', ∃ m', dirs_of s' = <[dir := m']> (dirs_of s) ∧
    match r with
    | Ok _ => m' !! "blob.enc" = Some blob ∧ m' !! "meta.json" = Some (meta_to_vec meta)
    | Err _ => m' !! "meta.json" = m !! "meta.json" ∧ (m' !! "blob.enc" = m !! "blob.enc" ∨ m' !! "blob.enc" = Some blob)
    end).
Proof.
  intros Hm. unfold store_pair. cbv zeta.
  apply wp_bind, (wp_write_file _ _ _ m); [done| |].
  2: { intros s1 H1. apply wp_bind, wp_check_io; [done|intros _]. exists m. rewrite H1, insert_id by done. auto. }
  intros ok b s1 H1 Hb. apply wp_bind, wp_check_io; intros ->.
  2: { eexists. split; [exact H1|]. by simplify_map_eq; auto. }
  rewrite (Hb eq_refl) in H1. clear b Hb.
  apply wp_bind, (wp_rename_file _ _ _ (<["blob.enc.tmp" := blob]> m) blob); [by rewrite ?H1; simplify_map_eq..| |].
  2: { intros s2 H2. apply wp_bind, wp_check_io; [done|intros _]. eexists. rewrite H2. split; [exact H1|]. by simplify_map_eq; auto. }
  intros s2 H2. rewrite H1, insert_insert_eq in H2. set (m2 := <["blob.enc":=blob]> _) in H2.
  assert (m2 !! "meta.json" = m !! "meta.json" ∧ m2 !! "blob.enc" = Some blob) as [Hm2 Hb2] by by subst m2; simplify_map_eq.
  clearbody m2.
  apply wp_bind. apply wp_check_io; [intros _|done].
  apply wp_bind, (wp_write_file _ _ _ m2); [by rewrite H2; simplify_map_eq| |].
  2: { intros s3 H3. apply wp_bind, wp_check_io; [done|intros _]. exists m2. rewrite H3. auto. }
  intros ok b s3 H3 Hb. rewrite H2, insert_insert_eq in H3. apply wp_bind, wp_check_io; intros ->.
  2: { eexists. split; [exact H3|]. simplify_map_eq. auto. }
  rewrite (Hb eq_refl) in H3. clear b Hb.
  apply wp_bind, (wp_rename_file _ _ _ (<["meta.json.tmp" := meta_to_vec meta]> m2) (meta_to_vec meta)); [by rewrite ?H3; simplify_map_eq..| |].
  2: { intros s4 H4. apply wp_check_io; [done|intros _]. eexists. rewrite H4. split; [exact H3|]. simplify_map_eq. auto. }
  intros s4 H4. rewrite H3, insert_insert_eq in H4. apply wp_check_io; [intros _|done].
  eexists. split; [exact H4|]. by simplify_map_eq.
Qed.

Lemma stored_dirs dir blob meta s s' : dirs_of s' !! dir = dirs_of s !! dir → stored dir blob meta s → stored dir blob meta s'.
Proof. unfold stored. by intros ->. Qed.
Lemma sealed_dirs cfg dir plain s s' : dirs_of s' !! dir = dirs_of s !! dir → sealed cfg dir plain s → sealed cfg dir plain s'.
Proof. intros Hd (blob & meta & Hs & H). exists blob, meta. split; [by apply (stored_dirs _ _ _ s)|done]. Qed.
Lemma stored_unique dir blob1 meta1 blob2 meta2 s :
  stored dir blob1 meta1 s → stored dir blob2 meta2 s → blob1 = blob2 ∧ meta1 = meta2.
Proof. intros (m1 & b1 & ? & ? & ? & ?) (m2 & b2 & ? & ? & ? & ?). assert (m1 = m2) as -> by congruence. split; congruence. Qed.

Lemma wp_read_file dir name s (Q : Result Fault ReadOutcome → S → Prop) :
  (∀ o s', dirs_of s' = dirs_of s → (∀ b, o = ReadOk b → ∃ m, dirs_of s !! dir = Some m ∧ m !! name = Some b) → Q (Ok o) s') →
  wp (read_file dir name) s Q.
Proof.
  intros HQ. unfold read_file. apply wp_bind, wp_io_step. intros s1 Hd _ _.
  unfold wp, files_in. cbv [mbind M_bind]. simpl. change (ss_dirs (snaps_of s1)) with (dirs_of s1). rewrite Hd.
  destruct (io_outcome _); [|by apply HQ..].
  destruct (dirs_of s !! dir) as [m|] eqn:Hm; simpl; [|by apply HQ].
  destruct (m !! name) as [b|] eqn:Hb; simpl; apply HQ; try done. intros b' [= <-]. eauto.
Qed.

Lemma wp_blocking {A} e (c : M S Fault A) s (Q : Result Fault A → S → Prop) :
  (∀ s', dirs_of s' = dirs_of s → wp c s' Q) → (∀ s', dirs_of s' = dirs_of s → Q (Err (Fail (Runtime e))) s') → wp (blocking e c) s Q.
Proof.
  intros Hc He. unfold blocking. apply wp_bind. unfold wp at 1. unfold on_world. simpl.
  assert (dirs_of (put_world (bump_tasks (world_of s)) s) = dirs_of s) as Hd by (unfold dirs_of; by snap_simpl).
  destruct (task_fault _); [by apply He|by apply Hc].
Qed.

Lemma wp_open_pair re de dc pe dir cfg s :
  wp (open_pair re de dc pe dir cfg) s (λ r s', dirs_of s' = dirs_of s ∧
    match r with
    | Ok mp => ∃ blob, stored dir blob mp.1 s ∧ em_ciphertext_sha256 mp.1 = snap_sha256_hex blob ∧ decrypt_bytes blob cfg = Ok mp.2
    | Err _ => True
    end).
Proof.
  unfold open_pair. apply wp_bind, wp_read_file. intros o s1 H1 Ho.
  destruct o as [bytes| |]; [|by apply wp_throw..]. destruct (Ho _ eq_refl) as (m & Hm & Hb).
  destruct (meta_from_slice bytes) as [meta|] eqn:Hmeta; [|by apply wp_throw].
  apply wp_bind, wp_read_file. intros o s2 H2 Ho2. rewrite H1 in H2.
  destruct o as [blob| |]; [|by apply wp_throw..]. destruct (Ho2 _ eq_refl) as (m2 & Hm2 & Hb2). rewrite H1 in Hm2. simplify_eq.
  cbv zeta. case_decide as Hsha; [by apply wp_throw|].
  destruct (decrypt_bytes blob cfg) as [plain|] eqn:Hd; [|by apply wp_throw].
  apply wp_ret. split; [done|]. exists blob. split; [|done]. by exists m, bytes.
Qed.

Lemma wp_encrypt_with ctx plain cfg s (Q : Result Fault string → S → Prop) :
  (∀ n blob s', dirs_of s' = dirs_of s → encrypt_bytes n plain cfg = Ok blob → Q (Ok blob) s') →
  (∀ e s', dirs_of s' = dirs_of s → Q (Err e) s') → wp (encrypt_with ctx plain cfg) s Q.
Proof.
  intros Hok Herr. unfold wp, encrypt_with. cbv [mbind M_bind]. simpl.
  set (s1 := put_snaps _ s). assert (dirs_of s1 = dirs_of s) as Hd by (subst s1; unfold dirs_of; by snap_simpl).
  destruct (encrypt_bytes _ plain cfg) as [blob|e] eqn:He; [by eapply Hok|by apply Herr].
Qed.

(** File and database work: the rows stay and nothing panics. *)
Definition tame {A} (c : M S Fault A) : Prop := ∀ s, rows_of (c s).2 = rows_of s ∧ ∀ p, (c s).1 ≠ Err (Panic p).
Lemma tame_bind {A B} (c : M S Fault A) (k : A → M S Fault B) : tame c → (∀ a, tame (k a)) → tame (c ≫= k).
Proof.
  intros Hc Hk s. cbv [mbind M_bind]. destruct (Hc s) as [Hr Hp]. destruct (c s) as [[a|e] s'].
  - destruct (Hk a s') as [H1 H2]. split; [by rewrite H1|done].
  - split; [done|]. simpl in *. intros p [= ->]. by apply (Hp p).
Qed.
Lemma tame_world {A} (c : D A) : (∀ w p, (c w).1 ≠ Err (Panic p)) → tame (on_world c).
Proof.
  intros Hc s. split; [apply keeps_rows_on_world|]. intros p. specialize (Hc (world_of s) p).
  unfold on_world. by destruct (c (world_of s)).
Qed.
Lemma tame_stmt : tame (on_world stmt).
Proof. apply tame_world. intros w p. unfold stmt. by case_match. Qed.
Lemma tame_now : tame (on_world now).
Proof. by apply tame_world. Qed.
Lemma tame_put g : (∀ t, ss_rows (g t) = ss_rows t) → tame (put_state g).
Proof. intros Hg s. split; [by apply keeps_rows_put|done]. Qed.
Lemma tame_io_step : tame io_step.
Proof. apply tame_bind; [done|]. intros t. apply tame_bind; [by apply tame_put|done]. Qed.
Lemma tame_check ok message : tame (check_io ok message).
Proof. by destruct ok. Qed.
Lemma tame_blocking {A} e (c : M S Fault A) : tame c → tame (blocking e c).
Proof.
  intros Hc. apply tame_bind; [|by intros [[]|]]. apply tame_world. done.
Qed.
End Files.

Ltac tame :=
  repeat first
    [ done | apply tame_io_step | apply tame_stmt | apply tame_now | apply tame_check | apply tame_blocking
    | apply tame_bind; [|intros ?] | apply tame_put; by intros | progress cbv zeta | case_match ].

Section Tame.
Context {E : Env} {X : CryptoEnv} {S : Type} {W : HasWorld S} {T : HasSnaps S} {L : SnapLaws S}.

Lemma tame_write_file dir name bytes : tame (write_file dir name bytes).
Proof. unfold write_file, files_in. tame. Qed.
Lemma tame_rename_file dir old new : tame (rename_file dir old new).
Proof. unfold rename_file, files_in. tame. Qed.
Lemma tame_read_file dir name : tame (read_file dir name).
Proof. unfold read_file, files_in. tame. Qed.
Lemma tame_file_exists dir name : tame (file_exists dir name).
Proof. unfold file_exists, files_in. tame. Qed.
Lemma tame_store_pair ctx dir blob meta : tame (store_pair ctx dir blob meta).
Proof. unfold store_pair. cbv zeta. repeat first [apply tame_write_file | apply tame_rename_file | progress tame]. Qed.
Lemma tame_open_pair re de dc pe dir cfg : tame (open_pair re de dc pe dir cfg).
Proof. unfold open_pair. repeat first [apply tame_read_file | progress tame]. Qed.
Lemma tame_encrypt_with ctx plain cfg : tame (encrypt_with ctx plain cfg).
Proof. unfold encrypt_with. tame. Qed.
Lemma tame_rotate_on_disk image_ref id old_cfg new_cfg : tame (rotate_on_disk image_ref id old_cfg new_cfg).
Proof.
  unfold rotate_on_disk. cbv zeta.
  repeat first [apply tame_open_pair | apply tame_encrypt_with | apply tame_store_pair | progress tame].
Qed.

Lemma no_panic_as {A B} (e : Fault) : (∀ p, (Err e : Result Fault A) ≠ Err (Panic p)) → ∀ p, (Err e : Result Fault B) ≠ Err (Panic p).
Proof. intros He p [= ->]. by apply (He p). Qed.
(** A rotation changes no id and no image reference, and does not panic. *)
Definition refs_of (s : S) : list (Z * string) := (λ r, (sw_id r, sw_image_ref r)) <$> rows_of s.
Lemma record_rotation_ref m id at_ r : (λ r, (sw_id r, sw_image_ref r)) (record_rotation m id at_ r) = (sw_id r, sw_image_ref r).
Proof. unfold record_rotation. by case_decide. Qed.
Lemma wp_tame {A} (c : M S Fault A) s (Q : Result Fault A → S → Prop) :
  tame c → (∀ r s', rows_of s' = rows_of s → (∀ p, r ≠ Err (Panic p)) → Q r s') → wp c s Q.
Proof. intros Hc HQ. destruct (Hc s). by apply HQ. Qed.
Lemma wp_rotate_refs id old_cfg new_cfg s :
  wp (rotate_snapshot_key id old_cfg new_cfg) s (λ r s', refs_of s' = refs_of s ∧ ∀ p, r ≠ Err (Panic p)).
Proof.
  unfold rotate_snapshot_key, refs_of.
  apply wp_bind, wp_tame; [apply tame_stmt|]. intros [[]|e] s1 H1 P1; [|by split; [rewrite H1|eapply no_panic_as]].
  apply wp_bind. unfold wp at 1. simpl. destruct (find_snap _ _) as [row|]; [|by apply wp_throw; rewrite H1].
  apply wp_bind, wp_tame; [apply tame_file_exists|].
  intros [[]|e] s2 H2 P2; simpl; [|by apply wp_throw; rewrite H2, H1|by split; [rewrite H2, H1|eapply no_panic_as]].
  apply wp_bind, wp_tame; [apply tame_rotate_on_disk|]. intros [nm|e] s3 H3 P3; [|by split; [rewrite H3, H2, H1|eapply no_panic_as]].
  apply wp_bind, wp_tame; [apply tame_stmt|]. intros [[]|e] s4 H4 P4; [|by split; [rewrite H4, H3, H2, H1|eapply no_panic_as]].
  unfold wp. simpl. split; [|done]. unfold rows_of. rewrite snaps_of_put. simpl. rewrite <-list_fmap_compose.
  change (ss_rows (snaps_of s4)) with (rows_of s4). rewrite H4, H3, H2, H1. apply list_fmap_ext. intros i r _. apply record_rotation_ref.
Qed.
End Tame.

Section Rotating.
Context {E : Env} {X : CryptoEnv} {XL : CryptoLaws X} {S : Type} {W : HasWorld S} {T : HasSnaps S} {L : SnapLaws S}.
Implicit Types s : S.

(** What a rotation leaves in its directory. *)
Definition rotated (old_cfg new_cfg : EncryptionConfig) (dir plain : string) (done_ : bool) (s : S) : Prop :=
  if done_ then sealed new_cfg dir plain s
  else sealed old_cfg dir plain s ∨ sealed new_cfg dir plain s ∨ torn new_cfg dir plain s.

Lemma torn_dirs cfg dir plain s s' : dirs_of s' !! dir = dirs_of s !! dir → torn cfg dir plain s → torn cfg dir plain s'.
Proof. intros Hd (blob & meta & Hs & H). exists blob, meta. split; [by apply (stored_dirs _ _ _ s)|done]. Qed.
Lemma rotated_dirs old_cfg new_cfg dir plain b s s' :
  dirs_of s' !! dir = dirs_of s !! dir → rotated old_cfg new_cfg dir plain b s → rotated old_cfg new_cfg dir plain b s'.
Proof.
  intros Hd. destruct b; simpl; [by apply sealed_dirs|]. intros [H|[H|H]].
  - left. by apply (sealed_dirs _ _ _ s).
  - right. left. by apply (sealed_dirs _ _ _ s).
  - right. right. by apply (torn_dirs _ _ _ s).
Qed.
Lemma rotated_weaken old_cfg new_cfg dir plain b s : rotated old_cfg new_cfg dir plain b s → rotated old_cfg new_cfg dir plain false s.
Proof. destruct b; simpl; auto. Qed.
Lemma sealed_unique cfg dir plain1 plain2 s : sealed cfg dir plain1 s → sealed cfg dir plain2 s → plain1 = plain2.
Proof. intros (b1 & m1 & H1 & _ & D1) (b2 & m2 & H2 & _ & D2). destruct (stored_unique _ _ _ _ _ _ H1 H2) as [-> ->]. congruence. Qed.

(** What a rotation does to its directory and to the others. *)
Definition rotates old_cfg new_cfg dir s (ok : bool) s' : Prop :=
  (∀ d, d ≠ dir → dirs_of s' !! d = dirs_of s !! d) ∧
  ∀ plain, sealed old_cfg dir plain s → rotated old_cfg new_cfg dir plain ok s'.
Lemma rotates_keep old_cfg new_cfg dir s s' : dirs_of s' = dirs_of s → rotates old_cfg new_cfg dir s false s'.
Proof. intros Hd. split; [by rewrite Hd|]. intros plain Hs. left. by apply (sealed_dirs _ _ _ s); [rewrite Hd|]. Qed.
#[local] Hint Resolve rotates_keep : core.

Lemma wp_rotate_on_disk image_ref id old_cfg new_cfg s0 s :
  let dir := encrypted_image_dir image_ref in
  dirs_of s = dirs_of s0 →
  wp (rotate_on_disk image_ref id old_cfg new_cfg) s (λ r s', rotates old_cfg new_cfg dir s0 (is_ok r) s').
Proof.
  intros dir H0. unfold rotate_on_disk. fold dir. apply wp_blocking; [|intros; apply rotates_keep; congruence].
  intros s1 H1. apply wp_bind. eapply wp_mono; [apply wp_open_pair|]. intros r s2 [H2 Hr].
  destruct r as [[meta plain]|e]; [|apply rotates_keep; congruence]. destruct Hr as (blob & Hst & Hsha & Hdec). simpl in *.
  apply wp_bind, wp_encrypt_with; [|intros; apply rotates_keep; congruence].
  intros n blob' s3 H3 Henc. apply wp_bind, wp_keeps; [apply keeps_on_world|].
  intros r s4 H4. destruct r as [at_|e]; [|apply rotates_keep; congruence].
  assert (dirs_of s4 = dirs_of s0) as H40 by congruence. assert (dirs_of s1 = dirs_of s0) as H10 by congruence.
  apply (stored_dirs _ _ _ _ s0) in Hst; [|by rewrite H10]. assert (sealed old_cfg dir plain s0) as Hs0 by by exists blob, meta.
  destruct Hst as (m & bytes & Hm & Hmb & Hmm & Hmeta). apply wp_bind.
  eapply wp_mono; [apply (wp_store_pair _ _ _ _ m); by rewrite H40|]. intros r s5 (m' & H5 & Hr). rewrite H40 in H5.
  apply decrypt_encrypt in Henc. assert (dirs_of s5 !! dir = Some m') as Hm' by (rewrite H5; by simplify_map_eq).
  destruct r as [?|e]; [apply wp_ret|]; (split; [intros d Hd; rewrite H5; by simplify_map_eq|]); intros plain' Hs';
    rewrite (sealed_unique _ _ _ _ _ Hs' Hs0).
  - destruct Hr as [Hb Hme]. eexists blob', _. split; [|split; [|exact Henc]].
    + exists m'. eexists. split_and!; [done..|apply meta_from_to].
    + done.
  - destruct Hr as [Hme Hb]. rewrite Hmm in Hme. destruct Hb as [Hb|Hb].
    + left. exists blob, meta. split; [|by split]. exists m', bytes. by rewrite Hb.
    + assert (stored dir blob' meta s5) as Hst' by by exists m', bytes.
      right. destruct (decide (em_ciphertext_sha256 meta = snap_sha256_hex blob')); [left|right]; by exists blob', meta.
Qed.

Lemma wp_rotate_snapshot_key id old_cfg new_cfg row s :
  find_snap id (rows_of s) = Some row →
  wp (rotate_snapshot_key id old_cfg new_cfg) s (λ r s', rotates old_cfg new_cfg (encrypted_image_dir (sw_image_ref row)) s (is_ok r) s').
Proof.
  intros Hrow. unfold rotate_snapshot_key. apply wp_bind.
  unfold wp at 1. pose proof (keeps_snaps stmt s) as Hsn.
  destruct (on_world stmt s) as [[[]|e] s1]; simpl in *; [|by apply rotates_keep; unfold dirs_of; rewrite Hsn].
  assert (dirs_of s1 = dirs_of s) as H1 by (unfold dirs_of; by rewrite Hsn).
  apply wp_bind. unfold wp at 1. simpl. unfold rows_of in Hrow. rewrite Hsn, Hrow. set (dir := encrypted_image_dir _).
  apply wp_bind, wp_keeps.
  { unfold is_image_encrypted, file_exists. apply keeps_bind; [apply keeps_io_step|]. intros o s'. done. }
  intros r s2 H2. rewrite H1 in H2. destruct r as [[]|e]; simpl; [|by apply wp_throw, rotates_keep|by apply rotates_keep].
  apply wp_bind. eapply wp_mono; [apply (wp_rotate_on_disk _ _ _ _ s); done|]. fold dir. intros r s3 [Ho Hr].
  destruct r as [[nm at_]|e]; [|by split]. simpl in Hr. apply wp_bind, wp_keeps; [apply keeps_on_world|]. intros r s4 H4.
  destruct r as [?|e]; simpl.
  - unfold wp. simpl. set (s5 := put_snaps _ s4). assert (dirs_of s5 = dirs_of s4) as H5 by (subst s5; unfold dirs_of; by snap_simpl).
    split; [by rewrite H5, H4|]. intros plain Hs. apply (sealed_dirs _ _ _ s3); [by rewrite H5, H4|by apply Hr].
  - split; [by rewrite H4|]. intros plain Hs. right. left. apply (sealed_dirs _ _ _ s3); [by rewrite H4|by apply Hr].
Qed.

(** C22: Rotating a key never loses a snapshot's contents from the disk: whatever file
    operation or statement fails, the blob still opens under the old key or under the
    new one, no other directory changes, and after a success the pair opens under the
    new key. After a failure the pair may be torn. *)
Theorem rotation_keeps_the_contents id old_cfg new_cfg row plain s :
  let dir := encrypted_image_dir (sw_image_ref row) in
  find_snap id (rows_of s) = Some row → sealed old_cfg dir plain s →
  let '(r, s') := rotate_snapshot_key id old_cfg new_cfg s in
  (∀ d, d ≠ dir → dirs_of s' !! d = dirs_of s !! d) ∧ rotated old_cfg new_cfg dir plain (is_ok r) s'.
Proof.
  intros dir Hrow Hs. pose proof (wp_rotate_snapshot_key id old_cfg new_cfg row s Hrow) as Hw.
  destruct (rotate_snapshot_key _ _ _ s) as [r s'] eqn:Hr. apply (wp_eq _ _ _ _ _ Hw) in Hr as [Ho Hp]. auto.
Qed.
End Rotating.

Section Sweep.
Context {E : Env} {X : CryptoEnv} {XL : CryptoLaws X} {S : Type} {W : HasWorld S} {T : HasSnaps S} {L : SnapLaws S}.
Implicit Types s : S.

Definition dir_of (row : SnapRow) : string := encrypted_image_dir (sw_image_ref row).

(** The image a row's id stands for, which no rotation changes. *)
Definition image_of (id : Z) (refs : list (Z * string)) : option string := snd <$> find (λ p, bool_decide (p.1 = id)) refs.
Lemma find_snap_image id s row : find_snap id (rows_of s) = Some row → image_of id (refs_of s) = Some (sw_image_ref row).
Proof.
  unfold refs_of, image_of, find_snap. induction (rows_of s) as [|r rows IH]; [done|]. simpl.
  case_bool_decide; [by intros [= ->]|exact IH].
Qed.
Lemma image_find_snap id s i : image_of id (refs_of s) = Some i → ∃ row, find_snap id (rows_of s) = Some row ∧ sw_image_ref row = i.
Proof.
  unfold refs_of, image_of, find_snap. induction (rows_of s) as [|r rows IH]; [done|]. simpl.
  case_bool_decide; [intros [= <-]; eauto|exact IH].
Qed.

Definition counts_ok (o : ReEncryptAllOutcome) : Prop :=
  (0 ≤ re_re_encrypted o)%Z ∧ (0 ≤ re_skipped o)%Z ∧ (0 ≤ re_failed o)%Z ∧
  re_total_seen o = (re_re_encrypted o + re_skipped o + re_failed o)%Z.
Definition missed (o : ReEncryptAllOutcome) : Z := (re_skipped o + re_failed o)%Z.
Lemma u32_inc_small z : (0 ≤ z < u32_max)%Z → u32_inc z = (z + 1)%Z.
Proof. unfold u32_inc, u32_max. intros. rewrite Z.mod_small; lia. Qed.

(** One more row. *)
Lemma counts_step o (r : Result Error RotateOutcome) :
  counts_ok o → (re_total_seen o < u32_max)%Z →
  let total := u32_inc (re_total_seen o) in
  let o' := match r with
            | Ok _ => {| re_total_seen := total; re_re_encrypted := u32_inc (re_re_encrypted o); re_skipped := re_skipped o; re_failed := re_failed o |}
            | Err (Runtime message) =>
                if contains message "is not encrypted"
                then {| re_total_seen := total; re_re_encrypted := re_re_encrypted o; re_skipped := u32_inc (re_skipped o); re_failed := re_failed o |}
                else {| re_total_seen := total; re_re_encrypted := re_re_encrypted o; re_skipped := re_skipped o; re_failed := u32_inc (re_failed o) |}
            | Err _ => {| re_total_seen := total; re_re_encrypted := re_re_encrypted o; re_skipped := re_skipped o; re_failed := u32_inc (re_failed o) |}
            end in
  counts_ok o' ∧ re_total_seen o' = (re_total_seen o + 1)%Z ∧ missed o' = (missed o + if is_ok r then 0 else 1)%Z.
Proof.
  intros (? & ? & ? & ?) Ht. unfold counts_ok, missed. simpl.
  destruct r as [a|[]]; simpl; try case_match; simpl; rewrite !u32_inc_small by lia; lia.
Qed.

(** No two snapshots share a directory. *)
Definition own_dirs (ids : list Z) (refs : list (Z * string)) : Prop :=
  NoDup ((λ id, encrypted_image_dir <$> image_of id refs) <$> ids).

Lemma re_encrypt_rows_run old_cfg new_cfg ids o s :
  counts_ok o → (re_total_seen o + Z.of_nat (length ids) ≤ u32_max)%Z →
  own_dirs ids (refs_of s) → Forall (λ id, is_Some (image_of id (refs_of s))) ids →
  ∃ o' s', re_encrypt_rows ids old_cfg new_cfg o s = (Ok o', s') ∧ counts_ok o' ∧
    re_total_seen o' = (re_total_seen o + Z.of_nat (length ids))%Z ∧ (missed o ≤ missed o')%Z ∧
    (∀ d, Some d ∉ (λ id, encrypted_image_dir <$> image_of id (refs_of s)) <$> ids → dirs_of s' !! d = dirs_of s !! d) ∧
    (∀ id i plain, id ∈ ids → image_of id (refs_of s) = Some i → sealed old_cfg (encrypted_image_dir i) plain s →
       rotated old_cfg new_cfg (encrypted_image_dir i) plain (bool_decide (missed o' = missed o)) s').
Proof.
  revert o s. induction ids as [|id ids IH]; intros o s Ho Ht Hown Hall.
  { exists o, s. simpl. split; [done|]. rewrite Z.add_0_r. split_and!; try done. by intros ? ? ? ?%elem_of_nil. }
  apply Forall_cons in Hall as [(i & Hi) Hall]. apply NoDup_cons in Hown as [Hnew Hown].
  destruct (image_find_snap _ _ _ Hi) as (row & Hrow & Hri).
  pose proof (wp_rotate_snapshot_key id old_cfg new_cfg row s Hrow) as Hrot. pose proof (wp_rotate_refs id old_cfg new_cfg s) as [Hrefs Hp].
  rewrite Hri in Hrot. simpl. cbv [mbind M_bind]. unfold attempt_in, wp in *.
  destruct (rotate_snapshot_key id old_cfg new_cfg s) as [r s1]. simpl in *. destruct Hrot as [Hother Hmine].
  assert (∃ r', (match r with Ok a => (Ok (Ok a), s1) | Err (Fail e) => (Ok (Err e), s1) | Err (Panic m) => (Err (Panic m), s1) end)
          = (Ok r' : Result Fault (Result Error RotateOutcome), s1) ∧ is_ok r' = is_ok r) as (r' & -> & Hr').
  { destruct r as [a|[e|m]]; [eauto..|]. by destruct (Hp m). }
  destruct (counts_step o r' Ho ltac:(lia)) as (Ho1 & Ht1 & Hm1). cbv zeta in Ho1, Ht1, Hm1.
  match goal with |- context [re_encrypt_rows ids old_cfg new_cfg ?x s1] => set (o1 := x) in * end. clearbody o1.
  rewrite <-Hrefs in Hown, Hall. destruct (IH o1 s1 Ho1 ltac:(lia) Hown Hall) as (o' & s' & Hrun & Ho' & Ht' & Hm' & Hd' & Hs').
  exists o', s'. rewrite Hrefs in *. rewrite Hi in *. simpl in *.
  assert (missed o ≤ missed o1)%Z as Hmo by (rewrite Hm1; case_match; lia).
  split_and!; [done..|lia|lia| |].
  - intros d Hd. apply not_elem_of_cons in Hd as [Hd1 Hd2]. rewrite Hd' by done. apply Hother. congruence.
  - intros id' i' plain Hid Hi' Hsealed. apply elem_of_cons in Hid as [->|Hid].
    + rewrite Hi in Hi'. injection Hi' as <-. apply (rotated_dirs _ _ _ _ _ s1).
      { by apply Hd'. }
      specialize (Hmine plain Hsealed).
      destruct (bool_decide (missed o' = missed o)) eqn:Hb; [apply bool_decide_eq_true in Hb|by eapply rotated_weaken].
      destruct (is_ok r) eqn:Hr; [done|]. rewrite Hr' in Hm1. lia.
    + assert (encrypted_image_dir i' ≠ encrypted_image_dir i) as Hne.
      { intros Heq. apply Hnew. apply list_elem_of_fmap. exists id'. split; [|done]. rewrite Hi'. simpl. by rewrite Heq. }
      specialize (Hs' id' i' plain Hid Hi' (sealed_dirs _ _ _ s s1 (Hother _ Hne) Hsealed)).
      destruct (bool_decide (missed o' = missed o)) eqn:Hb; [apply bool_decide_eq_true in Hb|by eapply rotated_weaken].
      by rewrite bool_decide_eq_true_2 in Hs' by lia.
Qed.

(** Re-encrypting all snapshots looks at every row, does not stop at one that fails,
    and accounts for each; when nothing was skipped and nothing failed, every snapshot
    that opened under the old key opens under the new one, and otherwise each is
    still sealed under one of the two keys or torn. *)
Theorem re_encrypt_all_accounts old_cfg new_cfg s :
  db_fault (w_stmts (world_of s)) = false → (Z.of_nat (length (rows_of s)) ≤ u32_max)%Z →
  NoDup (sw_id <$> rows_of s) → NoDup (dir_of <$> rows_of s) →
  ∃ o s', re_encrypt_all old_cfg new_cfg s = (Ok o, s') ∧
    re_total_seen o = Z.of_nat (length (rows_of s)) ∧ re_total_seen o = (re_re_encrypted o + re_skipped o + re_failed o)%Z ∧
    ∀ row plain, row ∈ rows_of s → sealed old_cfg (dir_of row) plain s →
      rotated old_cfg new_cfg (dir_of row) plain (bool_decide (re_skipped o = 0 ∧ re_failed o = 0)%Z) s'.
Proof.
  intros Hdb Hlen Hids Hdirs. unfold re_encrypt_all. cbv [mbind M_bind]. pose proof (keeps_snaps stmt s) as Hsn.
  assert ((on_world stmt s).1 = Ok tt) as Hok by (unfold on_world, stmt; by rewrite Hdb).
  destruct (on_world stmt s) as [r s1]. simpl in *. subst r. rewrite Hsn. change (ss_rows (snaps_of s)) with (rows_of s).
  assert (rows_of s1 = rows_of s) as Hrows by (unfold rows_of; by rewrite Hsn).
  assert (∀ row, row ∈ rows_of s → image_of (sw_id row) (refs_of s) = Some (sw_image_ref row)) as Himg.
  { intros row Hrow. apply find_snap_image. unfold find_snap. clear -Hids Hrow.
    induction (rows_of s) as [|r rows IH]; [by apply elem_of_nil in Hrow|]. apply NoDup_cons in Hids as [Hnew Hids]. simpl.
    apply elem_of_cons in Hrow as [->|Hrow]; [by rewrite bool_decide_eq_true_2|].
    rewrite bool_decide_eq_false_2; [by apply IH|]. intros Heq. apply Hnew. rewrite Heq. by apply list_elem_of_fmap_2. }
  assert (refs_of s1 = refs_of s) as Hrefs by (unfold refs_of; by rewrite Hrows).
  assert (∀ rows : list SnapRow, (∀ row, row ∈ rows → row ∈ rows_of s) →
    (λ id, encrypted_image_dir <$> image_of id (refs_of s)) <$> (sw_id <$> rows) = Some <$> (dir_of <$> rows)) as Hmap.
  { intros rows Hsub. rewrite <-!list_fmap_compose. apply list_fmap_ext. intros k row Hk%list_elem_of_lookup_2.
    simpl. by rewrite (Himg row (Hsub _ Hk)). }
  destruct (re_encrypt_rows_run old_cfg new_cfg (sw_id <$> rows_of s)
    {| re_total_seen := 0; re_re_encrypted := 0; re_skipped := 0; re_failed := 0 |} s1) as (o & s' & Hrun & Ho & Ht & _ & _ & Hs').
  - by unfold counts_ok.
  - rewrite length_fmap. simpl. lia.
  - unfold own_dirs. rewrite Hrefs, Hmap by done. by apply NoDup_fmap_2; [apply _|].
  - rewrite Hrefs. apply Forall_fmap, Forall_forall. intros row Hrow. simpl. rewrite (Himg row Hrow). by eexists.
  - exists o, s'. destruct Ho as (? & ? & ? & Hsum). rewrite length_fmap in Ht. split_and!; [done|done|done|].
    intros row plain Hrow Hsealed. rewrite Hrefs in Hs'.
    specialize (Hs' (sw_id row) (sw_image_ref row) plain (list_elem_of_fmap_2 _ _ _ Hrow) (Himg row Hrow)).
    assert (dirs_of s1 = dirs_of s) as Hd by (unfold dirs_of; by rewrite Hsn).
    specialize (Hs' ltac:(by apply (sealed_dirs _ _ _ s); [rewrite Hd|])).
    destruct (bool_decide (re_skipped o = 0 ∧ re_failed o = 0)%Z) eqn:Hb; [apply bool_decide_eq_true in Hb|by eapply rotated_weaken].
    rewrite bool_decide_eq_true_2 in Hs'; [done|]. unfold missed. simpl. lia.
Qed.
End Sweep.

Section Encrypting.
Context {E : Env} {X : CryptoEnv} {XL : CryptoLaws X} {S : Type} {W : HasWorld S} {P : Type} {C : PodmanCli P} {HP : HasPodman S P}.
Context {T : HasSnaps S} {L : SnapLaws S} {PL : PodmanLaws S P} (pcfg : PodmanConfig).
Implicit Types s : S.

(** * Encryption *)

Abbreviation keeps_podman := (keeps podman_of).
Lemma wp_with {B A} (f : S → B) (c : M S Fault A) s (Q : Result Fault A → S → Prop) :
  keeps f c → wp c s (λ r s', f s' = f s → Q r s') → wp c s Q.
Proof. intros Hc. unfold wp. auto. Qed.
Lemma podman_on_world {A} (c : D A) : keeps_podman (on_world c).
Proof. intros s. unfold on_world. destruct (c (world_of s)). simpl. by snap_simpl. Qed.
Lemma podman_put_state g : keeps_podman (put_state g).
Proof. intros s. simpl. by snap_simpl. Qed.
Lemma podman_io_step : keeps_podman io_step.
Proof. apply keeps_bind; [done|]. intros. apply keeps_bind; [apply podman_put_state|done]. Qed.
Lemma podman_create_dir dir : keeps_podman (create_dir dir).
Proof. apply keeps_bind; [apply podman_io_step|]. intros []; try done. apply keeps_bind; [apply podman_put_state|done]. Qed.
Lemma podman_blocking {A} e (c : M S Fault A) : keeps_podman c → keeps_podman (blocking e c).
Proof. intros Hc. apply keeps_bind; [apply podman_on_world|]. by intros [[]|]. Qed.
Lemma podman_temp_path ctx : keeps_podman (temp_path ctx).
Proof. apply keeps_bind; [done|]. intros. apply keeps_bind; [apply podman_io_step|]. by intros []. Qed.
Lemma podman_read_file dir name : keeps_podman (read_file dir name).
Proof. apply keeps_bind; [apply podman_io_step|]. intros o. apply keeps_bind; [done|]. intros d. by repeat case_match. Qed.
Lemma podman_open_pair re de dc pe dir cfg : keeps_podman (open_pair re de dc pe dir cfg).
Proof.
  apply keeps_bind; [apply podman_read_file|]. intros [b| |]; try done. case_match; [|done].
  apply keeps_bind; [apply podman_read_file|]. intros [b'| |]; try done. cbv zeta. case_decide; [done|]. by case_match.
Qed.
Lemma dirs_temp_path ctx : keeps dirs_of (temp_path ctx).
Proof. apply keeps_bind; [done|]. intros. apply keeps_bind; [apply keeps_io_step|]. by intros []. Qed.

Lemma wp_create_dir dir s (Q : Result Fault bool → S → Prop) :
  (∀ s' m, dirs_of s' = <[dir := m]> (dirs_of s) → Q (Ok true) s') → (∀ s', dirs_of s' = dirs_of s → Q (Ok false) s') →
  wp (create_dir dir) s Q.
Proof.
  intros H1 H2. unfold create_dir. apply wp_bind, wp_io_step. intros s1 Hd _ _. destruct (io_outcome _); [|by apply H2..].
  unfold wp. simpl. eapply H1. unfold dirs_of. snap_simpl. simpl. change (ss_dirs (snaps_of s1)) with (dirs_of s1). by rewrite Hd.
Qed.

(** Podman wrote [plain] when it saved [image_ref] from [s]. *)
Definition saved (image_ref plain : string) (s : S) : Prop :=
  ∃ tmp out err, (podman_exec (base_command pcfg ++ ["save"; image_ref; "-o"; tmp]) None (podman_of s)).1 = Exited (Some 0%Z) out err (Some plain).
Lemma wp_save_image image_ref dest s (Q : Result Fault (option string) → S → Prop) :
  (∀ file s', dirs_of s' = dirs_of s → (∀ plain, file = Some plain → saved image_ref plain s) → Q (Ok file) s') →
  (∀ e s', dirs_of s' = dirs_of s → Q (Err e) s') → wp (save_image pcfg image_ref dest) s Q.
Proof.
  intros Hok Herr. unfold save_image, wp, saved in *. cbv [mbind M_bind]. unfold run_command.
  destruct (podman_exec _ _ _) as [o p] eqn:He. set (s1 := put_podman p s).
  assert (dirs_of s1 = dirs_of s) as Hd by (subst s1; unfold dirs_of; by snap_simpl).
  destruct o as [|code out err file]; [by apply Herr|]. destruct (success code) eqn:Hc; simpl; [|by apply Herr].
  apply Hok; [done|]. intros plain ->. exists dest, out, err. rewrite He. simpl. unfold success in Hc. case_bool_decide; by subst.
Qed.

Lemma wp_encrypt image_ref cfg keep s :
  let dir := encrypted_image_dir image_ref in
  wp (encrypt_committed_image pcfg image_ref cfg keep) s (λ r s', (∀ d, d ≠ dir → dirs_of s' !! d = dirs_of s !! d) ∧
    ∀ meta, r = Ok meta → ∃ plain blob, saved image_ref plain s ∧ stored dir blob meta s' ∧
      em_ciphertext_sha256 meta = snap_sha256_hex blob ∧ decrypt_bytes blob cfg = Ok plain).
Proof.
  intros dir. set (Q := λ r s', _). unfold encrypt_committed_image. fold dir.
  assert (∀ e s', (∀ d, d ≠ dir → dirs_of s' !! d = dirs_of s !! d) → Q (Err e) s') as Herr by (by intros e s' Hd; split).
  apply wp_bind, (wp_with podman_of); [apply podman_blocking, keeps_bind; [apply podman_create_dir|by intros []]|].
  apply wp_blocking; [|by intros s' Hd _; apply Herr; rewrite Hd]. intros s1 H1.
  apply wp_bind, wp_create_dir; [|intros s2 H2; apply wp_throw; intros _; apply Herr; by rewrite H2, H1].
  intros s2 m H2. apply wp_ret. intros P2. rewrite H1 in H2.
  apply wp_bind, (wp_with podman_of), wp_keeps; [apply podman_temp_path|apply dirs_temp_path|].
  intros r s3 H3 P3. assert (∀ d, d ≠ dir → dirs_of s3 !! d = dirs_of s !! d) as Ho3 by (intros d Hd; rewrite H3, H2; by simplify_map_eq).
  destruct r as [tmp|e]; [|by apply Herr]. apply wp_bind, wp_save_image; [|by intros e s4 H4; apply Herr; rewrite H4].
  intros file s4 H4 Hfile. apply wp_bind, wp_blocking; [|by intros s5 H5; apply Herr; rewrite H5, H4].
  intros s5 H5. apply wp_bind, wp_io_step. intros s6 H6 _ _.
  assert (dirs_of s6 = <[dir := m]> (dirs_of s)) as H6' by congruence.
  assert (∀ d, d ≠ dir → dirs_of s6 !! d = dirs_of s !! d) as Ho6 by (intros d Hd; rewrite H6'; by simplify_map_eq).
  destruct (io_outcome _); [|by apply wp_throw, Herr..]. destruct file as [plain|]; [|by apply wp_throw, Herr].
  apply wp_bind, wp_encrypt_with; [|by intros e s7 H7; apply Herr; rewrite H7]. intros n blob s7 H7 Henc.
  apply wp_bind, wp_keeps; [apply keeps_on_world|]. intros r s8 H8. destruct r as [t|e]; [|by apply Herr; rewrite H8, H7].
  apply wp_bind. eapply wp_mono; [apply (wp_store_pair _ _ _ _ m); rewrite H8, H7, H6'; by simplify_map_eq|].
  intros r s9 (m' & H9 & Hr). assert (dirs_of s9 = <[dir := m']> (dirs_of s)) as H9' by (rewrite H9, H8, H7, H6'; apply insert_insert_eq).
  assert (∀ d, d ≠ dir → dirs_of s9 !! d = dirs_of s !! d) as Ho9 by (intros d Hd; rewrite H9'; by simplify_map_eq).
  destruct r as [?|e]; [|by apply Herr]. apply wp_ret. destruct Hr as [Hb Hm].
  assert (∀ s', dirs_of s' = dirs_of s9 → Q (Ok {| em_algorithm := ec_algorithm cfg; em_key_source := key_source_as_str (ec_key_source cfg);
    em_ciphertext_sha256 := snap_sha256_hex blob; em_original_image_ref := image_ref; em_created_at := t;
    em_plaintext_len := N.of_nat (String.length plain); em_kdf := ec_kdf cfg; em_rotated_from := None; em_rotated_at := None |}) s') as Hfin.
  { intros s' Hd. split; [by rewrite Hd|]. intros meta [= <-]. exists plain, blob. split_and!; [|eexists m', _; split_and!; [|done|done|apply meta_from_to]|done|by eapply decrypt_encrypt].
    - destruct (Hfile plain eq_refl) as (tmp' & out & err & Hs). exists tmp', out, err. rewrite <-Hs. do 2 f_equal. congruence.
    - rewrite Hd, H9'. by simplify_map_eq. }
  destruct keep; [by apply wp_bind, wp_ret, wp_ret, Hfin|].
  apply wp_bind, wp_bind, wp_keeps; [apply keeps_attempt, keeps_bind; [|done]|].
  { intros s'. unfold or_not_found. rewrite run_capture_spec. unfold dirs_of.
    destruct (captured _) as [|[]]; simpl; by snap_simpl. }
  intros r s10 H10. destruct r as [?|e]; [by apply wp_ret, wp_ret, Hfin|]. by apply Herr; rewrite H10.
Qed.

(** A torn pair opens for nobody. *)
Lemma wp_open_torn re de dc pe dir cfg k plain s (Q : Result Fault (EncryptedSnapshotMeta * string) → S → Prop) :
  torn cfg dir plain s → (∀ e s', dirs_of s' = dirs_of s → Q (Err e) s') → wp (open_pair re de dc pe dir k) s Q.
Proof.
  intros (blob & meta & Hst & Hne & _) HQ. eapply wp_mono; [apply wp_open_pair|]. intros [mp|e] s' [Hd Hr]; [|by apply HQ].
  destruct Hr as (blob' & Hst' & Hsha & _). destruct (stored_unique _ _ _ _ _ _ Hst Hst') as [-> ->]. done.
Qed.

(** A rotation that fails between its two renames loses the snapshot for the program:
    the blob is intact under the new key, but its side-car still records the old
    digest, so decryption and every later rotation refuse it under every key. *)
Theorem torn_snapshot_is_refused cfg id row plain s :
  let dir := encrypted_image_dir (sw_image_ref row) in
  find_snap id (rows_of s) = Some row → torn cfg dir plain s →
  (∀ k, is_ok (decrypt_and_load pcfg (sw_image_ref row) k s).1 = false) ∧
  (∀ k1 k2, let '(r, s') := rotate_snapshot_key id k1 k2 s in is_ok r = false ∧ dirs_of s' = dirs_of s).
Proof.
  intros dir Hrow Ht. split.
  - intros k. enough (wp (decrypt_and_load pcfg (sw_image_ref row) k) s (λ r _, is_ok r = false)) by done.
    unfold decrypt_and_load. fold dir. apply wp_bind, wp_blocking; [|done]. intros s1 H1.
    eapply wp_open_torn; [eapply torn_dirs; [|exact Ht]; by rewrite H1|done].
  - intros k1 k2. enough (wp (rotate_snapshot_key id k1 k2) s (λ r s', is_ok r = false ∧ dirs_of s' = dirs_of s)) as Hw.
    { destruct (rotate_snapshot_key _ _ _ s) as [r s'] eqn:Hr. exact (wp_eq _ _ _ _ _ Hw Hr). }
    unfold rotate_snapshot_key. apply wp_bind. unfold wp at 1. pose proof (keeps_snaps stmt s) as Hsn.
    destruct (on_world stmt s) as [[[]|e] s1]; simpl in *; [|split; [done|unfold dirs_of; by rewrite Hsn]].
    assert (dirs_of s1 = dirs_of s) as H1 by (unfold dirs_of; by rewrite Hsn).
    apply wp_bind. unfold wp at 1. simpl. unfold rows_of in Hrow. rewrite Hsn, Hrow.
    apply wp_bind, wp_keeps; [apply keeps_bind; [apply keeps_io_step|done]|]. intros r s2 H2. rewrite H1 in H2.
    destruct r as [[]|e]; simpl; [|by apply wp_throw|done]. apply wp_bind. unfold rotate_on_disk. fold dir.
    apply wp_blocking; [|intros s3 H3; split; [done|congruence]]. intros s3 H3. apply wp_bind.
    eapply wp_open_torn; [eapply torn_dirs; [|exact Ht]; by rewrite H3, H2|]. intros e s4 H4. split; [done|congruence].
Qed.

(** * The way back *)

Lemma wp_read_ok dir name m b s (Q : Result Fault ReadOutcome → S → Prop) :
  (∀ n, io_outcome n = IoOk) → dirs_of s !! dir = Some m → m !! name = Some b →
  (∀ s', dirs_of s' = dirs_of s → Q (Ok (ReadOk b)) s') → wp (read_file dir name) s Q.
Proof.
  intros Hio Hm Hb HQ. unfold read_file. apply wp_bind, wp_io_step. intros s1 H1 _ _. rewrite Hio.
  unfold wp, files_in. cbv [mbind M_bind]. simpl. change (ss_dirs (snaps_of s1)) with (dirs_of s1). rewrite H1, Hm.
  cbv [option_bind]. rewrite Hb. by apply HQ.
Qed.
Lemma wp_open_stored re de dc pe dir blob meta cfg plain s (Q : Result Fault (EncryptedSnapshotMeta * string) → S → Prop) :
  (∀ n, io_outcome n = IoOk) → stored dir blob meta s → em_ciphertext_sha256 meta = snap_sha256_hex blob → decrypt_bytes blob cfg = Ok plain →
  (∀ s', podman_of s' = podman_of s → Q (Ok (meta, plain)) s') → wp (open_pair re de dc pe dir cfg) s Q.
Proof.
  intros Hio (m & bytes & Hm & Hb & Hmb & Hmeta) Hsha Hdec HQ. apply (wp_with podman_of); [apply podman_open_pair|].
  unfold open_pair. apply wp_bind, (wp_read_ok _ _ m bytes); [done..|]. intros s1 H1. rewrite Hmeta.
  apply wp_bind, (wp_read_ok _ _ m blob); [done|by rewrite H1|done|]. intros s2 H2. cbv zeta.
  rewrite decide_False by (rewrite Hsha; tauto). rewrite Hdec. apply wp_ret. by apply HQ.
Qed.
Lemma wp_blocking_ok {A} e (c : M S Fault A) s (Q : Result Fault A → S → Prop) :
  (∀ n, task_fault n = false) → (∀ s', dirs_of s' = dirs_of s → podman_of s' = podman_of s → wp c s' Q) → wp (blocking e c) s Q.
Proof.
  intros Ht Hc. unfold blocking. apply wp_bind. unfold wp at 1, on_world. simpl. rewrite Ht. apply Hc; unfold dirs_of; by snap_simpl.
Qed.

(** C23: Encrypting a committed image and loading it again is the identity on its
    contents: after a successful encryption, decryption with the same key, without
    further faults, hands podman exactly the archive podman had saved. *)
Theorem encrypted_image_loads_back image_ref cfg keep meta s s1 :
  encrypt_committed_image pcfg image_ref cfg keep s = (Ok meta, s1) →
  (∀ n, io_outcome n = IoOk) → (∀ n, task_fault n = false) →
  ∃ plain path s2, saved image_ref plain s ∧ podman_of s2 = podman_of s1 ∧
    let '(o, p) := podman_exec (base_command pcfg ++ ["load"; "-i"; path]) (Some plain) (podman_of s1) in
    decrypt_and_load pcfg image_ref cfg s1 = (match captured o with Ok _ => Ok meta | Err e => Err e end, put_podman p s2).
Proof.
  intros He Hio Htask. pose proof (wp_encrypt image_ref cfg keep s) as Hw. cbv zeta in Hw. apply (wp_eq _ _ _ _ _ Hw) in He as [_ He]. clear Hw.
  destruct (He meta eq_refl) as (plain & blob & Hsaved & Hst & Hsha & Hdec).
  enough (wp (decrypt_and_load pcfg image_ref cfg) s1 (λ r s', ∃ path s2, podman_of s2 = podman_of s1 ∧
    let '(o, p) := podman_exec (base_command pcfg ++ ["load"; "-i"; path]) (Some plain) (podman_of s1) in
    r = match captured o with Ok _ => Ok meta | Err e => Err e end ∧ s' = put_podman p s2)) as Hw.
  { destruct Hw as (path & s2 & Hp & Hrun). exists plain, path, s2. split; [done|]. split; [done|]. destruct (podman_exec _ _ _) as [o p]. destruct Hrun as [Hr1 Hr2].
    destruct (decrypt_and_load _ _ _ s1) as [r s']. simpl in *. by subst. }
  unfold decrypt_and_load. apply wp_bind, wp_blocking_ok; [done|]. intros s2 H2 P2.
  eapply (wp_open_stored _ _ _ _ _ blob meta); [done|by eapply (stored_dirs _ _ _ s1); [rewrite H2|]|done|done|]. intros s3 P3.
  apply wp_bind, (wp_with podman_of); [apply podman_temp_path|]. unfold temp_path. apply wp_bind. unfold wp at 1. simpl.
  apply wp_bind, wp_io_step. intros s4 _ _ _. rewrite Hio. apply wp_ret. intros P4.
  apply wp_bind, wp_blocking_ok; [done|]. intros s5 _ P5. apply wp_bind, (wp_with podman_of); [apply podman_io_step|].
  apply wp_io_step. intros s6 _ _ _ P6. rewrite Hio. apply wp_ret. apply wp_bind. unfold wp at 1. rewrite run_with_spec. simpl.
  assert (podman_of s6 = podman_of s1) as P6' by congruence. rewrite P6'.
  destruct (podman_exec _ _ _) as [o p] eqn:Hx. simpl. destruct (captured o) eqn:Hc; [apply wp_ret|];
    (eexists _, s6; split; [done|]; rewrite Hx; simpl; by rewrite Hc).
Qed.
End Encrypting.

Section Hooked.
Context {E : Env} {X : CryptoEnv} {XL : CryptoLaws X} {S : Type} {W : HasWorld S} {P : Type} {C : PodmanCli P} {HP : HasPodman S P}.
Context {T : HasSnaps S} {L : SnapLaws S} {PL : PodmanLaws S P} (pcfg : PodmanConfig).
Implicit Types s : S.

(** The hook answers [true] only for a snapshot it has sealed: it was enabled, the
    profile allows it, an encryptor is installed, and what podman saved is in the
    store under that encryptor's key. *)
Theorem hook_true_means_sealed image_ref profile s s' :
  on_commit_snapshot pcfg image_ref profile s = (Ok (Ok true), s') →
  hk_enabled (ss_hook (snaps_of s)) = true ∧ (∀ p, profile = Some p → auto_encrypt_snapshots p = true) ∧
  ∃ cfg plain, hk_encryptor (ss_hook (snaps_of s)) = Some cfg ∧ saved pcfg image_ref plain s ∧
    sealed cfg (encrypted_image_dir image_ref) plain s'.
Proof.
  intros Hrun. enough (wp (on_commit_snapshot pcfg image_ref profile) s (λ r s', r = Ok (Ok true) →
    hk_enabled (ss_hook (snaps_of s)) = true ∧ (∀ p, profile = Some p → auto_encrypt_snapshots p = true) ∧
    ∃ cfg plain, hk_encryptor (ss_hook (snaps_of s)) = Some cfg ∧ saved pcfg image_ref plain s ∧
      sealed cfg (encrypted_image_dir image_ref) plain s')) as Hw by exact (wp_eq _ _ _ _ _ Hw Hrun eq_refl).
  clear Hrun s'. unfold on_commit_snapshot. apply wp_bind. unfold wp at 1. simpl.
  destruct (hk_enabled _); simpl; [|by intros [=]]. destruct (unwrap_or true _) eqn:Hp; simpl; [|by intros [=]].
  assert (∀ p, profile = Some p → auto_encrypt_snapshots p = true) as Hprofile by (by intros p ->).
  apply wp_bind. set (Q := λ r : Result Fault string, _).
  assert (∀ o (s1 : S), (o = "encrypted" → ∃ cfg plain, hk_encryptor (ss_hook (snaps_of s)) = Some cfg ∧ saved pcfg image_ref plain s ∧
      sealed cfg (encrypted_image_dir image_ref) plain s1) → Q (Ok o) s1) as Hafter.
  { intros o s1 Ho. subst Q. simpl. apply wp_bind. unfold wp at 1. simpl. set (s2 := put_snaps _ s1).
    assert (dirs_of s2 = dirs_of s1) as H2 by (subst s2; unfold dirs_of; by snap_simpl).
    apply wp_bind. unfold wp at 1. simpl. apply wp_bind, wp_keeps; [apply keeps_attempt, keeps_on_world|]. intros r s3 H3.
    destruct r as [a|e]; [|done]. apply wp_ret. intros [= Ha]. split; [done|]. split; [done|].
    destruct a; [|done]. injection Ha as Ha%bool_decide_eq_true. destruct (Ho Ha) as (cfg & plain & ? & ? & Hs).
    exists cfg, plain. split; [done|]. split; [done|]. eapply sealed_dirs; [|exact Hs]. by rewrite H3, H2. }
  destruct (hk_encryptor _) as [cfg|]; [|by apply wp_ret, Hafter].
  unfold encryptor_encrypt. apply wp_bind, wp_bind. unfold attempt_in, wp at 1. pose proof (wp_encrypt pcfg image_ref cfg true s) as [_ He].
  destruct (encrypt_committed_image _ _ _ _ s) as [[meta|[e|p]] s1]; simpl in *; [|by apply wp_ret, wp_ret, Hafter|by subst Q].
  apply wp_ret, wp_ret, Hafter. intros _. destruct (He meta eq_refl) as (plain & blob & Hsv & Hst & Hsha & Hdec).
  exists cfg, plain. split; [done|]. split; [done|]. by exists blob, meta.
Qed.
End Hooked.

(** * Examples *)

(** A cipher that appends the key's tag, fixed nonces, and a side-car in bits. *)
Definition toy_tag (k : string) : string := str_take 16 (k +:+ "0123456789abcdef").
Definition toy_open (k c : string) : option string :=
  let n := String.length c - 16 in
  if decide (str_drop n c = toy_tag k) then Some (str_take n c) else None.
Definition toy_nonce (n : nat) : string := str_take 12 (pretty n +:+ "____________").
Definition kdf_code (k : Kdf) : (Z * Z * Z) + Z := match k with Argon2id m t p => inl (m, t, p) | Sha256Rounds r => inr r end.
Definition kdf_decode (c : (Z * Z * Z) + Z) : Kdf := match c with inl (m, t, p) => Argon2id m t p | inr r => Sha256Rounds r end.
Definition toy_meta_print (m : MetaFields) : string :=
  pos_bits (encode ((mf_algorithm m, mf_key_source m, mf_ciphertext_sha256 m, mf_original_image_ref m),
                    (mf_created_at m, mf_plaintext_len m, kdf_code <$> mf_kdf m, mf_rotated_from m, mf_rotated_at m))).
Definition toy_meta_read (s : string) : Result string MetaFields :=
  match (decode (bits_pos s) : option ((string * string * string * string) * (Z * N * option ((Z * Z * Z) + Z) * option Z * option Z))) with
  | Some (a, k, c, r, (t, l, kdf, f, at_)) =>
      Ok {| mf_algorithm := a; mf_key_source := k; mf_ciphertext_sha256 := c; mf_original_image_ref := r; mf_created_at := t;
            mf_plaintext_len := l; mf_kdf := kdf_decode <$> kdf; mf_rotated_from := f; mf_rotated_at := at_ |}
  | None => Err "bad side-car"
  end.
Definition toy_crypto (io : nat → IoOutcome) : CryptoEnv := {|
  aead_encrypt := λ k _ p, Some (p +:+ toy_tag k); aead_decrypt := λ k _ c, toy_open k c; os_random := toy_nonce;
  argon2_params := λ _ _ _, Ok tt; argon2_hash := λ _ _ _ p _, Ok p; b64_key := Ok; env_text := λ _, None;
  temp_file := λ n, "/tmp/" +:+ pretty n; meta_print := toy_meta_print; meta_read := toy_meta_read;
  kdf_print := kdf_as_str; io_outcome := io |}.
Lemma toy_tag_length k : String.length (toy_tag k) = 16.
Proof. unfold toy_tag. rewrite str_take_length, str_length_app. change (String.length "0123456789abcdef") with 16. lia. Qed.
#[export] Instance toy_crypto_laws io : CryptoLaws (toy_crypto io).
Proof.
  split; simpl.
  - intros k n p c [= <-]. unfold toy_open. rewrite str_length_app, toy_tag_length, Nat.add_sub, str_drop_app, str_take_app.
    by rewrite decide_True.
  - intros k n p c [= <-]. by rewrite str_length_app, toy_tag_length.
  - intros n. unfold toy_nonce, NONCE_LEN. rewrite str_take_length, str_length_app. change (String.length "____________") with 12. lia.
  - intros m. unfold toy_meta_read, toy_meta_print. rewrite bits_pos_bits, decode_encode.
    destruct m as [? ? ? ? ? ? [[]|] ? ?]; done.
Qed.

(** A podman whose [save] writes the archive [TAR]; the daemon's state. *)
Definition saving_answer (args : list string) : ProcOutcome :=
  match args with
  | "save" :: _ => Exited (Some 0%Z) "" "" (Some "TAR")
  | "load" :: _ => exits "Loaded image"
  | "commit" :: _ => exits "sha256:1"
  | _ => toy_answer args
  end.
Definition SnapDemo : Type := World * Calls * SnapState.
#[export] Instance demo_has_world : HasWorld SnapDemo := {| world_of := λ s, s.1.1; put_world := λ w s, (w, s.1.2, s.2) |}.
#[export] Instance demo_has_podman : HasPodman SnapDemo Calls := {| podman_of := λ s, s.1.2; put_podman := λ p s, (s.1.1, p, s.2) |}.
#[export] Instance demo_has_snaps : HasSnaps SnapDemo := {| snaps_of := λ s, s.2; put_snaps := λ t s, (s.1, t) |}.
#[export] Instance demo_snap_laws : SnapLaws SnapDemo.
Proof. by split. Qed.
#[export] Instance demo_podman_laws : PodmanLaws SnapDemo Calls.
Proof. by split. Qed.

Definition old_key : EncryptionConfig := from_key "old-key".
Definition new_key : EncryptionConfig := from_key "new-key".
Definition demo_snap : SnapRow :=
  {| sw_id := 1; sw_container_id := "c1"; sw_label := None; sw_image_ref := "linpodx-snap-1"; sw_parent_id := None;
     sw_created_at := "1000"; sw_size_bytes := None; sw_backend := "podman_commit"; sw_encrypted := 0; sw_algorithm := None;
     sw_key_source := None; sw_ciphertext_sha256 := None; sw_kdf_algorithm := None; sw_kdf_params := None;
     sw_rotated_from := None; sw_rotated_at := None |}.
Definition one_snap : SnapDemo := (empty_world, [], set_rows [demo_snap] 1 no_snaps).
(** The disk works until the [n]-th operation. *)
Definition fails_at (n : nat) (i : nat) : IoOutcome := if decide (i = n) then IoErr else IoOk.
Definition good_disk : nat → IoOutcome := λ _, IoOk.
Definition sealed_snap : SnapDemo :=
  (encrypt_committed_image (E := toy_env) (X := toy_crypto good_disk) (C := recording_cli saving_answer) plain_config
     "linpodx-snap-1" old_key true one_snap).2.
(** The rotation of [sealed_snap] starts at operation 7 and writes its side-car in
    operation 12. *)
Definition torn_snap : SnapDemo :=
  (rotate_snapshot_key (E := toy_env) (X := toy_crypto (fails_at 12)) 1 old_key new_key sealed_snap).2.

(** [sealed] and [torn] by evaluation. *)
Definition opens_b {E : Env} {X : CryptoEnv} (fresh : bool) (cfg : EncryptionConfig) (dir plain : string) (s : SnapDemo) : bool :=
  match dirs_of s !! dir with
  | Some m =>
      match m !! "blob.enc", m !! "meta.json" with
      | Some blob, Some bytes =>
          match meta_from_slice bytes with
          | Ok meta => bool_decide (bool_decide (em_ciphertext_sha256 meta = snap_sha256_hex blob) = fresh)
                       && match decrypt_bytes blob cfg with Ok p => bool_decide (p = plain) | Err _ => false end
          | Err _ => false
          end
      | _, _ => false
      end
  | None => false
  end.
Lemma opens_b_ok {E : Env} {X : CryptoEnv} fresh cfg dir plain s :
  opens_b fresh cfg dir plain s = true → (if fresh then sealed else torn) cfg dir plain s.
Proof.
  unfold opens_b. destruct (dirs_of s !! dir) as [m|] eqn:Hm; [|done]. destruct (m !! "blob.enc") as [blob|] eqn:Hb; [|done].
  destruct (m !! "meta.json") as [bytes|] eqn:Hbytes; [|done]. destruct (meta_from_slice bytes) as [meta|] eqn:Hmeta; [|done].
  intros [Hs%bool_decide_eq_true Hd]%andb_true_iff. destruct (decrypt_bytes blob cfg) as [p|] eqn:Hp; [|done].
  apply bool_decide_eq_true in Hd as ->. assert (stored dir blob meta s) as Hst by by exists m, bytes.
  destruct fresh; exists blob, meta; (split; [done|]).
  - by apply bool_decide_eq_true in Hs.
  - by apply bool_decide_eq_false in Hs.
Qed.
Lemma demo_sealed (io : nat → IoOutcome) :
  sealed (E := toy_env) (X := toy_crypto io) old_key (encrypted_image_dir (E := toy_env) (X := toy_crypto io) "linpodx-snap-1") "TAR" sealed_snap.
Proof. apply (opens_b_ok true). vm_check. Qed.
Lemma demo_torn (io : nat → IoOutcome) :
  torn (E := toy_env) (X := toy_crypto io) new_key (encrypted_image_dir (E := toy_env) (X := toy_crypto io) "linpodx-snap-1") "TAR" torn_snap.
Proof. apply (opens_b_ok false). vm_check. Qed.

Lemma rotation_keeps_the_contents_witness :
  let dir := encrypted_image_dir (E := toy_env) (X := toy_crypto (fails_at 12)) (sw_image_ref demo_snap) in
  let '(r, s') := rotate_snapshot_key (E := toy_env) (X := toy_crypto (fails_at 12)) 1 old_key new_key sealed_snap in
  (∀ d, d ≠ dir → dirs_of s' !! d = dirs_of sealed_snap !! d) ∧
  rotated (E := toy_env) (X := toy_crypto (fails_at 12)) old_key new_key dir "TAR" (is_ok r) s'.
Proof.
  exact (rotation_keeps_the_contents (E := toy_env) (X := toy_crypto (fails_at 12)) 1 old_key new_key demo_snap "TAR" sealed_snap
           eq_refl (demo_sealed _)).
Defined.

Lemma torn_snapshot_is_refused_witness :
  (∀ k, is_ok (decrypt_and_load (E := toy_env) (X := toy_crypto good_disk) (C := recording_cli saving_answer) plain_config
                 (sw_image_ref demo_snap) k torn_snap).1 = false) ∧
  (∀ k1 k2, let '(r, s') := rotate_snapshot_key (E := toy_env) (X := toy_crypto good_disk) 1 k1 k2 torn_snap in
            is_ok r = false ∧ dirs_of s' = dirs_of torn_snap).
Proof.
  exact (torn_snapshot_is_refused (E := toy_env) (X := toy_crypto good_disk) (C := recording_cli saving_answer) plain_config
           new_key 1 demo_snap "TAR" torn_snap eq_refl (demo_torn _)).
Defined.

Lemma re_encrypt_all_accounts_witness :
  let X := toy_crypto good_disk in
  ∃ o s', re_encrypt_all (E := toy_env) old_key new_key sealed_snap = (Ok o, s') ∧
    re_total_seen o = Z.of_nat (length (rows_of sealed_snap)) ∧ re_total_seen o = (re_re_encrypted o + re_skipped o + re_failed o)%Z ∧
    ∀ row plain, row ∈ rows_of sealed_snap → sealed (E := toy_env) old_key (dir_of (E := toy_env) row) plain sealed_snap →
      rotated (E := toy_env) old_key new_key (dir_of (E := toy_env) row) plain (bool_decide (re_skipped o = 0 ∧ re_failed o = 0)%Z) s'.
Proof.
  intros X. apply (re_encrypt_all_accounts (E := toy_env) old_key new_key sealed_snap); [done|vm_compute; discriminate| |];
    vm_compute; apply NoDup_singleton.
Defined.

Lemma encrypted_image_loads_back_witness :
  let X := toy_crypto good_disk in
  let C := recording_cli saving_answer in
  ∃ plain path s2, saved plain_config "linpodx-snap-1" plain one_snap ∧ podman_of s2 = podman_of sealed_snap ∧
    let '(o, p) := podman_exec (base_command plain_config ++ ["load"; "-i"; path]) (Some plain) (podman_of sealed_snap) in
    ∃ meta, decrypt_and_load (E := toy_env) plain_config "linpodx-snap-1" old_key sealed_snap =
      (match captured o with Ok _ => Ok meta | Err e => Err e end, put_podman p s2).
Proof.
  intros X C. destruct (encrypt_committed_image (E := toy_env) plain_config "linpodx-snap-1" old_key true one_snap) as [[meta|e] s1] eqn:He.
  - destruct (encrypted_image_loads_back (E := toy_env) plain_config "linpodx-snap-1" old_key true meta one_snap s1 He) as (plain & path & s2 & Hs & Hp & Hd);
      [done|done|]. assert (s1 = sealed_snap) as -> by exact (eq_sym (f_equal snd He)).
    exists plain, path, s2. split; [done|]. split; [done|]. by exists meta.
  - exfalso. assert (is_ok (encrypt_committed_image (E := toy_env) plain_config "linpodx-snap-1" old_key true one_snap).1 = true) as Hok by vm_check.
    by rewrite He in Hok.
Defined.

Lemma hook_true_means_sealed_witness :
  let X := toy_crypto good_disk in
  let C := recording_cli saving_answer in
  let s := (hook_set_encryptor (Some old_key) one_snap).2 in
  let s' := (on_commit_snapshot (E := toy_env) plain_config "linpodx-snap-1" None s).2 in
  hk_enabled (ss_hook (snaps_of s)) = true ∧ (∀ p, None = Some p → auto_encrypt_snapshots p = true) ∧
  ∃ cfg plain, hk_encryptor (ss_hook (snaps_of s)) = Some cfg ∧ saved plain_config "linpodx-snap-1" plain s ∧
    sealed (E := toy_env) cfg (encrypted_image_dir (E := toy_env) "linpodx-snap-1") plain s'.
Proof.
  intros X C s s'. apply (hook_true_means_sealed (E := toy_env) plain_config "linpodx-snap-1" None s s').
  vm_compute. reflexivity.
Defined.
