(* ===== verification/Snapshots.v ===== *)
(** Snapshots of containers: the calls behind them ([linpodx-runtime/src/snapshot.rs],
    up to the podman backend), the manager that keeps their rows
    ([linpodx-sandbox/src/snapshot.rs]), background jobs, and the snapshot before a
    run ([manager.rs]).

    The rows reference each other: deleting one clears the [parent_id] of its children
    and the [snapshot_id] of its jobs ([ON DELETE SET NULL]), and a row is inserted
    only under a parent that exists. The overlayfs and btrfs backends are other
    implementations of the interface [SnapshotBackend].

    The podman process of a job is a parameter ([PodmanChild]): what it writes to its
    two pipes, of bounded capacity, and what waiting for it returns. A schedule says in
    which order the process and the task that reads the pipes take their turns. *)
From S2P Require Import Prelude Text Json Common Schema Database AuditKinds AuditLog Logging Embedding KeyRegistry Parse Podman Resources SnapCrypto SnapStore.

Definition SNAPSHOT_REF_PREFIX : string := "linpodx-snap".

Record SnapshotSummary : Type := {
  sm_id : Z;
  sm_container_id : string;
  sm_label : option string;
  sm_image_ref : string;
  sm_parent_id : option Z;
  sm_created_at : Z;
  sm_size_bytes : option Z;
}.

(** Nanoseconds at the [n]-th reading of the clock ([SystemTime::now]). *)
Class NanoClock := { nanos : nat → N }.

Definition backend_as_str (k : SnapshotBackendKind) : string :=
  match k with PodmanCommit => "podman_commit" | Overlayfs => "overlayfs" | Btrfs => "btrfs" end.
Definition backend_parse (raw : string) : option SnapshotBackendKind :=
  let lower := to_lower (trim raw) in
  if decide (lower ∈ ["podman_commit"; "podman-commit"; "commit"; "podman"]) then Some PodmanCommit
  else if decide (lower ∈ ["overlayfs"; "overlay"]) then Some Overlayfs
  else if decide (lower = "btrfs") then Some Btrfs
  else None.

(** [as i64] and [as u64]. *)
Definition u64_as_i64 (n : Z) : Z := ((n + 2 ^ 63) mod 2 ^ 64 - 2 ^ 63)%Z.
Definition i64_as_u64 (n : Z) : Z := (n mod 2 ^ 64)%Z.

(** * Diffs *)

Record DiffOutput : Type := {
  df_added : list string;
  df_modified : list string;
  df_deleted : list string;
}.

(** [split_once(char::is_whitespace)]: before and after the first white space. *)
Fixpoint split_ws (s : string) : option (string * string) :=
  match ws_len s with
  | O => match s with
         | EmptyString => None
         | String c s' => match split_ws s' with Some (a, b) => Some (String c a, b) | None => None end
         end
  | n => Some ("", str_drop n s)
  end.
Definition diff_line (line : string) : option (string * string) :=
  match split_ws (trim_end line) with
  | Some (tag, path) => let path := trim_start_from 0 path in if decide (path = "") then None else Some (tag, path)
  | None => None
  end.
Definition tagged (tag : string) (entries : list (string * string)) : list string :=
  merge_sort String.le (filter (λ e, e.1 = tag) entries).*2.
Definition parse_diff (output : string) : DiffOutput :=
  let entries := omap diff_line (lines output) in
  {| df_added := tagged "A" entries; df_modified := tagged "C" entries; df_deleted := tagged "D" entries |}.

Definition only_in (b a : list string) : list string := filter (λ p, p ∉ a) b.
(** Paths added in [a] and not in [b] are pushed once each. *)
Fixpoint push_rolled_back (b_added : list string) (a_added deleted : list string) : list string :=
  match a_added with
  | [] => deleted
  | p :: a' => push_rolled_back b_added a' (if decide (p ∉ b_added ∧ p ∉ deleted) then deleted ++ [p] else deleted)
  end.
Definition symmetric_diff (a b : DiffOutput) : DiffOutput :=
  {| df_added := merge_sort String.le (only_in (df_added b) (df_added a));
     df_modified := merge_sort String.le (only_in (df_modified b) (df_modified a));
     df_deleted := merge_sort String.le (push_rolled_back (df_added b) (df_added a) (only_in (df_deleted b) (df_deleted a))) |}.

(** [str::parse::<i64>]. *)
Definition parse_i64 (s : string) : option Z :=
  match s with
  | String c s' =>
      if decide (c = Ascii.ascii_of_N 45) then
        match s' with
        | EmptyString => None
        | String c' _ => if decide (c' = Ascii.ascii_of_N 43) then None else (λ n, (- Z.of_N n)%Z) <$> parse_uint (2 ^ 63) s'
        end
      else Z.of_N <$> parse_uint (2 ^ 63 - 1) s
  | EmptyString => None
  end.

(** * The table *)

Definition new_row (id : Z) (container_id : string) (label : option string) (image_ref : string) (parent_id : option Z)
    (created_at : string) (size : option Z) (backend : string) : SnapRow :=
  {| sw_id := id; sw_container_id := container_id; sw_label := label; sw_image_ref := image_ref; sw_parent_id := parent_id;
     sw_created_at := created_at; sw_size_bytes := size; sw_backend := backend; sw_encrypted := 0; sw_algorithm := None;
     sw_key_source := None; sw_ciphertext_sha256 := None; sw_kdf_algorithm := None; sw_kdf_params := None;
     sw_rotated_from := None; sw_rotated_at := None |}.
Definition with_ref (id : Z) (image_ref : string) (r : SnapRow) : SnapRow :=
  if decide (sw_id r = id)
  then {| sw_id := sw_id r; sw_container_id := sw_container_id r; sw_label := sw_label r; sw_image_ref := image_ref;
          sw_parent_id := sw_parent_id r; sw_created_at := sw_created_at r; sw_size_bytes := sw_size_bytes r;
          sw_backend := sw_backend r; sw_encrypted := sw_encrypted r; sw_algorithm := sw_algorithm r;
          sw_key_source := sw_key_source r; sw_ciphertext_sha256 := sw_ciphertext_sha256 r; sw_kdf_algorithm := sw_kdf_algorithm r;
          sw_kdf_params := sw_kdf_params r; sw_rotated_from := sw_rotated_from r; sw_rotated_at := sw_rotated_at r |}
  else r.
Definition with_size (id size : Z) (r : SnapRow) : SnapRow :=
  if decide (sw_id r = id)
  then {| sw_id := sw_id r; sw_container_id := sw_container_id r; sw_label := sw_label r; sw_image_ref := sw_image_ref r;
          sw_parent_id := sw_parent_id r; sw_created_at := sw_created_at r; sw_size_bytes := Some size;
          sw_backend := sw_backend r; sw_encrypted := sw_encrypted r; sw_algorithm := sw_algorithm r;
          sw_key_source := sw_key_source r; sw_ciphertext_sha256 := sw_ciphertext_sha256 r; sw_kdf_algorithm := sw_kdf_algorithm r;
          sw_kdf_params := sw_kdf_params r; sw_rotated_from := sw_rotated_from r; sw_rotated_at := sw_rotated_at r |}
  else r.
Definition without_parent (id : Z) (r : SnapRow) : SnapRow :=
  if decide (sw_parent_id r = Some id)
  then {| sw_id := sw_id r; sw_container_id := sw_container_id r; sw_label := sw_label r; sw_image_ref := sw_image_ref r;
          sw_parent_id := None; sw_created_at := sw_created_at r; sw_size_bytes := sw_size_bytes r;
          sw_backend := sw_backend r; sw_encrypted := sw_encrypted r; sw_algorithm := sw_algorithm r;
          sw_key_source := sw_key_source r; sw_ciphertext_sha256 := sw_ciphertext_sha256 r; sw_kdf_algorithm := sw_kdf_algorithm r;
          sw_kdf_params := sw_kdf_params r; sw_rotated_from := sw_rotated_from r; sw_rotated_at := sw_rotated_at r |}
  else r.
Definition without_snapshot (id : Z) (j : JobRow) : JobRow :=
  if decide (jb_snapshot_id j = Some id)
  then {| jb_job_id := jb_job_id j; jb_container_id := jb_container_id j; jb_label := jb_label j; jb_status := jb_status j;
          jb_snapshot_id := None; jb_image_ref := jb_image_ref j; jb_last_progress := jb_last_progress j;
          jb_error_message := jb_error_message j; jb_started_at := jb_started_at j; jb_ended_at := jb_ended_at j |}
  else j.

(** [DELETE FROM snapshots WHERE id = ?] with its cascades. *)
Definition delete_snap (id : Z) (t : SnapState) : SnapState :=
  set_jobs (without_snapshot id <$> ss_jobs t)
    (set_rows (without_parent id <$> filter (λ r, sw_id r ≠ id) (ss_rows t)) (ss_seq t) t).

Definition map_rows (f : SnapRow → SnapRow) (t : SnapState) : SnapState := set_rows (f <$> ss_rows t) (ss_seq t) t.
Definition map_job (job_id : string) (f : JobRow → JobRow) (t : SnapState) : SnapState :=
  set_jobs ((λ j, if decide (jb_job_id j = job_id) then f j else j) <$> ss_jobs t) t.

(** The trait of the backends. *)
Record SnapshotBackend (S : Type) : Type := {
  bk_commit : string → string → M S Fault string;
  bk_tag : string → string → M S Fault unit;
  bk_remove : string → bool → M S Fault unit;
}.
Arguments bk_commit {S} _ _ _. Arguments bk_tag {S} _ _ _. Arguments bk_remove {S} _ _ _.

Section Runtime.
Context {E : Env} {K : MarkerCodec} {S : Type} {W : HasWorld S} {P : Type} {C : PodmanCli P} {HP : HasPodman S P}.
Context (pcfg : PodmanConfig).

Definition snap_create (container_id image_ref : string) : M S Fault string :=
  out ← or_not_found container_id (run_capture pcfg ["commit"; container_id; image_ref]);
  let id := last_line out in
  if decide (id = "") then fail_with "podman commit returned no image id" else mret id.
Definition snap_alias (source target : string) : M S Fault unit :=
  _ ← or_not_found source (run_capture pcfg ["tag"; source; target]); mret tt.
Definition PodmanCommitBackend : SnapshotBackend S :=
  {| bk_commit := snap_create; bk_tag := snap_alias; bk_remove := snap_remove pcfg |}.

Definition run_diff_one (image_ref : string) : M S Fault string := or_not_found image_ref (run_capture pcfg ["diff"; image_ref]).
Definition runtime_diff (image_a image_b : string) : M S Fault DiffOutput :=
  raw_a ← run_diff_one image_a;
  raw_b ← run_diff_one image_b;
  mret (symmetric_diff (parse_diff raw_a) (parse_diff raw_b)).
Definition image_size_bytes (image_ref : string) : M S Fault Z :=
  out ← or_not_found image_ref (run_capture pcfg ["image"; "inspect"; "--format"; "{{.Size}}"; image_ref]);
  let trimmed := trim out in
  match parse_i64 trimmed with
  | Some n => mret n
  | None => fail_with ("podman image inspect returned non-numeric size '" +:+ trimmed +:+ "': ")
  end.
End Runtime.

(** * The child of a job

    [podman commit] is spawned with both outputs piped. What it does is a parameter: it
    cannot be started, or it (and whatever else holds its outputs) writes lines to the
    two pipes and ends, and [wait] then gives its status or fails. A pipe nobody reads
    takes [pipe_capacity] bytes; a write that does not fit blocks. *)
Inductive ChildWrite : Type :=
| OutLine (line : string)
| ErrLine (line : string).
Record Child : Type := {
  ch_writes : list ChildWrite;
  ch_wait : Result string (option Z);
}.
Class PodmanChild (P : Type) := {
  podman_spawn : list string → P → Result string Child * P;
  pipe_capacity : nat;
}.

(** The progress task reads the standard output to its end, then the error output. *)
Inductive Reader : Type := ReadsOut | ReadsErr | ReadAll.
Record Pipes : Type := {
  pp_writes : list ChildWrite;
  pp_out : list string;
  pp_err : list string;
  pp_reader : Reader;
}.
Definition pipes_of (c : Child) : Pipes := {| pp_writes := ch_writes c; pp_out := []; pp_err := []; pp_reader := ReadsOut |}.
Definition line_bytes (l : list string) : nat := sum_list_with (λ x, String.length x + 1) l.

(** One turn of the child or of the progress task: nothing if it has to wait, otherwise
    the line that was read, if any. A line that is not UTF-8 ends the stream it is in,
    and writes to a stream that is not read any more are lost. *)
Inductive Turn : Type := ChildTurn | ReaderTurn.
Definition child_turn (capacity : nat) (p : Pipes) : option Pipes :=
  match pp_writes p with
  | [] => None
  | OutLine l :: ws =>
      Some {| pp_writes := ws; pp_out := match pp_reader p with ReadsOut => pp_out p ++ [l] | _ => pp_out p end;
              pp_err := pp_err p; pp_reader := pp_reader p |}
  | ErrLine l :: ws =>
      let written := {| pp_writes := ws; pp_out := pp_out p; pp_err := pp_err p ++ [l]; pp_reader := pp_reader p |} in
      match pp_reader p with
      | ReadsOut => if bool_decide (line_bytes (pp_err p ++ [l]) ≤ capacity) then Some written else None
      | ReadsErr => Some written
      | ReadAll => Some {| pp_writes := ws; pp_out := pp_out p; pp_err := pp_err p; pp_reader := ReadAll |}
      end
  end.
Definition child_ended (p : Pipes) : bool := bool_decide (length (pp_writes p) = 0).
Definition reader_turn (p : Pipes) : option (option string * Pipes) :=
  match pp_reader p with
  | ReadsOut =>
      let next := {| pp_writes := pp_writes p; pp_out := pp_out p; pp_err := pp_err p; pp_reader := ReadsErr |} in
      match pp_out p with
      | l :: out => if is_utf8 l then Some (Some l, {| pp_writes := pp_writes p; pp_out := out; pp_err := pp_err p; pp_reader := ReadsOut |})
                    else Some (None, next)
      | [] => if child_ended p then Some (None, next) else None
      end
  | ReadsErr =>
      let next := {| pp_writes := pp_writes p; pp_out := pp_out p; pp_err := pp_err p; pp_reader := ReadAll |} in
      match pp_err p with
      | l :: err => if is_utf8 l then Some (Some l, {| pp_writes := pp_writes p; pp_out := pp_out p; pp_err := err; pp_reader := ReadsErr |})
                    else Some (None, next)
      | [] => if child_ended p then Some (None, next) else None
      end
  | ReadAll => None
  end.
Definition pipe_turn (capacity : nat) (t : Turn) (p : Pipes) : option (option string * Pipes) :=
  match t with ChildTurn => (λ p', (None, p')) <$> child_turn capacity p | ReaderTurn => reader_turn p end.
(** The child has ended and everything was read. *)
Definition drained (p : Pipes) : bool := child_ended p && match pp_reader p with ReadAll => true | _ => false end.

Section Manager.
Context {E : Env} {K : MarkerCodec} {NC : NanoClock} {H : HostEnv}.
Context {S : Type} {W : HasWorld S} {P : Type} {C : PodmanCli P} {PC : PodmanChild P} {HP : HasPodman S P} {T : HasSnaps S}.
Context (pcfg : PodmanConfig) (backend : SnapshotBackendKind → SnapshotBackend S).

Definition summary_to_value (s : SnapshotSummary) : Value :=
  JObject [("id", jint (sm_id s)); ("container_id", JString (sm_container_id s)); ("label", jopt JString (sm_label s));
           ("image_ref", JString (sm_image_ref s)); ("parent_id", jopt jint (sm_parent_id s));
           ("created_at", JString (ts_serde (sm_created_at s))); ("size_bytes", jopt jint (sm_size_bytes s))].
Definition snap_into_summary (r : SnapRow) : Result Error SnapshotSummary :=
  match ts_parse (sw_created_at r) with
  | inr e => Err (Runtime ("invalid snapshot created_at '" +:+ sw_created_at r +:+ "': " +:+ e))
  | inl t => Ok {| sm_id := sw_id r; sm_container_id := sw_container_id r; sm_label := sw_label r; sm_image_ref := sw_image_ref r;
                   sm_parent_id := sw_parent_id r; sm_created_at := t; sm_size_bytes := i64_as_u64 <$> sw_size_bytes r |}
  end.
Definition from_result {A} (r : Result Error A) : M S Fault A := match r with Ok a => mret a | Err e => throw (Fail e) end.

Definition parent_exists (parent_id : option Z) (rows : list SnapRow) : bool :=
  match parent_id with None => true | Some p => is_some (find_snap p rows) end.
(** [INSERT INTO snapshots]: the next id, under a parent that exists. *)
Definition insert_snap (container_id : string) (label : option string) (image_ref : string) (parent_id : option Z)
    (created_at : string) (size : option Z) (backend_ : string) : M S Fault Z :=
  _ ← on_world stmt;
  t ← snaps;
  if decide (ss_seq t = i64_max) then throw (Fail Sqlx)
  else if parent_exists parent_id (ss_rows t) then
    let id := (ss_seq t + 1)%Z in
    _ ← put_state (set_rows (ss_rows t ++ [new_row id container_id label image_ref parent_id created_at size backend_]) id);
    mret id
  else throw (Fail Sqlx).
Definition newest_of (container_id : string) : M S Fault (option Z) :=
  _ ← on_world stmt;
  t ← snaps;
  mret (sw_id <$> last (filter (λ r, sw_container_id r = container_id) (ss_rows t))).
(** A statement whose error is dropped. *)
Definition best_effort (f : SnapState → SnapState) : M S Fault unit :=
  _ ← attempt_in (_ ← on_world stmt; put_state f); mret tt.
Definition statement (f : SnapState → SnapState) : M S Fault unit := _ ← on_world stmt; put_state f.
Definition snap_ref (id : Z) : string := SNAPSHOT_REF_PREFIX +:+ "-" +:+ pretty id.
Definition pending_ref : string := SNAPSHOT_REF_PREFIX +:+ "-pending".

Definition row_backend (id : Z) : M S Fault (option SnapshotBackendKind) :=
  r ← attempt_in (_ ← on_world stmt; t ← snaps; mret (sw_backend <$> find_snap id (ss_rows t)));
  mret (match r with Ok raw => raw ≫= backend_parse | Err _ => None end).
Definition audit_backend_used (kind : SnapshotBackendKind) (id : Z) (container_id : string) : M S Fault unit :=
  _ ← attempt_in (on_world (append SnapshotBackendUsed None (Some container_id)
        (JObject [("kind", JString (backend_as_str kind)); ("snapshot_id", jint id)])));
  mret tt.
(** [inspect] for the size: [None] when podman cannot tell. *)
Definition size_of (image_ref : string) : M S Fault (option Z) :=
  r ← attempt_in (image_inspect pcfg image_ref);
  mret (match r with Ok i => Some (ii_size_bytes i) | Err _ => None end).

Definition create_with_backend (container_id : string) (label : option string) (kind_ : option SnapshotBackendKind) :
    M S Fault SnapshotSummary :=
  let kind := unwrap_or PodmanCommit kind_ in
  parent_id ← newest_of container_id;
  t ← on_world now;
  id ← insert_snap container_id label pending_ref parent_id (ts_format t) None (backend_as_str kind);
  let image_ref := snap_ref id in
  outcome ← attempt_in (bk_commit (backend kind) container_id image_ref);
  _ ← (match outcome with Ok _ => mret tt | Err _ => best_effort (delete_snap id) end : M S Fault unit);
  _ ← from_result outcome;
  _ ← statement (map_rows (with_ref id image_ref));
  size ← size_of image_ref;
  _ ← (match size with Some sz => best_effort (map_rows (with_size id (u64_as_i64 sz))) | None => mret tt end : M S Fault unit);
  _ ← audit_backend_used kind id container_id;
  let summary := {| sm_id := id; sm_container_id := container_id; sm_label := label; sm_image_ref := image_ref;
                    sm_parent_id := parent_id; sm_created_at := t; sm_size_bytes := size |} in
  _ ← on_world (append SnapshotCreated None (Some container_id) (summary_to_value summary));
  _ ← on_world (publish TSnapshot Created image_ref (summary_to_value summary));
  mret summary.
Definition manager_create (container_id : string) (label : option string) : M S Fault SnapshotSummary :=
  create_with_backend container_id label None.

Definition manager_list (container_id : option string) : M S Fault (list SnapshotSummary) :=
  _ ← on_world stmt;
  t ← snaps;
  let rows := match container_id with Some cid => filter (λ r, sw_container_id r = cid) (ss_rows t) | None => ss_rows t end in
  from_result (collect (snap_into_summary <$> reverse rows)).
Definition manager_inspect (id : Z) : M S Fault SnapshotSummary :=
  _ ← on_world stmt;
  t ← snaps;
  match find_snap id (ss_rows t) with
  | None => throw (Fail (NotFound ("snapshot " +:+ pretty id)))
  | Some row => from_result (snap_into_summary row)
  end.

(** What is left of a failed removal of the image. *)
Definition remove_image (kind : SnapshotBackendKind) (image_ref : string) (force : bool) : M S Fault unit :=
  r ← attempt_in (bk_remove (backend kind) image_ref force);
  match r with
  | Ok _ | Err (NotFound _) => mret tt
  | Err (Runtime _) =>
      r' ← attempt_in (snap_remove pcfg image_ref force);
      match r' with Ok _ | Err (NotFound _) => mret tt | Err e => throw (Fail e) end
  | Err e => throw (Fail e)
  end.
Definition manager_remove (id : Z) (force : bool) : M S Fault unit :=
  summary ← manager_inspect id;
  kind ← row_backend id;
  _ ← remove_image (unwrap_or PodmanCommit kind) (sm_image_ref summary) force;
  _ ← statement (delete_snap id);
  _ ← on_world (append SnapshotRemoved None (Some (sm_container_id summary)) (summary_to_value summary));
  on_world (publish TSnapshot Removed (sm_image_ref summary) (summary_to_value summary)).

Fixpoint prune_ids (ids : list Z) : M S Fault (list Z) :=
  match ids with
  | [] => mret []
  | id :: ids' =>
      r ← attempt_in (manager_remove id false);
      removed ← prune_ids ids';
      mret (match r with Ok _ => id :: removed | Err _ => removed end)
  end.
Definition manager_prune (container_id : option string) (keep_recent : nat) : M S Fault (list Z) :=
  candidates ← manager_list container_id;
  prune_ids (sm_id <$> skipn keep_recent candidates).

(** [..Default::default()]. *)
Definition default_opts (image_ : string) (name : option string) (command_ : list string) (env_ labels_ : list (string * string)) : CreateOptions :=
  {| image := image_; co_name := name; command := command_; env := env_; labels := labels_; rm := false; detach := true;
     port_mappings := []; volumes := []; networks := []; cap_drop := []; cap_add := []; read_only := false;
     cpus := None; memory_mb := None; sandbox_profile := None; co_passthrough := None; co_systemd := false;
     auto_restart := false; keep_user_id := false; rootfs := None; security_opts := [] |}.
Definition manager_rollback (id : Z) (new_name : option string) (keep_original : bool) : M S Fault (string * string) :=
  summary ← manager_inspect id;
  insp ← attempt_in (podman_inspect pcfg (sm_container_id summary));
  let opts := match insp with
              | Ok i => default_opts (sm_image_ref summary) new_name (ci_command i) (map_to_list (ci_env i)) (map_to_list (ci_labels i))
              | Err _ => default_opts (sm_image_ref summary) new_name [] [] []
              end in
  new_id ← podman_create pcfg opts;
  _ ← (if keep_original then mret tt else _ ← attempt_in (podman_remove pcfg (sm_container_id summary) true); mret tt : M S Fault unit);
  let name := unwrap_or (sm_container_id summary +:+ "-restored") new_name in
  _ ← on_world (append SnapshotRolledBack None (Some (sm_container_id summary))
        (JObject [("snapshot_id", jint id); ("image_ref", JString (sm_image_ref summary)); ("new_container_id", JString new_id);
                  ("new_container_name", JString name); ("keep_original", JBool keep_original)]));
  _ ← on_world (publish TSnapshot Started new_id
        (JObject [("snapshot_id", jint id); ("image_ref", JString (sm_image_ref summary)); ("new_container_name", JString name)]));
  mret (new_id, name).

(** [SystemTime::now] in nanoseconds. *)
Definition now_nanos : D N := w ← gets w_ticks; _ ← now; mret (nanos w).
Definition branch_image_ref (parent_ref : string) (parent_id : Z) : M S Fault string :=
  n ← on_world now_nanos;
  mret (parent_ref +:+ "-branch-" +:+
        str_take 8 (hex_encode (sha256 (le_bytes 16 n +:+ le_bytes 8 (Z.to_N (i64_as_u64 parent_id)))))).

Definition create_branch (parent_id : Z) (label : option string) (fork : bool) : M S Fault SnapshotSummary :=
  parent ← manager_inspect parent_id;
  new_ref ← branch_image_ref (sm_image_ref parent) parent_id;
  kind_ ← row_backend parent_id;
  let kind := unwrap_or PodmanCommit kind_ in
  size ← (if fork then
            _ ← bk_commit (backend kind) (sm_container_id parent) new_ref;
            found ← size_of new_ref;
            mret (or_else found (sm_size_bytes parent))
          else _ ← bk_tag (backend kind) (sm_image_ref parent) new_ref; mret (sm_size_bytes parent) : M S Fault (option Z));
  t ← on_world now;
  id ← insert_snap (sm_container_id parent) label new_ref (Some parent_id) (ts_format t) (u64_as_i64 <$> size) (backend_as_str kind);
  _ ← audit_backend_used kind id (sm_container_id parent);
  let summary := {| sm_id := id; sm_container_id := sm_container_id parent; sm_label := label; sm_image_ref := new_ref;
                    sm_parent_id := Some parent_id; sm_created_at := t; sm_size_bytes := size |} in
  _ ← on_world (append SnapshotBranched None (Some (sm_container_id parent))
        (JObject [("parent_id", jint parent_id); ("new_id", jint id); ("image_ref", JString new_ref); ("label", jopt JString label);
                  ("fork", JBool fork)]));
  _ ← on_world (publish TSnapshot Created new_ref (summary_to_value summary));
  mret summary.

(** The size of an image, 0 when it is unknown; the difference wraps. *)
Definition size_or_zero (image_ref : string) : M S Fault Z :=
  r ← attempt_in (image_size_bytes pcfg image_ref); mret (match r with Ok n => n | Err _ => 0%Z end).
Definition manager_diff (id_a id_b : Z) : M S Fault (DiffOutput * Z) :=
  a ← manager_inspect id_a;
  b ← manager_inspect id_b;
  raw ← runtime_diff pcfg (sm_image_ref a) (sm_image_ref b);
  size_a ← size_or_zero (sm_image_ref a);
  size_b ← size_or_zero (sm_image_ref b);
  mret (raw, u64_as_i64 (size_b - size_a)).

(** * Jobs *)

Definition new_job_id (container_id : string) : M S Fault string :=
  n ← on_world now_nanos;
  mret ("snap-" +:+ str_take 14 (hex_encode (sha256 (le_bytes 16 n +:+ container_id)))).

(** [job_id] is unique. *)
Definition insert_job (job_id container_id : string) (label : option string) (started : string) : M S Fault unit :=
  _ ← on_world stmt;
  t ← snaps;
  if decide (job_id ∈ (jb_job_id <$> ss_jobs t)) then throw (Fail Sqlx)
  else put_state (set_jobs (ss_jobs t ++
         [{| jb_job_id := job_id; jb_container_id := container_id; jb_label := label; jb_status := "pending"; jb_snapshot_id := None;
             jb_image_ref := None; jb_last_progress := None; jb_error_message := None; jb_started_at := started; jb_ended_at := None |}])).

Definition job_running (j : JobRow) : JobRow :=
  {| jb_job_id := jb_job_id j; jb_container_id := jb_container_id j; jb_label := jb_label j; jb_status := "running";
     jb_snapshot_id := jb_snapshot_id j; jb_image_ref := jb_image_ref j; jb_last_progress := jb_last_progress j;
     jb_error_message := jb_error_message j; jb_started_at := jb_started_at j; jb_ended_at := jb_ended_at j |}.
Definition job_progress (line : string) (j : JobRow) : JobRow :=
  {| jb_job_id := jb_job_id j; jb_container_id := jb_container_id j; jb_label := jb_label j; jb_status := jb_status j;
     jb_snapshot_id := jb_snapshot_id j; jb_image_ref := jb_image_ref j; jb_last_progress := Some line;
     jb_error_message := jb_error_message j; jb_started_at := jb_started_at j; jb_ended_at := jb_ended_at j |}.
Definition job_succeeded (id : Z) (image_ref ended : string) (j : JobRow) : JobRow :=
  {| jb_job_id := jb_job_id j; jb_container_id := jb_container_id j; jb_label := jb_label j; jb_status := "succeeded";
     jb_snapshot_id := Some id; jb_image_ref := Some image_ref; jb_last_progress := jb_last_progress j;
     jb_error_message := jb_error_message j; jb_started_at := jb_started_at j; jb_ended_at := Some ended |}.
Definition job_failed (message ended : string) (j : JobRow) : JobRow :=
  {| jb_job_id := jb_job_id j; jb_container_id := jb_container_id j; jb_label := jb_label j; jb_status := "failed";
     jb_snapshot_id := jb_snapshot_id j; jb_image_ref := jb_image_ref j; jb_last_progress := jb_last_progress j;
     jb_error_message := Some message; jb_started_at := jb_started_at j; jb_ended_at := Some ended |}.

(** [create_async] before it spawns [run_async_job]. *)
Definition create_async (container_id : string) (label : option string) : M S Fault string :=
  job_id ← new_job_id container_id;
  t ← on_world now;
  _ ← insert_job job_id container_id label (ts_format t);
  mret job_id.

Definition emit_progress (job_id line : string) : M S Fault unit :=
  let trimmed := trim line in
  if decide (trimmed = "") then mret tt
  else
    _ ← best_effort (map_job job_id (job_progress trimmed));
    on_world (publish TSnapshot Progress job_id (JObject [("message", JString trimmed)])).
(** The child and the progress task under a schedule of their turns: what is left of
    the pipes and the last line that was read. *)
Fixpoint stream (job_id : string) (schedule : list Turn) (p : Pipes) (last_ : string) : M S Fault (Pipes * string) :=
  match schedule with
  | [] => mret (p, last_)
  | t :: schedule' =>
      match pipe_turn pipe_capacity t p with
      | None => stream job_id schedule' p last_
      | Some (None, p') => stream job_id schedule' p' last_
      | Some (Some line, p') => _ ← emit_progress job_id line; stream job_id schedule' p' line
      end
  end.

Definition finalize_failure (job_id : string) (snapshot_id : Z) (message : string) : M S Fault unit :=
  ended ← on_world now;
  _ ← best_effort (delete_snap snapshot_id);
  _ ← statement (map_job job_id (job_failed message (ts_format ended)));
  on_world (publish TSnapshot Failed job_id (JObject [("error", JString message)])).

Definition spawn_child (args : list string) : M S Fault (Result string Child) := λ s,
  let '(r, p) := podman_spawn args (podman_of s) in (Ok r, put_podman p s).

(** After [wait] and the progress task: the row is promoted, or the job fails. *)
Definition job_exited (container_id job_id : string) (snapshot_id : Z) (code : option Z) (last_ : string) : M S Fault unit :=
  let image_ref := snap_ref snapshot_id in
  if negb (success code)
  then finalize_failure job_id snapshot_id
         (if decide (last_ = "") then "podman commit exited with status " else "podman commit failed: " +:+ last_)
  else
    _ ← statement (map_rows (with_ref snapshot_id image_ref));
    size ← size_of image_ref;
    _ ← (match size with Some sz => best_effort (map_rows (with_size snapshot_id (u64_as_i64 sz))) | None => mret tt end : M S Fault unit);
    ended ← on_world now;
    _ ← statement (map_job job_id (job_succeeded snapshot_id image_ref (ts_format ended)));
    on_world (publish TSnapshot Succeeded job_id
      (JObject [("snapshot_id", jint snapshot_id); ("image_ref", JString image_ref); ("container_id", JString container_id)])).

(** The job before its child: the row of the snapshot, the job's status and its first
    event. *)
Definition job_begin (container_id : string) (label : option string) (job_id : string) : M S Fault Z :=
  parent_id ← newest_of container_id;
  t ← on_world now;
  snapshot_id ← insert_snap container_id label pending_ref parent_id (ts_format t) None "podman_commit";
  _ ← statement (map_job job_id job_running);
  _ ← on_world (publish TSnapshot Progress job_id
        (JObject [("phase", JString "running"); ("container_id", JString container_id); ("snapshot_id", jint snapshot_id)]));
  mret snapshot_id.

(** The job up to where [schedule] takes it: [true] once its task has returned, [false]
    while the child or the progress task has not ended. *)
Definition run_async_job (schedule : list Turn) (container_id : string) (label : option string) (job_id : string) : M S Fault bool :=
  snapshot_id ← job_begin container_id label job_id;
  r ← spawn_child (base_command pcfg ++ ["commit"; container_id; snap_ref snapshot_id]);
  match r with
  | Err _ => _ ← finalize_failure job_id snapshot_id "spawn failed: "; mret true
  | Ok child =>
      q ← stream job_id schedule (pipes_of child) "";
      if negb (drained q.1) then mret false
      else
        _ ← match ch_wait child with
            | Err _ => finalize_failure job_id snapshot_id "wait failed: "
            | Ok code => job_exited container_id job_id snapshot_id code q.2
            end;
        mret true
  end.

(** The row's texts with its times parsed. *)
Definition query_job_status (job_id : string) : M S Fault (JobRow * Z * option Z) :=
  _ ← on_world stmt;
  t ← snaps;
  match find (λ j, bool_decide (jb_job_id j = job_id)) (ss_jobs t) with
  | None => throw (Fail (NotFound ("snapshot job " +:+ job_id)))
  | Some j =>
      match ts_parse (jb_started_at j) with
      | inr _ => fail_with ("invalid snapshot_jobs.started_at '" +:+ jb_started_at j +:+ "': ")
      | inl started =>
          match jb_ended_at j with
          | None => mret (j, started, None)
          | Some raw =>
              match ts_parse raw with
              | inl ended => mret (j, started, Some ended)
              | inr _ => fail_with ("invalid snapshot_jobs.ended_at '" +:+ raw +:+ "': ")
              end
          end
      end
  end.

(** [SandboxManager::pre_run_snapshot]; the hook's failures are only logged. *)
Definition pre_run_snapshot {X : CryptoEnv} (profile_name container_id : string) : M S Fault (option Z) :=
  cache ← on_world (gets w_cache);
  match cache !! profile_name with
  | None => mret None
  | Some lp =>
      if negb (snapshot_before_run (lpf_profile lp)) then mret None
      else
        t ← on_world now;
        summary ← manager_create container_id (Some ("pre-run-" +:+ pretty t));
        _ ← on_commit_snapshot pcfg (sm_image_ref summary) (Some (lpf_profile lp));
        mret (Some (sm_id summary))
  end.
End Manager.

(** * Lineage *)

Definition ids (t : SnapState) : list Z := sw_id <$> ss_rows t.
(** Ids grow and stay below the counter; a parent is an older row of the table. *)
Definition lineage_ok (t : SnapState) : Prop :=
  StronglySorted Z.lt (ids t) ∧ Forall (λ i, (i ≤ ss_seq t)%Z) (ids t) ∧
  Forall (λ r, ∀ p, sw_parent_id r = Some p → (p < sw_id r)%Z ∧ p ∈ ids t) (ss_rows t).

(** Row updates that keep ids and parents. *)
Lemma lineage_map_rows f t :
  (∀ r, sw_id (f r) = sw_id r ∧ sw_parent_id (f r) = sw_parent_id r) → lineage_ok t → lineage_ok (map_rows f t).
Proof.
  intros Hf (Hs & Hb & Hp). unfold lineage_ok, ids, map_rows. simpl.
  assert (sw_id <$> (f <$> ss_rows t) = sw_id <$> ss_rows t) as ->.
  { rewrite <-list_fmap_compose. apply list_fmap_ext. intros i r _. apply Hf. }
  split_and!; [done..|]. apply Forall_fmap. eapply Forall_impl; [exact Hp|]. intros r Hr p. simpl.
  destruct (Hf r) as [-> ->]. apply Hr.
Qed.
Lemma with_ref_keeps id ref r : sw_id (with_ref id ref r) = sw_id r ∧ sw_parent_id (with_ref id ref r) = sw_parent_id r.
Proof. unfold with_ref. by case_decide. Qed.
Lemma with_size_keeps id n r : sw_id (with_size id n r) = sw_id r ∧ sw_parent_id (with_size id n r) = sw_parent_id r.
Proof. unfold with_size. by case_decide. Qed.
Lemma record_rotation_keeps {X : CryptoEnv} m id at_ r :
  sw_id (record_rotation m id at_ r) = sw_id r ∧ sw_parent_id (record_rotation m id at_ r) = sw_parent_id r.
Proof. unfold record_rotation. by case_decide. Qed.

Lemma without_parent_id id r : sw_id (without_parent id r) = sw_id r.
Proof. unfold without_parent. by case_decide. Qed.
Lemma ids_delete id t : ids (delete_snap id t) = filter (λ i, i ≠ id) (ids t).
Proof.
  unfold ids, delete_snap. simpl. rewrite <-list_fmap_compose.
  rewrite (list_fmap_ext _ sw_id) by (intros; apply without_parent_id).
  induction (ss_rows t) as [|r rows IH]; [done|]. rewrite fmap_cons, !filter_cons.
  destruct (decide (sw_id r ≠ id)); rewrite ?fmap_cons, IH; done.
Qed.
Lemma sorted_filter (P : Z → Prop) `{∀ x, Decision (P x)} l : StronglySorted Z.lt l → StronglySorted Z.lt (filter P l).
Proof.
  induction 1 as [|x l Hl IH Hx]; [constructor|]. rewrite filter_cons. case_decide; [|done]. constructor; [done|].
  apply Forall_forall. intros y [_ Hy]%list_elem_of_filter. by eapply Forall_forall in Hx.
Qed.
Lemma lineage_delete id t : lineage_ok t → lineage_ok (delete_snap id t).
Proof.
  intros (Hs & Hb & Hp). unfold lineage_ok. rewrite ids_delete. split_and!.
  - by apply sorted_filter.
  - apply Forall_forall. intros i [_ Hi]%list_elem_of_filter. by eapply Forall_forall in Hb.
  - simpl. apply Forall_fmap, Forall_forall. intros r [_ Hr]%list_elem_of_filter p. simpl. rewrite without_parent_id.
    eapply Forall_forall in Hp; [|done]. unfold without_parent. case_decide as Hd; simpl; [done|]. intros Hpp.
    destruct (Hp p Hpp) as [Hlt Hin]. split; [done|]. apply list_elem_of_filter. split; [congruence|done].
Qed.
Lemma find_snap_id p rows : is_some (find_snap p rows) = true → p ∈ sw_id <$> rows.
Proof.
  unfold find_snap. induction rows as [|r rows IH]; [done|]. simpl. case_bool_decide as Hd; intros Hs.
  - rewrite Hd. by left.
  - right. by apply IH.
Qed.
Lemma lineage_insert t r :
  lineage_ok t → sw_id r = (ss_seq t + 1)%Z → (∀ p, sw_parent_id r = Some p → p ∈ ids t) →
  lineage_ok (set_rows (ss_rows t ++ [r]) (ss_seq t + 1) t).
Proof.
  intros (Hs & Hb & Hp) Hid Hpar. unfold lineage_ok, ids. simpl. rewrite fmap_app. simpl. rewrite Hid. split_and!.
  - apply StronglySorted_app_2; [|done|apply SSorted_cons; constructor].
    intros x y Hx ->%list_elem_of_singleton. eapply Forall_forall in Hb; [|exact Hx]. lia.
  - apply Forall_app. split; [|by apply Forall_singleton]. eapply Forall_impl; [exact Hb|]. simpl. lia.
  - apply Forall_app. split.
    + eapply Forall_impl; [exact Hp|]. intros r' Hr' p Hpp. destruct (Hr' p Hpp). split; [done|]. apply elem_of_app. by left.
    + apply Forall_singleton. intros p Hpp. specialize (Hpar p Hpp). eapply Forall_forall in Hb; [|exact Hpar].
      split; [lia|]. apply elem_of_app. by left.
Qed.

(** What the manager asks of a backend: it leaves the tables alone. *)
Class BackendOk {S} `{HasSnaps S} (b : SnapshotBackend S) : Prop := {
  commit_keeps c r s : snaps_of (bk_commit b c r s).2 = snaps_of s;
  tag_keeps x y s : snaps_of (bk_tag b x y s).2 = snaps_of s;
  remove_keeps r f s : snaps_of (bk_remove b r f s).2 = snaps_of s;
}.

(** ** The pipes *)

Fixpoint after_turns (capacity : nat) (schedule : list Turn) (p : Pipes) : Pipes :=
  match schedule with
  | [] => p
  | t :: schedule' => after_turns capacity schedule' (match pipe_turn capacity t p with Some (_, p') => p' | None => p end)
  end.

(** Every turn that does something brings the end nearer. *)
Definition reader_rank (r : Reader) : nat := match r with ReadsOut => 2 | ReadsErr => 1 | ReadAll => 0 end.
Definition turns_left (p : Pipes) : nat :=
  3 * length (pp_writes p) + length (pp_out p) + length (pp_err p) + reader_rank (pp_reader p).
Lemma pipe_turn_decreases capacity t p x p' : pipe_turn capacity t p = Some (x, p') → turns_left p' < turns_left p.
Proof.
  destruct p as [ws out err rd]. destruct t; unfold pipe_turn, child_turn, reader_turn, child_ended, turns_left; cbn.
  - destruct ws as [|[l|l] ws]; [done| |]; destruct rd; cbn; try case_bool_decide; intros; simplify_eq/=; rewrite ?length_app; cbn; lia.
  - destruct rd; [destruct out as [|l out]|destruct err as [|l err]|done]; repeat case_match; intros; simplify_eq/=; lia.
Qed.
Lemma after_turns_le capacity l p : turns_left (after_turns capacity l p) ≤ turns_left p.
Proof.
  revert p. induction l as [|t l IH]; intros p; cbn [after_turns]; [done|]. destruct (pipe_turn capacity t p) as [[x p']|] eqn:Ht; [|apply IH].
  apply pipe_turn_decreases in Ht. specialize (IH p'). lia.
Qed.
Lemma after_turns_lt capacity t l p : is_Some (pipe_turn capacity t p) → t ∈ l → turns_left (after_turns capacity l p) < turns_left p.
Proof.
  intros [[x p'] Ht]. induction l as [|u l IH]; [by intros ?%elem_of_nil|]. cbn [after_turns]. destruct (pipe_turn capacity u p) as [[y q]|] eqn:Hu.
  - intros _. apply pipe_turn_decreases in Hu. pose proof (after_turns_le capacity l q). lia.
  - intros [->|Hl]%elem_of_cons; [congruence|by apply IH].
Qed.

(** The bytes of the error output, those in the pipe and those to come. *)
Definition err_lines (ws : list ChildWrite) : list string := omap (λ w, match w with ErrLine l => Some l | OutLine _ => None end) ws.
Definition err_total (p : Pipes) : nat := line_bytes (pp_err p) + line_bytes (err_lines (pp_writes p)).
Lemma line_bytes_snoc l x : line_bytes (l ++ [x]) = line_bytes l + (String.length x + 1).
Proof. unfold line_bytes. rewrite sum_list_with_app. cbn. lia. Qed.
Lemma pipe_turn_err capacity t p x p' : pipe_turn capacity t p = Some (x, p') → pp_reader p' = ReadsOut → pp_reader p = ReadsOut ∧ err_total p' = err_total p.
Proof.
  destruct p as [ws out err rd]. destruct t; unfold pipe_turn, child_turn, reader_turn, err_total; cbn.
  - destruct ws as [|[l|l] ws]; [done| |]; destruct rd; cbn; try case_bool_decide; intros; simplify_eq/=; rewrite ?line_bytes_snoc; first [done | split; [done|unfold line_bytes, err_lines; cbn; lia]].
  - destruct rd; [destruct out as [|l out]|destruct err as [|l err]|done]; repeat case_match; intros; by simplify_eq/=.
Qed.

(** As long as the error output fits into its pipe somebody can go on. *)
Definition fits (capacity : nat) (p : Pipes) : Prop := pp_reader p = ReadsOut → err_total p ≤ capacity.
Lemma fits_turn capacity t p x p' : pipe_turn capacity t p = Some (x, p') → fits capacity p → fits capacity p'.
Proof. intros Ht Hf Hr. destruct (pipe_turn_err _ _ _ _ _ Ht Hr) as [Hp ->]. by apply Hf. Qed.
Lemma fits_turns capacity l p : fits capacity p → fits capacity (after_turns capacity l p).
Proof.
  revert p. induction l as [|t l IH]; intros p Hf; cbn; [done|]. destruct (pipe_turn capacity t p) as [[x p']|] eqn:Ht; [|by apply IH].
  apply IH. by eapply fits_turn.
Qed.
Lemma fits_enabled capacity p : fits capacity p → drained p = false → ∃ t, is_Some (pipe_turn capacity t p).
Proof.
  destruct p as [ws out err rd]. unfold fits, drained, child_ended, err_total. cbn. intros Hf Hd. destruct ws as [|w ws].
  - exists ReaderTurn. unfold pipe_turn, reader_turn, child_ended. cbn. destruct rd; [destruct out as [|l out]|destruct err as [|l err]|done];
      try destruct (is_utf8 l); eexists; reflexivity.
  - exists ChildTurn. unfold pipe_turn, child_turn. cbn. destruct w as [l|l]; [eexists; reflexivity|]. destruct rd; [|eexists; reflexivity..].
    rewrite bool_decide_true; [eexists; reflexivity|]. specialize (Hf eq_refl). rewrite line_bytes_snoc. unfold line_bytes in *. cbn in Hf. lia.
Qed.
Lemma drained_turn capacity t p : drained p = true → pipe_turn capacity t p = None.
Proof.
  destruct p as [ws out err rd]. unfold drained, child_ended. cbn. intros [Hw Hr]%andb_prop. apply bool_decide_eq_true in Hw.
  destruct ws; [|done]. destruct rd; [done..|]. by destruct t.
Qed.
Lemma drained_turns capacity l p : drained p = true → after_turns capacity l p = p.
Proof. intros Hd. induction l as [|t l IH]; cbn; [done|]. by rewrite drained_turn. Qed.

(** A schedule with at least [k] rounds, in each of which both get a turn. *)
Inductive rounds : nat → list Turn → Prop :=
| rounds_none l : rounds 0 l
| rounds_more k r l : ChildTurn ∈ r → ReaderTurn ∈ r → rounds k l → rounds (Datatypes.S k) (r ++ l).
Lemma after_turns_app capacity a b p : after_turns capacity (a ++ b) p = after_turns capacity b (after_turns capacity a p).
Proof. revert p. induction a as [|t a IH]; intros p; [done|]. cbn. apply IH. Qed.
Lemma rounds_drain capacity k l p : rounds k l → fits capacity p → turns_left p ≤ k → drained (after_turns capacity l p) = true.
Proof.
  intros Hr. revert p. induction Hr as [l|k r l Hc Hd Hr IH]; intros p Hf Hk.
  - assert (drained p = true) as Hp; [|by rewrite drained_turns].
    destruct p as [ws out err rd]. unfold turns_left in Hk. cbn in Hk. destruct ws, rd; cbn in Hk; done || lia.
  - destruct (drained p) eqn:Hp; [by rewrite drained_turns|]. rewrite after_turns_app. apply IH; [by apply fits_turns|].
    destruct (fits_enabled _ _ Hf Hp) as [t Ht].
    assert (turns_left (after_turns capacity r p) < turns_left p); [|lia]. apply (after_turns_lt _ t); [done|]. by destruct t.
Qed.

(** Otherwise the child and the progress task wait for each other. *)
Definition out_lines (ws : list ChildWrite) : list string := omap (λ w, match w with OutLine l => Some l | ErrLine _ => None end) ws.
Definition waits (capacity : nat) (p : Pipes) : Prop :=
  pp_reader p = ReadsOut ∧ line_bytes (pp_err p) ≤ capacity ∧ capacity < err_total p ∧
  Forall (λ l, is_utf8 l = true) (pp_out p ++ out_lines (pp_writes p)).
Lemma waits_turn capacity t p x p' : pipe_turn capacity t p = Some (x, p') → waits capacity p → waits capacity p'.
Proof.
  destruct p as [ws out err rd]. unfold waits. cbn. intros Ht (-> & Hc & He & Hu). pose proof (pipe_turn_err _ _ _ _ _ Ht) as Herr.
  destruct t; unfold pipe_turn, child_turn, reader_turn, child_ended in Ht; cbn in Ht.
  - destruct ws as [|[l|l] ws]; [done| |case_bool_decide; [|done]]; cbn in Ht; injection Ht as <- <-; destruct (Herr eq_refl) as [_ ->];
      split_and!; cbn; try done; by rewrite <-app_assoc.
  - destruct out as [|l out].
    + destruct ws; [|done]. exfalso. cbn in He. unfold err_total in He. cbn in He. lia.
    + cbn in Hu. apply List.Forall_cons_iff in Hu as [Hl Hu]. rewrite Hl in Ht. injection Ht as <- <-. destruct (Herr eq_refl) as [_ ->]. by split_and!.
Qed.
Lemma waits_forever capacity l p : waits capacity p → drained (after_turns capacity l p) = false.
Proof.
  intros Hw. assert (waits capacity (after_turns capacity l p)) as (Hr & _).
  { revert p Hw. induction l as [|t l IH]; intros p Hw; cbn; [done|]. destruct (pipe_turn capacity t p) as [[x p']|] eqn:Ht; [|by apply IH].
    apply IH. by eapply waits_turn. }
  unfold drained. by rewrite Hr, andb_false_r.
Qed.

Section Preservation.
Context {E : Env} {K : MarkerCodec} {NC : NanoClock} {H : HostEnv}.
Context {S : Type} {W : HasWorld S} {P : Type} {C : PodmanCli P} {PC : PodmanChild P} {HP : HasPodman S P} {T : HasSnaps S}.
Context {L : SnapLaws S} {PL : PodmanLaws S P}.
Context (pcfg : PodmanConfig) (backend : SnapshotBackendKind → SnapshotBackend S).
Context {BO : ∀ kind, BackendOk (backend kind)}.

(** Operations that keep an invariant of the tables, and those that do not touch
    them. *)
Class Preserves (I : SnapState → Prop) {A} (c : M S Fault A) : Prop := preserves s : I (snaps_of s) → I (snaps_of (c s).2).
Class NoTouch {A} (c : M S Fault A) : Prop := no_touch s : snaps_of (c s).2 = snaps_of s.

#[export] Instance no_touch_preserves I {A} (c : M S Fault A) : NoTouch c → Preserves I c | 10.
Proof. intros Hc s Hs. by rewrite Hc. Qed.
#[export] Instance preserves_bind I {A B} (c : M S Fault A) (k : A → M S Fault B) :
  Preserves I c → (∀ a, Preserves I (k a)) → Preserves I (c ≫= k).
Proof. intros Hc Hk s Hs. cbv [mbind M_bind]. specialize (Hc s Hs). destruct (c s) as [[a|e] s']; [by apply Hk|done]. Qed.
#[export] Instance preserves_attempt I {A} (c : M S Fault A) : Preserves I c → Preserves I (attempt_in c).
Proof. intros Hc s Hs. specialize (Hc s Hs). unfold attempt_in. by destruct (c s) as [[a|[e|p]] s']. Qed.
#[export] Instance no_touch_ret {A} (a : A) : NoTouch (mret a).
Proof. done. Qed.
#[export] Instance no_touch_throw {A} e : NoTouch (throw e : M S Fault A).
Proof. done. Qed.
#[export] Instance no_touch_fail {A} m : NoTouch (fail_with m : M S Fault A).
Proof. done. Qed.
#[export] Instance no_touch_result {A} (r : Result Error A) : NoTouch (from_result r).
Proof. by destruct r. Qed.
#[export] Instance no_touch_snaps : NoTouch snaps.
Proof. done. Qed.
#[export] Instance no_touch_world {A} (c : D A) : NoTouch (on_world c).
Proof. intros s. apply keeps_snaps. Qed.
#[export] Instance no_touch_bind {A B} (c : M S Fault A) (k : A → M S Fault B) : NoTouch c → (∀ a, NoTouch (k a)) → NoTouch (c ≫= k).
Proof. intros Hc Hk s. cbv [mbind M_bind]. specialize (Hc s). destruct (c s) as [[a|e] s']; [by rewrite Hk|done]. Qed.
#[export] Instance no_touch_attempt {A} (c : M S Fault A) : NoTouch c → NoTouch (attempt_in c).
Proof. intros Hc s. specialize (Hc s). unfold attempt_in. by destruct (c s) as [[a|[e|p]] s']. Qed.
#[export] Instance no_touch_command args input : NoTouch (run_command args input).
Proof. intros s. unfold run_command. destruct (podman_exec _ _ _). simpl. by snap_simpl. Qed.
#[export] Instance no_touch_spawn args : NoTouch (spawn_child args).
Proof. intros s. unfold spawn_child. destruct (podman_spawn _ _). simpl. by snap_simpl. Qed.
#[export] Instance no_touch_with args input : NoTouch (run_with args input).
Proof. intros s. rewrite run_with_spec. simpl. by snap_simpl. Qed.
#[export] Instance no_touch_capture args : NoTouch (run_capture pcfg args).
Proof. apply no_touch_with. Qed.
#[export] Instance no_touch_or_not_found {A} what (c : M S Fault A) : NoTouch c → NoTouch (or_not_found what c).
Proof. intros Hc s. specialize (Hc s). unfold or_not_found. by destruct (c s) as [[a|[e|p]] s']. Qed.
#[export] Instance no_touch_if {A} (b : bool) (c d : M S Fault A) : NoTouch c → NoTouch d → NoTouch (if b then c else d).
Proof. by destruct b. Qed.
#[export] Instance no_touch_decide {A} (Q : Prop) `{Decision Q} (c d : M S Fault A) : NoTouch c → NoTouch d → NoTouch (if decide Q then c else d).
Proof. by case_decide. Qed.
#[export] Instance preserves_if I {A} (b : bool) (c d : M S Fault A) : Preserves I c → Preserves I d → Preserves I (if b then c else d).
Proof. by destruct b. Qed.
#[export] Instance preserves_decide I {A} (Q : Prop) `{Decision Q} (c d : M S Fault A) :
  Preserves I c → Preserves I d → Preserves I (if decide Q then c else d).
Proof. by case_decide. Qed.
#[export] Instance no_touch_option {A B} (o : option B) (f : B → M S Fault A) d : (∀ b, NoTouch (f b)) → NoTouch d →
  NoTouch (match o with Some b => f b | None => d end).
Proof. by destruct o. Qed.
#[export] Instance preserves_option I {A B} (o : option B) (f : B → M S Fault A) d : (∀ b, Preserves I (f b)) → Preserves I d →
  Preserves I (match o with Some b => f b | None => d end).
Proof. by destruct o. Qed.
#[export] Instance preserves_match I {A B F} (r : Result F B) (f : B → M S Fault A) g : (∀ b, Preserves I (f b)) → (∀ e, Preserves I (g e)) →
  Preserves I (match r with Ok b => f b | Err e => g e end).
Proof. by destruct r. Qed.
Lemma preserves_put I g : (∀ t, I t → I (g t)) → Preserves I (put_state g).
Proof. intros Hg s Hs. simpl. rewrite snaps_of_put. by apply Hg. Qed.

#[export] Instance podman_commit_ok : BackendOk (PodmanCommitBackend pcfg).
Proof.
  split; intros; simpl.
  - apply (_ : NoTouch (snap_create pcfg c r)).
  - apply (_ : NoTouch (snap_alias pcfg x y)).
  - apply (_ : NoTouch (snap_remove pcfg r f)).
Qed.

(** * The lineage *)

Abbreviation Lin := (Preserves lineage_ok).
Lemma lin_statement f : (∀ t, lineage_ok t → lineage_ok (f t)) → Lin (statement f).
Proof. intros Hf. unfold statement. pose proof (preserves_put lineage_ok f Hf). apply _. Qed.
Lemma lin_best_effort f : (∀ t, lineage_ok t → lineage_ok (f t)) → Lin (best_effort f).
Proof. intros Hf. unfold best_effort. pose proof (preserves_put lineage_ok f Hf). apply _. Qed.
Lemma lineage_same t t' : ss_rows t' = ss_rows t → ss_seq t' = ss_seq t → lineage_ok t → lineage_ok t'.
Proof. unfold lineage_ok, ids. by intros -> ->. Qed.
#[local] Hint Extern 1 (Preserves lineage_ok (put_state _)) =>
  apply preserves_put; intros ? ?; eapply lineage_same; [..|eassumption]; reflexivity : typeclass_instances.
#[local] Instance lin_delete id : Lin (statement (delete_snap id)).
Proof. apply lin_statement, lineage_delete. Qed.
#[local] Instance lin_best_delete id : Lin (best_effort (delete_snap id)).
Proof. apply lin_best_effort, lineage_delete. Qed.
#[local] Instance lin_ref id ref : Lin (statement (map_rows (with_ref id ref))).
Proof. apply lin_statement. intros t. apply lineage_map_rows, with_ref_keeps. Qed.
#[local] Instance lin_size id n : Lin (best_effort (map_rows (with_size id n))).
Proof. apply lin_best_effort. intros t. apply lineage_map_rows, with_size_keeps. Qed.
#[local] Instance lin_job id f : Lin (statement (map_job id f)).
Proof. apply lin_statement. intros t. by apply lineage_same. Qed.
#[local] Instance lin_best_job id f : Lin (best_effort (map_job id f)).
Proof. apply lin_best_effort. intros t. by apply lineage_same. Qed.

#[local] Instance lin_insert c l ref p at_ n b : Lin (insert_snap c l ref p at_ n b).
Proof.
  intros s Hs. unfold insert_snap. cbv [mbind M_bind]. pose proof (keeps_snaps stmt s) as Hst.
  destruct (on_world stmt s) as [[[]|e] s1]; simpl in *; [|by rewrite Hst]. rewrite Hst.
  case_decide; [simpl; by rewrite Hst|]. destruct (parent_exists p (ss_rows (snaps_of s))) eqn:Hp; simpl; [|by rewrite Hst].
  rewrite snaps_of_put, Hst. apply lineage_insert; [done|done|]. simpl. intros q ->. by apply find_snap_id.
Qed.
#[local] Instance lin_commit kind c r : NoTouch (bk_commit (backend kind) c r).
Proof. intros s. apply commit_keeps. Qed.
#[local] Instance lin_tag kind x y : NoTouch (bk_tag (backend kind) x y).
Proof. intros s. apply tag_keeps. Qed.
#[local] Instance lin_remove_image kind r f : NoTouch (bk_remove (backend kind) r f).
Proof. intros s. apply remove_keeps. Qed.

#[local] Instance lin_size_of r : NoTouch (size_of pcfg r).
Proof. unfold size_of, image_inspect. apply _. Qed.
#[local] Instance lin_newest c : NoTouch (newest_of c).
Proof. unfold newest_of. apply _. Qed.
#[local] Instance lin_row_backend id : NoTouch (row_backend id).
Proof. unfold row_backend. apply _. Qed.
#[local] Instance lin_audit_backend kind id c : NoTouch (audit_backend_used kind id c).
Proof. unfold audit_backend_used. apply _. Qed.
#[local] Instance lin_create c l kind : Lin (create_with_backend pcfg backend c l kind).
Proof. unfold create_with_backend. cbv zeta. apply _. Qed.
#[local] Instance lin_list c : NoTouch (manager_list c).
Proof. unfold manager_list. apply _. Qed.
#[local] Instance lin_inspect id : NoTouch (manager_inspect id).
Proof. unfold manager_inspect. apply _. Qed.
#[local] Instance lin_remove_file kind r f : NoTouch (remove_image pcfg backend kind r f).
Proof.
  unfold remove_image, snap_remove. apply no_touch_bind; [apply _|]. intros [|[]]; try apply _.
  apply no_touch_bind; [apply _|]. by intros [|[]].
Qed.
#[local] Instance lin_remove id f : Lin (manager_remove pcfg backend id f).
Proof. unfold manager_remove. apply _. Qed.
#[local] Instance lin_prune_ids l : Lin (prune_ids pcfg backend l).
Proof. induction l as [|id l IH]; simpl; apply _. Qed.
#[local] Instance lin_prune c k : Lin (manager_prune pcfg backend c k).
Proof. unfold manager_prune. apply _. Qed.
#[local] Instance lin_podman_create o : NoTouch (podman_create pcfg o).
Proof. unfold podman_create. apply _. Qed.
#[local] Instance lin_rollback id n k : Lin (manager_rollback pcfg id n k).
Proof. unfold manager_rollback, podman_inspect, podman_remove. cbv zeta. apply _. Qed.
#[local] Instance lin_branch_ref r id : NoTouch (branch_image_ref r id).
Proof. unfold branch_image_ref. apply _. Qed.
#[local] Instance lin_branch p l f : Lin (create_branch pcfg backend p l f).
Proof. unfold create_branch. cbv zeta. apply _. Qed.

#[local] Instance lin_new_job c : NoTouch (new_job_id c).
Proof. unfold new_job_id. apply _. Qed.
#[local] Instance lin_insert_job j c l at_ : Lin (insert_job j c l at_).
Proof. unfold insert_job. apply _. Qed.
#[local] Instance lin_create_async c l : Lin (create_async c l).
Proof. unfold create_async. apply _. Qed.
#[local] Instance lin_emit j line : Lin (emit_progress j line).
Proof. unfold emit_progress. cbv zeta. apply _. Qed.
#[local] Instance lin_stream j l p a : Lin (stream j l p a).
Proof.
  revert p a. induction l as [|t l IH]; intros p a; simpl; [apply _|]. destruct (pipe_turn _ t p) as [[[line|] p']|]; [|apply IH..].
  apply preserves_bind; [apply _|]. intros _. apply IH.
Qed.
#[local] Instance lin_finalize j id m : Lin (finalize_failure j id m).
Proof. unfold finalize_failure. apply _. Qed.
#[local] Instance lin_job_exited c j id code a : Lin (job_exited pcfg c j id code a).
Proof. unfold job_exited. cbv zeta. apply _. Qed.
#[local] Instance lin_begin c l j : Lin (job_begin c l j).
Proof. unfold job_begin. apply _. Qed.
#[local] Instance lin_run_job l0 c l j : Lin (run_async_job pcfg l0 c l j).
Proof.
  unfold run_async_job. apply preserves_bind; [apply _|]. intros id.
  apply preserves_bind; [apply _|]. intros [child|]; [|apply _]. apply preserves_bind; [apply _|]. intros q. apply preserves_if; [apply _|].
  apply preserves_bind; [|apply _]. destruct (ch_wait child); apply _.
Qed.

(** Encryption and rotation keep the ids and the parents. *)
Context {X : CryptoEnv}.
#[local] Instance lin_io_step : Lin io_step.
Proof. unfold io_step. apply _. Qed.
#[local] Instance lin_files dir : NoTouch (files_in dir).
Proof. unfold files_in. apply _. Qed.
#[local] Instance lin_check ok m : NoTouch (check_io ok m : M S Fault unit).
Proof. unfold check_io. apply _. Qed.
#[local] Instance lin_create_dir dir : Lin (create_dir dir).
Proof. unfold create_dir. apply preserves_bind; [apply _|]. intros []; apply _. Qed.
#[local] Instance lin_write dir n b : Lin (write_file dir n b).
Proof. unfold write_file. apply preserves_bind; [apply _|]. intros o. apply preserves_bind; [apply _|]. intros [|]; destruct o; apply _. Qed.
#[local] Instance lin_rename dir a b : Lin (rename_file dir a b).
Proof. unfold rename_file. apply preserves_bind; [apply _|]. intros o. apply preserves_bind; [apply _|]. intros d. apply preserves_option; [|apply _]. intros ?. destruct o; apply _. Qed.
#[local] Instance lin_read dir n : Lin (read_file dir n).
Proof. unfold read_file. apply preserves_bind; [apply _|]. intros o. apply preserves_bind; [apply _|]. intros d. destruct o; apply _. Qed.
#[local] Instance lin_exists dir n : Lin (file_exists dir n).
Proof. unfold file_exists. apply _. Qed.
#[local] Instance lin_store ctx dir b m : Lin (store_pair ctx dir b m).
Proof. unfold store_pair. cbv zeta. apply _. Qed.
#[local] Instance lin_encrypt_with ctx p cfg : Lin (encrypt_with ctx p cfg).
Proof. unfold encrypt_with. apply _. Qed.
#[local] Instance lin_blocking {A} e (c : M S Fault A) : Lin c → Lin (blocking e c).
Proof. intros Hc. unfold blocking. apply _. Qed.
#[local] Instance lin_open re de dc pe dir cfg : Lin (open_pair re de dc pe dir cfg).
Proof.
  unfold open_pair. apply preserves_bind; [apply _|]. intros []; try apply _; [apply preserves_match; [|apply _]]. intros m.
  apply preserves_bind; [apply _|]. intros []; cbv zeta; apply _.
Qed.
#[local] Instance lin_save r d : NoTouch (save_image pcfg r d).
Proof. unfold save_image. apply no_touch_bind; [apply _|]. intros []; apply _. Qed.
#[local] Instance lin_temp ctx : Lin (temp_path ctx).
Proof. unfold temp_path. apply preserves_bind; [apply _|]. intros t. apply preserves_bind; [apply _|]. intros []; apply _. Qed.
#[local] Instance lin_encrypt r cfg k : Lin (encrypt_committed_image pcfg r cfg k).
Proof.
  unfold encrypt_committed_image, snap_remove. cbv zeta. apply preserves_bind; [apply _|]. intros _. apply preserves_bind; [apply _|]. intros path.
  apply preserves_bind; [apply _|]. intros file. apply preserves_bind; [|apply _]. apply lin_blocking, preserves_bind; [apply _|].
  intros []; apply _.
Qed.
#[local] Instance lin_hook r p : Lin (on_commit_snapshot pcfg r p).
Proof. unfold on_commit_snapshot, encryptor_encrypt. apply _. Qed.
#[local] Instance lin_pre_run p c : Lin (pre_run_snapshot pcfg backend p c).
Proof. unfold pre_run_snapshot, manager_create. apply _. Qed.
Lemma lin_rotation m id at_ : Lin (put_state (λ t, set_rows (record_rotation m id at_ <$> ss_rows t) (ss_seq t) t)).
Proof. apply preserves_put. intros t. apply (lineage_map_rows (record_rotation m id at_)), record_rotation_keeps. Qed.
#[local] Instance lin_rotate id k1 k2 : Lin (rotate_snapshot_key id k1 k2).
Proof.
  unfold rotate_snapshot_key, rotate_on_disk, is_image_encrypted. cbv zeta. pose proof lin_rotation. apply _.
Qed.
#[local] Instance lin_re_encrypt l k1 k2 o : Lin (re_encrypt_rows l k1 k2 o).
Proof. revert o. induction l as [|id l IH]; intros o; simpl; apply _. Qed.

(** The operations on snapshots. *)
Inductive SnapOp : Type :=
| OpCreate (container_id : string) (label : option string) (kind : option SnapshotBackendKind)
| OpRemove (id : Z) (force : bool)
| OpPrune (container_id : option string) (keep_recent : nat)
| OpRollback (id : Z) (new_name : option string) (keep_original : bool)
| OpBranch (parent_id : Z) (label : option string) (fork : bool)
| OpStartJob (container_id : string) (label : option string)
| OpRunJob (schedule : list Turn) (container_id : string) (label : option string) (job_id : string)
| OpPreRun (profile_name container_id : string)
| OpRotate (id : Z) (old_cfg new_cfg : EncryptionConfig)
| OpReEncrypt (old_cfg new_cfg : EncryptionConfig).
Definition run_snap_op (s : S) (op : SnapOp) : S :=
  match op with
  | OpCreate c l k => (create_with_backend pcfg backend c l k s).2
  | OpRemove id f => (manager_remove pcfg backend id f s).2
  | OpPrune c k => (manager_prune pcfg backend c k s).2
  | OpRollback id n k => (manager_rollback pcfg id n k s).2
  | OpBranch p l f => (create_branch pcfg backend p l f s).2
  | OpStartJob c l => (create_async c l s).2
  | OpRunJob l0 c l j => (run_async_job pcfg l0 c l j s).2
  | OpPreRun p c => (pre_run_snapshot pcfg backend p c s).2
  | OpRotate id k1 k2 => (rotate_snapshot_key id k1 k2 s).2
  | OpReEncrypt k1 k2 => (re_encrypt_all k1 k2 s).2
  end.

(** C24: The lineage of snapshots stays a forest: whatever operations run and whichever of
    their statements, files or podman calls fail, ids grow and stay unique, and the
    parent of a snapshot is an older snapshot that still exists. *)
Theorem lineage_stays_a_forest ops s :
  lineage_ok (snaps_of s) → lineage_ok (snaps_of (foldl run_snap_op s ops)).
Proof.
  revert s. induction ops as [|op ops IH]; intros s Hs; [done|]. simpl. apply IH.
  destruct op; simpl; [apply lin_create|apply lin_remove|apply lin_prune|apply lin_rollback|apply lin_branch|apply lin_create_async
    |apply lin_run_job|apply lin_pre_run|apply lin_rotate|apply (_ : Lin (re_encrypt_all old_cfg new_cfg))]; done.
Qed.

(** * Pruning *)

Lemma wp_no_touch {A} (c : M S Fault A) s (Q : Result Fault A → S → Prop) :
  NoTouch c → (∀ r s', snaps_of s' = snaps_of s → Q r s') → wp c s Q.
Proof. intros Hc HQ. apply HQ, Hc. Qed.

(** A removal deletes its row or leaves the table; it reports success only after
    deleting. *)
Lemma wp_remove id force s :
  wp (manager_remove pcfg backend id force) s (λ r s', ∃ t, ids (snaps_of s') = ids t ∧
    (t = delete_snap id (snaps_of s) ∨ t = snaps_of s ∧ is_ok r = false)).
Proof.
  unfold manager_remove. apply wp_bind, wp_no_touch; [apply _|]. intros [sm|e] s1 H1; [|rewrite H1; eauto].
  apply wp_bind, wp_no_touch; [apply _|]. intros [kind|e] s2 H2; [|rewrite H2, H1; eauto].
  apply wp_bind, wp_no_touch; [apply _|]. intros [?|e] s3 H3; [|rewrite H3, H2, H1; eauto].
  apply wp_bind. unfold statement. apply wp_bind, wp_no_touch; [apply _|]. intros [?|e] s4 H4; [|rewrite H4, H3, H2, H1; eauto].
  unfold wp at 1. simpl. apply wp_bind, wp_no_touch; [apply _|]. intros r s5 H5. rewrite snaps_of_put, H4, H3, H2, H1 in H5.
  destruct r as [?|e]; [|rewrite H5; eauto]. apply wp_no_touch; [apply _|]. intros r s6 H6. rewrite H6, H5. eauto.
Qed.

(** Nothing appears, what is not in [l] stays, and what is reported is gone. *)
Definition pruned (l : list Z) (s : S) (r : Result Fault (list Z)) (s' : S) : Prop :=
  (∀ i, i ∈ ids (snaps_of s') → i ∈ ids (snaps_of s)) ∧ (∀ i, i ∈ ids (snaps_of s) → i ∉ l → i ∈ ids (snaps_of s')) ∧
  ∀ removed, r = Ok removed → ∀ i, i ∈ removed → i ∈ l ∧ i ∉ ids (snaps_of s').
Lemma pruned_cons id l (ok : bool) s s1 s' r :
  (∀ i, i ∈ ids (snaps_of s1) → i ∈ ids (snaps_of s)) → (∀ i, i ∈ ids (snaps_of s) → i ≠ id → i ∈ ids (snaps_of s1)) →
  (ok = true → id ∉ ids (snaps_of s1)) → pruned l s1 r s' →
  pruned (id :: l) s (match r with Ok removed => Ok (if ok then id :: removed else removed) | Err e => Err e end) s'.
Proof.
  intros Hsub Hkeep Hgone (H1 & H2 & H3). split; [auto|]. split; [intros i Hi [? ?]%not_elem_of_cons; auto|].
  intros removed' Hr' i Hi. destruct r as [removed|e]; [|done]. injection Hr' as <-.
  assert (i ∈ removed → i ∈ id :: l ∧ i ∉ ids (snaps_of s')) as Hrest.
  { intros Hin. destruct (H3 removed eq_refl i Hin). split; [by right|done]. }
  destruct ok; [apply elem_of_cons in Hi as [->|Hi]|]; [|by apply Hrest..]. split; [by left|]. intros Hin. by apply (Hgone eq_refl), H1.
Qed.
Lemma wp_prune_ids l s : wp (prune_ids pcfg backend l) s (pruned l s).
Proof.
  revert s. induction l as [|id l IH]; intros s; simpl.
  { apply wp_ret. split; [done|]. split; [done|]. by intros removed [= <-] i ?%elem_of_nil. }
  apply wp_bind. unfold attempt_in, wp at 1. pose proof (wp_remove id false s) as Hr. unfold wp in Hr.
  destruct (manager_remove pcfg backend id false s) as [r s1]. simpl in *. destruct Hr as (t & Ht & Hcase).
  assert (∀ i, i ∈ ids (snaps_of s1) → i ∈ ids (snaps_of s)) as Hsub.
  { intros i. rewrite Ht. destruct Hcase as [->|[-> _]]; [|done]. rewrite ids_delete. by intros [_ ?]%list_elem_of_filter. }
  assert (∀ i, i ∈ ids (snaps_of s) → i ≠ id → i ∈ ids (snaps_of s1)) as Hkeep.
  { intros i Hi Hne. rewrite Ht. destruct Hcase as [->|[-> _]]; [|done]. rewrite ids_delete. by apply list_elem_of_filter. }
  assert (is_ok r = true → id ∉ ids (snaps_of s1)) as Hgone.
  { intros Hok. destruct Hcase as [->|[_ Hf]]; [|congruence]. rewrite Ht, ids_delete. by intros [? _]%list_elem_of_filter. }
  assert (∀ ok, (ok = true → id ∉ ids (snaps_of s1)) → wp (prune_ids pcfg backend l ≫= λ removed, mret (if ok : bool then id :: removed else removed)) s1
    (pruned (id :: l) s)) as Hrest.
  { intros ok Hok. apply wp_bind. eapply wp_mono; [apply IH|]. intros r' s' Hp.
    pose proof (pruned_cons id l ok s s1 s' r' Hsub Hkeep Hok Hp) as Hc. by destruct r'. }
  destruct r as [?|[e|p]]; [exact (Hrest true Hgone)|exact (Hrest false ltac:(done))|].
  split; [done|]. split; [|done]. intros i Hi [? ?]%not_elem_of_cons. auto.
Qed.

Lemma collect_ids rows l : collect (snap_into_summary <$> rows) = Ok l → sm_id <$> l = sw_id <$> rows.
Proof.
  revert l. induction rows as [|r rows IH]; intros l; simpl; [by intros [= <-]|].
  destruct (snap_into_summary r) as [sm|] eqn:Hr; [|done]. destruct (collect _) as [l'|]; [|done]. intros [= <-].
  change (sm_id sm :: (sm_id <$> l') = sw_id r :: (sw_id <$> rows)). rewrite (IH l' eq_refl). f_equal. unfold snap_into_summary in Hr. destruct (ts_parse _); [|done]. by injection Hr as <-.
Qed.

(** The ids of a scope, newest first. *)
Definition scope_ids (container_id : option string) (t : SnapState) : list Z :=
  sw_id <$> reverse (match container_id with Some cid => filter (λ r, sw_container_id r = cid) (ss_rows t) | None => ss_rows t end).

(** C25: Pruning never removes one of the newest [keep_recent] snapshots of its scope, nor
    one outside it, and every snapshot it reports was an older one and is gone. *)
Theorem prune_keeps_recent container_id keep_recent removed s s' :
  manager_prune pcfg backend container_id keep_recent s = (Ok removed, s') →
  let older := skipn keep_recent (scope_ids container_id (snaps_of s)) in
  (∀ i, i ∈ ids (snaps_of s) → i ∉ older → i ∈ ids (snaps_of s')) ∧
  (∀ i, i ∈ removed → i ∈ older ∧ i ∉ ids (snaps_of s')).
Proof.
  intros Hrun older. enough (wp (manager_prune pcfg backend container_id keep_recent) s (λ r s', ∀ removed, r = Ok removed →
    (∀ i, i ∈ ids (snaps_of s) → i ∉ older → i ∈ ids (snaps_of s')) ∧ (∀ i, i ∈ removed → i ∈ older ∧ i ∉ ids (snaps_of s')))) as Hw
    by exact (wp_eq _ _ _ _ _ Hw Hrun _ eq_refl).
  clear Hrun. unfold manager_prune. apply wp_bind. unfold manager_list. apply wp_bind, wp_no_touch; [apply _|]. intros [?|e] s1 H1; [|done].
  apply wp_bind. unfold wp at 1. simpl. rewrite H1.
  match goal with |- context [collect (snap_into_summary <$> ?rows)] => destruct (collect (snap_into_summary <$> rows)) as [l|] eqn:Hl end; [|done].
  apply wp_ret. apply collect_ids in Hl. assert (sm_id <$> skipn keep_recent l = older) as ->.
  { subst older. unfold scope_ids. rewrite <-Hl. symmetry. apply (skipn_map sm_id). }
  eapply wp_mono; [apply wp_prune_ids|]. intros r s2 (_ & H2 & H3) removed' Hr. rewrite <-H1. split; [apply H2|by apply H3].
Qed.

(** * Jobs settle *)

Lemma parse_image_inspect_fine out w p : (parse_image_inspect out w).1 ≠ Err (Panic p).
Proof.
  unfold parse_image_inspect, first_object, from_json, required, parse_created. cbv [mbind M_bind]. cbv zeta.
  repeat (case_match; simplify_eq/=); try done; cbv [throw] in *; simplify_eq/=; done.
Qed.
Lemma wp_size_of r s (Q : Result Fault (option Z) → S → Prop) :
  (∀ n s', snaps_of s' = snaps_of s → Q (Ok n) s') → wp (size_of pcfg r) s Q.
Proof.
  intros HQ. assert (∀ p, (image_inspect pcfg r s).1 ≠ Err (Panic p)) as Hp.
  { intros p. unfold image_inspect, or_not_found. cbv [mbind M_bind]. rewrite run_capture_spec. unfold on_world.
    destruct (podman_exec _ _ _) as [o q]. simpl. destruct (captured o) as [out|[e|p']] eqn:Hc; simpl; [|done|].
    - match goal with |- context [parse_image_inspect out ?w] => pose proof (parse_image_inspect_fine out w p) as Hf end.
      by destruct (parse_image_inspect out _).
    - unfold captured in Hc. by repeat case_match. }
  pose proof (_ : NoTouch (image_inspect pcfg r)) as Ht. specialize (Ht s).
  unfold size_of, wp, attempt_in. cbv [mbind M_bind]. destruct (image_inspect pcfg r s) as [[i|[e|p]] s1]; simpl in *; [by apply HQ..|].
  by destruct (Hp p).
Qed.

Section NoFaults.
Context (Hdb : ∀ n, db_fault n = false).

Lemma wp_stmt_ok s (Q : Result Fault unit → S → Prop) : (∀ s', snaps_of s' = snaps_of s → Q (Ok tt) s') → wp (on_world stmt) s Q.
Proof. intros HQ. unfold wp, on_world, stmt. rewrite Hdb. simpl. apply HQ. by snap_simpl. Qed.
Lemma wp_now_ok s (Q : Result Fault Z → S → Prop) : (∀ t s', snaps_of s' = snaps_of s → Q (Ok t) s') → wp (on_world now) s Q.
Proof. intros HQ. unfold wp, on_world. simpl. apply HQ. by snap_simpl. Qed.
Lemma wp_publish_ok tp k id d s (Q : Result Fault unit → S → Prop) :
  (∀ s', snaps_of s' = snaps_of s → Q (Ok tt) s') → wp (on_world (publish tp k id d)) s Q.
Proof. intros HQ. unfold wp, on_world. simpl. apply HQ. by snap_simpl. Qed.
Lemma wp_statement_ok f s (Q : Result Fault unit → S → Prop) :
  (∀ s', snaps_of s' = f (snaps_of s) → Q (Ok tt) s') → wp (statement f) s Q.
Proof. intros HQ. apply wp_bind, wp_stmt_ok. intros s1 H1. unfold wp. simpl. apply HQ. by rewrite snaps_of_put, H1. Qed.
Lemma wp_best_effort_ok f s (Q : Result Fault unit → S → Prop) :
  (∀ s', snaps_of s' = f (snaps_of s) → Q (Ok tt) s') → wp (best_effort f) s Q.
Proof.
  intros HQ. unfold best_effort. apply wp_bind. unfold attempt_in, wp at 1.
  pose proof (wp_statement_ok f s (λ r s', r = Ok tt ∧ snaps_of s' = f (snaps_of s))) as Hw. unfold wp, statement in Hw.
  destruct ((on_world stmt ≫= λ _, put_state f) s) as [r s1]. destruct Hw as [Hr Hs]; [done|]. simpl in *. subst r. by apply HQ.
Qed.

(** The job is there, and the rows are [rows]. *)
Definition job_at (job : string) (t : SnapState) : option JobRow := find (λ j, bool_decide (jb_job_id j = job)) (ss_jobs t).
Lemma job_at_map job f t : (∀ j, jb_job_id (f j) = jb_job_id j) → job_at job (map_job job f t) = f <$> job_at job t.
Proof.
  intros Hf. unfold job_at, map_job. simpl. induction (ss_jobs t) as [|j l IH]; [done|]. simpl.
  case_decide as Hd; simpl; rewrite ?Hf; case_bool_decide; done.
Qed.
Lemma job_at_delete job id t : is_Some (job_at job t) → is_Some (job_at job (delete_snap id t)).
Proof.
  unfold job_at, delete_snap. simpl. induction (ss_jobs t) as [|j l IH]; [done|]. simpl.
  assert (jb_job_id (without_snapshot id j) = jb_job_id j) as -> by (unfold without_snapshot; by case_decide).
  case_bool_decide; [by eexists|done].
Qed.

Lemma wp_emit job line s (Q : Result Fault unit → S → Prop) :
  is_Some (job_at job (snaps_of s)) →
  (∀ s', ss_rows (snaps_of s') = ss_rows (snaps_of s) → (jb_status <$> job_at job (snaps_of s')) = (jb_status <$> job_at job (snaps_of s)) → Q (Ok tt) s') →
  wp (emit_progress job line) s Q.
Proof.
  intros Hj HQ. unfold emit_progress. cbv zeta. case_decide; [by apply wp_ret, HQ|]. apply wp_bind, wp_best_effort_ok. intros s1 H1.
  apply wp_publish_ok. intros s2 H2. apply HQ; rewrite H2, H1; [done|]. rewrite job_at_map by done. by destruct (job_at job (snaps_of s)).
Qed.
Lemma job_still_there job s s' :
  (jb_status <$> job_at job (snaps_of s')) = (jb_status <$> job_at job (snaps_of s)) → is_Some (job_at job (snaps_of s)) → is_Some (job_at job (snaps_of s')).
Proof. intros Hs [j Hj]. rewrite Hj in Hs. destruct (job_at job (snaps_of s')); [by eexists|done]. Qed.
Lemma wp_stream job l p a s (Q : Result Fault (Pipes * string) → S → Prop) :
  is_Some (job_at job (snaps_of s)) →
  (∀ x s', ss_rows (snaps_of s') = ss_rows (snaps_of s) → (jb_status <$> job_at job (snaps_of s')) = (jb_status <$> job_at job (snaps_of s)) →
     Q (Ok (after_turns pipe_capacity l p, x)) s') →
  wp (stream job l p a) s Q.
Proof.
  revert p a s. induction l as [|t l IH]; intros p a s Hj HQ; [by apply wp_ret, HQ|]. cbn [stream after_turns] in *.
  destruct (pipe_turn pipe_capacity t p) as [[[line|] p']|]; [|by apply IH..]. apply wp_bind, wp_emit; [done|]. intros s1 Hr1 Hj1. apply IH.
  - by eapply job_still_there.
  - intros x s' Hr Hj'. apply HQ; congruence.
Qed.

(** How a finished job looks, after a commit that worked and one that did not. *)
Definition settled (ok : bool) (job : string) (s s' : S) : Prop :=
  ∃ j, job_at job (snaps_of s') = Some j ∧ is_Some (jb_ended_at j) ∧
    if ok
    then jb_status j = "succeeded" ∧ ∃ id row, jb_snapshot_id j = Some id ∧ jb_image_ref j = Some (snap_ref id) ∧
        id ∉ ids (snaps_of s) ∧ find_snap id (ss_rows (snaps_of s')) = Some row ∧ sw_image_ref row = snap_ref id
    else jb_status j = "failed" ∧ is_Some (jb_error_message j) ∧ ids (snaps_of s') = ids (snaps_of s).

Lemma wp_finalize job id message s0 s (Q : Result Fault unit → S → Prop) :
  is_Some (job_at job (snaps_of s)) → ids (snaps_of s) = ids (snaps_of s0) ++ [id] → id ∉ ids (snaps_of s0) →
  (∀ s', settled false job s0 s' → Q (Ok tt) s') → wp (finalize_failure job id message) s Q.
Proof.
  intros Hj Hids Hnew HQ. unfold finalize_failure. apply wp_bind, wp_now_ok. intros t s1 H1. apply wp_bind, wp_best_effort_ok. intros s2 H2.
  apply wp_bind, wp_statement_ok. intros s3 H3. apply wp_publish_ok. intros s4 H4. apply HQ. unfold settled.
  rewrite H4, H3, H2, H1, job_at_map by done. destruct (job_at_delete job id (snaps_of s) Hj) as [j ->]. simpl.
  eexists. split; [done|]. split; [by eexists|]. split; [done|]. split; [by eexists|].
  change (ids (delete_snap id (snaps_of s)) = ids (snaps_of s0)). rewrite ids_delete, Hids, filter_app, filter_cons, filter_nil.
  rewrite decide_False by (intros Hn; by apply Hn). rewrite app_nil_r. clear -Hnew.
  induction (ids (snaps_of s0)) as [|i l IH]; [done|]. apply not_elem_of_cons in Hnew as [? ?].
  rewrite filter_cons, decide_True by congruence. f_equal. by apply IH.
Qed.

Lemma find_snap_last id rows : (∀ r, r ∈ rows → sw_id r ≠ id) → ∀ row, sw_id row = id → find_snap id (rows ++ [row]) = Some row.
Proof.
  unfold find_snap. induction rows as [|r rows IH]; intros Hn row Hid; simpl; [by rewrite bool_decide_eq_true_2|].
  rewrite bool_decide_eq_false_2 by (apply Hn; by left). apply IH; [|done]. intros r' Hr'. apply Hn. by right.
Qed.
Lemma find_snap_map id f rows row :
  (∀ r, sw_id (f r) = sw_id r) → find_snap id rows = Some row → find_snap id (f <$> rows) = Some (f row).
Proof.
  intros Hf. unfold find_snap. induction rows as [|r rows IH]; [done|]. simpl. rewrite Hf. case_bool_decide; [by intros [= ->]|exact IH].
Qed.
Lemma newest_exists cid rows p : sw_id <$> last (filter (λ r, sw_container_id r = cid) rows) = Some p → is_some (find_snap p rows) = true.
Proof.
  destruct (last _) as [r|] eqn:Hl; [|done]. intros [= <-]. apply last_Some_elem_of in Hl. apply list_elem_of_filter in Hl as [_ Hr].
  unfold find_snap. induction rows as [|r' rows IH]; [by apply elem_of_nil in Hr|]. simpl. case_bool_decide as Hb; [done|].
  apply elem_of_cons in Hr as [->|Hr]; [done|by apply IH].
Qed.
Lemma lineage_fresh t : lineage_ok t → (ss_seq t + 1)%Z ∉ ids t.
Proof. intros (_ & Hb & _) Hin. eapply Forall_forall in Hb; [|exact Hin]. lia. Qed.

Lemma wp_spawn args s (Q : Result Fault (Result string Child) → S → Prop) :
  (∀ s', snaps_of s' = snaps_of s → Q (Ok (podman_spawn args (podman_of s)).1) s') → wp (spawn_child args) s Q.
Proof. intros HQ. unfold wp, spawn_child. destruct (podman_spawn _ _). simpl. apply HQ. by snap_simpl. Qed.

(** The job before its child: its row is running, a new row waits for the image, and
    podman was not called. *)
Definition begun (job : string) (s s' : S) (id : Z) : Prop :=
  ids (snaps_of s') = ids (snaps_of s) ++ [id] ∧ id ∉ ids (snaps_of s) ∧
  (jb_status <$> job_at job (snaps_of s')) = Some "running" ∧
  (∃ row, sw_id row = id ∧ find_snap id (ss_rows (snaps_of s')) = Some row).

Lemma job_begin_podman c l job s : podman_of (job_begin c l job s).2 = podman_of s.
Proof.
  assert (∀ A (m : D A) s, podman_of (on_world m s).2 = podman_of s) as Hw.
  { intros A m s0. unfold on_world. destruct (m (world_of s0)). apply podman_of_put_world. }
  assert (∀ A B (m : M S Fault A) (k : A → M S Fault B) s, (∀ s, podman_of (m s).2 = podman_of s) → (∀ a s, podman_of (k a s).2 = podman_of s) →
    podman_of ((m ≫= k) s).2 = podman_of s) as Hb.
  { intros A B m k s0 Hm Hk. cbv [mbind M_bind]. specialize (Hm s0). destruct (m s0) as [[a|e] s1]; [by rewrite Hk|done]. }
  unfold job_begin, newest_of, insert_snap, statement. repeat (apply Hb; [intros|intros ? ?]); try done.
  all: repeat case_match; try done; try apply podman_of_put_snaps.
Qed.

Lemma wp_begin container_id label job s (Q : Result Fault Z → S → Prop) :
  lineage_ok (snaps_of s) → ss_seq (snaps_of s) ≠ i64_max → is_Some (job_at job (snaps_of s)) →
  (∀ s', begun job s s' (ss_seq (snaps_of s) + 1) → podman_of s' = podman_of s → Q (Ok (ss_seq (snaps_of s) + 1)%Z) s') →
  wp (job_begin container_id label job) s Q.
Proof.
  intros Hlin Hseq Hjob HQ. pose proof (job_begin_podman container_id label job s) as Hpod.
  enough (wp (job_begin container_id label job) s (λ r s', r = Ok (ss_seq (snaps_of s) + 1)%Z ∧ begun job s s' (ss_seq (snaps_of s) + 1))) as Hw.
  { unfold wp in *. destruct (job_begin container_id label job s) as [r s']. destruct Hw as [-> Hb]. by apply HQ. }
  clear HQ Hpod. unfold job_begin, newest_of, insert_snap. apply wp_bind, wp_bind, wp_stmt_ok. intros s1 H1. unfold wp at 1. simpl.
  apply wp_bind, wp_now_ok. intros t s2 H2. rewrite H1 in H2. apply wp_bind, wp_bind, wp_stmt_ok. intros s3 H3. rewrite H2 in H3.
  apply wp_bind. unfold wp at 1. simpl. rewrite H3, decide_False by done. rewrite H1.
  set (parent := sw_id <$> last _). assert (parent_exists parent (ss_rows (snaps_of s)) = true) as ->.
  { unfold parent_exists. destruct parent as [p|] eqn:Hp; [|done]. by eapply newest_exists. }
  unfold wp at 1. simpl. set (id := (ss_seq (snaps_of s) + 1)%Z). set (row := new_row id _ _ _ _ _ _ _). set (s4 := put_snaps _ s3).
  assert (snaps_of s4 = set_rows (ss_rows (snaps_of s) ++ [row]) id (snaps_of s)) as H4 by (subst s4; by rewrite snaps_of_put, H3).
  clearbody s4. pose proof (lineage_fresh _ Hlin) as Hnew. fold id in Hnew.
  apply wp_bind, wp_statement_ok. intros s5 H5. rewrite H4 in H5. apply wp_bind, wp_publish_ok. intros s6 H6. rewrite H5 in H6.
  apply wp_ret. split; [done|]. unfold begun. rewrite H6. split_and!.
  - unfold ids. simpl. by rewrite fmap_app.
  - done.
  - rewrite job_at_map by done. destruct Hjob as [j Hj]. unfold job_at in *. simpl. by rewrite Hj.
  - exists row. split; [done|]. apply find_snap_last; [|done]. intros r Hr Heq. apply Hnew. rewrite <-Heq. by apply list_elem_of_fmap_2.
Qed.

Lemma wp_job_exited container_id job id code last_ s0 s (Q : Result Fault unit → S → Prop) :
  begun job s0 s id → (∀ s', settled (success code) job s0 s' → Q (Ok tt) s') → wp (job_exited pcfg container_id job id code last_) s Q.
Proof.
  intros (Hids & Hnew & Hst & row & Hid & Hrow) HQ. assert (is_Some (job_at job (snaps_of s))) as Hj by by destruct (job_at job (snaps_of s)).
  unfold job_exited. cbv zeta. destruct (success code); cbn [negb]; [|by apply (wp_finalize _ _ _ s0)].
  apply wp_bind, wp_statement_ok. intros s9 H9. apply wp_bind, wp_size_of. intros n s10 H10. rewrite H9 in H10.
  assert (find_snap id (ss_rows (snaps_of s10)) = Some (with_ref id (snap_ref id) row)) as Hrow10.
  { rewrite H10. apply find_snap_map; [intros; apply with_ref_keeps|done]. }
  assert (is_Some (job_at job (snaps_of s10))) as Hj10 by by rewrite H10.
  apply wp_bind. set (Q' := λ r : Result Fault unit, _).
  assert (∀ s11 row', find_snap id (ss_rows (snaps_of s11)) = Some row' → sw_image_ref row' = snap_ref id →
            is_Some (job_at job (snaps_of s11)) → Q' (Ok tt) s11) as Hfin.
  { intros s11 row' Hrow' Href [j Hj']. subst Q'. simpl. apply wp_bind, wp_now_ok. intros t' s12 H12. apply wp_bind, wp_statement_ok.
    intros s13 H13. apply wp_publish_ok. intros s14 H14. apply HQ. unfold settled.
    rewrite H14, H13, H12, job_at_map, Hj' by done. simpl. eexists. split; [done|]. split; [by eexists|]. split; [done|].
    by exists id, row'. }
  destruct n as [sz|]; [|apply wp_ret; by apply (Hfin _ _ Hrow10); [unfold with_ref; rewrite decide_True|]].
  apply wp_best_effort_ok. intros s11 H11. eapply Hfin.
  - rewrite H11. apply find_snap_map; [intros; apply with_size_keeps|exact Hrow10].
  - unfold with_size, with_ref. by repeat (case_decide; simpl).
  - by rewrite H11.
Qed.

Lemma begun_stream job s0 s s' id :
  begun job s0 s id → ss_rows (snaps_of s') = ss_rows (snaps_of s) →
  (jb_status <$> job_at job (snaps_of s')) = (jb_status <$> job_at job (snaps_of s)) → begun job s0 s' id.
Proof. intros (? & ? & ? & ?) Hr Hj. unfold begun, ids in *. by rewrite Hr, Hj. Qed.

(** What podman spawns for the next snapshot of a container. *)
Definition commit_child (container_id : string) (s : S) : Result string Child :=
  (podman_spawn (base_command pcfg ++ ["commit"; container_id; snap_ref (ss_seq (snaps_of s) + 1)]) (podman_of s)).1.

(** C26: A background snapshot ends, provided the error output of [podman commit] fits
    into its pipe. Once the job's row exists and while statements succeed, whichever
    way the turns of the child and of the progress task interleave, if both get as many
    as they need the task returns. The job has then succeeded exactly when the child
    could be spawned and waited for and exited with 0, with the row of a new snapshot
    that carries its final reference; otherwise it has failed, with an error and no row
    left behind. *)
Theorem jobs_settle schedule container_id label job s :
  lineage_ok (snaps_of s) → ss_seq (snaps_of s) ≠ i64_max → is_Some (job_at job (snaps_of s)) →
  (∀ child, commit_child container_id s = Ok child →
     line_bytes (err_lines (ch_writes child)) ≤ pipe_capacity ∧ rounds (3 * length (ch_writes child) + 2) schedule) →
  let ok := match commit_child container_id s with Ok child => bool_decide (ch_wait child = Ok (Some 0%Z)) | Err _ => false end in
  let '(r, s') := run_async_job pcfg schedule container_id label job s in r = Ok true ∧ settled ok job s s'.
Proof.
  intros Hlin Hseq Hjob Hchild ok. enough (wp (run_async_job pcfg schedule container_id label job) s (λ r s', r = Ok true ∧ settled ok job s s')) as Hw.
  { destruct (run_async_job _ _ _ _ _ s) as [r s'] eqn:Hr. exact (wp_eq _ _ _ _ _ Hw Hr). }
  unfold run_async_job. apply wp_bind, wp_begin; [done..|]. intros s1 Hb Hpod. apply wp_bind, wp_spawn. intros s2 H2. rewrite Hpod.
  fold (commit_child container_id s). assert (begun job s s2 (ss_seq (snaps_of s) + 1)) as Hb2 by (unfold begun in *; by rewrite H2).
  clear Hb H2. pose proof Hb2 as (Hids & Hnew & Hst & _).
  assert (is_Some (job_at job (snaps_of s2))) as Hj by by destruct (job_at job (snaps_of s2)).
  subst ok. destruct (commit_child container_id s) as [child|e].
  - destruct (Hchild child eq_refl) as [Hfit Hrounds]. apply wp_bind, wp_stream; [done|]. intros last_ s3 Hr3 Hj3.
    pose proof (begun_stream _ _ _ _ _ Hb2 Hr3 Hj3) as Hb3. cbn [fst snd].
    rewrite (rounds_drain _ _ _ _ Hrounds) by (first [intros _; exact Hfit | unfold turns_left; cbn; lia]). cbn [negb]. apply wp_bind.
    destruct (ch_wait child) as [code|e].
    + apply (wp_job_exited _ _ _ _ _ s); [done|]. intros s4 H4. apply wp_ret. split; [done|].
      assert (bool_decide (Ok code = Ok (Some 0%Z) :> Result string (option Z)) = success code) as ->; [|done].
      unfold success. apply bool_decide_ext. naive_solver.
    + destruct Hb3 as (Hids3 & Hnew3 & Hst3 & _). apply (wp_finalize _ _ _ s); [by destruct (job_at job (snaps_of s3))|done..|].
      intros s4 H4. by apply wp_ret.
  - apply wp_bind, (wp_finalize _ _ _ s); [done..|]. intros s3 H3. by apply wp_ret.
Qed.

(** The progress task reads the error output only after the standard output has ended. A
    child with more to say there than the pipe takes never ends, and its job stays
    [running] with a row that has no image, whatever the schedule. *)
Theorem full_stderr_strands_the_job schedule container_id label job child s :
  lineage_ok (snaps_of s) → ss_seq (snaps_of s) ≠ i64_max → is_Some (job_at job (snaps_of s)) →
  commit_child container_id s = Ok child → pipe_capacity < line_bytes (err_lines (ch_writes child)) →
  Forall (λ l, is_utf8 l = true) (out_lines (ch_writes child)) →
  let '(r, s') := run_async_job pcfg schedule container_id label job s in
  r = Ok false ∧ begun job s s' (ss_seq (snaps_of s) + 1).
Proof.
  intros Hlin Hseq Hjob Hchild Hfull Hutf.
  enough (wp (run_async_job pcfg schedule container_id label job) s (λ r s', r = Ok false ∧ begun job s s' (ss_seq (snaps_of s) + 1))) as Hw.
  { destruct (run_async_job _ _ _ _ _ s) as [r s'] eqn:Hr. exact (wp_eq _ _ _ _ _ Hw Hr). }
  unfold run_async_job. apply wp_bind, wp_begin; [done..|]. intros s1 Hb Hpod. apply wp_bind, wp_spawn. intros s2 H2. rewrite Hpod.
  fold (commit_child container_id s). rewrite Hchild. assert (begun job s s2 (ss_seq (snaps_of s) + 1)) as Hb2 by (unfold begun in *; by rewrite H2).
  apply wp_bind, wp_stream; [destruct Hb2 as (_ & _ & Hst & _); by destruct (job_at job (snaps_of s2))|]. intros last_ s3 Hr3 Hj3. cbn [fst snd].
  rewrite waits_forever by (split_and!; [done|apply Nat.le_0_l|exact Hfull|exact Hutf]). apply wp_ret. split; [done|]. by eapply begun_stream.
Qed.
End NoFaults.

(** Rolling back creates the container with podman's defaults: nothing of the sandbox
    the original ran under is asked for again. *)
Theorem rollback_is_unconfined id new_name keep new_id name s s' :
  manager_rollback pcfg id new_name keep s = (Ok (new_id, name), s') →
  ∃ opts p out, captured (podman_exec (base_command pcfg ++ create_args opts) None p).1 = Ok out ∧ new_id = trim out ∧
    sandbox_profile opts = None ∧ networks opts = [] ∧ cap_drop opts = [] ∧ security_opts opts = [] ∧ read_only opts = false.
Proof.
  unfold manager_rollback. intros Hr. inv_bind Hr sm s1 H1. inv_bind Hr insp s2 H2. cbv zeta in Hr. inv_bind Hr nid s3 H3.
  inv_bind Hr u s4 H4. inv_bind Hr v s5 H5. inv_bind Hr x s6 H6. run_simpl Hr.
  match type of H3 with podman_create pcfg ?o s2 = _ => set (opts := o) in *; destruct (podman_create_spec pcfg opts s2) as [_ Hc] end.
  destruct (Hc new_id) as (_ & out & Hout & Heq); [by rewrite H3|].
  exists opts, (podman_of s2), out. split; [done|]. split; [done|]. subst opts. by destruct insp.
Qed.
End Preservation.

(** * Examples *)

Definition toy_nanos : NanoClock := {| nanos := N.of_nat |}.
Definition demo_backend {C : PodmanCli Calls} (_ : SnapshotBackendKind) : SnapshotBackend SnapDemo := PodmanCommitBackend plain_config.
Definition second_snap : SnapRow := new_row 2 "c1" None "linpodx-snap-2" (Some 1%Z) "1000" None "podman_commit".
Definition two_snaps : SnapDemo := (empty_world, [], set_rows [demo_snap; second_snap] 2 no_snaps).
#[local] Instance demo_backend_ok {C : PodmanCli Calls} kind : BackendOk (demo_backend kind).
Proof. apply podman_commit_ok. Qed.

Lemma two_snaps_ok : lineage_ok (snaps_of two_snaps).
Proof.
  split_and!; cbn.
  - repeat constructor.
  - repeat constructor; lia.
  - apply Forall_cons. split; [by intros p [=]|]. apply Forall_singleton. intros p [= <-]. split; [done|]. by left.
Qed.

(** A child that says what the table says, first on one output, then on the other. *)
Definition recording_child (answer : list string → ProcOutcome) (capacity : nat) : PodmanChild Calls := {|
  podman_spawn := λ args calls,
    (match answer args with
     | SpawnFailed _ => Err "not found"
     | Exited code out err _ => Ok {| ch_writes := (OutLine <$> lines out) ++ (ErrLine <$> lines err); ch_wait := Ok code |}
     end, calls ++ [(args, None)]);
  pipe_capacity := capacity |}.
Definition fair (n : nat) : list Turn := concat (replicate n [ReaderTurn; ChildTurn]).
Lemma rounds_fair n : rounds n (fair n).
Proof. induction n as [|n IH]; [apply rounds_none|]. apply (rounds_more n [ReaderTurn; ChildTurn]); [right; by left|by left|done]. Qed.

Lemma lineage_stays_a_forest_witness :
  let C := recording_cli saving_answer in
  let PC := recording_child saving_answer 65536 in
  let X := toy_crypto good_disk in
  lineage_ok (snaps_of (foldl (run_snap_op (E := toy_env) (K := toy_codec) (NC := toy_nanos) (H := no_host) plain_config demo_backend) two_snaps
    [OpCreate "c1" None None; OpRemove 1 false; OpPrune None 1; OpRotate 3 old_key new_key; OpRunJob [ReaderTurn; ChildTurn] "c1" None "job"])).
Proof.
  intros C PC X. exact (lineage_stays_a_forest (E := toy_env) (K := toy_codec) (NC := toy_nanos) (H := no_host) plain_config demo_backend
    [OpCreate "c1" None None; OpRemove 1 false; OpPrune None 1; OpRotate 3 old_key new_key; OpRunJob [ReaderTurn; ChildTurn] "c1" None "job"] two_snaps two_snaps_ok).
Defined.

Lemma prune_keeps_recent_witness :
  let C := recording_cli saving_answer in
  let s' := (manager_prune (E := toy_env) plain_config demo_backend None 1 two_snaps).2 in
  let older := skipn 1 (scope_ids None (snaps_of two_snaps)) in
  (∀ i, i ∈ ids (snaps_of two_snaps) → i ∉ older → i ∈ ids (snaps_of s')) ∧ (∀ i, i ∈ [1%Z] → i ∈ older ∧ i ∉ ids (snaps_of s')).
Proof.
  intros C s'. apply (prune_keeps_recent (E := toy_env) plain_config demo_backend None 1 [1%Z] two_snaps s').
  vm_compute. reflexivity.
Defined.

Definition started_job : SnapDemo :=
  (create_async (E := toy_env) (NC := toy_nanos) "c1" None two_snaps).2.
Definition started_id : string := unwrap_or "" (head (jb_job_id <$> ss_jobs (snaps_of started_job))).
Definition commit_answer (args : list string) : ProcOutcome :=
  match args with
  | "commit" :: _ => Exited (Some 0%Z) ("abc" +:+ String newline "") ("Copying blob" +:+ String newline "") None
  | _ => saving_answer args
  end.
Lemma commits : commit_child (PC := recording_child commit_answer 65536) plain_config "c1" started_job
  = Ok {| ch_writes := [OutLine "abc"; ErrLine "Copying blob"]; ch_wait := Ok (Some 0%Z) |}.
Proof. vm_check. Qed.
Lemma jobs_settle_witness :
  let C := recording_cli commit_answer in
  let PC := recording_child commit_answer 65536 in
  let '(r, s') := run_async_job (E := toy_env) (K := toy_codec) plain_config (fair 8) "c1" None started_id started_job in
  r = Ok true ∧ settled true started_id started_job s'.
Proof.
  intros C PC. assert (is_Some (job_at started_id (snaps_of started_job))) as Hj by (vm_compute; by eexists).
  assert (ss_seq (snaps_of started_job) ≠ i64_max) as Hs by (vm_compute; discriminate).
  assert (∀ child, commit_child (PC := PC) plain_config "c1" started_job = Ok child →
    line_bytes (err_lines (ch_writes child)) ≤ pipe_capacity ∧ rounds (3 * length (ch_writes child) + 2) (fair 8)) as Hc.
  { intros child Hc. subst C PC. rewrite commits in Hc. injection Hc as <-. split; [apply Nat.leb_le; vm_check|exact (rounds_fair 8)]. }
  pose proof (jobs_settle (E := toy_env) (K := toy_codec) (C := C) (PC := PC) plain_config (λ _, eq_refl) (fair 8) "c1" None started_id started_job
    two_snaps_ok Hs Hj Hc) as Hw.
  cbv zeta in Hw. rewrite (commits : commit_child (PC := PC) plain_config "c1" started_job = _) in Hw. exact Hw.
Defined.

(** The same child with a pipe of ten bytes: after any number of turns the job is still
    running. *)
Lemma full_stderr_strands_the_job_witness :
  let C := recording_cli commit_answer in
  let PC := recording_child commit_answer 10 in
  let '(r, s') := run_async_job (E := toy_env) (K := toy_codec) plain_config (fair 800) "c1" None started_id started_job in
  r = Ok false ∧ begun started_id started_job s' (ss_seq (snaps_of started_job) + 1).
Proof.
  intros C PC. assert (is_Some (job_at started_id (snaps_of started_job))) as Hj by (vm_compute; by eexists).
  assert (ss_seq (snaps_of started_job) ≠ i64_max) as Hs by (vm_compute; discriminate).
  assert (10 < line_bytes (err_lines [OutLine "abc"; ErrLine "Copying blob"])) as Hf by (apply Nat.leb_le; vm_check).
  assert (Forall (λ l, is_utf8 l = true) (out_lines [OutLine "abc"; ErrLine "Copying blob"])) as Hu by (apply (bool_decide_eq_true_1 _); vm_check).
  pose proof (full_stderr_strands_the_job (E := toy_env) (K := toy_codec) (C := C) (PC := PC) plain_config (λ _, eq_refl) (fair 800) "c1" None started_id
    {| ch_writes := [OutLine "abc"; ErrLine "Copying blob"]; ch_wait := Ok (Some 0%Z) |} started_job two_snaps_ok Hs Hj commits Hf Hu) as Hw.
  exact Hw.
Defined.

(** A statement that fails after the commit leaves the job running for good, and its
    row without a reference. *)
Definition fails_late : Env := toy_env_with toy_texts (λ n, bool_decide (n = 6)).
Lemma failed_statement_strands_the_job :
  let C := recording_cli commit_answer in
  let PC := recording_child commit_answer 65536 in
  let '(r, s') := run_async_job (E := fails_late) (K := toy_codec) plain_config (fair 8) "c1" None started_id started_job in
  r = Err (Fail Sqlx) ∧ (jb_status <$> ss_jobs (snaps_of s')) = ["running"] ∧ last (sw_image_ref <$> ss_rows (snaps_of s')) = Some "linpodx-snap-pending".
Proof. vm_compute. done. Qed.
