(* ===== verification/Layers.v ===== *)
(** The layer-aware diff of two snapshots: saved images and their layers
    ([linpodx-runtime/src/oci_tar.rs]), [diff_v2] ([snapshot.rs]) and its caller in the
    manager ([linpodx-sandbox/src/snapshot.rs]).

    The tar and gzip readers are parameters. A set of [FileEntry] values, which are equal
    when their paths are, is a map from paths. Error texts end before a foreign error's
    text. *)
From S2P Require Import Prelude Text Json Common Schema Database AuditKinds AuditLog Logging Embedding KeyRegistry Parse Podman Resources SnapCrypto SnapStore Snapshots.

(** * oci_tar.rs *)

(** What the reader yields for one member: its path (bytes, unless it cannot be told),
    whether it is a regular file, the numbers of its header if they can be read, and its
    contents. *)
Record TarEntry : Type := {
  te_path : option string;
  te_is_file : bool;
  te_size : option Z;
  te_mode : option Z;
  te_body : option string;
}.
(** The members of an archive in order; [None] is a member that cannot be read, and
    reading stops there. [tar_gz_entries] reads through the decompressor. *)
Class TarReader := {
  tar_entries : string → list (option TarEntry);
  tar_gz_entries : string → list (option TarEntry);
}.

Record FileEntry : Type := {
  fe_path : string;
  fe_size : Z;
  fe_mode : Z;
}.

(** [Path::file_name]: the last component, [.] and empty ones aside. *)
Definition path_file_name (p : string) : option string :=
  match last (filter (λ c, c ≠ "" ∧ c ≠ ".") (split slash p)) with
  | Some c => if decide (c = "..") then None else Some c
  | None => None
  end.
Definition normalize_path (p : string) : string :=
  let trimmed := unwrap_or p (strip_prefix "./" p) in
  if starts_with trimmed "/" then trimmed else "/" +:+ trimmed.

(** One member of a layer: [Ok None] is passed over. *)
Definition layer_entry (e : TarEntry) : Result Error (option FileEntry) :=
  if negb (te_is_file e) then Ok None
  else match te_path e with
       | None => Err (Runtime "oci_tar layer entry path: ")
       | Some raw =>
           let basename := unwrap_or "" (from_utf8_lossy <$> path_file_name raw) in
           if starts_with basename ".wh." then Ok None
           else Ok (Some {| fe_path := normalize_path (from_utf8_lossy raw); fe_size := unwrap_or 0%Z (te_size e);
                            fe_mode := unwrap_or 0%Z (te_mode e) |})
       end.
Fixpoint walk_layer (entries : list (option TarEntry)) : Result Error (list FileEntry) :=
  match entries with
  | [] => Ok []
  | None :: _ => Err (Runtime "oci_tar layer entry: ")
  | Some e :: rest =>
      match layer_entry e with
      | Err er => Err er
      | Ok o => match walk_layer rest with
                | Ok l => Ok (match o with Some f => f :: l | None => l end)
                | Err er => Err er
                end
      end
  end.

Definition json_strings (v : Value) : option (list string) := as_array v ≫= mapM as_str.
(** Deserialising [ManifestEntry] and the list of them. *)
Definition manifest_entry (v : Value) : option (list string) :=
  match v with
  | JObject m => match obj_find "Layers" m with Some l => json_strings l | None => Some [] end
  | JArray [] => Some []
  | JArray [l] => json_strings l
  | _ => None
  end.

Section Tar.
Context {E : Env} {TR : TarReader}.

Definition entries_from_layer_bytes (bytes : string) : Result Error (list FileEntry) :=
  match bytes with
  | String a (String b _) =>
      if bool_decide (byte_val a = 31%N) && bool_decide (byte_val b = 139%N) then walk_layer (tar_gz_entries bytes)
      else walk_layer (tar_entries bytes)
  | _ => walk_layer (tar_entries bytes)
  end.
(** The first member of that name; one that cannot be read before it is an error. *)
Fixpoint find_member (member : string) (entries : list (option TarEntry)) : Result Error string :=
  match entries with
  | [] => Err (Runtime ("oci_tar member not found: " +:+ member))
  | None :: _ => Err (Runtime "oci_tar entry: ")
  | Some e :: rest =>
      match te_path e with
      | None => Err (Runtime "oci_tar entry path: ")
      | Some p =>
          if decide (from_utf8_lossy p = member)
          then match te_body e with Some b => Ok b | None => Err (Runtime ("oci_tar read " +:+ member +:+ ": ")) end
          else find_member member rest
      end
  end.
Definition manifest_layers (raw : string) : Result Error (list string) :=
  match (v ← json_from_str raw; l ← as_array v; mapM manifest_entry l) with
  | None => Err (Runtime "oci_tar manifest.json parse error: ")
  | Some [] => Err (Runtime "oci_tar manifest.json has no entries")
  | Some ([] :: _) => Err (Runtime "oci_tar manifest.json first entry has no Layers")
  | Some (layers :: _) => Ok layers
  end.
End Tar.

(** Later entries override earlier ones of the same path. *)
Definition add_entries (entries : list FileEntry) (by_path : gmap string FileEntry) : gmap string FileEntry :=
  foldl (λ m e, <[fe_path e := e]> m) by_path entries.

(** * snapshot.rs: diff_v2 *)

Record FileChange : Type := {
  fc_kind : string;
  fc_path : string;
  fc_layer_id : string;
}.
Record LayerInfo : Type := {
  ly_id : string;
  ly_size : Z;
  ly_created_by : option string;
}.
Record SnapshotDiffV2 : Type := {
  dv_id_a : Z;
  dv_id_b : Z;
  dv_common : nat;
  dv_a_only : list LayerInfo;
  dv_b_only : list LayerInfo;
  dv_changes : list FileChange;
  dv_size_delta : Z;
  dv_used_layer_path : bool;
}.

Definition change (kind path : string) : FileChange := {| fc_kind := kind; fc_path := path; fc_layer_id := "" |}.
(** The order of kinds, then paths. *)
Definition change_le (x y : FileChange) : Prop :=
  match String.compare (fc_kind x) (fc_kind y) with
  | Lt => True
  | Eq => String.le (fc_path x) (fc_path y)
  | Gt => False
  end.
#[export] Instance change_le_dec x y : Decision (change_le x y).
Proof. unfold change_le. destruct (String.compare _ _); apply _. Defined.

Definition paths_of (m : gmap string FileEntry) : list string := (map_to_list m).*1.
Definition diff_file_sets (a b : gmap string FileEntry) : list FileChange :=
  let modified := λ p, match a !! p, b !! p with
                       | Some x, Some y => negb (bool_decide (fe_size x = fe_size y)) || negb (bool_decide (fe_mode x = fe_mode y))
                       | _, _ => false
                       end in
  merge_sort change_le
    ((change "added" <$> filter (λ p, a !! p = None) (paths_of b))
     ++ (change "deleted" <$> filter (λ p, b !! p = None) (paths_of a))
     ++ (change "modified" <$> filter (λ p, modified p = true) (paths_of a))).

Fixpoint common_prefix_len (a b : list string) : nat :=
  match a, b with
  | x :: a', y :: b' => if decide (x = y) then S (common_prefix_len a' b') else 0
  | _, _ => 0
  end.

(** A field that may be given under two names, not under both. *)
Definition aliased (m : list (string * Value)) (k k' : string) : option (option Value) :=
  match obj_find k m, obj_find k' m with
  | Some _, Some _ => None
  | Some v, None | None, Some v => Some (Some v)
  | None, None => Some None
  end.
Definition opt_string (v : option Value) : option (option string) :=
  match v with None | Some JNull => Some None | Some v => Some <$> as_str v end.
Definition opt_strings (v : option Value) : option (option (list string)) :=
  match v with None | Some JNull => Some None | Some v => Some <$> json_strings v end.
(** Deserialising [RootFs]: its layers. *)
Definition root_fs_of (v : Value) : option (option (list string)) :=
  match v with
  | JObject m =>
      ty ← aliased m "_ty" "Type";
      layers ← aliased m "layers" "Layers";
      _ ← opt_string ty;
      opt_strings layers
  | JArray [] => Some None
  | JArray [ty] => _ ← opt_string (Some ty); Some None
  | JArray [ty; layers] => _ ← opt_string (Some ty); opt_strings (Some layers)
  | _ => None
  end.

Section Diff.
Context {E : Env} {K : MarkerCodec} {TR : TarReader} {X : CryptoEnv} {NC : NanoClock} {H : HostEnv}.
Context {S : Type} {W : HasWorld S} {P : Type} {C : PodmanCli P} {HP : HasPodman S P} {T : HasSnaps S}.
Context (pcfg : PodmanConfig).

Definition parse_root_fs (raw : string) : Result Error (list string) :=
  let trimmed := trim raw in
  if bool_decide (trimmed = "") || bool_decide (trimmed = "null") then Ok []
  else match json_from_str trimmed ≫= root_fs_of with
       | Some layers => Ok (unwrap_or [] layers)
       | None => Err (Runtime "podman image inspect RootFS parse error: ")
       end.
Definition image_layers (image_ref : string) : M S Fault (list string) :=
  out ← or_not_found image_ref (run_capture pcfg ["image"; "inspect"; "--format"; "{{json .RootFS}}"; image_ref]);
  from_result (parse_root_fs out).

(** Every member is read from the file anew. *)
Definition read_member_bytes (file : option string) (member : string) : M S Fault string :=
  o ← io_step;
  match o, file with
  | IoOk, Some bytes => from_result (find_member member (tar_entries bytes))
  | _, _ => fail_with "oci_tar open "
  end.
Fixpoint add_layers (file : option string) (layers : list string) (by_path : gmap string FileEntry) : M S Fault (gmap string FileEntry) :=
  match layers with
  | [] => mret by_path
  | layer :: rest =>
      bytes ← read_member_bytes file layer;
      entries ← from_result (entries_from_layer_bytes bytes);
      add_layers file rest (add_entries entries by_path)
  end.
Definition list_files_in_oci (file : option string) : M S Fault (gmap string FileEntry) :=
  raw ← read_member_bytes file "manifest.json";
  layers ← from_result (manifest_layers raw);
  add_layers file layers ∅.

Definition compute_file_changes (image_a image_b : string) : M S Fault (list FileChange) :=
  t ← snaps;
  d ← io_step; (* tempdir *)
  match d with
  | IoOk =>
      let dir := temp_file (ss_io t) in
      file_a ← save_image pcfg image_a (join dir "a.tar");
      file_b ← save_image pcfg image_b (join dir "b.tar");
      set_a ← list_files_in_oci file_a;
      set_b ← list_files_in_oci file_b;
      mret (diff_file_sets set_a set_b)
  | _ => fail_with "diff_v2 tempdir: "
  end.
Fixpoint layer_infos (digests : list string) : M S Fault (list LayerInfo) :=
  match digests with
  | [] => mret []
  | d :: rest =>
      size ← attempt_in (image_size_bytes pcfg d);
      l ← layer_infos rest;
      mret ({| ly_id := d; ly_size := match size with Ok n => n | Err _ => 0%Z end; ly_created_by := None |} :: l)
  end.
(** Sizes are [i64]; their difference wraps. *)
Definition diff_v2 (image_a image_b : string) : M S Fault SnapshotDiffV2 :=
  layers_a ← image_layers image_a;
  layers_b ← image_layers image_b;
  let common := common_prefix_len layers_a layers_b in
  a_only ← layer_infos (skipn common layers_a);
  b_only ← layer_infos (skipn common layers_b);
  size_a ← attempt_in (image_size_bytes pcfg image_a);
  size_b ← attempt_in (image_size_bytes pcfg image_b);
  changes ← attempt_in (compute_file_changes image_a image_b);
  let or_zero := λ r : Result Error Z, match r with Ok n => n | Err _ => 0%Z end in
  mret {| dv_id_a := 0; dv_id_b := 0; dv_common := common; dv_a_only := a_only; dv_b_only := b_only;
          dv_changes := match changes with Ok l => l | Err _ => [] end;
          dv_size_delta := u64_as_i64 (or_zero size_b - or_zero size_a); dv_used_layer_path := true |}.
Definition manager_diff_v2 (id_a id_b : Z) : M S Fault SnapshotDiffV2 :=
  a ← manager_inspect id_a;
  b ← manager_inspect id_b;
  r ← diff_v2 (sm_image_ref a) (sm_image_ref b);
  mret {| dv_id_a := id_a; dv_id_b := id_b; dv_common := dv_common r; dv_a_only := dv_a_only r; dv_b_only := dv_b_only r;
          dv_changes := dv_changes r; dv_size_delta := dv_size_delta r; dv_used_layer_path := dv_used_layer_path r |}.
End Diff.

(** * Lemmas *)

Lemma add_entries_lookup l m p :
  add_entries l m !! p = match last (filter (λ e, fe_path e = p) l) with Some e => Some e | None => m !! p end.
Proof.
  unfold add_entries. revert m. induction l as [|e l IH]; intros m; [done|]. cbn [foldl]. rewrite IH, filter_cons.
  case_decide as Hp.
  - rewrite last_cons. destruct (last (filter _ l)); [done|]. subst. by rewrite lookup_insert_eq.
  - destruct (last (filter _ l)); [done|]. by rewrite lookup_insert_ne.
Qed.
Lemma add_entries_app l l' m : add_entries (l ++ l') m = add_entries l' (add_entries l m).
Proof. apply foldl_app. Qed.

#[export] Instance change_le_total : Total change_le.
Proof.
  intros x y. unfold change_le. rewrite (String.compare_antisym (fc_kind x) (fc_kind y)).
  destruct (String.compare (fc_kind y) (fc_kind x)); simpl; [apply (total String.le)|by right|by left].
Qed.

Definition changed (a b : gmap string FileEntry) (c : FileChange) : Prop :=
  fc_layer_id c = "" ∧
  ((fc_kind c = "added" ∧ a !! fc_path c = None ∧ is_Some (b !! fc_path c)) ∨
   (fc_kind c = "deleted" ∧ is_Some (a !! fc_path c) ∧ b !! fc_path c = None) ∨
   (fc_kind c = "modified" ∧ ∃ x y, a !! fc_path c = Some x ∧ b !! fc_path c = Some y ∧ (fe_size x ≠ fe_size y ∨ fe_mode x ≠ fe_mode y))).

Lemma elem_of_paths m p : p ∈ paths_of m ↔ is_Some (m !! p).
Proof.
  unfold paths_of. rewrite list_elem_of_fmap. split.
  - intros ([q e] & -> & He%elem_of_map_to_list). by exists e.
  - intros [e He]. exists (p, e). split; [done|]. by apply elem_of_map_to_list.
Qed.
Lemma nodup_paths m : NoDup (paths_of m).
Proof. apply NoDup_fst_map_to_list. Qed.
Lemma elem_of_changes kind (l : list string) c : c ∈ change kind <$> l ↔ fc_kind c = kind ∧ fc_layer_id c = "" ∧ fc_path c ∈ l.
Proof.
  rewrite list_elem_of_fmap. split; [by intros (p & -> & Hp)|]. intros (Hk & Hl & Hp). exists (fc_path c).
  split; [|done]. destruct c. simpl in *. by subst.
Qed.
Lemma paths_of_changes kind (l : list string) : fc_path <$> (change kind <$> l) = l.
Proof. rewrite <-list_fmap_compose. apply list_fmap_id. Qed.

(** The changes are exactly the difference of the two views, each path at most once, in
    the order of kinds and paths. *)
Theorem diff_is_exact a b :
  Sorted change_le (diff_file_sets a b) ∧ NoDup (fc_path <$> diff_file_sets a b) ∧
  (∀ c, c ∈ diff_file_sets a b ↔ changed a b c).
Proof.
  unfold diff_file_sets. split_and!; [apply (Sorted_merge_sort _)| |].
  - rewrite merge_sort_Permutation, !fmap_app, !paths_of_changes. apply NoDup_app. split_and!; [apply NoDup_filter, nodup_paths| |].
    + intros p [Ha _]%list_elem_of_filter [[_ Hp%elem_of_paths]%list_elem_of_filter|[_ Hp%elem_of_paths]%list_elem_of_filter]%elem_of_app;
        rewrite Ha in Hp; by destruct Hp.
    + apply NoDup_app. split_and!; [apply NoDup_filter, nodup_paths| |apply NoDup_filter, nodup_paths].
      intros p [Hb _]%list_elem_of_filter [Hm _]%list_elem_of_filter. rewrite Hb in Hm. by destruct (a !! p).
  - intros c. rewrite merge_sort_Permutation, !elem_of_app, !elem_of_changes, !list_elem_of_filter, !elem_of_paths.
    unfold changed. split.
    + intros [(Hk & Hl & Ha & Hb)|[(Hk & Hl & Hb & Ha)|(Hk & Hl & Hm & Ha)]]; (split; [done|]); [by left|by right; left|right; right].
      split; [done|]. destruct (a !! fc_path c) as [x|], (b !! fc_path c) as [y|]; try done. exists x, y. split_and!; [done..|].
      apply orb_true_iff in Hm as [Hm%negb_true_iff%bool_decide_eq_false|Hm%negb_true_iff%bool_decide_eq_false]; auto.
    + intros (Hl & [(Hk & Ha & Hb)|[(Hk & Ha & Hb)|(Hk & x & y & Ha & Hb & Hd)]]); [by left|by right; left|right; right].
      rewrite Ha, Hb. split_and!; [done..| |by eexists].
      apply orb_true_iff. destruct Hd; [left|right]; by rewrite bool_decide_false.
Qed.

(** The shared layers are the longest common prefix. *)
Theorem common_prefix_is_longest a b :
  let n := common_prefix_len a b in
  take n a = take n b ∧ (∀ x y, head (skipn n a) = Some x → head (skipn n b) = Some y → x ≠ y).
Proof.
  cbv zeta. revert b. induction a as [|x a IH]; intros [|y b]; simpl; [done..|]. case_decide as Hxy.
  - subst. simpl. destruct (IH b) as [-> Hd]. by split.
  - simpl. split; [done|]. congruence.
Qed.

Section Views.
Context {E : Env} {K : MarkerCodec} {TR : TarReader} {X : CryptoEnv} {NC : NanoClock} {H : HostEnv}.
Context {S : Type} {W : HasWorld S} {P : Type} {C : PodmanCli P} {HP : HasPodman S P} {T : HasSnaps S}.
Context (pcfg : PodmanConfig).

(** What a saved image shows: the files of its layers, from the base to the top. *)
Fixpoint layer_files (bytes : string) (layers : list string) : Result Error (list FileEntry) :=
  match layers with
  | [] => Ok []
  | layer :: rest =>
      match find_member layer (tar_entries bytes) with
      | Err e => Err e
      | Ok b => match entries_from_layer_bytes b with
                | Err e => Err e
                | Ok l => match layer_files bytes rest with Ok l' => Ok (l ++ l') | Err e => Err e end
                end
      end
  end.
Definition image_files (bytes : string) (l : list FileEntry) : Prop :=
  ∃ raw layers, find_member "manifest.json" (tar_entries bytes) = Ok raw ∧ manifest_layers raw = Ok layers ∧
                layer_files bytes layers = Ok l.
(** podman saved the image as these bytes when it was asked to. *)
Definition saved_to (image_ref dest bytes : string) (s : S) : Prop :=
  ∃ out err, (podman_exec (base_command pcfg ++ ["save"; image_ref; "-o"; dest]) None (podman_of s)).1 = Exited (Some 0%Z) out err (Some bytes).
(** The topmost entry of each path. *)
Definition shows (l : list FileEntry) (v : gmap string FileEntry) : Prop :=
  ∀ p, v !! p = last (filter (λ e, fe_path e = p) l).

Lemma from_result_ok {A} (r : Result Error A) (s s' : S) a : from_result r s = (Ok a, s') → r = Ok a.
Proof. destruct r; [by intros [= -> _]|done]. Qed.
Lemma read_member_ok file member s b s' : read_member_bytes file member s = (Ok b, s') →
  ∃ bytes, file = Some bytes ∧ find_member member (tar_entries bytes) = Ok b.
Proof.
  unfold read_member_bytes. intros Hr. inv_bind Hr o s1 Ho. destruct o, file; try done. apply from_result_ok in Hr. by eexists.
Qed.
Lemma add_layers_ok bytes layers m s v s' : add_layers (Some bytes) layers m s = (Ok v, s') →
  ∃ l, layer_files bytes layers = Ok l ∧ v = add_entries l m.
Proof.
  revert m s. induction layers as [|layer rest IH]; intros m s Hr; cbn [add_layers] in Hr.
  - apply ret_inv in Hr as [-> _]. by exists [].
  - inv_bind Hr b s1 Hb. inv_bind Hr es s2 He. apply read_member_ok in Hb as (? & [= <-] & Hf). apply from_result_ok in He.
    apply IH in Hr as (l & Hl & ->). exists (es ++ l). split; [|by rewrite add_entries_app]. cbn. by rewrite Hf, He, Hl.
Qed.
Lemma list_files_ok file s v s' : list_files_in_oci file s = (Ok v, s') →
  ∃ bytes l, file = Some bytes ∧ image_files bytes l ∧ shows l v.
Proof.
  unfold list_files_in_oci. intros Hr. inv_bind Hr raw s1 Hraw. inv_bind Hr layers s2 Hl.
  apply read_member_ok in Hraw as (bytes & -> & Hf). apply from_result_ok in Hl.
  apply add_layers_ok in Hr as (l & Hfiles & ->). exists bytes, l. split_and!; [done|by exists raw, layers|].
  intros p. rewrite add_entries_lookup, lookup_empty. by destruct (last _).
Qed.
Lemma save_image_ok image_ref dest s file s' : save_image pcfg image_ref dest s = (Ok file, s') →
  ∃ out err, (podman_exec (base_command pcfg ++ ["save"; image_ref; "-o"; dest]) None (podman_of s)).1 = Exited (Some 0%Z) out err file.
Proof.
  unfold save_image. intros Hr. inv_bind Hr o s1 Ho. unfold run_command in Ho.
  destruct (podman_exec _ _ _) as [o' p] eqn:He. injection Ho as -> _. destruct o as [|code out err f]; [done|].
  destruct (negb (success code)) eqn:Hc; [done|]. apply ret_inv in Hr as [-> _]. exists out, err.
  apply negb_false_iff in Hc. unfold success in Hc. by apply bool_decide_eq_true in Hc as ->.
Qed.

(** The changes reported for two images compare what podman saved of them: whatever the
    archives hold, a successful comparison lists exactly the paths whose topmost entries
    differ between the two, with the kind of the difference. *)
Theorem changes_compare_the_images image_a image_b s l s' :
  compute_file_changes pcfg image_a image_b s = (Ok l, s') →
  ∃ bytes_a bytes_b fa fb va vb,
    (∃ tmp s1, saved_to image_a tmp bytes_a s1) ∧ (∃ tmp s1, saved_to image_b tmp bytes_b s1) ∧
    image_files bytes_a fa ∧ image_files bytes_b fb ∧ shows fa va ∧ shows fb vb ∧
    NoDup (fc_path <$> l) ∧ (∀ c, c ∈ l ↔ changed va vb c).
Proof.
  unfold compute_file_changes. intros Hr. inv_bind Hr t s1 Ht. inv_bind Hr d s2 Hd. destruct d; try done.
  inv_bind Hr file_a s3 Ha. inv_bind Hr file_b s4 Hb. inv_bind Hr va s5 Hva. inv_bind Hr vb s6 Hvb.
  apply ret_inv in Hr as [-> _]. apply list_files_ok in Hva as (bytes_a & fa & -> & Hfa & Hsa).
  apply list_files_ok in Hvb as (bytes_b & fb & -> & Hfb & Hsb). apply save_image_ok in Ha, Hb.
  destruct (diff_is_exact va vb) as (_ & Hnd & Hex).
  exists bytes_a, bytes_b, fa, fb, va, vb. split_and!; [by eexists _, _|by eexists _, _|done..].
Qed.
End Views.

(** * Examples *)

Definition member (path body : string) : option TarEntry :=
  Some {| te_path := Some path; te_is_file := true; te_size := Some (Z.of_nat (String.length body)); te_mode := Some 420%Z; te_body := Some body |}.
(** Two layers; the upper one replaces one file and removes another. *)
Definition demo_tar : TarReader := {|
  tar_entries := λ bytes,
    if decide (bytes = "base") then [member "./etc/passwd" "root"; member "etc/motd" "hello"; member "bin/sh" "elf"]
    else if decide (bytes = "top") then [member "etc/motd" "goodbye"; member "bin/.wh.sh" ""]
    else [member "1.tar" "base"; member "2.tar" "top"];
  tar_gz_entries := λ _, [] |}.
Definition demo_view (layers : list string) : gmap string FileEntry :=
  match layer_files (TR := demo_tar) "image" layers with Ok l => add_entries l ∅ | Err _ => ∅ end.

Example topmost_entry_wins : fe_size <$> demo_view ["1.tar"; "2.tar"] !! "/etc/motd" = Some 7%Z ∧ is_Some (demo_view ["1.tar"] !! "/etc/passwd").
Proof. split; [by vm_compute|]. by vm_compute; eexists. Qed.
(** Whiteouts are passed over: a file that the upper layer removed is still listed, and
    the comparison with the base does not report it. *)
Example removed_file_is_still_listed :
  is_Some (demo_view ["1.tar"; "2.tar"] !! "/bin/sh") ∧
  diff_file_sets (demo_view ["1.tar"]) (demo_view ["1.tar"; "2.tar"]) = [change "modified" "/etc/motd"].
Proof. split; [by vm_compute; eexists|by vm_compute]. Qed.
Example diff_reports_each_kind :
  diff_file_sets (demo_view ["2.tar"]) (demo_view ["1.tar"]) =
    [change "added" "/bin/sh"; change "added" "/etc/passwd"; change "modified" "/etc/motd"].
Proof. by vm_compute. Qed.
