(* ===== verification/Metrics.v ===== *)
(** Container metrics: the collectors with their ring buffers and the sampling of
    cgroup and procfs files ([linpodx-runtime/src/metrics.rs],
    [linpodx-daemon/src/dispatch/metrics.rs]).

    A collector is a task that takes a sample every second; here a turn of it is an
    operation that is given the sample. CPU fractions are floats and stay bits. *)
From S2P Require Import Prelude Text Json Common Database AuditKinds AuditLog Logging Embedding KeyRegistry Parse Podman.

(** * The ring buffer *)

Definition RING_CAPACITY : nat := 600.

Record RingBuffer (A : Type) : Type := {
  rb_capacity : nat;
  rb_items : list A;
}.
Arguments rb_capacity {A} _. Arguments rb_items {A} _.

Definition ring_new {A} (capacity : nat) : RingBuffer A := {| rb_capacity := capacity `max` 1; rb_items := [] |}.
Definition ring_push {A} (x : A) (r : RingBuffer A) : RingBuffer A :=
  let items := if decide (length (rb_items r) = rb_capacity r) then tail (rb_items r) else rb_items r in
  {| rb_capacity := rb_capacity r; rb_items := items ++ [x] |}.

(** * Samples from the kernel's files *)

Record MetricsSample : Type := {
  ms_container_id : string;
  ms_ts : Z;
  ms_cpu_pct : Z; (* the bits of the f64 *)
  ms_mem_bytes : N;
  ms_mem_limit : option N;
  ms_net_rx : N;
  ms_net_tx : N;
  ms_block_in : N;
  ms_block_out : N;
}.

Definition u64_top : N := 18446744073709551615.
Definition u64_saturate (n : N) : N := N.min u64_top n.

Definition parse_kb_field (text key : string) : option N :=
  find (λ l, starts_with l key) (lines text) ≫= λ l, split_whitespace l !! 1 ≫= parse_u64.
Definition parse_cgroup_v2_path (raw : string) : option string := trim <$> find_map (strip_prefix "0::") (lines raw).
Definition strip_leading_slash (p : string) : string := unwrap_or p (strip_prefix "/" p).
Definition parse_usage_usec (cpu_stat : string) : option N :=
  find_map (strip_prefix "usage_usec ") (lines cpu_stat) ≫= λ rest, parse_u64 (trim rest).

(** A line of [/proc/<pid>/net/dev]: the counters after the interface's name, 0
    where a field is missing or is no number. *)
Definition net_dev_line (line : string) : N * N :=
  let parts := split_whitespace line in
  let field := λ i, unwrap_or 0%N (parts !! i ≫= parse_u64) in
  (field 1, field 9).
Definition add_counters (t l : N * N) : N * N := (u64_saturate (t.1 + l.1), u64_saturate (t.2 + l.2)).
Definition parse_proc_net_dev (raw : string) : N * N :=
  foldl add_counters (0, 0)%N (net_dev_line <$> skipn 2 (lines raw)).

(** The files under [/proc] and the cgroup root: a text, the entries of a directory. *)
Class ProcFs := {
  proc_read : string → option string;
  proc_dirs : string → list string; (* the entries of a directory that are directories *)
}.

(** [Path::components] of an absolute path, and back. *)
Definition components (p : string) : list string := filter (λ c, c ≠ "" ∧ c ≠ ".") (split slash p).
Definition path_of (cs : list string) : string := "/" +:+ str_concat "/" cs.

(** The nearest ancestor named [libpod-*.scope], from the last component up. *)
Fixpoint scope_above (rev_cs : list string) : option (list string) :=
  match rev_cs with
  | [] => None
  | name :: above =>
      if decide (name = "..") then None
      else if starts_with name "libpod-" && ends_with name ".scope" then Some (reverse rev_cs)
      else scope_above above
  end.
Definition libpod_scope_ancestor (cgroup_dir : string) : option string :=
  path_of <$> scope_above (reverse (components cgroup_dir)).

Section Sampling.
Context {FS : ProcFs}.

Fixpoint walk_cgroup_dirs (depth_left : nat) (root : string) : list string :=
  root :: match depth_left with
          | O => []
          | S d => proc_dirs root ≫= λ name, walk_cgroup_dirs d (join root name)
          end.

Definition mem_bytes_for_pid (proc_root : string) (pid : N) : option N :=
  let base := join proc_root (pretty pid) in
  let pss := proc_read (join base "smaps_rollup") ≫= λ rollup, parse_kb_field rollup "Pss:" in
  let kb := match pss with
            | Some kb => Some kb
            | None => proc_read (join base "status") ≫= λ status, parse_kb_field status "VmRSS:"
            end in
  (λ kb, u64_saturate (kb * 1024)) <$> kb.

(** The pids of a cgroup and what each of them uses; [None] when none could be
    measured. *)
Definition pids_in (dir : string) : list N :=
  match proc_read (join dir "cgroup.procs") with
  | None => []
  | Some procs => omap (λ l, parse_u32 (trim l)) (lines procs)
  end.
Definition add_usage (total : option N) (bytes : N) : option N := Some (u64_saturate (unwrap_or 0%N total + bytes)).
Definition procfs_mem_fallback (proc_root cgroup_dir : string) : option N :=
  let walk_root := unwrap_or cgroup_dir (libpod_scope_ancestor cgroup_dir) in
  foldl add_usage None (walk_cgroup_dirs 6 walk_root ≫= λ dir, omap (mem_bytes_for_pid proc_root) (pids_in dir)).

Definition cgroup_v2_path_for_pid (proc_root : string) (pid : N) : option string :=
  proc_read (join proc_root (pretty pid +:+ "/cgroup")) ≫= parse_cgroup_v2_path.
Definition read_cpu_usec_for_pid (pid : N) : option N :=
  path ← cgroup_v2_path_for_pid "/proc" pid;
  cpu_stat ← proc_read (join (join "/sys/fs/cgroup" (strip_leading_slash path)) "cpu.stat");
  parse_usage_usec cpu_stat.

(** [ts] is the reading of the clock. *)
Definition sample_from_roots (proc_root cgroup_root : string) (pid : N) (container_id : string) (ts : Z) : option MetricsSample :=
  path ← cgroup_v2_path_for_pid proc_root pid;
  let cgroup_dir := join cgroup_root (strip_leading_slash path) in
  let mem_bytes := match proc_read (join cgroup_dir "memory.current") with
                   | Some s => unwrap_or 0%N (parse_u64 (trim s))
                   | None => unwrap_or 0%N (procfs_mem_fallback proc_root cgroup_dir)
                   end in
  let mem_limit := proc_read (join cgroup_dir "memory.max") ≫= λ s, if decide (trim s = "max") then None else parse_u64 (trim s) in
  let net := match proc_read (join proc_root (pretty pid +:+ "/net/dev")) with
             | Some raw => parse_proc_net_dev raw
             | None => (0, 0)%N
             end in
  Some {| ms_container_id := container_id; ms_ts := ts; ms_cpu_pct := 0; ms_mem_bytes := mem_bytes; ms_mem_limit := mem_limit;
          ms_net_rx := net.1; ms_net_tx := net.2; ms_block_in := 0; ms_block_out := 0 |}.
Definition cgroup_sample : N → string → Z → option MetricsSample := sample_from_roots "/proc" "/sys/fs/cgroup".
End Sampling.

(** * Samples from podman *)

(** The row of [podman stats] that is read: the first whose id matches, else the first. *)
Definition row_id (row : Value) : option string :=
  str_field row ["ContainerID"; "Id"; "ID"].
Definition row_matches (container_id : string) (row : Value) : bool :=
  match row_id row with Some id => starts_with id container_id || starts_with container_id id | None => false end.
Definition stats_row (container_id : string) (v : Value) : option Value :=
  match v with
  | JArray rows => match find (row_matches container_id) rows with Some r => Some r | None => head rows end
  | JObject _ => Some v
  | _ => None
  end.

Section PodmanSamples.
Context {S P : Type} {C : PodmanCli P} {HP : HasPodman S P}.

(** Neither call passes the adapter's [--root] and [--runroot]. *)
Definition inspect_pid (container_id : string) : M S Fault (option N) :=
  o ← run_command ["inspect"; "--format"; "{{.State.Pid}}"; container_id] None;
  mret match o with
       | Exited code out _ _ =>
           if success code && is_utf8 out then
             match parse_u32 (trim out) with Some 0%N => None | o' => o' end
           else None
       | SpawnFailed _ => None
       end.
Definition run_podman_stats (container_id : string) : M S Fault (Result string string) :=
  o ← run_command ["stats"; "--no-stream"; "--format"; "json"; container_id] None;
  mret match o with
       | SpawnFailed _ => Err ""
       | Exited code out err _ =>
           if negb (success code) then Err (trim (from_utf8_lossy err))
           else if negb (is_utf8 out) then Err "" else Ok out
       end.
End PodmanSamples.

(** * The collectors *)

(** The tasks, by whether they have finished, and their buffers. *)
Record MetricsState : Type := {
  mt_handles : gmap string bool;
  mt_rings : gmap string (RingBuffer MetricsSample);
}.
Definition no_metrics : MetricsState := {| mt_handles := ∅; mt_rings := ∅ |}.
Definition set_handles (h : gmap string bool) (t : MetricsState) : MetricsState := {| mt_handles := h; mt_rings := mt_rings t |}.
Definition set_rings (r : gmap string (RingBuffer MetricsSample)) (t : MetricsState) : MetricsState :=
  {| mt_handles := mt_handles t; mt_rings := r |}.

Class HasMetrics (S : Type) := {
  metrics_of : S → MetricsState;
  put_metrics : MetricsState → S → S;
}.
Class MetricsLaws (S : Type) {W : HasWorld S} {T : HasMetrics S} : Prop := {
  metrics_of_put t (s : S) : metrics_of (put_metrics t s) = t;
  metrics_of_put_world w (s : S) : metrics_of (put_world w s) = metrics_of s;
}.

(** [r == id || r.starts_with(id) || id.starts_with(r)]. *)
Definition related (id r : string) : bool := bool_decide (r = id) || starts_with r id || starts_with id r.
Definition still_running (running_ids : list string) (id : string) : bool := existsb (related id) running_ids.

Section Collector.
Context {E : Env} {K : AuditSink} {S : Type} {W : HasWorld S} {T : HasMetrics S}.

Definition metrics : M S Fault MetricsState := gets metrics_of.
Definition change_metrics (f : MetricsState → MetricsState) : M S Fault unit := modify (λ s, put_metrics (f (metrics_of s)) s).

Definition spawn_for (container_id : string) : M S Fault unit :=
  t ← metrics;
  match mt_handles t !! container_id with
  | Some false => mret tt
  | _ =>
      _ ← change_metrics (λ t, set_rings (<[container_id := ring_new RING_CAPACITY]> (mt_rings t)) t);
      _ ← on_world (record SinkMetricsCollectorStarted None (Some container_id) (JObject []));
      change_metrics (λ t, set_handles (<[container_id := false]> (mt_handles t)) t)
  end.

Definition stop_for (container_id : string) : M S Fault unit :=
  _ ← change_metrics (λ t, set_handles (delete container_id (mt_handles t)) t);
  _ ← change_metrics (λ t, set_rings (delete container_id (mt_rings t)) t);
  on_world (record SinkMetricsCollectorStopped None (Some container_id) (JObject [])).

Definition reconcile_running (running_ids : list string) : M S Fault unit :=
  _ ← for_each spawn_for running_ids;
  t ← metrics;
  for_each (λ id, if still_running running_ids id then mret tt else stop_for id) (map_to_list (mt_handles t)).*1.

Definition latest (container_id : string) : M S Fault (option MetricsSample) :=
  t ← metrics; mret (mt_rings t !! container_id ≫= λ r, last (rb_items r)).
Definition history (container_id : string) (since : option Z) : M S Fault (list MetricsSample) :=
  t ← metrics;
  mret match mt_rings t !! container_id with
       | None => []
       | Some r => match since with
                   | None => rb_items r
                   | Some cutoff => filter (λ s, (cutoff ≤ ms_ts s)%Z) (rb_items r)
                   end
       end.

(** The end of a turn of [collector_loop]: the sample it took, if it took one. *)
Definition collector_turn (sample_to_value : MetricsSample → Value) (container_id : string) (sample : option MetricsSample) : M S Fault unit :=
  match sample with
  | None => mret tt
  | Some s =>
      _ ← change_metrics (λ t, set_rings (<[container_id := ring_push s (unwrap_or (ring_new RING_CAPACITY) (mt_rings t !! container_id))]> (mt_rings t)) t);
      on_world (modify (push_event {| topic := TMetrics; ev_kind := Progress; resource_id := container_id; timestamp := ms_ts s;
                                      details := sample_to_value s |}))
  end.

(** The handlers; without a sample they start a collector for the next poll. *)
Definition metrics_latest (container_id : string) : M S Fault (option MetricsSample) :=
  o ← latest container_id;
  _ ← (match o with None => spawn_for container_id | Some _ => mret tt end : M S Fault unit);
  mret o.
Definition metrics_history (rfc3339 : string → option Z) (container_id : string) (since : option string) : M S Fault (list MetricsSample) :=
  l ← history container_id (since ≫= rfc3339);
  _ ← (match l with [] => spawn_for container_id | _ => mret tt end : M S Fault unit);
  mret l.
End Collector.

(** * The buffer keeps the newest samples *)

(** The last [n] elements. *)
Definition lastn {A} (n : nat) (l : list A) : list A := skipn (length l - n) l.

Lemma lastn_length {A} n (l : list A) : length (lastn n l) = n `min` length l.
Proof. unfold lastn. rewrite length_skipn. lia. Qed.
Lemma lastn_snoc {A} n (l : list A) x : 0 < n →
  lastn n (l ++ [x]) = (if decide (length (lastn n l) = n) then tail (lastn n l) else lastn n l) ++ [x].
Proof.
  intros Hn. rewrite lastn_length. unfold lastn. rewrite length_app. cbn [length]. case_decide as Hc.
  - rewrite skipn_app. replace (length l + 1 - n - length l) with 0 by lia. cbn [skipn]. f_equal.
    replace (length l + 1 - n) with (1 + (length l - n)) by lia. by rewrite <-skipn_skipn.
  - replace (length l + 1 - n) with 0 by lia. by replace (length l - n) with 0 by lia.
Qed.
Lemma last_lastn {A} n (l : list A) : 0 < n → last (lastn n l) = last l.
Proof.
  intros Hn. destruct l as [|x l _] using rev_ind; [by destruct n|]. rewrite lastn_snoc by done. by rewrite !last_snoc.
Qed.

Definition ring_of {A} (n : nat) (l : list A) : RingBuffer A := {| rb_capacity := n; rb_items := lastn n l |}.
Lemma ring_new_of {A} n : 0 < n → ring_new n = ring_of (A := A) n [].
Proof. intros Hn. unfold ring_new, ring_of. replace (n `max` 1) with n by lia. by destruct n. Qed.
Lemma ring_push_of {A} n (l : list A) x : 0 < n → ring_push x (ring_of n l) = ring_of n (l ++ [x]).
Proof. intros Hn. unfold ring_push, ring_of. cbn [rb_items rb_capacity]. by rewrite lastn_snoc. Qed.

(** * The abstract collectors: unbounded logs *)

(** The same tasks, each with everything it has seen since its start. *)
Record LogState : Type := {
  al_handles : gmap string bool;
  al_logs : gmap string (list MetricsSample);
}.

(** A turn is that of any task of the container. The code keeps samples by container
    and not by task, and an aborted task ends only at its next [await]: a turn that it
    was in the middle of is an [OpTurn] after the [OpStop]. *)
Inductive MetricsOp : Type :=
| OpSpawn (container_id : string)
| OpStop (container_id : string)
| OpReconcile (running_ids : list string)
| OpTurn (container_id : string) (sample : option MetricsSample)
| OpFinish (container_id : string). (* the task ended, by a panic *)

Definition abs_spawn (id : string) (a : LogState) : LogState :=
  match al_handles a !! id with
  | Some false => a
  | _ => {| al_handles := <[id := false]> (al_handles a); al_logs := <[id := []]> (al_logs a) |}
  end.
Definition abs_stop (id : string) (a : LogState) : LogState :=
  {| al_handles := delete id (al_handles a); al_logs := delete id (al_logs a) |}.
Definition abs_prune (running : list string) (a : LogState) (id : string) : LogState :=
  if still_running running id then a else abs_stop id a.
Definition abs_op (a : LogState) (op : MetricsOp) : LogState :=
  match op with
  | OpSpawn id => abs_spawn id a
  | OpStop id => abs_stop id a
  | OpReconcile ids =>
      let a' := foldl (λ a id, abs_spawn id a) a ids in
      foldl (abs_prune ids) a' (map_to_list (al_handles a')).*1
  | OpTurn id None => a
  | OpTurn id (Some s) =>
      {| al_handles := al_handles a; al_logs := <[id := unwrap_or [] (al_logs a !! id) ++ [s]]> (al_logs a) |}
  | OpFinish id => {| al_handles := if decide (al_handles a !! id = Some false) then <[id := true]> (al_handles a) else al_handles a;
                      al_logs := al_logs a |}
  end.

Definition abs_metrics (a : LogState) : MetricsState :=
  {| mt_handles := al_handles a; mt_rings := ring_of RING_CAPACITY <$> al_logs a |}.

Section Refinement.
Context {E : Env} {K : AuditSink} {S : Type} {W : HasWorld S} {T : HasMetrics S} {L : MetricsLaws S}.
Context (to_value : MetricsSample → Value).

Definition run_metrics_op (op : MetricsOp) : M S Fault unit :=
  match op with
  | OpSpawn id => spawn_for id
  | OpStop id => stop_for id
  | OpReconcile ids => reconcile_running ids
  | OpTurn id sample => collector_turn to_value id sample
  | OpFinish id => change_metrics (λ t, set_handles (if decide (mt_handles t !! id = Some false) then <[id := true]> (mt_handles t) else mt_handles t) t)
  end.

Definition refines (s : S) (a : LogState) : Prop := metrics_of s = abs_metrics a.

Lemma change_metrics_run f (s s' : S) : change_metrics f s = (Ok tt, s') → metrics_of s' = f (metrics_of s).
Proof. intros [= <-]. apply metrics_of_put. Qed.
Lemma on_world_metrics {A} (c : D A) (s s' : S) r : on_world c s = (r, s') → metrics_of s' = metrics_of s.
Proof. unfold on_world. destruct (c (world_of s)) as [r' w]. intros [= <- <-]. apply metrics_of_put_world. Qed.

Lemma metrics_run (s s' : S) t : metrics s = (Ok t, s') → t = metrics_of s ∧ s' = s.
Proof. by intros [= -> ->]. Qed.

Lemma capacity_pos : 0 < RING_CAPACITY.
Proof. unfold RING_CAPACITY. lia. Qed.

Lemma spawn_refines id s a s' : refines s a → spawn_for id s = (Ok tt, s') → refines s' (abs_spawn id a).
Proof.
  intros Hr H. unfold spawn_for in H. inv_bind H t s0 Ht. apply metrics_run in Ht as [-> ->].
  assert (mt_handles (metrics_of s) !! id = al_handles a !! id) as Hh by by rewrite Hr.
  unfold refines, abs_spawn. rewrite Hh in H.
  assert (al_handles a !! id ≠ Some false →
    metrics_of s' = abs_metrics {| al_handles := <[id := false]> (al_handles a); al_logs := <[id := []]> (al_logs a) |}) as Hnew.
  { intros Hne. destruct (al_handles a !! id) as [[]|] eqn:Hx; [| done |].
    all: inv_bind H u1 s1 H1; inv_bind H u2 s2 H2; destruct u1; apply change_metrics_run in H1; apply on_world_metrics in H2;
      apply change_metrics_run in H; rewrite H, H2, H1, Hr; unfold abs_metrics, set_handles, set_rings; cbn [mt_handles mt_rings al_handles al_logs];
      by rewrite fmap_insert, (ring_new_of RING_CAPACITY capacity_pos). }
  destruct (al_handles a !! id) as [[]|] eqn:Hx; [by apply Hnew| |by apply Hnew]. by inv_ret H.
Qed.
Lemma stop_refines id s a s' : refines s a → stop_for id s = (Ok tt, s') → refines s' (abs_stop id a).
Proof.
  intros Hr H. unfold stop_for in H. inv_bind H u1 s1 H1. inv_bind H u2 s2 H2. destruct u1, u2.
  apply change_metrics_run in H1. apply change_metrics_run in H2. apply on_world_metrics in H.
  unfold refines. rewrite H, H2, H1, Hr. unfold abs_metrics, set_handles, set_rings, abs_stop. cbn. by rewrite fmap_delete.
Qed.

(** A loop refines the fold of what its body refines. *)
Lemma for_each_refines {A} (body : A → M S Fault unit) (f : LogState → A → LogState) l s a s' :
  (∀ x s a s', refines s a → body x s = (Ok tt, s') → refines s' (f a x)) →
  refines s a → for_each body l s = (Ok tt, s') → refines s' (foldl f a l).
Proof.
  intros Hb. revert s a. induction l as [|x l IH]; intros s a Hr H; [by inv_ret H|].
  cbn [for_each] in H. inv_bind H u s1 H1. destruct u. eapply IH; [|done]. by eapply Hb.
Qed.

Lemma op_refines op s a s' : refines s a → run_metrics_op op s = (Ok tt, s') → refines s' (abs_op a op).
Proof.
  intros Hr H. destruct op as [id|id|ids|id [smp|]|id]; cbn [run_metrics_op abs_op] in *.
  - by eapply spawn_refines.
  - by eapply stop_refines.
  - unfold reconcile_running in H. inv_bind H u s1 H1. destruct u. inv_bind H t s2 H2. apply metrics_run in H2 as [-> ->].
    eapply (for_each_refines spawn_for (λ a id, abs_spawn id a)) in H1; [|intros; by eapply spawn_refines|done].
    assert (mt_handles (metrics_of s1) = al_handles (foldl (λ a id, abs_spawn id a) a ids)) as Hk by by rewrite H1.
    rewrite Hk in H. eapply for_each_refines; [|exact H1|exact H]. clear -L. intros x s a s' Hr H.
    cbv beta in H. unfold abs_prune. case_match; [by inv_ret H|by eapply stop_refines].
  - unfold collector_turn in H. inv_bind H u s1 H1. destruct u. apply change_metrics_run in H1. apply on_world_metrics in H.
    unfold refines. rewrite H, H1, Hr. unfold abs_metrics, set_rings. cbn. rewrite fmap_insert, lookup_fmap. do 2 f_equal.
    destruct (al_logs a !! id) as [l|]; cbn [unwrap_or fmap option_fmap option_map].
    + apply (ring_push_of RING_CAPACITY), capacity_pos.
    + rewrite (ring_new_of RING_CAPACITY capacity_pos). apply (ring_push_of RING_CAPACITY), capacity_pos.
  - by inv_ret H.
  - apply change_metrics_run in H. unfold refines. rewrite H, Hr. done.
Qed.

(** C28: The collectors refine collectors with unbounded logs. After any sequence of
    starts, stops, reconciliations, collector turns and task deaths that ends
    without a panic, the newest sample of a container is the newest of its log, and
    its history is the part of the last 600 samples since its collector was started
    that lies after the cut-off: nothing newer is lost, and nothing of another
    container and nothing that was put there before that start shows. *)
Theorem history_is_the_newest_samples ops s s' id since :
  metrics_of s = no_metrics → for_each run_metrics_op ops s = (Ok tt, s') →
  let log := unwrap_or [] (al_logs (foldl abs_op {| al_handles := ∅; al_logs := ∅ |} ops) !! id) in
  latest id s' = (Ok (last log), s') ∧
  history id since s' = (Ok (match since with
                             | None => lastn RING_CAPACITY log
                             | Some cutoff => filter (λ m, (cutoff ≤ ms_ts m)%Z) (lastn RING_CAPACITY log)
                             end), s').
Proof.
  intros H0 H log. apply (for_each_refines run_metrics_op abs_op _ _ {| al_handles := ∅; al_logs := ∅ |}) in H;
    [|intros; by eapply op_refines|unfold refines; rewrite H0; unfold abs_metrics; cbn [al_logs al_handles]; by rewrite fmap_empty].
  unfold latest, history. cbv [mbind M_bind]. unfold metrics. cbv [gets mret M_ret]. rewrite H. unfold abs_metrics, log.
  cbn [mt_rings]. rewrite lookup_fmap. set (o := al_logs _ !! id). destruct o as [l|]; cbn [unwrap_or fmap option_fmap option_map].
  - cbn [option_bind mbind]. split; [|by destruct since]. do 2 f_equal. apply (last_lastn RING_CAPACITY l), capacity_pos.
  - split; [done|]. by destruct since.
Qed.

(** ** Reconciliation *)

Lemma spawned_handles ids a :
  (∀ id, id ∈ ids → al_handles (foldl (λ a id, abs_spawn id a) a ids) !! id = Some false) ∧
  (∀ id, id ∉ ids → al_handles (foldl (λ a id, abs_spawn id a) a ids) !! id = al_handles a !! id) ∧
  (∀ id, al_handles a !! id = Some false → al_handles (foldl (λ a id, abs_spawn id a) a ids) !! id = Some false ∧
     al_logs (foldl (λ a id, abs_spawn id a) a ids) !! id = al_logs a !! id).
Proof.
  assert (∀ x a, al_handles (abs_spawn x a) !! x = Some false) as Hx.
  { intros x b. unfold abs_spawn. destruct (al_handles b !! x) as [[]|] eqn:Hb; cbn; [by rewrite lookup_insert_eq|done|by rewrite lookup_insert_eq]. }
  assert (∀ x y a, y ≠ x → al_handles (abs_spawn x a) !! y = al_handles a !! y ∧ al_logs (abs_spawn x a) !! y = al_logs a !! y) as Ho.
  { intros x y b Hne. unfold abs_spawn. destruct (al_handles b !! x) as [[]|]; cbn; by rewrite ?lookup_insert_ne. }
  assert (∀ x y a, al_handles a !! y = Some false → al_handles (abs_spawn x a) !! y = Some false ∧ al_logs (abs_spawn x a) !! y = al_logs a !! y) as Hk.
  { intros x y b Hy. destruct (decide (y = x)) as [->|Hne]; [|by rewrite !(proj1 (Ho _ _ _ Hne)), (proj2 (Ho _ _ _ Hne))].
    unfold abs_spawn. by rewrite Hy. }
  revert a. induction ids as [|x ids IH]; intros a; cbn [foldl]; [set_solver|].
  destruct (IH (abs_spawn x a)) as (H1 & H2 & H3). split_and!.
  - intros id [->|Hid]%elem_of_cons; [|by apply H1]. by apply H3.
  - intros id [Hne Hid]%not_elem_of_cons. rewrite H2 by done. by apply Ho.
  - intros id Hid. destruct (Hk x id a Hid) as [Ha Hl]. destruct (H3 id Ha) as [-> ->]. by rewrite Hl.
Qed.
Lemma pruned_handles ids l a id :
  al_handles (foldl (abs_prune ids) a l) !! id =
    (if decide (id ∈ l ∧ still_running ids id = false) then None else al_handles a !! id) ∧
  al_logs (foldl (abs_prune ids) a l) !! id =
    (if decide (id ∈ l ∧ still_running ids id = false) then None else al_logs a !! id).
Proof.
  revert a. induction l as [|x l IH]; intros a; cbn [foldl]; [rewrite !decide_False by set_solver; done|].
  destruct (IH (abs_prune ids a x)) as [-> ->]. destruct (decide (id ∈ l ∧ still_running ids id = false)) as [[Hin Hs]|Hn].
  { by rewrite !decide_True by set_solver. }
  unfold abs_prune. destruct (decide (id = x)) as [->|Hne].
  - destruct (still_running ids x) eqn:Hs; [by rewrite !decide_False by naive_solver|].
    rewrite !decide_True by set_solver. cbn. by rewrite !lookup_delete_eq.
  - rewrite !decide_False by set_solver. destruct (still_running ids x); [done|]. cbn. by rewrite !lookup_delete_ne.
Qed.

(** A reconciliation leaves a live collector for every running container, and no
    collector that no running id is a prefix of or an extension of; the collectors
    that were alive and still belong to a running container keep their samples,
    and those that do not lose them. *)
Theorem reconcile_tracks_running ids s a s' :
  refines s a → reconcile_running ids s = (Ok tt, s') →
  ∃ a', refines s' a' ∧
    (∀ id, id ∈ ids → al_handles a' !! id = Some false) ∧
    (∀ id b, al_handles a' !! id = Some b → still_running ids id = true) ∧
    (∀ id, al_handles a !! id = Some false → still_running ids id = true →
       al_handles a' !! id = Some false ∧ al_logs a' !! id = al_logs a !! id) ∧
    (∀ id, is_Some (al_handles a !! id) → still_running ids id = false → al_handles a' !! id = None ∧ al_logs a' !! id = None).
Proof.
  intros Hr H. exists (abs_op a (OpReconcile ids)). split; [by apply (op_refines (OpReconcile ids) s)|].
  cbn [abs_op]. set (a1 := foldl (λ a id, abs_spawn id a) a ids). destruct (spawned_handles ids a) as (H1 & H2 & H3). fold a1 in H1, H2, H3.
  assert (∀ id, id ∈ ids → still_running ids id = true) as Hself.
  { intros id Hid. apply existsb_exists. exists id. split; [by apply list_elem_of_In|]. unfold related. by rewrite bool_decide_true. }
  assert (∀ id b, al_handles a1 !! id = Some b → id ∈ (map_to_list (al_handles a1)).*1) as Hkeys.
  { intros id b Hb. apply list_elem_of_fmap. exists (id, b). split; [done|]. by apply elem_of_map_to_list. }
  split_and!.
  - intros id Hid. rewrite (proj1 (pruned_handles _ _ _ _)), decide_False; [by apply H1|]. intros [_ Hs]. by rewrite Hself in Hs.
  - intros id b. rewrite (proj1 (pruned_handles _ _ _ _)). case_decide as Hd; [done|]. intros Hb.
    destruct (still_running ids id) eqn:Hs; [done|]. destruct Hd. eauto.
  - intros id Ha Hs. destruct (pruned_handles ids (map_to_list (al_handles a1)).*1 a1 id) as [-> ->].
    rewrite !decide_False by (intros [_ Hx]; by rewrite Hs in Hx). by apply H3.
  - intros id [b Hb] Hs. assert (id ∉ ids) as Hnot by (intros Hin; by rewrite Hself in Hs).
    assert (al_handles a1 !! id = Some b) as Hb1 by by rewrite H2.
    destruct (pruned_handles ids (map_to_list (al_handles a1)).*1 a1 id) as [-> ->]. rewrite !decide_True by eauto. done.
Qed.
End Refinement.

(** * Bounds of a sample *)

Section Bounds.
Context {FS : ProcFs}.

Lemma parse_u64_top s n : parse_u64 s = Some n → (n ≤ u64_top)%N.
Proof. apply parse_uint_bound. Qed.
Lemma saturate_top n : (u64_saturate n ≤ u64_top)%N.
Proof. apply N.le_min_l. Qed.
Lemma unwrap_top o : (∀ n, o = Some n → (n ≤ u64_top)%N) → (unwrap_or 0 o ≤ u64_top)%N.
Proof. destruct o; simpl; [auto|]. intros _. unfold u64_top. lia. Qed.

Lemma net_dev_top raw : let t := parse_proc_net_dev raw in (t.1 ≤ u64_top)%N ∧ (t.2 ≤ u64_top)%N.
Proof.
  unfold parse_proc_net_dev. generalize (net_dev_line <$> skipn 2 (lines raw)). intros l.
  induction l as [|x l _] using rev_ind; [split; unfold u64_top; simpl; lia|].
  rewrite foldl_snoc. unfold add_counters. split; apply saturate_top.
Qed.
Lemma fallback_top proc_root dir n : procfs_mem_fallback proc_root dir = Some n → (n ≤ u64_top)%N.
Proof.
  unfold procfs_mem_fallback. set (l := _ ≫= _). clearbody l.
  induction l as [|x l _] using rev_ind; [done|]. rewrite foldl_snoc. unfold add_usage. intros [= <-]. apply saturate_top.
Qed.

(** Whatever the kernel's files hold, every counter of a sample fits in 64 bits:
    sums over interfaces and processes saturate and nothing wraps around. *)
Theorem sample_fits_u64 proc_root cgroup_root pid id ts smp :
  sample_from_roots proc_root cgroup_root pid id ts = Some smp →
  (ms_mem_bytes smp ≤ u64_top)%N ∧ (∀ n, ms_mem_limit smp = Some n → (n ≤ u64_top)%N) ∧
  (ms_net_rx smp ≤ u64_top)%N ∧ (ms_net_tx smp ≤ u64_top)%N ∧ ms_container_id smp = id ∧ ms_ts smp = ts.
Proof.
  unfold sample_from_roots. destruct (cgroup_v2_path_for_pid proc_root pid) as [path|]; [|done]. intros [= <-]. cbn [ms_mem_bytes ms_mem_limit ms_net_rx ms_net_tx ms_container_id ms_ts].
  split_and!; try done.
  - case_match; apply unwrap_top; [apply parse_u64_top|apply fallback_top].
  - intros n. destruct (proc_read _) as [raw|]; simpl; [|done]. case_decide; [done|]. apply parse_u64_top.
  - case_match; [apply net_dev_top|unfold u64_top; simpl; lia].
  - case_match; [apply net_dev_top|unfold u64_top; simpl; lia].
Qed.
End Bounds.

(** * Examples *)

Definition MetricsDemo : Type := World * MetricsState.
#[export] Instance metrics_demo_world : HasWorld MetricsDemo := {| world_of := fst; put_world := λ w s, (w, s.2) |}.
#[export] Instance metrics_demo_metrics : HasMetrics MetricsDemo := {| metrics_of := snd; put_metrics := λ t s, (s.1, t) |}.
#[export] Instance metrics_demo_laws : MetricsLaws MetricsDemo.
Proof. by split. Qed.

Definition demo_sample (id : string) (t : Z) : MetricsSample :=
  {| ms_container_id := id; ms_ts := t; ms_cpu_pct := 0; ms_mem_bytes := 1; ms_mem_limit := None; ms_net_rx := 0; ms_net_tx := 0;
     ms_block_in := 0; ms_block_out := 0 |}.
Definition idle : MetricsDemo := (empty_world, no_metrics).
(** Samples of one container, one of another, and a collector that was restarted. *)
Definition busy_ops : list MetricsOp :=
  [OpSpawn "c1"; OpSpawn "c2"] ++ ((λ i, OpTurn "c1" (Some (demo_sample "c1" (Z.of_nat i)))) <$> seq 0 3)
  ++ [OpTurn "c2" (Some (demo_sample "c2" 5)); OpStop "c2"; OpSpawn "c2"].

Definition after_ops (ops : list MetricsOp) : MetricsDemo :=
  (for_each (run_metrics_op (K := NoopAuditSink) (λ _, JNull)) ops idle).2.

Lemma history_is_the_newest_samples_witness :
  let s := after_ops busy_ops in
  history "c1" (Some 1%Z) s = (Ok [demo_sample "c1" 1; demo_sample "c1" 2], s) ∧
  history "c2" None s = (Ok [], s).
Proof.
  intros s.
  assert (for_each (run_metrics_op (K := NoopAuditSink) (λ _, JNull)) busy_ops idle = (Ok tt, s)) as H by (apply run_ok; vm_check).
  split.
  - destruct (history_is_the_newest_samples (K := NoopAuditSink) (λ _, JNull) busy_ops idle s "c1" (Some 1%Z) ltac:(by vm_compute) H) as [_ Hh].
    rewrite Hh. vm_check.
  - destruct (history_is_the_newest_samples (K := NoopAuditSink) (λ _, JNull) busy_ops idle s "c2" None ltac:(by vm_compute) H) as [_ Hh].
    rewrite Hh. vm_check.
Defined.

(** A container started under its name and another that was stopped behind the
    daemon's back. *)
Definition named_ops : list MetricsOp :=
  [OpSpawn "web"; OpSpawn "0123abc"; OpTurn "web" (Some (demo_sample "web" 1)); OpTurn "0123abc" (Some (demo_sample "0123abc" 1))].
Definition named_log : LogState := foldl abs_op {| al_handles := ∅; al_logs := ∅ |} named_ops.

Lemma reconcile_tracks_running_witness :
  let s := after_ops named_ops in
  refines s named_log ∧
  ∃ a' s', refines s' a' ∧ al_handles a' !! "0123abc" = Some false ∧ is_Some (al_logs a' !! "0123abc") ∧
    al_handles a' !! "web" = None ∧ al_logs a' !! "web" = None.
Proof.
  intros s. assert (refines s named_log) as Hr by (unfold refines; vm_check).
  split; [done|].
  destruct (reconcile_tracks_running (K := NoopAuditSink) (λ _, JNull) ["0123abcdef"] s named_log (reconcile_running (K := NoopAuditSink) ["0123abcdef"] s).2 Hr ltac:(vm_check))
    as (a' & Ha & H1 & H2 & H3 & H4).
  exists a', (reconcile_running (K := NoopAuditSink) ["0123abcdef"] s).2. split; [done|].
  destruct (H3 "0123abc" ltac:(vm_check) ltac:(vm_check)) as [Hh Hl].
  assert (is_Some (al_handles named_log !! "web")) as Hs by (exists false; vm_check).
  destruct (H4 "web" Hs ltac:(vm_check)) as [Hw Hx]. split_and!; [done| |done..].
  rewrite Hl. exists [demo_sample "0123abc" 1]. vm_check.
Defined.

(** A collector started under a container's name (as [container_start] does when it
    is given one) is stopped at the next reconciliation, with its samples: a name is
    neither a prefix of an id nor an extension of one. *)
Example named_collector_is_pruned :
  let s := (reconcile_running (K := NoopAuditSink) ["0123abcdef"] (after_ops named_ops)).2 in
  (history "web" None (after_ops named_ops)).1 = Ok [demo_sample "web" 1] ∧ (history "web" None s).1 = Ok [].
Proof. by vm_compute. Qed.

Definition demo_fs : ProcFs := {|
  proc_read := λ p, if decide (p = "/proc/7/cgroup") then Some "0::/user.slice/libpod-x.scope/c"
                    else if decide (p = "/sys/fs/cgroup/user.slice/libpod-x.scope/cgroup.procs") then Some "7"
                    else if decide (p = "/proc/7/status") then Some "VmRSS:    12 kB"
                    else None;
  proc_dirs := λ _, [] |}.
Lemma sample_fits_u64_witness :
  let smp := unwrap_or (demo_sample "" 0) (cgroup_sample (FS := demo_fs) 7 "c1" 9) in
  ms_mem_bytes smp = 12288%N ∧ (ms_mem_bytes smp ≤ u64_top)%N.
Proof.
  intros smp. split; [vm_check|].
  apply (sample_fits_u64 (FS := demo_fs) "/proc" "/sys/fs/cgroup" 7 "c1" 9 smp). vm_check.
Defined.
