(* ===== verification/Containers.v ===== *)
(** The container handlers of the daemon ([linpodx-daemon/src/dispatch/containers.rs]):
    where the sandbox manager, the plugin host, the overlayfs mounts, podman, the
    sessions, the snapshots and the metrics meet.

    Responses are the values the handlers serialise. [opts_to_vec] is the JSON text of
    the options, as plugins are given it. *)
From S2P Require Import Prelude Text Json Timestamps Common Schema Policy Plugin Database AuditKinds AuditLog Logging Embedding ApprovalRegistry Approval Manager KeyRegistry Parse Podman Resources Sessions SnapCrypto SnapStore Snapshots Metrics.

(** The live overlayfs mounts, by the image they were made from. *)
Class HasMounts (S : Type) := {
  mounts_of : S → gmap string string;
}.

(** [opts.env.extend(..)] and the like, and [opts.rootfs = Some(..)]. *)
Definition extend_opts (p : InjectorPayload) (o : CreateOptions) : CreateOptions :=
  {| image := image o; co_name := co_name o; command := command o ++ args_append p; env := env o ++ env_add p; labels := labels o;
     rm := rm o; detach := detach o; port_mappings := port_mappings o; volumes := volumes o;
     networks := networks o; cap_drop := cap_drop o; cap_add := cap_add o; read_only := read_only o;
     cpus := cpus o; memory_mb := memory_mb o; sandbox_profile := sandbox_profile o;
     co_passthrough := co_passthrough o; co_systemd := co_systemd o; auto_restart := auto_restart o;
     keep_user_id := keep_user_id o; rootfs := rootfs o;
     security_opts := security_opts o ++ security_opts_add p |}.
Definition set_rootfs (mount : option string) (o : CreateOptions) : CreateOptions :=
  {| image := image o; co_name := co_name o; command := command o; env := env o; labels := labels o;
     rm := rm o; detach := detach o; port_mappings := port_mappings o; volumes := volumes o;
     networks := networks o; cap_drop := cap_drop o; cap_add := cap_add o; read_only := read_only o;
     cpus := cpus o; memory_mb := memory_mb o; sandbox_profile := sandbox_profile o;
     co_passthrough := co_passthrough o; co_systemd := co_systemd o; auto_restart := auto_restart o;
     keep_user_id := keep_user_id o; rootfs := or_else mount (rootfs o);
     security_opts := security_opts o |}.

Record ContainerExecParams : Type := {
  ce_container_id : string;
  ce_command : list string;
  ce_env : list (string * string);
  ce_tty : bool;
}.

Section Handlers.
Context {E : Env} {X : CryptoEnv} {NC : NanoClock} {H : HostEnv} {MC : MarkerCodec} {WA : Wasm} {G : ApprovalGateway} {SC : SecCompiler} {K : AuditSink}.
Context {S P : Type} {W : HasWorld S} {C : PodmanCli P} {HP : HasPodman S P} {T : HasSnaps S} {TS : HasSessions S} {TM : HasMetrics S} {HM : HasMounts S}.
Context (pcfg : PodmanConfig) (mcfg : ManagerConfig) (backend : SnapshotBackendKind → SnapshotBackend S).
Context (opts_to_vec : CreateOptions → string).

Definition mount_path_for (image_ref : string) : M S Fault (option string) := gets (λ s, mounts_of s !! image_ref).

(** ** container_create *)

Definition apply_profile (opts : CreateOptions) : M S Fault CreateOptions :=
  match sandbox_profile opts with
  | None => mret opts
  | Some profile_name => r ← on_world (apply_to_create mcfg profile_name opts); mret r.1
  end.

(** The [runtime_injector] plugins (the registry is the manager's); a task that cannot
    be joined adds nothing. *)
Definition inject (profile : option string) (opts : CreateOptions) : M S Fault CreateOptions :=
  if negb (mc_plugins mcfg) then mret opts
  else
    joined ← on_world (with_registry (λ ps, registry_runtime_injector ps (opts_to_vec opts)));
    let payload := unwrap_or empty_injector joined in
    if injector_is_empty payload then mret opts
    else
      _ ← on_world (record SinkPluginRuntimeInjectorCalled profile None
            (JObject [("env_add", jint (Z.of_nat (length (env_add payload)))); ("args_append", jint (Z.of_nat (length (args_append payload))));
                      ("security_opts_add", jint (Z.of_nat (length (security_opts_add payload))))]));
      mret (extend_opts payload opts).

Definition mount_rootfs (opts : CreateOptions) : M S Fault (option string * CreateOptions) :=
  mounted ← mount_path_for (image opts);
  mret (mounted, set_rootfs mounted opts).

(** What follows podman's [create]: the session, the snapshot before the first run
    and the link to the mount; failures of the first two are only logged. *)
Definition after_create (profile mounted : option string) (opts : CreateOptions) (id : string) : M S Fault string :=
  _ ← attempt_in (session_start id (unwrap_or id (co_name opts)) profile);
  _ ← (match profile with
       | Some profile_name => _ ← attempt_in (pre_run_snapshot pcfg backend profile_name id); mret tt
       | None => mret tt
       end : M S Fault unit);
  _ ← (match mounted with
       | Some path => on_world (record SinkSnapshotMounted profile (Some id)
           (JObject [("container_id", JString id); ("image", JString (image opts)); ("mount_path", JString path)]))
       | None => mret tt
       end : M S Fault unit);
  _ ← on_world (publish TContainer Created id
        (JObject [("image", JString (image opts)); ("name", jopt JString (co_name opts)); ("sandbox_profile", jopt JString (sandbox_profile opts))]));
  mret id.

Definition container_create (opts : CreateOptions) : M S Fault string :=
  let profile := sandbox_profile opts in
  opts1 ← apply_profile opts;
  opts2 ← inject profile opts1;
  r ← mount_rootfs opts2;
  id ← podman_create pcfg r.2;
  after_create profile r.1 r.2 id.

(** ** The other handlers *)

Definition container_list (all : bool) : M S Fault (list ContainerSummary) := podman_list pcfg all.
Definition container_inspect (id : string) : M S Fault ContainerInspect := podman_inspect pcfg id.
Definition container_logs (id : string) (since : option string) : M S Fault (string * string) := podman_logs pcfg id since.

Definition container_start (id : string) : M S Fault unit :=
  _ ← podman_start pcfg id;
  _ ← spawn_for id;
  on_world (publish TContainer Started id JNull).
Definition container_stop (id : string) (timeout_secs : option Z) : M S Fault unit :=
  _ ← podman_stop pcfg id timeout_secs;
  _ ← stop_for id;
  on_world (publish TContainer Stopped id JNull).
Definition container_remove (id : string) (force : bool) : M S Fault unit :=
  insp ← attempt_in (podman_inspect pcfg id);
  let canonical_id := match insp with Ok i => ci_id i | Err _ => id end in
  _ ← podman_remove pcfg id force;
  _ ← stop_for canonical_id;
  _ ← attempt_in (session_end canonical_id);
  on_world (publish TContainer Removed canonical_id JNull).

Definition container_update_handler (p : ContainerUpdateParams) : M S Fault (string * list string) :=
  out ← container_update pcfg p;
  _ ← on_world (record SinkContainerUpdated None (Some out.1) (JObject [("container_id", JString (up_id p)); ("applied", jstrs out.2)]));
  _ ← on_world (publish TContainer Succeeded out.1 (JObject [("operation", JString "container_update"); ("applied", jstrs out.2)]));
  mret out.

Definition container_exec (p : ContainerExecParams) : M S Fault (Z * string * string) :=
  out ← podman_exec_in pcfg {| ex_id := ce_container_id p; ex_command := ce_command p; ex_env := ce_env p; ex_tty := ce_tty p |};
  _ ← on_world (record SinkContainerExecCalled None (Some (ce_container_id p))
        (JObject [("container_id", JString (ce_container_id p)); ("command", jstrs (ce_command p)); ("exit_code", jint out.1.1)]));
  mret out.
End Handlers.

(** * What reaches podman *)

(** What podman is told of a request under profile [p], [fs] being the options it reads
    and [pass] the volumes of desktop passthrough. A capability list is read field by
    field; the limits of the profile win over those of the request. *)
Definition confined {P : Type} {C : PodmanCli P} {F : PodmanFlags} (p : SandboxProfile) (req : CreateOptions) (pass : list string)
    (fs : list (string * option string)) : Prop :=
  values "--network" fs = (match network p with NetNone => ["none"] | Allowlist _ _ | Full => networks req end) ∧
  (has_option "--read-only" fs ↔ read_only_rootfs p = true ∨ read_only req = true) ∧
  (∀ c, c ∈ fields "--cap-drop" fs ↔ ∃ x, (x ∈ drop (capabilities p) ∨ x ∈ cap_drop req) ∧ c ∈ csv x) ∧
  (∀ c, c ∈ fields "--cap-add" fs ↔ ∃ x, (x ∈ add (capabilities p) ∨ x ∈ cap_add req) ∧ c ∈ csv x) ∧
  Forall2 (λ vm v, ∃ vm', enforced p vm vm' ∧ v = to_volume_arg vm') (volumes req) (firstn (length (volumes req)) (values "--volume" fs)) ∧
  skipn (length (volumes req)) (values "--volume" fs) = pass ∧
  values "--cpus" fs = option_list (f32_to_string <$> or_else (lim_cpu (limits p)) (cpus req)) ∧
  values "--memory" fs = option_list ((λ m : Z, pretty m +:+ "m") <$> or_else (lim_memory_mb (limits p)) (memory_mb req)).

Section Confinement.
Context {E : Env} {X : CryptoEnv} {NC : NanoClock} {H : HostEnv} {MC : MarkerCodec} {WA : Wasm} {G : ApprovalGateway} {SC : SecCompiler} {K : AuditSink}.
Context {S P : Type} {W : HasWorld S} {C : PodmanCli P} {HP : HasPodman S P} {T : HasSnaps S} {TS : HasSessions S} {TM : HasMetrics S} {HM : HasMounts S}.
Context {PL : PodmanLaws S P} {GL : GatewayLaws G} {CL : SecCompilerLaws SC} {F : PodmanFlags} {FL : PodmanFlagLaws F}.
Context (pcfg : PodmanConfig) (mcfg : ManagerConfig) (backend : SnapshotBackendKind → SnapshotBackend S).
Context (opts_to_vec : CreateOptions → string).

Lemma on_world_podman {A} (c : D A) (s s' : S) r : on_world c s = (r, s') → podman_of s' = podman_of s.
Proof. unfold on_world. destruct (c (world_of s)) as [r' w]. intros [= <- <-]. apply podman_of_put_world. Qed.
Lemma on_world_ok {A} (c : D A) (s s' : S) a : on_world c s = (Ok a, s') → ∃ w, c (world_of s) = (Ok a, w).
Proof. unfold on_world. destruct (c (world_of s)) as [r' w]. intros [= -> <-]. eauto. Qed.

(** A request that was let through: the engine's options, with security options
    appended, every gate granted. *)
Lemma applied_shape name opts w opts' applied w' :
  apply_to_create mcfg name opts w = (Ok (opts', applied), w') →
  ∃ lp opts1 extra, w_cache w !! name = Some lp ∧ decided_opts (Policy.apply (lpf_profile lp) opts) = Some opts1 ∧
    Forall (gate_granted name) (decided_gates (Policy.apply (lpf_profile lp) opts)) ∧ opts' = add_security_opts extra opts1.
Proof.
  unfold apply_to_create. intros Ha. inv_bind Ha cache w1 Hc. run_simpl Hc.
  destruct (w_cache w1 !! name) as [lp|]; [|done]. exists lp.
  destruct (Policy.apply (lpf_profile lp) opts) as [opts1 ap|reason|gates opts1 ap].
  - destruct (finish_apply_ok _ _ _ _ _ _ _ _ _ Ha) as (-> & [extra ->] & _). by exists opts1, extra.
  - inv_bind Ha e w2 He. inv_bind Ha u w3 Hu. done.
  - inv_bind Ha u w2 Hg. destruct u. apply ask_gates_ok in Hg as [HF _].
    destruct (finish_apply_ok _ _ _ _ _ _ _ _ _ Ha) as (-> & [extra ->] & _). by exists opts1, extra.
Qed.

(** Plugins and mounts add to the environment, the command and the security options,
    and may replace the root directory. *)
Definition same_limits (o o' : CreateOptions) : Prop :=
  networks o' = networks o ∧ read_only o' = read_only o ∧ cap_drop o' = cap_drop o ∧ cap_add o' = cap_add o ∧
  volumes o' = volumes o ∧ co_passthrough o' = co_passthrough o ∧ cpus o' = cpus o ∧ memory_mb o' = memory_mb o ∧ image o' = image o.

Lemma inject_limits profile opts s opts' s' :
  inject mcfg opts_to_vec profile opts s = (Ok opts', s') → same_limits opts opts' ∧ podman_of s' = podman_of s.
Proof.
  unfold inject. intros Hi. case_match; [by inv_ret Hi|]. inv_bind Hi j s1 Hj. apply on_world_podman in Hj.
  case_match; [by inv_ret Hi|]. inv_bind Hi u s2 Hu. apply on_world_podman in Hu. inv_ret Hi. split; [done|]. by rewrite Hu.
Qed.

Lemma in_sorted_fields (a b : list string) c :
  c ∈ (sorted (list_to_set a ∪ list_to_set b : gset string) ≫= csv) ↔ ∃ x, (x ∈ a ∨ x ∈ b) ∧ c ∈ csv x.
Proof.
  rewrite list_elem_of_bind. split.
  - intros (x & Hc & Hx). exists x. split; [|done]. rewrite elem_of_sorted in Hx. set_solver.
  - intros (x & Hx & Hc). exists x. split; [done|]. rewrite elem_of_sorted. set_solver.
Qed.
Lemma confined_of p req o final :
  decided_opts (Policy.apply p req) = Some o → same_limits o final → 
  confined p req (values "--volume" (passthrough_options req)) (created_options final).
Proof.
  intros Hd (Hn & Hr & Hcd & Hca & Hv & Hp & Hcpu & Hmem & _). destruct (apply_shape _ _ _ Hd) as (vols & al & Hm & -> & _).
  apply mounts_loop_ok in Hm as [Hm _]. pose proof (create_values final) as (Va & Vd & Vn & _ & Vv & Vc & Vm).
  unfold confined, fields. rewrite !created_values, Va, Vd, Vn, Vv, Vc, Vm, Hn, Hcd, Hca, Hv, Hcpu, Hmem, created_read_only, Hr.
  assert (passthrough_options final = passthrough_options req) as ->.
  { unfold passthrough_options, passthrough_args. by rewrite Hp. }
  cbn [constrain networks cap_drop cap_add volumes read_only cpus memory_mb].
  assert (length (to_volume_arg <$> vols) = length (volumes req)) as Hlen.
  { rewrite length_fmap. symmetry. by eapply Forall2_length. }
  split_and!.
  - unfold network_step. by destruct (network p).
  - destruct (read_only_rootfs p); naive_solver.
  - intros c. apply in_sorted_fields.
  - intros c. apply in_sorted_fields.
  - rewrite <-Hlen, take_app_length, Forall2_fmap_r. apply (Forall2_impl _ _ _ _ Hm). by intros vm vm' ?; exists vm'.
  - by rewrite <-Hlen, drop_app_length.
  - done.
  - done.
Qed.

(** C3: A sandboxed container is created as its profile says, down to podman's
    command line, for every parser that follows pflag's documented syntax. When
    [container_create] succeeds for a request that names a profile, the profile is
    loaded, every approval it asked for was granted, and the id is what podman
    printed for a call that was podman's first. From the options of this call
    podman reads: the [none] network alone if the profile has none, otherwise the
    networks of the request (the engine does not enforce an allowlist here); a
    read-only root if and only if the profile or the request wants one; as dropped
    and added capabilities exactly the fields of those the profile or the request
    names; the request's volumes one by one as the policy engine enforces them,
    followed by those of desktop passthrough and no others; and the profile's CPU and
    memory limits, the request's where the profile has none. This needs the image
    not to look like an option. *)
Theorem sandboxed_create_is_confined opts name s id s' :
  sandbox_profile opts = Some name → container_create pcfg mcfg backend opts_to_vec opts s = (Ok id, s') →
  ∃ lp final out,
    w_cache (world_of s) !! name = Some lp ∧
    Forall (gate_granted name) (decided_gates (Policy.apply (lpf_profile lp) opts)) ∧
    captured (podman_exec (base_command pcfg ++ create_args final) None (podman_of s)).1 = Ok out ∧ id = trim out ∧
    (starts_with (create_target final) "-" = false →
     ∃ fs, read_options (tail (create_args final)) = (fs, create_target final :: command final) ∧
       confined (lpf_profile lp) opts (values "--volume" (passthrough_options opts)) fs).
Proof.
  intros Hp Hc. unfold container_create in Hc. inv_bind Hc o1 s1 H1. inv_bind Hc o2 s2 H2. inv_bind Hc r s3 H3. inv_bind Hc id' s4 H4.
  unfold apply_profile in H1. rewrite Hp in H1. inv_bind H1 pr s0 H0. inv_ret H1.
  pose proof (on_world_podman _ _ _ _ H0) as Hs. apply on_world_ok in H0 as [w Hw]. destruct pr as [o' ap].
  apply applied_shape in Hw as (lp & opts1 & extra & Hl & Hd & Hg & ->). apply inject_limits in H2 as [Hlim Hs2].
  unfold mount_rootfs in H3. inv_bind H3 m s5 H5. inv_ret H3. cbn [fst snd] in *. injection H5 as _ <-.
  assert (same_limits opts1 (set_rootfs m o2)) as Hsame by exact Hlim.
  exists lp, (set_rootfs m o2).
  pose proof (podman_create_spec pcfg (set_rootfs m o2) s2) as [_ Hok]. rewrite H4, Hs2, Hs in Hok.
  destruct (Hok id' eq_refl) as (_ & out & Hout & Hid). exists out. split_and!; [done..| |].
  - assert (id = id') as ->; [|done]. clear -Hc. unfold after_create in Hc.
    do 4 (apply bind_ok in Hc as (? & ? & _ & Hc)). by inv_ret Hc.
  - intros Ht. exists (created_options (set_rootfs m o2)). split; [by apply create_read|].
    by eapply confined_of.
Qed.

(** A request the manager refuses never reaches podman, and leaves no session, no
    snapshot and no collector. *)
Theorem refused_create_stops_there opts name s e w :
  sandbox_profile opts = Some name → apply_to_create mcfg name opts (world_of s) = (Err e, w) →
  container_create pcfg mcfg backend opts_to_vec opts s = (Err e, put_world w s).
Proof.
  intros Hp Ha. unfold container_create, apply_profile. rewrite Hp. cbv [mbind M_bind]. unfold on_world. by rewrite Ha.
Qed.
End Confinement.

(** * Examples *)

Record DaemonState : Type := {
  d_world : World;
  d_podman : Calls;
  d_snaps : SnapState;
  d_sessions : SessionTables;
  d_metrics : MetricsState;
  d_mounts : gmap string string;
}.
#[export] Instance daemon_world : HasWorld DaemonState :=
  {| world_of := d_world; put_world := λ w s, {| d_world := w; d_podman := d_podman s; d_snaps := d_snaps s; d_sessions := d_sessions s; d_metrics := d_metrics s; d_mounts := d_mounts s |} |}.
#[export] Instance daemon_podman : HasPodman DaemonState Calls :=
  {| podman_of := d_podman; put_podman := λ p s, {| d_world := d_world s; d_podman := p; d_snaps := d_snaps s; d_sessions := d_sessions s; d_metrics := d_metrics s; d_mounts := d_mounts s |} |}.
#[export] Instance daemon_snaps : HasSnaps DaemonState :=
  {| snaps_of := d_snaps; put_snaps := λ t s, {| d_world := d_world s; d_podman := d_podman s; d_snaps := t; d_sessions := d_sessions s; d_metrics := d_metrics s; d_mounts := d_mounts s |} |}.
#[export] Instance daemon_sessions : HasSessions DaemonState :=
  {| sessions_of := d_sessions; put_sessions := λ t s, {| d_world := d_world s; d_podman := d_podman s; d_snaps := d_snaps s; d_sessions := t; d_metrics := d_metrics s; d_mounts := d_mounts s |} |}.
#[export] Instance daemon_metrics : HasMetrics DaemonState :=
  {| metrics_of := d_metrics; put_metrics := λ t s, {| d_world := d_world s; d_podman := d_podman s; d_snaps := d_snaps s; d_sessions := d_sessions s; d_metrics := t; d_mounts := d_mounts s |} |}.
#[export] Instance daemon_mounts : HasMounts DaemonState := {| mounts_of := d_mounts |}.
#[export] Instance daemon_podman_laws : PodmanLaws DaemonState Calls.
Proof. by split. Qed.

Definition fresh_daemon (w : World) : DaemonState :=
  {| d_world := w; d_podman := []; d_snaps := no_snaps; d_sessions := no_sessions; d_metrics := no_metrics; d_mounts := ∅ |}.
Definition fresh_backend {C : PodmanCli Calls} (_ : SnapshotBackendKind) : SnapshotBackend DaemonState := PodmanCommitBackend plain_config.

Definition demo_cli : PodmanCli Calls := recording_cli toy_answer.
Definition demo_create (opts : CreateOptions) (s : DaemonState) : Result Fault string * DaemonState :=
  container_create (E := toy_env) (X := toy_crypto good_disk) (H := no_host) (MC := toy_codec) (WA := example_wasm) (G := NoopApprovalGateway)
    (SC := no_compiler) (K := NoopAuditSink) (C := demo_cli) plain_config example_cfg (fresh_backend (C := demo_cli)) (λ _, "") opts s.

(** A request with a mount that needs an approval, one that is pinned read-only, and
    a network of its own. *)
Definition demo_request : CreateOptions := example_opts [rw "/etc" "/conf"; rw "/data" "/data"] ["SYS_ADMIN"].
Definition sandboxed_daemon : DaemonState := fresh_daemon (cached example_profile).

Example demo_create_runs :
  let '(r, s) := demo_create demo_request sandboxed_daemon in
  r = Ok "c0ffee" ∧ d_podman s = [(["create"; "--volume"; "/etc:/conf"; "--volume"; "/data:/data:ro"; "--network"; "none"; "--memory"; "512m";
    "--cap-drop"; "ALL"; "--cap-add"; "SETUID"; "--cap-add"; "SYS_ADMIN"; "--read-only"; "alpine"], None)] ∧
  (sr_container_id <$> st_sessions (d_sessions s)) = ["c0ffee"].
Proof. by vm_compute. Qed.

Lemma sandboxed_create_is_confined_witness :
  ∃ final out,
    captured (podman_exec (PodmanCli := demo_cli) (base_command plain_config ++ create_args (C := demo_cli) (H := no_host) final) None []).1 = Ok out ∧
    trim out = "c0ffee" ∧
    (starts_with (create_target final) "-" = false →
     ∃ fs, confined (C := demo_cli) example_profile demo_request [] fs ∧ values "--network" fs = ["none"] ∧ has_option "--read-only" fs ∧
       values "--memory" fs = ["512m"]).
Proof.
  destruct (sandboxed_create_is_confined (E := toy_env) (X := toy_crypto good_disk) (H := no_host) (MC := toy_codec) (WA := example_wasm)
    (G := NoopApprovalGateway) (SC := no_compiler) (K := NoopAuditSink) (C := demo_cli) (F := toy_flags) plain_config example_cfg (fresh_backend (C := demo_cli)) (λ _, "")
    demo_request "agent" sandboxed_daemon "c0ffee" (demo_create demo_request sandboxed_daemon).2) as (lp & final & out & Hl & _ & Hout & Hid & Hread).
  - reflexivity.
  - apply run_ok. vm_check.
  - exists final, out. split; [exact Hout|]. split; [done|]. intros Ht. destruct (Hread Ht) as (fs & _ & Hc).
    injection Hl as <-. exists fs. split; [exact Hc|]. destruct Hc as (Hn & Hr & _ & _ & _ & _ & _ & Hm). split; [exact Hn|]. split; [by apply Hr; left|exact Hm].
Defined.

(** The policy engine constrains the volumes of a request, not its root directory: a
    client that names the host's root as [rootfs] gets it, mounts or not. *)
Definition rootfs_request : CreateOptions := set_rootfs (Some "/") (example_opts [] []).
Example rootfs_is_not_constrained :
  let '(r, s) := demo_create rootfs_request sandboxed_daemon in
  r = Ok "c0ffee" ∧ ∃ flags, d_podman s = [("create" :: flags ++ ["--rootfs"; "/"], None)].
Proof.
  vm_compute. split; [done|].
  exists ["--network"; "none"; "--memory"; "512m"; "--cap-drop"; "ALL"; "--cap-add"; "SETUID"; "--read-only"]. done.
Qed.

(** A client's own [label=type:] stands in front of the one compiled from the profile,
    and the first one wins. *)
Example client_label_wins :
  dedup_label_type_first_wins (security_opts (add_security_opts ["label=type:agent_t"] (add_security_opts ["label=type:spc_t"] (example_opts [] []))))
  = ["label=type:spc_t"].
Proof. by vm_compute. Qed.
