(* ===== verification/IpNet.v ===== *)
(** IP addresses as [std::net] reads and prints them, the addresses a rule of the
    egress allowlist resolves to ([linpodx-netfilter/src/resolver.rs]) and the nftables
    script written from them ([applier.rs]). *)
From S2P Require Import Prelude Text Json Common.

(** * std::net::IpAddr *)

Inductive IpAddr : Type :=
| V4 (a b c d : N)
| V6 (segments : list N).

Definition period : ascii := Ascii.ascii_of_N 46.

(** [char::to_digit]. *)
Definition hex_val (c : ascii) : option N :=
  let b := byte_val c in
  if bool_decide (48 ≤ b ≤ 57)%N then Some (b - 48)%N
  else if bool_decide (97 ≤ b ≤ 102)%N then Some (b - 87)%N
  else if bool_decide (65 ≤ b ≤ 70)%N then Some (b - 55)%N
  else None.

Fixpoint span_digits (to_digit : ascii → option N) (s : string) : list N * string :=
  match s with
  | EmptyString => ([], s)
  | String c s' => match to_digit c with
                   | Some d => let '(ds, rest) := span_digits to_digit s' in (d :: ds, rest)
                   | None => ([], s)
                   end
  end.
(** [Parser::read_number] with a limit on the digits, for a type up to [max]. *)
Definition read_number (radix : N) (to_digit : ascii → option N) (max_digits : nat) (allow_zero_prefix : bool) (max : N) (s : string) :
    option (N * string) :=
  let '(ds, rest) := span_digits to_digit s in
  let n := foldl (λ acc d, acc * radix + d)%N 0%N ds in
  if bool_decide (length ds = 0) || bool_decide (max_digits < length ds) || bool_decide (max < n)%N then None
  else if negb allow_zero_prefix && bool_decide (head ds = Some 0%N) && bool_decide (1 < length ds) then None
  else Some (n, rest).
Definition read_char (c : ascii) (s : string) : option string := strip_prefix (String c "") s.
Definition read_separator {A} (sep : ascii) (index : nat) (inner : string → option (A * string)) (s : string) : option (A * string) :=
  if decide (index = 0) then inner s else read_char sep s ≫= inner.

Definition read_octet : string → option (N * string) := read_number 10 digit_val 3 false 255.
Definition read_group : string → option (N * string) := read_number 16 hex_val 4 true 65535.
Definition read_ipv4 (s : string) : option (N * N * N * N * string) :=
  '(a, s) ← read_octet s;
  '(b, s) ← read_separator period 1 read_octet s;
  '(c, s) ← read_separator period 2 read_octet s;
  '(d, s) ← read_separator period 3 read_octet s;
  Some (a, b, c, d, s).
(** [read_groups] into [left] slots: the groups, and whether the last two were an
    embedded IPv4 address. *)
Fixpoint read_groups (left index : nat) (s : string) : list N * bool * string :=
  match left with
  | O => ([], false, s)
  | S left' =>
      let v4 := if decide (left' = 0) then None
                else read_separator colon index (λ s, (λ r, (r.1, r.2)) <$> read_ipv4 s) s in
      match v4 with
      | Some (a, b, c, d, s') => ([a * 256 + b; c * 256 + d]%N, true, s')
      | None =>
          match read_separator colon index read_group s with
          | Some (g, s') => let '(gs, v4', rest) := read_groups left' (S index) s' in (g :: gs, v4', rest)
          | None => ([], false, s)
          end
      end
  end.
Definition read_ipv6 (s : string) : option (list N * string) :=
  let '(head_, head_v4, s1) := read_groups 8 0 s in
  if decide (length head_ = 8) then Some (head_, s1)
  else if head_v4 then None
  else
    s2 ← read_char colon s1 ≫= read_char colon;
    let '(tail_, _, s3) := read_groups (8 - (length head_ + 1)) 0 s2 in
    Some (head_ ++ replicate (8 - length head_ - length tail_) 0%N ++ tail_, s3).
(** [IpAddr::from_str]: the whole text is an address of one family or the other. *)
Definition ip_from_str (s : string) : option IpAddr :=
  match read_ipv4 s with
  | Some (a, b, c, d, EmptyString) => Some (V4 a b c d)
  | _ => match read_ipv6 s with
         | Some (segments, EmptyString) => Some (V6 segments)
         | _ => None
         end
  end.

(** Printing: [{:x}], the longest run of zeros compressed, an IPv4-mapped address
    with its IPv4 part. *)
Definition hex_char (d : N) : ascii := Ascii.ascii_of_N (if bool_decide (d < 10)%N then 48 + d else 87 + d).
Fixpoint strip_zeros (l : list N) : list N :=
  match l with [] => [] | [d] => [d] | d :: l' => if decide (d = 0%N) then strip_zeros l' else l end.
Definition hex_text (n : N) : string :=
  foldr (λ d s, String (hex_char d) s) "" (strip_zeros [n / 4096; n / 256 mod 16; n / 16 mod 16; n mod 16]%N).
Definition groups_text (gs : list N) : string := str_concat ":" (hex_text <$> gs).
(** The first longest run of zeros: where it starts and how long it is. *)
Fixpoint zero_runs (i : nat) (current longest : nat * nat) (gs : list N) : nat * nat :=
  match gs with
  | [] => longest
  | g :: gs' =>
      if decide (g = 0%N) then
        let current' := if decide (current.2 = 0) then (i, 1) else (current.1, S current.2) in
        zero_runs (S i) current' (if bool_decide (longest.2 < current'.2) then current' else longest) gs'
      else zero_runs (S i) (0, 0) longest gs'
  end.
Definition v4_text (a b c d : N) : string := pretty a +:+ "." +:+ pretty b +:+ "." +:+ pretty c +:+ "." +:+ pretty d.
(** [to_ipv4_mapped]. *)
Definition v4_mapped (segments : list N) : option (N * N) :=
  match segments with
  | [s0; s1; s2; s3; s4; s5; g; h] => if decide ([s0; s1; s2; s3; s4; s5] = [0; 0; 0; 0; 0; 65535]%N) then Some (g, h) else None
  | _ => None
  end.
Definition v6_text (segments : list N) : string :=
  match v4_mapped segments with
  | Some (g, h) => "::ffff:" +:+ v4_text (g / 256) (g mod 256) (h / 256) (h mod 256)
  | None =>
      let '(start, len) := zero_runs 0 (0, 0) (0, 0) segments in
      if bool_decide (1 < len)
      then groups_text (take start segments) +:+ "::" +:+ groups_text (skipn (start + len) segments)
      else groups_text segments
  end.
Definition ip_to_string (ip : IpAddr) : string :=
  match ip with V4 a b c d => v4_text a b c d | V6 segments => v6_text segments end.

(** * resolver.rs *)

Inductive ResolvedAddr : Type :=
| Cidr (s : string)
| Ips (ips : list IpAddr).
Inductive AddrFamily : Type := FamV4 | FamV6.

Definition as_nft_strings (a : ResolvedAddr) : list string :=
  match a with Cidr s => [s] | Ips ips => ip_to_string <$> ips end.
Definition first_family (a : ResolvedAddr) : AddrFamily :=
  match a with
  | Cidr s => if has_char colon s then FamV6 else FamV4
  | Ips (V6 _ :: _) => FamV6
  | Ips _ => FamV4
  end.

(** * applier.rs *)

Definition TABLE_NAME : string := "linpodx_egress".

Record ResolvedRule : Type := {
  rr_proto : EgressProto;
  rr_addr : ResolvedAddr;
  rr_port : option Z;
}.
Definition from_parts (rule : EgressRule) (a : ResolvedAddr) : ResolvedRule :=
  {| rr_proto := proto rule; rr_addr := a; rr_port := port rule |}.

Definition tab : string := String (Ascii.ascii_of_N 9) "".
Definition eol : string := String newline "".

(** The lines one address adds. *)
Definition addr_lines (daddr_keyword : string) (p : EgressProto) (port_ : option Z) (a : string) : list string :=
  let start := daddr_keyword +:+ " " +:+ a in
  let dport := λ l4 n, start +:+ " " +:+ l4 +:+ " dport " +:+ pretty n +:+ " accept" in
  match p, port_ with
  | ProtoAny, None => [start +:+ " accept"]
  | ProtoAny, Some n => [dport "tcp" n; dport "udp" n]
  | ProtoTcp, None => [start +:+ " tcp accept"]
  | ProtoTcp, Some n => [dport "tcp" n]
  | ProtoUdp, None => [start +:+ " udp accept"]
  | ProtoUdp, Some n => [dport "udp" n]
  end.
Definition family_keyword (f : AddrFamily) : string := match f with FamV4 => "ip daddr" | FamV6 => "ip6 daddr" end.
Definition render_rule_lines (rule : ResolvedRule) : list string :=
  as_nft_strings (rr_addr rule) ≫= addr_lines (family_keyword (first_family (rr_addr rule))) (rr_proto rule) (rr_port rule).

Definition script_head : list string :=
  ["table inet " +:+ TABLE_NAME +:+ " {}"; "delete table inet " +:+ TABLE_NAME; "table inet " +:+ TABLE_NAME +:+ " {";
   tab +:+ "chain output {"; tab +:+ tab +:+ "type filter hook output priority 0; policy drop;";
   tab +:+ tab +:+ "meta oif " +:+ dquote +:+ "lo" +:+ dquote +:+ " accept"; tab +:+ tab +:+ "ct state established,related accept"].
Definition script_tail : list string :=
  [tab +:+ "}"; tab +:+ "chain forward {"; tab +:+ tab +:+ "type filter hook forward priority 0; policy drop;"; tab +:+ "}"; "}"].
(** [out.push_str(line); out.push('\n')] for each line. *)
Definition push_lines (ls : list string) : string := foldr (λ l s, l +:+ eol +:+ s) "" ls.
Definition build_ruleset (rules : list ResolvedRule) : string :=
  push_lines (script_head ++ ((λ l, tab +:+ tab +:+ l) <$> (rules ≫= render_rule_lines)) ++ script_tail).
Definition clear_script : string :=
  push_lines ["table inet " +:+ TABLE_NAME +:+ " {}"; "delete table inet " +:+ TABLE_NAME].

Example ip_texts :
  ip_from_str "10.0.0.1" = Some (V4 10 0 0 1) ∧ ip_from_str "010.0.0.1" = None ∧ ip_from_str "10.0.0.256" = None ∧
  ip_from_str "::1" = Some (V6 [0; 0; 0; 0; 0; 0; 0; 1]%N) ∧ ip_from_str "2606:4700::6810:85e5" = Some (V6 [9734; 18176; 0; 0; 0; 0; 26640; 34277]%N) ∧
  ip_from_str "::ffff:1.2.3.4" = Some (V6 [0; 0; 0; 0; 0; 65535; 258; 772]%N) ∧ ip_from_str "1:2:3:4:5:6:7:8:9" = None ∧
  ip_from_str "1::2::3" = None ∧ ip_from_str "api.openai.com" = None ∧
  ip_to_string (V6 [9734; 18176; 0; 0; 0; 0; 26640; 34277]%N) = "2606:4700::6810:85e5" ∧ ip_to_string (V6 [0; 0; 0; 0; 0; 0; 0; 0]%N) = "::" ∧
  ip_to_string (V6 [0; 0; 0; 0; 0; 65535; 258; 772]%N) = "::ffff:1.2.3.4" ∧ ip_to_string (V6 [1; 0; 0; 2; 0; 0; 0; 3]%N) = "1:0:0:2::3".
Proof. by vm_compute. Qed.

(** * The script says what was resolved *)

Lemma split_newline a s : has_char newline a = false → split newline (a +:+ eol +:+ s) = a :: split newline s.
Proof.
  induction a as [|c a IH]; intros H.
  - change (split newline (String newline s) = "" :: split newline s). cbn [split]. by rewrite decide_True.
  - rewrite str_app_cons_l. cbn [has_char] in H. apply orb_false_elim in H as [Hc Ha]. apply bool_decide_eq_false in Hc.
    cbn [split]. rewrite decide_False by done. by rewrite IH.
Qed.
Definition plain_line (l : string) : Prop := has_char newline l = false ∧ strip_cr l = l.
Lemma split_push ls : Forall plain_line ls → split newline (push_lines ls) = ls ++ [""].
Proof.
  induction 1 as [|l ls [Hl _] _ IH]; [done|]. cbn [push_lines foldr]. fold (push_lines ls). rewrite split_newline by done. by rewrite IH.
Qed.
Lemma lines_push ls : Forall plain_line ls → lines (push_lines ls) = ls.
Proof.
  intros H. unfold lines. rewrite (split_push ls H), last_snoc, removelast_last, app_nil_r.
  induction H as [|l ls [_ Hl] _ IH]; [done|]. by rewrite fmap_cons, Hl, IH.
Qed.

(** What can be in the text of an address. *)
Definition addr_char (c : ascii) : bool := is_some (hex_val c) || bool_decide (c = period) || bool_decide (c = colon).
Definition ip_ok (ip : IpAddr) : Prop := match ip with V4 _ _ _ _ => True | V6 gs => Forall (λ g, (g ≤ 65535)%N) gs end.

Lemma digit_is_hex x : hex_val x = None → digit_val x = None.
Proof. unfold hex_val, digit_val. by case_bool_decide. Qed.
Lemma hex_char_val d : (d < 16)%N → is_some (hex_val (hex_char d)) = true.
Proof.
  intros H. rewrite <-(N2Nat.id d). assert (N.to_nat d < 16)%nat as Hd by lia. revert Hd.
  generalize (N.to_nat d). intros k Hk. do 16 (destruct k as [|k]; [by vm_compute|]). lia.
Qed.
Lemma hex_text_chars x g : hex_val x = None → (g ≤ 65535)%N → has_char x (hex_text g) = false.
Proof.
  intros Hx Hg. unfold hex_text.
  assert (Forall (λ d, (d < 16)%N) [g / 4096; g / 256 mod 16; g / 16 mod 16; g mod 16]%N) as Hd.
  { repeat constructor; try (apply N.mod_lt; lia). apply N.Div0.div_lt_upper_bound; lia. }
  assert (∀ l, Forall (λ d, (d < 16)%N) l → Forall (λ d, (d < 16)%N) (strip_zeros l)) as Hs.
  { induction 1 as [|d l H1 H2 IH]; [done|]. cbn [strip_zeros]. destruct l; [by repeat constructor|]. case_decide; [done|by constructor]. }
  apply Hs in Hd. induction Hd as [|d l H1 H2 IH]; [done|]. cbn [foldr has_char]. rewrite IH, orb_false_r.
  apply bool_decide_eq_false. intros <-. apply hex_char_val in H1. by rewrite Hx in H1.
Qed.
Lemma concat_chars x sep ls : has_char x sep = false → Forall (λ s, has_char x s = false) ls → has_char x (str_concat sep ls) = false.
Proof.
  intros Hs. induction 1 as [|s ls Hl H2 IH]; [done|]. cbn [str_concat]. destruct ls; [done|]. by rewrite !has_char_app, Hl, Hs, IH.
Qed.
Lemma groups_chars x gs : addr_char x = false → Forall (λ g, (g ≤ 65535)%N) gs → has_char x (groups_text gs) = false.
Proof.
  unfold addr_char. intros [[Hx _]%orb_false_elim Hc]%orb_false_elim Hg. unfold groups_text. apply concat_chars.
  - cbn [has_char]. rewrite orb_false_r. apply bool_decide_eq_false in Hc. apply bool_decide_eq_false. intros He. apply Hc. by rewrite <-He.
  - apply Forall_fmap. eapply Forall_impl; [exact Hg|]. intros g Hg'. apply hex_text_chars; [|done]. by destruct (hex_val x).
Qed.

Lemma v4_chars x a b c d : addr_char x = false → has_char x (v4_text a b c d) = false.
Proof.
  unfold addr_char. intros [[Hx Hd]%orb_false_elim _]%orb_false_elim. apply bool_decide_eq_false in Hd.
  assert (digit_val x = None) as Hv. { apply digit_is_hex. by destruct (hex_val x). }
  assert (has_char x "." = false) as Hp. { cbn [has_char]. rewrite orb_false_r. apply bool_decide_eq_false. intros He. apply Hd. by rewrite <-He. }
  unfold v4_text. by rewrite !has_char_app, !(pretty_N_no_char x), !Hp.
Qed.
Lemma ip_chars x ip : ip_ok ip → addr_char x = false → has_char x (ip_to_string ip) = false.
Proof.
  intros Hok Hx. destruct ip as [a b c d|gs]; [by apply v4_chars|]. cbn [ip_to_string ip_ok] in *.
  assert (has_char x ":" = false) as Hc.
  { unfold addr_char in Hx. apply orb_false_elim in Hx as [_ Hc]. apply bool_decide_eq_false in Hc. cbn [has_char]. rewrite orb_false_r.
    apply bool_decide_eq_false. intros He. apply Hc. by rewrite <-He. }
  assert (has_char x (let '(start, len) := zero_runs 0 (0, 0) (0, 0) gs in
      if bool_decide (1 < len) then groups_text (take start gs) +:+ "::" +:+ groups_text (skipn (start + len) gs) else groups_text gs) = false) as Hgen.
  { destruct (zero_runs 0 (0, 0) (0, 0) gs) as [start len]. case_bool_decide; [|by apply groups_chars].
    change "::" with (":" +:+ ":"). rewrite !has_char_app, Hc, !groups_chars; try done; [by apply Forall_drop|by apply Forall_take]. }
  unfold v6_text. destruct (v4_mapped gs) as [[g h]|]; [|exact Hgen].
  change "::ffff:" with (":" +:+ ":" +:+ "ffff" +:+ ":"). rewrite !has_char_app, Hc, v4_chars by done.
  assert (has_char x "f" = false) as Hf.
  { unfold addr_char in Hx. apply orb_false_elim in Hx as [[Hh _]%orb_false_elim _]. cbn [has_char]. rewrite orb_false_r. apply bool_decide_eq_false.
    intros <-. by vm_compute in Hh. }
  change "ffff" with ("f" +:+ "f" +:+ "f" +:+ "f"). by rewrite !has_char_app, !Hf.
Qed.

Lemma strip_cr_other s c : c ≠ cr → strip_cr (s +:+ String c "") = s +:+ String c "".
Proof.
  intros Hc. unfold strip_cr. assert (strip_suffix (String cr "") (s +:+ String c "") = None) as ->; [|done].
  induction s as [|d s IH].
  - change ("" +:+ String c "") with (String c ""). cbn [strip_suffix]. rewrite decide_False by (by intros [= ->]). done.
  - rewrite str_app_cons_l. cbn [strip_suffix]. rewrite IH, decide_False; [done|].
    intros H. apply (f_equal String.length) in H. rewrite <-str_app_cons_l, str_length_app in H. simpl in H. lia.
Qed.
Lemma pretty_Z_no_newline (z : Z) : has_char newline (pretty z) = false.
Proof. destruct z as [|p|p]; [done|by apply (pretty_N_no_char newline)|]. change (has_char newline ("-" +:+ pretty (N.pos p)) = false). by rewrite has_char_app, (pretty_N_no_char newline). Qed.

Definition addr_plain (a : string) : Prop := has_char newline a = false.
Definition rule_plain (r : ResolvedRule) : Prop :=
  match rr_addr r with Cidr s => addr_plain s | Ips ips => Forall ip_ok ips end.

Lemma addr_lines_shape key p n a : Forall (λ l, ∃ mid, l = key +:+ " " +:+ a +:+ mid +:+ " accept" ∧ has_char newline mid = false) (addr_lines key p n a).
Proof.
  assert (∀ l4 k, has_char newline l4 = false → has_char newline (" " +:+ l4 +:+ " dport " +:+ pretty (k : Z)) = false) as Hd.
  { intros l4 k H. by rewrite !has_char_app, H, pretty_Z_no_newline. }
  assert (∀ mid l, l = key +:+ " " +:+ a +:+ mid +:+ " accept" → has_char newline mid = false →
    ∃ mid, l = key +:+ " " +:+ a +:+ mid +:+ " accept" ∧ has_char newline mid = false) as Hm by eauto.
  assert (∀ l4 k, has_char newline l4 = false → ∃ mid, (key +:+ " " +:+ a) +:+ " " +:+ l4 +:+ " dport " +:+ pretty (k : Z) +:+ " accept"
    = key +:+ " " +:+ a +:+ mid +:+ " accept" ∧ has_char newline mid = false) as Hp.
  { intros l4 k H. eapply Hm; [|by apply (Hd l4 k)]. by rewrite !str_app_assoc. }
  destruct p, n as [n|]; cbn [addr_lines]; repeat (apply Forall_cons_2 || apply Forall_nil_2); try by apply Hp.
  - by apply (Hm ""); [rewrite !str_app_assoc|].
  - by apply (Hm " tcp"); [rewrite !str_app_assoc|].
  - by apply (Hm " udp"); [rewrite !str_app_assoc|].
Qed.
Lemma rendered_plain r : rule_plain r → Forall (λ l, plain_line (tab +:+ tab +:+ l)) (render_rule_lines r).
Proof.
  intros Hr. assert (Forall addr_plain (as_nft_strings (rr_addr r))) as Ha.
  { unfold rule_plain in Hr. destruct (rr_addr r) as [s|ips]; [by repeat constructor|]. apply Forall_fmap.
    eapply Forall_impl; [exact Hr|]. intros ip Hip. by apply ip_chars. }
  unfold render_rule_lines. apply Forall_bind. eapply Forall_impl; [exact Ha|]. intros a Hn.
  eapply Forall_impl; [apply addr_lines_shape|]. intros l (mid & -> & Hm). split.
  - rewrite !has_char_app, Hn, Hm. by destruct (first_family (rr_addr r)).
  - change " accept" with (" accep" +:+ "t"). rewrite <-!str_app_assoc. by apply strip_cr_other.
Qed.

(** The script handed to nft says what was resolved and nothing else: when no CIDR
    text of the allowlist contains a line break, its lines are the fixed frame (the
    old table dropped, both chains with policy drop, loopback and established
    connections accepted) around one group of lines per rule, and each of these is
    an accept for an address the rule was resolved to. *)
Theorem ruleset_says_what_was_resolved rules :
  Forall rule_plain rules →
  lines (build_ruleset rules) = script_head ++ ((λ l, tab +:+ tab +:+ l) <$> (rules ≫= render_rule_lines)) ++ script_tail ∧
  ∀ l, l ∈ rules ≫= render_rule_lines → ∃ r a mid, r ∈ rules ∧ a ∈ as_nft_strings (rr_addr r) ∧
    l = family_keyword (first_family (rr_addr r)) +:+ " " +:+ a +:+ mid +:+ " accept".
Proof.
  intros H. split.
  - unfold build_ruleset. apply lines_push. apply Forall_app. split; [by repeat constructor|]. apply Forall_app. split; [|by repeat constructor].
    apply Forall_fmap. apply Forall_bind. eapply Forall_impl; [exact H|]. apply rendered_plain.
  - intros l Hl. apply list_elem_of_bind in Hl as (r & Hl & Hr). unfold render_rule_lines in Hl. apply list_elem_of_bind in Hl as (a & Hl & Ha).
    pose proof (addr_lines_shape (family_keyword (first_family (rr_addr r))) (rr_proto r) (rr_port r) a) as Hs.
    rewrite Forall_forall in Hs. destruct (Hs l Hl) as (mid & -> & _). by exists r, a, mid.
Qed.

Definition web_rule (a : ResolvedAddr) : ResolvedRule := {| rr_proto := ProtoTcp; rr_addr := a; rr_port := Some 443%Z |}.
Lemma ruleset_says_what_was_resolved_witness :
  ∃ middle, lines (build_ruleset [web_rule (Cidr "10.0.0.0/8"); web_rule (Ips [V4 1 1 1 1; V4 1 0 0 1])]) = script_head ++ middle ++ script_tail ∧
    length middle = 3.
Proof.
  eexists. split; [apply (ruleset_says_what_was_resolved [web_rule (Cidr "10.0.0.0/8"); web_rule (Ips [V4 1 1 1 1; V4 1 0 0 1])])|vm_check].
  by repeat constructor.
Defined.

(** A name with addresses of both families is rendered with the keyword of its first
    one: an IPv6 address under [ip daddr], which nft refuses with the whole script. *)
Example dual_stack_keeps_one_keyword :
  render_rule_lines {| rr_proto := ProtoAny; rr_addr := Ips [V4 1 1 1 1; V6 [9734; 18176; 0; 0; 0; 0; 0; 4369]%N]; rr_port := None |}
  = ["ip daddr 1.1.1.1 accept"; "ip daddr 2606:4700::1111 accept"].
Proof. by vm_compute. Qed.
