(* ===== verification/Egress.v ===== *)
(** The egress filter of a sandbox: the DNS server that answers only for allowed names
    ([linpodx-runtime/src/network_filter.rs]), the privileged helper that installs the
    L4 allowlist ([linpodx-netfilter/src/bin/helper.rs], [wire.rs], [resolver.rs],
    [applier.rs]), its client in the daemon ([linpodx-runtime/src/egress_enforcer.rs])
    and the handler that ties them to a container
    ([linpodx-daemon/src/dispatch/networks.rs]). *)
From S2P Require Import Prelude Text Json Timestamps Common Schema Policy Plugin Database AuditKinds AuditLog Logging Embedding ApprovalRegistry Approval Manager KeyRegistry Parse Podman Sessions IpNet.

(** * network_filter.rs: the DNS filter *)

(** [trim_end_matches('.')]. *)
Fixpoint trim_end_dots (s : string) : string :=
  match s with
  | EmptyString => ""
  | String c s' => match trim_end_dots s' with
                   | EmptyString => if decide (c = period) then "" else String c ""
                   | t => String c t
                   end
  end.

Definition host_matches_allow (host allow : string) : bool :=
  if decide (host = allow) then true
  else if negb (ends_with host allow) then false
  else
    let cut := String.length host - String.length allow in
    bool_decide (0 < cut) && bool_decide (String.get (cut - 1) host = Some period).

Definition normal_name (s : string) : string := to_lower (trim_end_dots s).
Definition is_allowed (host : string) (allowlist : list string) : bool :=
  let h := normal_name host in
  existsb (λ raw, let a := normal_name raw in bool_decide (a ≠ "") && host_matches_allow h a) allowlist.

(** A DNS request as hickory hands it over: [request_info] fails on a malformed one. *)
Record DnsRequest : Type := {
  dq_is_query : bool;
  dq_info : option (string * Z);
}.
Inductive ResponseCode : Type := NoError | FormErr | ServFail | NXDomain | NotImp.
Record DnsReply (R : Type) : Type := {
  dr_code : ResponseCode;
  dr_answers : list R;
}.
Arguments dr_code {R} d.
Arguments dr_answers {R} d.
Definition empty_reply {R} (c : ResponseCode) : DnsReply R := {| dr_code := c; dr_answers := [] |}.

(** [upstream] is [None] when no resolver could be built; its lookup fails with [None]. *)
Record FilterHandler (R : Type) : Type := {
  fh_allowlist : list string;
  fh_upstream : option (string → Z → option (list R));
  fh_plugins : bool;
  fh_audit : bool;
}.
Arguments fh_allowlist {R} f.
Arguments fh_upstream {R} f.
Arguments fh_plugins {R} f.
Arguments fh_audit {R} f.

Definition decision_debug (d : NetworkDecision) : string :=
  match d with NetAllow => "Allow" | NetDeny => "Deny" | NetAuditOnly => "AuditOnly" end.

Section Dns.
Context {E : Env} {WA : Wasm} {K : AuditSink}.

Definition run_network_trace_chain (wired : bool) (kind host : string) (port : option Z) : D NetworkDecision :=
  if negb wired then mret NetAllow
  else
    joined ← with_registry (λ ps, registry_network_trace ps {| nt_kind := kind; nt_host := host; nt_port := port |});
    mret (unwrap_or NetAllow joined).

Definition handle_request {R} (f : FilterHandler R) (request : DnsRequest) : D (DnsReply R) :=
  if negb (dq_is_query request) then mret (empty_reply NotImp)
  else match dq_info request with
  | None => mret (empty_reply FormErr)
  | Some (host_str, qtype) =>
      plugin_decision ← run_network_trace_chain (fh_plugins f) "dns_query" host_str None;
      _ ← (if fh_audit f
           then record SinkPluginNetworkTraceCalled None None
                  (JObject [("kind", JString "dns_query"); ("host", JString host_str); ("decision", JString (decision_debug plugin_decision))])
           else mret tt);
      if decide (plugin_decision = NetDeny) then mret (empty_reply NXDomain)
      else if negb (is_allowed host_str (fh_allowlist f)) then mret (empty_reply NXDomain)
      else match fh_upstream f with
           | None => mret (empty_reply ServFail)
           | Some lookup => match lookup host_str qtype with
                            | Some answers => mret {| dr_code := NoError; dr_answers := answers |}
                            | None => mret (empty_reply ServFail)
                            end
           end
  end.
End Dns.

(** * wire.rs, lib.rs *)

Inductive HelperRequest : Type :=
| ReqApply (container_pid : Z) (rules : list EgressRule)
| ReqClear (container_pid : Z)
| ReqStatus
| ReqPing.
Inductive HelperResponse : Type :=
| RespOk (applied : nat)
| RespErr (message : string).

Inductive NetfilterError : Type :=
| NfNotImplemented (what : string)
| NfIo (e : string)
| NfJson (e : string)
| HelperUnavailable (reason : string)
| PermissionDenied (uid : Z)
| NftInvocation (e : string)
| Namespace (e : string)
| DnsResolution (addr source : string)
| HelperRejected (e : string)
| MalformedResponse (e : string).

Definition netfilter_display (e : NetfilterError) : string :=
  match e with
  | NfNotImplemented s => "not yet implemented (Stage 2-A): " +:+ s
  | NfIo s => "io error: " +:+ s
  | NfJson s => "json error: " +:+ s
  | HelperUnavailable s => "helper unavailable: " +:+ s
  | PermissionDenied uid => "permission denied: helper rejected peer (uid " +:+ pretty uid +:+ ")"
  | NftInvocation s => "nft invocation failed: " +:+ s
  | Namespace s => "namespace error: " +:+ s
  | DnsResolution a s => "dns resolution failed for " +:+ a +:+ ": " +:+ s
  | HelperRejected s => "helper returned error: " +:+ s
  | MalformedResponse s => "malformed helper response: " +:+ s
  end.

Definition DEFAULT_SOCKET_PATH : string := "/run/linpodx/netfilter.sock".
Definition HELPER_PROTOCOL_VERSION : nat := 1.

(** What serde writes: the variant under its tag, absent options left out. *)
Definition proto_as_str (p : EgressProto) : string :=
  match p with ProtoAny => "any" | ProtoTcp => "tcp" | ProtoUdp => "udp" end.
Definition egress_rule_to_value (r : EgressRule) : Value :=
  JObject ([("proto", JString (proto_as_str (proto r))); ("addr", JString (addr r))]
           ++ match port r with Some n => [("port", jint n)] | None => [] end
           ++ match note r with Some s => [("note", JString s)] | None => [] end).
Definition helper_request_to_value (r : HelperRequest) : Value :=
  match r with
  | ReqApply pid rules => JObject [("op", JString "apply"); ("container_pid", jint pid); ("rules", JArray (egress_rule_to_value <$> rules))]
  | ReqClear pid => JObject [("op", JString "clear"); ("container_pid", jint pid)]
  | ReqStatus => JObject [("op", JString "status")]
  | ReqPing => JObject [("op", JString "ping")]
  end.
Definition helper_response_to_value (r : HelperResponse) : Value :=
  match r with
  | RespOk n => JObject [("result", JString "ok"); ("applied", jint (Z.of_nat n))]
  | RespErr m => JObject [("result", JString "err"); ("message", JString m)]
  end.

(** What serde reads back from a line, or the text of its error. *)
Class WireParser := {
  request_from_str : string → Result string HelperRequest;
  response_from_str : string → Result string HelperResponse;
}.

(** * The helper *)

(** How [nsenter .. nft -f -] ends: it cannot be started, fed or waited for, exits
    with a status and a text on stderr, or succeeds. *)
Inductive NftOutcome : Type :=
| NftSpawn (e : string)
| NftWrite (e : string)
| NftWait (e : string)
| NftExit (status stderr : string)
| NftSuccess.

(** The host of the helper: the system's resolver, the processes it runs with what it
    writes to them, and the socket it answers on. *)
Class HelperHost (N : Type) := {
  lookup_ip : string → N → Result string (list IpAddr) * N;
  run_process : list string → string → N → NftOutcome * N;
  write_all : string → N → Result string unit * N;
}.

Section Helper.
Context {E : Env} {WP : WireParser} {N : Type} {HH : HelperHost N}.
Abbreviation H := (M N NetfilterError).

Definition resolve_addr (a : string) : H ResolvedAddr :=
  let trimmed := trim a in
  if decide (trimmed = "") then throw (DnsResolution a "empty addr")
  else if has_char slash trimmed then mret (Cidr trimmed)
  else match ip_from_str trimmed with
       | Some ip => mret (Ips [ip])
       | None => λ n, match lookup_ip trimmed n with
                      | (Err e, n') => (Err (DnsResolution a e), n')
                      | (Ok [], n') => (Err (DnsResolution a "no A/AAAA records returned"), n')
                      | (Ok ips, n') => (Ok (Ips ips), n')
                      end
       end.

Definition nsenter_args (pid : Z) : list string := ["nsenter"; "-t"; pretty pid; "-n"; "nft"; "-f"; "-"].
Definition apply_in_namespace (pid : Z) (ruleset : string) : H unit := λ n,
  match run_process (nsenter_args pid) ruleset n with
  | (NftSpawn e, n') => (Err (NftInvocation ("spawn nsenter/nft: " +:+ e)), n')
  | (NftWrite e, n') => (Err (NftInvocation ("write ruleset: " +:+ e)), n')
  | (NftWait e, n') => (Err (NftInvocation ("wait nsenter/nft: " +:+ e)), n')
  | (NftExit status stderr, n') => (Err (NftInvocation ("nft exited with status " +:+ status +:+ ": " +:+ stderr)), n')
  | (NftSuccess, n') => (Ok tt, n')
  end.
Definition clear_in_namespace (pid : Z) : H unit := apply_in_namespace pid clear_script.

(** The resolved rules and how many were skipped. *)
Fixpoint resolve_rules (rules : list EgressRule) (n : N) : list ResolvedRule * nat * N :=
  match rules with
  | [] => ([], 0, n)
  | rule :: rules' =>
      match resolve_addr (addr rule) n with
      | (Err _, n1) | (Ok (Ips []), n1) => let '(l, skipped, n2) := resolve_rules rules' n1 in (l, Datatypes.S skipped, n2)
      | (Ok a, n1) => let '(l, skipped, n2) := resolve_rules rules' n1 in (from_parts rule a :: l, skipped, n2)
      end
  end.
Definition helper_apply (pid : Z) (rules : list EgressRule) : H nat := λ n,
  let '(resolved, _, n1) := resolve_rules rules n in
  (_ ← apply_in_namespace pid (build_ruleset resolved); mret (length resolved)) n1.

Definition helper_dispatch (req : HelperRequest) (n : N) : HelperResponse * N :=
  match req with
  | ReqPing => (RespOk 0, n)
  | ReqStatus => (RespOk HELPER_PROTOCOL_VERSION, n)
  | ReqClear pid => match clear_in_namespace pid n with
                    | (Ok _, n') => (RespOk 0, n')
                    | (Err e, n') => (RespErr ("clear failed: " +:+ netfilter_display e), n')
                    end
  | ReqApply pid rules => match helper_apply pid rules n with
                          | (Ok applied, n') => (RespOk applied, n')
                          | (Err e, n') => (RespErr ("apply failed: " +:+ netfilter_display e), n')
                          end
  end.

(** The lines of a connection as they come in: a line, or an error of the stream. *)
Fixpoint serve_lines (incoming : list (Result string string)) : H unit :=
  match incoming with
  | [] => mret tt
  | Err e :: _ => throw (NfIo e)
  | Ok line :: rest =>
      if decide (trim line = "") then serve_lines rest
      else λ n,
        let '(response, n1) := match request_from_str line with
                               | Ok req => helper_dispatch req n
                               | Err e => (RespErr ("malformed request: " +:+ e), n)
                               end in
        match write_all (struct_to_string (helper_response_to_value response) +:+ eol) n1 with
        | (Ok _, n2) => serve_lines rest n2
        | (Err e, n2) => (Err (NfIo e), n2)
        end
  end.
Definition handle_connection (cred : Result string Z) (allowed_uid : Z) (incoming : list (Result string string)) : H unit :=
  match cred with
  | Err e => throw (NfIo e)
  | Ok peer_uid => if decide (peer_uid ≠ allowed_uid) then throw (PermissionDenied peer_uid) else serve_lines incoming
  end.
End Helper.

(** * egress_enforcer.rs *)

Record EgressEnforcer : Type := {
  ee_socket_path : string;
  ee_plugins : bool;
  ee_audit : bool;
}.
Definition enforcer_new (path : string) : EgressEnforcer := {| ee_socket_path := path; ee_plugins := false; ee_audit := false |}.
(** [LINPODX_NETFILTER_SOCKET] where it is set. *)
Definition enforcer_from_env (socket_env : option string) : EgressEnforcer := enforcer_new (unwrap_or DEFAULT_SOCKET_PATH socket_env).
Definition with_plugins (plugins audit : bool) (e : EgressEnforcer) : EgressEnforcer :=
  {| ee_socket_path := ee_socket_path e; ee_plugins := plugins; ee_audit := audit |}.

Definition rule_kind (r : EgressRule) : string :=
  match proto r with ProtoTcp => "tcp_connect" | ProtoUdp => "udp_send" | ProtoAny => "any_connect" end.

(** One exchange over the helper's socket: what is written, and the first line that
    comes back or what went wrong. *)
Inductive Exchange : Type :=
| ConnectFailed (e : string)
| ConnectTimedOut
| WriteFailed (e : string)
| Answered (line : string)
| Closed
| ReadFailed (e : string)
| ResponseTimedOut.
Class Transport (S : Type) := {
  exchange : string → string → S → Exchange * S;
}.

Definition outcome_of {WP : WireParser} (socket_path : string) (x : Exchange) : Result NetfilterError HelperResponse :=
  match x with
  | ConnectFailed e => Err (HelperUnavailable ("connect " +:+ socket_path +:+ ": " +:+ e))
  | ConnectTimedOut => Err (HelperUnavailable ("connect " +:+ socket_path +:+ " timed out"))
  | WriteFailed e | ReadFailed e => Err (NfIo e)
  | Closed => Err (MalformedResponse "helper closed connection before responding")
  | ResponseTimedOut => Err (HelperUnavailable "response timed out")
  | Answered line => match response_from_str line with
                     | Ok resp => Ok resp
                     | Err e => Err (MalformedResponse (e +:+ ": " +:+ line))
                     end
  end.

Section Enforcer.
Context {E : Env} {WA : Wasm} {K : AuditSink} {WP : WireParser} {S : Type} {W : HasWorld S} {X : Transport S}.

Definition pid_subject (container_pid : Z) : option string := Some ("pid:" +:+ pretty container_pid).
Definition rule_fields (r : EgressRule) : list (string * Value) :=
  [("kind", JString (rule_kind r)); ("host", JString (addr r)); ("port", jopt jint (port r))].
(** [enumerate] over the rules and their decisions, from [idx]. *)
Fixpoint apply_chain_decisions (idx : nat) (rules : list EgressRule) (decisions : list NetworkDecision) (container_pid : Z) (audit : bool) :
    D (list EgressRule) :=
  match rules, decisions with
  | rule :: rules', decision :: decisions' =>
      _ ← (if audit then record SinkPluginNetworkTraceCalled None (pid_subject container_pid)
                           (JObject (rule_fields rule ++ [("decision", JString (decision_debug decision))]))
           else mret tt);
      if decide (decision = NetDeny) then
        _ ← (if audit then record SinkEgressDenyEnforced None (pid_subject container_pid)
                             (JObject (rule_fields rule ++ [("original_index", jint (Z.of_nat idx))]))
             else mret tt);
        apply_chain_decisions (Datatypes.S idx) rules' decisions' container_pid audit
      else
        kept ← apply_chain_decisions (Datatypes.S idx) rules' decisions' container_pid audit;
        mret (rule :: kept)
  | _, _ => mret []
  end.

Fixpoint chain_decisions (rules : list EgressRule) : D (list NetworkDecision) :=
  match rules with
  | [] => mret []
  | rule :: rules' =>
      d ← run_network_trace_chain true (rule_kind rule) (addr rule) (port rule);
      ds ← chain_decisions rules';
      mret (d :: ds)
  end.
Definition filter_with_plugins (e : EgressEnforcer) (container_pid : Z) (rules : list EgressRule) : D (list EgressRule) :=
  if negb (ee_plugins e) then mret rules
  else
    decisions ← chain_decisions rules;
    apply_chain_decisions 0 rules decisions container_pid (ee_audit e).

Definition round_trip (e : EgressEnforcer) (req : HelperRequest) : M S Fault (Result NetfilterError HelperResponse) := λ s,
  let '(x, s') := exchange (ee_socket_path e) (struct_to_string (helper_request_to_value req) +:+ eol) s in
  (Ok (outcome_of (ee_socket_path e) x), s').

Definition is_helper_available (e : EgressEnforcer) : M S Fault bool :=
  r ← round_trip e ReqPing;
  mret match r with Ok (RespOk _) => true | _ => false end.

Definition enforcer_apply (e : EgressEnforcer) (container_pid : Z) (rules : list EgressRule) :
    M S Fault (Result NetfilterError (bool * nat)) :=
  rules ← on_world (filter_with_plugins e container_pid rules);
  r ← round_trip e (ReqApply container_pid rules);
  mret match r with
       | Ok (RespOk applied) => Ok (true, applied)
       | Ok (RespErr message) => Err (HelperRejected message)
       | Err (HelperUnavailable _) => Ok (false, 0)
       | Err er => Err er
       end.

Definition enforcer_clear (e : EgressEnforcer) (container_pid : Z) : M S Fault (Result NetfilterError bool) :=
  r ← round_trip e (ReqClear container_pid);
  mret match r with
       | Ok (RespOk _) => Ok true
       | Ok (RespErr message) => Err (HelperRejected message)
       | Err (HelperUnavailable _) => Ok false
       | Err er => Err er
       end.
End Enforcer.

(** * dispatch/networks.rs: network_egress_apply *)

Record NetworkEgressApplyResponse : Type := {
  ne_container_id : string;
  ne_helper_applied : bool;
  ne_rules_applied : nat;
}.

(** The process of a running container, as a [u32]. *)
Definition live_pid (inspect : ContainerInspect) : option Z :=
  raw ← ci_raw inspect;
  state ← get raw "State";
  v ← get state "Pid";
  n ← as_u64 v;
  if decide (0 < n)%Z then Some (n mod 2 ^ 32)%Z else None.

Section Handler.
Context {E : Env} {WA : Wasm} {K : AuditSink} {MC : MarkerCodec} {WP : WireParser} {S P : Type}.
Context {W : HasWorld S} {C : PodmanCli P} {HP : HasPodman S P} {TS : HasSessions S} {X : Transport S}.
Context (pcfg : PodmanConfig) (socket_env : option string).

Definition profile_rules (container_id : string) : M S Fault (list EgressRule) :=
  r ← attempt_in (profile_for_container container_id);
  match r with
  | Ok (Some profile) => on_world (l4_rules_for_profile profile)
  | _ => mret []
  end.
Definition network_egress_apply (container_id : string) : M S Fault NetworkEgressApplyResponse :=
  inspect ← podman_inspect pcfg container_id;
  match live_pid inspect with
  | None => throw (Fail (Runtime ("container '" +:+ container_id +:+ "' has no live PID (not running?)")))
  | Some pid =>
      rules ← profile_rules (ci_id inspect);
      r ← enforcer_apply (enforcer_from_env socket_env) pid rules;
      match r with
      | Err e => throw (Fail (Runtime ("egress helper apply failed: " +:+ netfilter_display e)))
      | Ok (helper_applied, applied_count) =>
          mret {| ne_container_id := ci_id inspect; ne_helper_applied := helper_applied;
                  ne_rules_applied := if helper_applied then applied_count else length rules |}
      end
  end.
End Handler.

(** * The DNS filter answers only for allowed names *)

Lemma get_before_suffix p a : String.get (String.length p - 1) (p +:+ a) = Some period → p ≠ "" → ∃ q, p = q +:+ ".".
Proof.
  induction p as [|c p IH]; intros Hg Hp; [done|]. destruct p as [|d p].
  - cbn in Hg. injection Hg as ->. by exists "".
  - rewrite str_app_cons_l in Hg. replace (String.length (String c (String d p)) - 1) with (Datatypes.S (String.length (String d p) - 1)) in Hg by (simpl; lia).
    cbn [String.get] in Hg. destruct (IH Hg) as [q Hq]; [done|]. exists (String c q). by rewrite str_app_cons_l, <-Hq.
Qed.
Lemma get_at_dot q a : String.get (String.length q) (q +:+ "." +:+ a) = Some period.
Proof. induction q as [|c q IH]; [done|]. exact IH. Qed.

Lemma host_matches_spec host allow : host_matches_allow host allow = true ↔ host = allow ∨ ∃ p, host = p +:+ "." +:+ allow.
Proof.
  unfold host_matches_allow. case_decide as He; [by split; [left|]|]. split.
  - destruct (ends_with host allow) eqn:Hs; [|done]. apply ends_with_iff in Hs as [p ->]. cbn [negb].
    rewrite str_length_app, Nat.add_sub. intros [Hc Hg]%andb_prop. apply bool_decide_eq_true in Hc, Hg.
    destruct (get_before_suffix p allow Hg) as [q ->]; [by intros ->|]. right. exists q. by rewrite str_app_assoc.
  - intros [?|[p ->]]; [done|]. rewrite <-str_app_assoc, (proj2 (ends_with_iff _ allow)) by by eexists. cbn [negb].
    rewrite !str_length_app, Nat.add_sub. change (String.length ".") with 1. rewrite Nat.add_sub, str_app_assoc.
    apply andb_true_intro. split; apply bool_decide_eq_true; [lia|apply get_at_dot].
Qed.

(** A name is covered by an entry when it is the entry or a name below it, ASCII case
    and trailing dots apart. *)
Definition covered (host entry : string) : Prop :=
  normal_name entry ≠ "" ∧ (normal_name host = normal_name entry ∨ ∃ p, normal_name host = p +:+ "." +:+ normal_name entry).
Lemma is_allowed_spec host allowlist : is_allowed host allowlist = true ↔ ∃ entry, entry ∈ allowlist ∧ covered host entry.
Proof.
  unfold is_allowed, covered. rewrite existsb_exists. setoid_rewrite <-list_elem_of_In. setoid_rewrite andb_true_iff.
  setoid_rewrite bool_decide_eq_true. by setoid_rewrite host_matches_spec.
Qed.

Section DnsProofs.
Context {E : Env} {WA : Wasm} {K : AuditSink}.

(** What a name is under the allowlist, [allowed] of the filter's answers: covered by an
    entry that is not empty. *)
Definition allowed (f_list : list string) (host : string) : Prop := ∃ entry, entry ∈ f_list ∧ covered host entry.

(** C19: What the DNS filter answers, in every case. A message that is no query and a
    malformed one are refused without asking anybody. For a query the plugins are
    asked first. A name they deny, and a name that is neither an entry of the
    allowlist nor a name below one (at a label boundary, ASCII case and trailing dots
    apart), does not exist ([NXDomain], no records). Any other name is answered with
    exactly the records the upstream resolver returned for it and its type, and with
    a server failure and no records if it returned none or there is no resolver. *)
Theorem dns_answers_only_allowed {R} (f : FilterHandler R) request w reply w' :
  handle_request f request w = (Ok reply, w') →
  match dq_is_query request, dq_info request with
  | false, _ => reply = empty_reply NotImp ∧ w' = w
  | true, None => reply = empty_reply FormErr ∧ w' = w
  | true, Some (host, qtype) =>
      ∃ verdict w1, run_network_trace_chain (fh_plugins f) "dns_query" host None w = (Ok verdict, w1) ∧
        ((verdict = NetDeny ∨ ¬ allowed (fh_allowlist f) host) → reply = empty_reply NXDomain) ∧
        (verdict ≠ NetDeny → allowed (fh_allowlist f) host →
         match (lookup ← fh_upstream f; lookup host qtype) with
         | Some records => reply = {| dr_code := NoError; dr_answers := records |}
         | None => reply = empty_reply ServFail
         end)
  end.
Proof.
  unfold handle_request. destruct (dq_is_query request); [|by intros [= <- <-]].
  destruct (dq_info request) as [[host qtype]|]; [|by intros [= <- <-]]. cbn [negb].
  intros H. inv_bind H d w1 Hd. inv_bind H u w2 Hu. exists d, w1. split; [done|]. unfold allowed. rewrite <-is_allowed_spec.
  case_decide as Hn; [by injection H as <- _|].
  destruct (is_allowed host (fh_allowlist f)) eqn:Ha; cbn [negb] in H; [|by injection H as <- _].
  split; [by intros []|]. intros _ _. destruct (fh_upstream f) as [lookup|]; cbn; [|by injection H as <- _].
  destruct (lookup host qtype) as [answers|]; by injection H as <- _.
Qed.
End DnsProofs.

(** * From the enforcer to nft

    The helper at the other end of the socket: a connection of the daemon's uid, its
    answers collected, the first of their lines handed back. *)
#[export] Instance conn_host {N} (sys : HelperHost N) : HelperHost (N * string) := {|
  lookup_ip := λ a c, let '(r, n) := lookup_ip a c.1 in (r, (n, c.2));
  run_process := λ args script c, let '(r, n) := run_process args script c.1 in (r, (n, c.2));
  write_all := λ text c, (Ok tt, (c.1, c.2 +:+ text)) |}.

Definition helper_transport {E : Env} {WP : WireParser} {N} (sys : HelperHost N) (uid allowed_uid : Z) : Transport (World * N) := {|
  exchange := λ _ payload s,
    let '(_, (n, out)) := handle_connection (Ok uid) allowed_uid (Ok <$> lines payload) (s.2, "") in
    (match lines out with line :: _ => Answered line | [] => Closed end, (s.1, n)) |}.
Definition pair_world {N} : HasWorld (World * N) := {| world_of := fst; put_world := λ w s, (w, s.2) |}.

(** The rules a chain of decisions leaves. *)
Definition kept_rules (rules : list EgressRule) (decisions : list NetworkDecision) : list EgressRule :=
  (filter (λ p, p.2 ≠ NetDeny) (zip rules decisions)).*1.

Section EgressProofs.
Context {E : Env} {WA : Wasm} {K : AuditSink} {WP : WireParser} {N : Type} (sys : HelperHost N).

Lemma chain_keeps idx rules decisions pid audit w kept w' :
  apply_chain_decisions idx rules decisions pid audit w = (Ok kept, w') → kept = kept_rules rules decisions.
Proof.
  revert idx decisions w kept. induction rules as [|r rules IH]; intros idx [|d decisions] w kept H; try by injection H as <- _.
  cbn [apply_chain_decisions] in H. inv_bind H u w1 Hu. unfold kept_rules. cbn [zip zip_with]. case_decide as Hd.
  - inv_bind H v w2 Hv. rewrite filter_cons_False by (intros Hx; by apply Hx). by apply IH in H.
  - inv_bind H l w2 Hl. injection H as <- ->. rewrite filter_cons_True by done. cbn [fmap list_fmap]. f_equal. by eapply IH.
Qed.
(** Without plugins nothing is dropped, with them what they deny. *)
Lemma filter_keeps e pid rules w kept w' :
  filter_with_plugins e pid rules w = (Ok kept, w') →
  if ee_plugins e then ∃ decisions w1, chain_decisions rules w = (Ok decisions, w1) ∧ kept = kept_rules rules decisions else kept = rules.
Proof.
  unfold filter_with_plugins. destruct (ee_plugins e); cbn [negb]; intros H; [|by injection H as <- _].
  inv_bind H ds w1 Hd. exists ds, w1. split; [done|]. by eapply chain_keeps.
Qed.

Lemma resolve_addr_conn a n out : resolve_addr a (n, out) = let '(r, n') := resolve_addr a n in (r, (n', out)).
Proof.
  unfold resolve_addr. case_decide; [done|]. destruct (has_char slash (trim a)); [done|]. destruct (ip_from_str (trim a)); [done|].
  cbn [lookup_ip conn_host fst snd]. by destruct (lookup_ip (trim a) n) as [[[|ip ips]|er] n'].
Qed.
Lemma resolve_rules_conn rules n out :
  resolve_rules rules (n, out) = let '(l, skipped, n') := resolve_rules rules n in (l, skipped, (n', out)).
Proof.
  revert n. induction rules as [|r rules IH]; intros n; [done|]. cbn [resolve_rules]. rewrite resolve_addr_conn.
  destruct (resolve_addr (addr r) n) as [[[s|[|ip ips]]|er] n1]; rewrite IH; by destruct (resolve_rules rules n1) as [[l sk] n2].
Qed.
Lemma apply_conn pid script n out :
  apply_in_namespace pid script (n, out) = let '(r, n') := apply_in_namespace pid script n in (r, (n', out)).
Proof. unfold apply_in_namespace. cbn. by destruct (run_process (nsenter_args pid) script n) as [[] n']. Qed.
Lemma helper_apply_conn pid rules n out :
  helper_apply pid rules (n, out) = let '(r, n') := helper_apply pid rules n in (r, (n', out)).
Proof.
  unfold helper_apply. rewrite resolve_rules_conn. destruct (resolve_rules rules n) as [[l sk] n1]. cbv [mbind M_bind]. rewrite apply_conn.
  by destruct (apply_in_namespace pid (build_ruleset l) n1) as [[] n2].
Qed.

(** What the helper does with an [Apply] and what it answers. *)
Definition apply_answer (pid : Z) (rules : list EgressRule) (n : N) : HelperResponse := (helper_dispatch (ReqApply pid rules) n).1.

Lemma lines_one text : plain_line text → lines (text +:+ eol) = [text].
Proof. intros H. rewrite <-(lines_push [text]) by (by constructor). cbn [push_lines foldr]. by rewrite str_app_nil_r. Qed.

(** What an address stands for: a text with a slash and an IP address stand for themselves,
    another name for the addresses the system resolves it to. A name that does not
    resolve, and a blank text, stand for nothing. *)
Inductive stands_for (a : string) (n : N) : option ResolvedAddr → N → Prop :=
| stands_blank : trim a = "" → stands_for a n None n
| stands_cidr : trim a ≠ "" → has_char slash (trim a) = true → stands_for a n (Some (Cidr (trim a))) n
| stands_ip ip : trim a ≠ "" → has_char slash (trim a) = false → ip_from_str (trim a) = Some ip → stands_for a n (Some (Ips [ip])) n
| stands_name r n' : trim a ≠ "" → has_char slash (trim a) = false → ip_from_str (trim a) = None → lookup_ip (trim a) n = (r, n') →
    stands_for a n (match r with Ok (ip :: ips) => Some (Ips (ip :: ips)) | _ => None end) n'.
Inductive all_stand_for : list EgressRule → N → list (EgressRule * ResolvedAddr) → N → Prop :=
| all_nil n : all_stand_for [] n [] n
| all_none r rules n n1 l n2 : stands_for (addr r) n None n1 → all_stand_for rules n1 l n2 → all_stand_for (r :: rules) n l n2
| all_some r rules n t n1 l n2 : stands_for (addr r) n (Some t) n1 → all_stand_for rules n1 l n2 → all_stand_for (r :: rules) n ((r, t) :: l) n2.

(** The script nft should be given for rules and what they stand for: the old table is
    replaced by one that drops what leaves the container or is forwarded, except for
    loopback, for connections that are up, and for one line per address and protocol. *)
Definition accepts (r : EgressRule) (t : ResolvedAddr) : list string :=
  let family := match t with
                | Cidr s => if has_char colon s then "ip6" else "ip"
                | Ips (V6 _ :: _) => "ip6"
                | Ips _ => "ip"
                end in
  let targets := match t with Cidr s => [s] | Ips ips => ip_to_string <$> ips end in
  targets ≫= λ a,
    match proto r, port r with
    | ProtoAny, None => [family +:+ " daddr " +:+ a +:+ " accept"]
    | ProtoTcp, None => [family +:+ " daddr " +:+ a +:+ " tcp accept"]
    | ProtoUdp, None => [family +:+ " daddr " +:+ a +:+ " udp accept"]
    | p, Some port => (λ l4, family +:+ " daddr " +:+ a +:+ " " +:+ l4 +:+ " dport " +:+ pretty port +:+ " accept")
        <$> (match p with ProtoAny => ["tcp"; "udp"] | ProtoTcp => ["tcp"] | ProtoUdp => ["udp"] end)
    end.
Definition expected_script (targets : list (EgressRule * ResolvedAddr)) : string :=
  let t := String (Ascii.ascii_of_N 9) "" in
  foldr (λ line rest, line +:+ String newline "" +:+ rest) ""
    (["table inet linpodx_egress {}"; "delete table inet linpodx_egress"; "table inet linpodx_egress {"; t +:+ "chain output {";
      t +:+ t +:+ "type filter hook output priority 0; policy drop;"; t +:+ t +:+ "meta oif " +:+ dquote +:+ "lo" +:+ dquote +:+ " accept";
      t +:+ t +:+ "ct state established,related accept"]
     ++ ((λ line, t +:+ t +:+ line) <$> (targets ≫= λ rt, accepts rt.1 rt.2))
     ++ [t +:+ "}"; t +:+ "chain forward {"; t +:+ t +:+ "type filter hook forward priority 0; policy drop;"; t +:+ "}"; "}"]).

Lemma resolve_addr_stands a n :
  let '(r, n') := resolve_addr a n in
  stands_for a n (match r with Ok (Ips []) | Err _ => None | Ok t => Some t end) n'.
Proof.
  unfold resolve_addr. case_decide as Hb; [by constructor|]. destruct (has_char slash (trim a)) eqn:Hs; [by constructor|].
  destruct (ip_from_str (trim a)) as [ip|] eqn:Hi; [by constructor|].
  destruct (lookup_ip (trim a) n) as [r n'] eqn:Hl. pose proof (stands_name a n r n' Hb Hs Hi Hl) as H. by destruct r as [[|ip ips]|er].
Qed.
Lemma resolve_rules_stand rules n :
  let '(l, _, n') := resolve_rules rules n in ∃ targets, l = (λ rt, from_parts rt.1 rt.2) <$> targets ∧ all_stand_for rules n targets n'.
Proof.
  revert n. induction rules as [|r rules IH]; intros n; cbn [resolve_rules]; [exists []; by split; [|constructor]|].
  pose proof (resolve_addr_stands (addr r) n) as Hr. destruct (resolve_addr (addr r) n) as [res n1]. specialize (IH n1).
  destruct (resolve_rules rules n1) as [[l sk] n2]. destruct IH as (ts & -> & Hts).
  destruct res as [[c|[|ip ips]]|er].
  - exists ((r, Cidr c) :: ts). split; [done|]. by eapply all_some.
  - exists ts. split; [done|]. by eapply all_none.
  - exists ((r, Ips (ip :: ips)) :: ts). split; [done|]. by eapply all_some.
  - exists ts. split; [done|]. by eapply all_none.
Qed.
Lemma render_accepts r t : render_rule_lines (from_parts r t) = accepts r t.
Proof.
  assert (as_nft_strings t = match t with Cidr s => [s] | Ips ips => ip_to_string <$> ips end) as Ht by by destruct t.
  unfold render_rule_lines, accepts, from_parts. cbn [rr_addr rr_proto rr_port]. rewrite <-Ht. apply list_bind_ext; [|done]. intros a.
  destruct (proto r), (port r), t as [s|[|[] ips]]; cbn [first_family family_keyword addr_lines];
    try destruct (has_char colon s); cbn [family_keyword fmap list_fmap]; by rewrite ?str_app_assoc.
Qed.
Lemma build_expected targets : build_ruleset ((λ rt, from_parts rt.1 rt.2) <$> targets) = expected_script targets.
Proof.
  unfold build_ruleset, expected_script. fold tab. unfold push_lines, eol. f_equal. f_equal. f_equal. f_equal.
  induction targets as [|[r t] targets IH]; [done|]. cbn. by rewrite render_accepts, IH.
Qed.

(** What a call of the enforcer comes to, in the code's own terms. *)
Lemma enforcer_runs e uid allowed_uid pid rules w kept w1 n :
  filter_with_plugins e pid rules w = (Ok kept, w1) →
  let request := struct_to_string (helper_request_to_value (ReqApply pid kept)) in
  let response := struct_to_string (helper_response_to_value (apply_answer pid kept n)) in
  plain_line request → trim request ≠ "" → request_from_str request = Ok (ReqApply pid kept) →
  plain_line response → response_from_str response = Ok (apply_answer pid kept n) →
  enforcer_apply (W := pair_world) (X := helper_transport sys uid allowed_uid) e pid rules (w, n) =
    if decide (uid = allowed_uid) then
      let '(resolved, _, n1) := resolve_rules kept n in
      let '(outcome, n2) := apply_in_namespace pid (build_ruleset resolved) n1 in
      (Ok match outcome with
          | Ok _ => Ok (true, length resolved)
          | Err er => Err (HelperRejected ("apply failed: " +:+ netfilter_display er))
          end, (w1, n2))
    else (Ok (Err (MalformedResponse "helper closed connection before responding")), (w1, n)).
Proof.
  intros Hf request response Hp Ht Hr Hq Hs.
  unfold enforcer_apply. cbv [mbind M_bind]. unfold on_world at 1. cbn [world_of pair_world fst]. rewrite Hf.
  change (put_world w1 (w, n)) with (w1, n). unfold round_trip, helper_transport. cbn [exchange snd fst]. fold request. rewrite (lines_one request Hp).
  unfold handle_connection. destruct (decide (uid = allowed_uid)) as [->|Hu]; [|by rewrite decide_True].
  rewrite decide_False by (intros Hx; by apply Hx). cbn [fmap list_fmap serve_lines]. rewrite decide_False by done. rewrite Hr.
  unfold response, apply_answer in Hq, Hs. clear response. cbn [helper_dispatch] in Hq, Hs |- *. rewrite helper_apply_conn.
  unfold helper_apply in *. destruct (resolve_rules kept n) as [[resolved sk] n1]. cbv [mbind M_bind mret M_ret] in *.
  destruct (apply_in_namespace pid (build_ruleset resolved) n1) as [[[]|er] n2]; cbn [fst] in Hq, Hs;
    cbn [write_all conn_host fst snd]; rewrite (lines_one _ Hq : lines ("" +:+ _ +:+ eol) = _); cbn [outcome_of]; by rewrite Hs.
Qed.

(** C18: An allowlist reaches nft as it was meant, once. The enforcer sends the rules the
    plugins did not deny; the helper at the other end of the socket, if it serves
    this uid, resolves them in order and runs nft once, in the network namespace of
    the container's process, with a script that drops everything but loopback,
    connections that are up and one accepted line per resolved address, protocol
    and port. The enforcer reports success with the number of rules in that script
    when nft accepted it and an error when it did not. A helper that does not serve
    this uid closes the connection: no name is looked up, nft is not run, and the
    enforcer reports an error. The text of the two messages is one line that serde
    reads back. *)
Theorem egress_reaches_nft e uid allowed_uid pid rules w kept w1 n :
  filter_with_plugins e pid rules w = (Ok kept, w1) →
  let request := struct_to_string (helper_request_to_value (ReqApply pid kept)) in
  let response := struct_to_string (helper_response_to_value (apply_answer pid kept n)) in
  plain_line request → trim request ≠ "" → request_from_str request = Ok (ReqApply pid kept) →
  plain_line response → response_from_str response = Ok (apply_answer pid kept n) →
  (if ee_plugins e then ∃ decisions w', chain_decisions rules w = (Ok decisions, w') ∧ kept = kept_rules rules decisions else kept = rules) ∧
  let result := enforcer_apply (W := pair_world) (X := helper_transport sys uid allowed_uid) e pid rules (w, n) in
  if decide (uid = allowed_uid) then
    ∃ targets n1, all_stand_for kept n targets n1 ∧
      let nft := run_process ["nsenter"; "-t"; pretty pid; "-n"; "nft"; "-f"; "-"] (expected_script targets) n1 in
      result.2 = (w1, nft.2) ∧
      match nft.1 with
      | NftSuccess => result.1 = Ok (Ok (true, length targets))
      | _ => ∃ message, result.1 = Ok (Err (HelperRejected message))
      end
  else result = (Ok (Err (MalformedResponse "helper closed connection before responding")), (w1, n)).
Proof.
  intros Hf request response Hp Ht Hr Hq Hs. split; [by eapply filter_keeps|]. intros result. subst result.
  rewrite (enforcer_runs e uid allowed_uid pid rules w kept w1 n Hf Hp Ht Hr Hq Hs). case_decide; [|done].
  pose proof (resolve_rules_stand kept n) as Hstand. destruct (resolve_rules kept n) as [[resolved sk] n1].
  destruct Hstand as (targets & -> & Hstand). exists targets, n1. split; [done|].
  rewrite build_expected, length_fmap. unfold apply_in_namespace, nsenter_args.
  destruct (run_process _ (expected_script targets) n1) as [[] n2]; (split; [done|]); cbn; eauto.
Qed.
End EgressProofs.

(** * Examples *)

(** A host that knows one name and keeps the processes it was asked to run. *)
Definition Runs : Type := list (list string * string).
Definition demo_host : HelperHost Runs := {|
  lookup_ip := λ name n, (if decide (name = "api.example.com") then Ok [V4 10 0 0 7; V4 10 0 0 8] else Err "no such host", n);
  run_process := λ args script n, (NftSuccess, n ++ [(args, script)]);
  write_all := λ _ n, (Ok tt, n) |}.
Definition demo_rule (a : string) : EgressRule := {| proto := ProtoTcp; addr := a; port := Some 443%Z; note := None |}.
Definition demo_rules : list EgressRule := [demo_rule "api.example.com"; demo_rule "gone.example.com"; demo_rule "10.1.0.0/16"].
Definition demo_parser : WireParser := {|
  request_from_str := λ s, if decide (s = toy_json (helper_request_to_value (ReqApply 42 demo_rules))) then Ok (ReqApply 42 demo_rules) else Err "unknown";
  response_from_str := λ s, if decide (s = toy_json (helper_response_to_value (RespOk 2))) then Ok (RespOk 2) else Err "unknown" |}.

Lemma demo_resolver_keeps rules n l n1 : all_stand_for demo_host rules n l n1 → n1 = n.
Proof.
  assert (∀ a n t n', stands_for demo_host a n t n' → n' = n) as H1.
  { intros a n0 t n' [| | |r n2 _ _ _ Hl]; [done..|]. cbn in Hl. by injection Hl. }
  induction 1 as [|r rules n n1 l n2 Hr _ IH|r rules n t n1 l n2 Hr _ IH]; [done|..]; by rewrite IH, (H1 _ _ _ _ Hr).
Qed.

(** Three rules, one of a name that does not resolve: one script with the others. *)
Lemma egress_reaches_nft_witness :
  let result := enforcer_apply (E := toy_env) (WA := example_wasm) (K := NoopAuditSink) (WP := demo_parser)
      (W := pair_world) (X := helper_transport (E := toy_env) (WP := demo_parser) demo_host 1000 1000) (enforcer_from_env None) 42 demo_rules (empty_world, []) in
  result.1 = Ok (Ok (true, 2)) ∧
  ∃ targets, result.2 = (empty_world, [(["nsenter"; "-t"; "42"; "-n"; "nft"; "-f"; "-"], expected_script targets)]) ∧ length targets = 2.
Proof.
  intros result. assert (result.1 = Ok (Ok (true, 2))) as Hr by vm_check. split; [exact Hr|].
  destruct (egress_reaches_nft (E := toy_env) (WA := example_wasm) (K := NoopAuditSink) (WP := demo_parser) demo_host (enforcer_from_env None) 1000 1000 42
    demo_rules empty_world demo_rules empty_world []) as [_ (targets & n1 & Hs & Hn & Hok)].
  - done.
  - by vm_compute.
  - by vm_compute.
  - vm_check.
  - by vm_compute.
  - vm_check.
  - change (result.1 = Ok (Ok (true, length targets))) in Hok. exists targets. split; [|congruence].
    refine (eq_trans Hn _). rewrite (demo_resolver_keeps _ _ _ _ Hs). reflexivity.
Defined.

(** A name below an entry of the allowlist gets its records, a name that merely ends
    with the same letters gets none. *)
Definition demo_filter : FilterHandler string :=
  {| fh_allowlist := ["OpenAI.com."]; fh_upstream := Some (λ host _, Some ["record of " +:+ host]); fh_plugins := false; fh_audit := false |}.
Definition ask (host : string) : DnsRequest := {| dq_is_query := true; dq_info := Some (host, 1%Z) |}.
Example dns_filter_runs :
  let reply host := (handle_request (E := toy_env) (WA := example_wasm) (K := NoopAuditSink) demo_filter (ask host) empty_world).1 in
  reply "api.openai.com." = Ok {| dr_code := NoError; dr_answers := ["record of api.openai.com."] |} ∧
  reply "evil-openai.com." = Ok (empty_reply NXDomain) ∧ reply "openai.com.evil." = Ok (empty_reply NXDomain).
Proof. by vm_compute. Qed.
Lemma dns_answers_only_allowed_witness :
  allowed (fh_allowlist demo_filter) "api.openai.com." ∧ NetAllow ≠ NetDeny ∧
  ∃ reply : DnsReply string, reply = {| dr_code := NoError; dr_answers := ["record of api.openai.com."] |}.
Proof.
  assert (allowed (fh_allowlist demo_filter) "api.openai.com.") as Ha.
  { exists "OpenAI.com.". split; [by left|]. split; [by vm_compute|]. right. exists "api". by vm_compute. }
  destruct (dns_answers_only_allowed (E := toy_env) (WA := example_wasm) (K := NoopAuditSink) demo_filter (ask "api.openai.com.") empty_world
    {| dr_code := NoError; dr_answers := ["record of api.openai.com."] |} empty_world) as (verdict & w1 & Hv & _ & H).
  - by vm_compute.
  - injection Hv as <- _. split; [exact Ha|]. split; [done|]. eexists. exact (H ltac:(done) Ha).
Defined.

(** A connection of another uid never reaches nft. *)
Example stranger_is_turned_away :
  handle_connection (E := toy_env) (WP := demo_parser) (HH := demo_host) (Ok 1001%Z) 1000 [Ok "anything"] [] = (Err (PermissionDenied 1001), []).
Proof. by vm_compute. Qed.

(** Any text with a slash is taken for a CIDR and copied into the script as it is. *)
Example cidr_text_is_not_checked :
  let text := "0.0.0.0/0 accept" +:+ eol +:+ "}}" +:+ eol +:+ "flush ruleset" in
  resolve_addr (HH := demo_host) text [] = (Ok (Cidr text), []) ∧
  "flush ruleset accept" ∈ lines (build_ruleset [{| rr_proto := ProtoAny; rr_addr := Cidr text; rr_port := None |}]).
Proof. cbv zeta. split; [by vm_compute|]. apply (bool_decide_unpack _). by vm_compute. Qed.

(** A container that only a TCP or UDP rule without a port is meant for gets a script
    with a line that names a protocol and no field of it. *)
Example portless_rule_line :
  render_rule_lines {| rr_proto := ProtoTcp; rr_addr := Cidr "10.0.0.0/8"; rr_port := None |} = ["ip daddr 10.0.0.0/8 tcp accept"].
Proof. by vm_compute. Qed.
