(* ===== verification/Gui.v ===== *)
(** The state of the graphical clients ([linpodx-gui-core/src/state.rs]): the reducer
    over the messages of the daemon and the user, the tree of snapshots, and the
    process-wide rings of events and log lines ([rings/events.rs], [rings/daemon.rs]). *)
From S2P Require Import Prelude Text Json Common Schema Policy Plugin Database AuditKinds AuditLog Logging Embedding Manager KeyRegistry Parse Podman Resources Sessions SnapCrypto SnapStore Snapshots Metrics.

(** * Data *)

Inductive Tab : Type :=
| TabContainers | TabImages | TabVolumes | TabNetworks | TabSandbox | TabAudit | TabSnapshot | TabSession | TabMetrics
| TabPinnedClients | TabPlugins.
Definition tab_label (t : Tab) : string :=
  match t with
  | TabContainers => "Containers" | TabImages => "Images" | TabVolumes => "Volumes" | TabNetworks => "Networks"
  | TabSandbox => "Sandbox" | TabAudit => "Audit" | TabSnapshot => "Snapshots" | TabSession => "Sessions"
  | TabMetrics => "Metrics" | TabPinnedClients => "Pinned Clients" | TabPlugins => "Plugins"
  end.

Inductive ConnectionState : Type := Connecting | Connected | Disconnected (reason : string).

Inductive Snapshot : Type :=
| LoadedContainers (v : list ContainerSummary)
| LoadedImages (v : list ImageSummary)
| LoadedVolumes (v : list VolumeSummary)
| LoadedNetworks (v : list NetworkSummary).

Inductive DiffSlot : Type := SlotA | SlotB.

Record SnapshotDiffResponse : Type := {
  sd_id_a : Z;
  sd_id_b : Z;
  sd_added : list string;
  sd_modified : list string;
  sd_deleted : list string;
  sd_size_delta_bytes : Z;
}.
Record TofuExpiryStatus : Type := {
  te_enabled : bool;
  te_max_age_secs : option Z;
  te_enabled_at : option Z;
}.
Record PluginKeyEntry : Type := {
  pk_publisher : string;
  pk_fingerprint : string;
  pk_status : string;
  pk_revoked_at : option Z;
  pk_reason : option string;
}.

Record ImagePushForm : Type := {
  pf_reference : string;
  pf_registry : string;
  pf_auth : string;
}.
Record SnapshotKeyRotateForm : Type := {
  rf_snapshot_id : Z;
  rf_new_passphrase : string;
}.
Record SnapshotReEncryptForm : Type := {
  ef_new_passphrase : string;
}.
Record SnapshotEncryptionBadge : Type := {
  eb_encrypted : bool;
  eb_algorithm : option string;
  eb_kdf : option string;
}.
Record PluginKeyRevokeForm : Type := {
  vf_publisher : string;
  vf_fingerprint : string;
}.
Inductive PluginRevokePropagation : Type :=
| ThisNode
| Pending
| Cluster (log_index : option Z).

Inductive Message : Type :=
| TabSelected (t : Tab)
| ConnectionStateChanged (s : ConnectionState)
| SnapshotLoaded (s : Snapshot)
| EventReceived (e : Event)
| SandboxLoaded (v : list SandboxProfileSummary)
| AuditLoaded (v : list AuditEntry)
| SnapshotsLoaded (v : list SnapshotSummary)
| SessionsLoaded (v : list SessionSummary)
| SessionTimelineLoaded (session_id : Z) (entries : list TimelineEntry)
| SandboxProfileSelected (name : string)
| SnapshotRollback (id : Z)
| SnapshotRemove (id : Z)
| SnapshotSelectForDiff (slot : DiffSlot) (id : Z)
| SnapshotDiffRequest (id_a id_b : Z)
| SnapshotDiffLoaded (resp : SnapshotDiffResponse)
| SnapshotBranch (id : Z)
| SessionSelected (id : Z)
| AuditFilterChanged (kind : option string)
| ApprovalReceived (req : ApprovalRequest)
| MsgApprovalResolved (res : ApprovalResolved)
| ApprovalReasonChanged (s : string)
| MsgApprovalDecision (request_id : string) (allow : bool) (reason : option string)
| MetricsContainerSelected (id : string)
| MetricsLoaded (container_id : string) (samples : list MetricsSample)
| ImagePushOpen (reference : string)
| ImagePushRegistryChanged (s : string)
| ImagePushAuthChanged (s : string)
| ImagePushCancel
| ImagePushSubmit
| ExecRequested (id : string)
| LogsRequested (id : string)
| LogLineReceived (container_id stream line : string)
| ExecModalDismissed
| LogsModalDismissed
| SnapshotKeyRotateOpen (id : Z)
| SnapshotKeyRotatePassphraseChanged (s : string)
| SnapshotKeyRotateCancel
| SnapshotKeyRotateSubmit
| SnapshotKeyRotated (snapshot_id : Z) (algorithm kdf : string)
| SnapshotReEncryptAllOpen
| SnapshotReEncryptAllPassphraseChanged (s : string)
| SnapshotReEncryptAllCancel
| SnapshotReEncryptAllSubmit
| SnapshotReEncryptAllDone (total_seen re_encrypted skipped failed : Z)
| SnapshotEncryptionLoaded (resp : EncryptionStatus)
| TofuExpiryLoaded (resp : TofuExpiryStatus)
| TofuExpiryInputChanged (s : string)
| TofuExpirySubmit
| TofuExpiryUpdated (max_age : option Z)
| PluginKeysLoaded (keys : list PluginKeyEntry)
| PluginKeyRevokeOpen (publisher fingerprint : string)
| PluginKeyRevokeCancel
| PluginKeyRevokeSubmit
| PluginKeyRevokePropagated (publisher fingerprint : string) (log_index : option Z)
| SandboxAutoTriggerLoaded (resp : AutoEncryptStatus)
| SandboxAutoTriggerToggle
| NoOp.

(** The fields of [App], grouped; [ui_f] assigns one. *)
Record AppLists : Type := {
  containers : list ContainerSummary;
  images : list ImageSummary;
  volumes_ : list VolumeSummary;
  networks_ : list NetworkSummary;
}.
Record AppWatch : Type := {
  sandbox_profiles : list SandboxProfileSummary;
  selected_sandbox_profile : option string;
  audit_entries : list AuditEntry;
  audit_filter_kind : option string;
  sessions : list SessionSummary;
  selected_session : option Z;
  session_timeline : list TimelineEntry;
  pending_approvals : list ApprovalRequest;
  approval_reason : string;
}.
Record AppSnaps : Type := {
  snapshots : list SnapshotSummary;
  snapshot_diff_a : option Z;
  snapshot_diff_b : option Z;
  snapshot_diff : option SnapshotDiffResponse;
  key_rotate_form : option SnapshotKeyRotateForm;
  re_encrypt_form : option SnapshotReEncryptForm;
  encryption_badges : gmap Z SnapshotEncryptionBadge;
}.
Record AppPanels : Type := {
  metrics_samples : gmap string (list MetricsSample);
  metrics_selected : option string;
  image_push_form : option ImagePushForm;
  exec_target : option string;
  logs_target : option string;
  logs_buffer : gmap string (list (string * string));
}.
Record AppKeys : Type := {
  tofu_expiry : option TofuExpiryStatus;
  tofu_expiry_input : string;
  plugin_keys : list PluginKeyEntry;
  key_revoke_form : option PluginKeyRevokeForm;
  key_revoke_state : gmap (string * string) PluginRevokePropagation;
  auto_trigger : option AutoEncryptStatus;
}.
Record App : Type := {
  socket_path : string;
  tab : Tab;
  conn : ConnectionState;
  ap_lists : AppLists;
  ap_watch : AppWatch;
  ap_snaps : AppSnaps;
  ap_panels : AppPanels;
  ap_keys : AppKeys;
}.

Definition ui_tab (v : Tab) (a : App) : App :=
  {| socket_path := socket_path a; tab := v; conn := conn a; ap_lists := ap_lists a; ap_watch := ap_watch a; ap_snaps := ap_snaps a; ap_panels
     := ap_panels a; ap_keys := ap_keys a |}.
Definition ui_conn (v : ConnectionState) (a : App) : App :=
  {| socket_path := socket_path a; tab := tab a; conn := v; ap_lists := ap_lists a; ap_watch := ap_watch a; ap_snaps := ap_snaps a; ap_panels
     := ap_panels a; ap_keys := ap_keys a |}.
Definition on_lists (f : AppLists → AppLists) (a : App) : App :=
  {| socket_path := socket_path a; tab := tab a; conn := conn a; ap_lists := f (ap_lists a); ap_watch := ap_watch a; ap_snaps := ap_snaps a;
     ap_panels := ap_panels a; ap_keys := ap_keys a |}.
Definition ui_containers (v : list ContainerSummary) (x : AppLists) : AppLists :=
  {| containers := v; images := images x; volumes_ := volumes_ x; networks_ := networks_ x |}.
Definition ui_images (v : list ImageSummary) (x : AppLists) : AppLists :=
  {| containers := containers x; images := v; volumes_ := volumes_ x; networks_ := networks_ x |}.
Definition ui_volumes (v : list VolumeSummary) (x : AppLists) : AppLists :=
  {| containers := containers x; images := images x; volumes_ := v; networks_ := networks_ x |}.
Definition ui_networks (v : list NetworkSummary) (x : AppLists) : AppLists :=
  {| containers := containers x; images := images x; volumes_ := volumes_ x; networks_ := v |}.
Definition on_watch (f : AppWatch → AppWatch) (a : App) : App :=
  {| socket_path := socket_path a; tab := tab a; conn := conn a; ap_lists := ap_lists a; ap_watch := f (ap_watch a); ap_snaps := ap_snaps a;
     ap_panels := ap_panels a; ap_keys := ap_keys a |}.
Definition ui_sandbox_profiles (v : list SandboxProfileSummary) (x : AppWatch) : AppWatch :=
  {| sandbox_profiles := v; selected_sandbox_profile := selected_sandbox_profile x; audit_entries := audit_entries x; audit_filter_kind :=
     audit_filter_kind x; sessions := sessions x; selected_session := selected_session x; session_timeline := session_timeline x;
     pending_approvals := pending_approvals x; approval_reason := approval_reason x |}.
Definition ui_selected_sandbox_profile (v : option string) (x : AppWatch) : AppWatch :=
  {| sandbox_profiles := sandbox_profiles x; selected_sandbox_profile := v; audit_entries := audit_entries x; audit_filter_kind :=
     audit_filter_kind x; sessions := sessions x; selected_session := selected_session x; session_timeline := session_timeline x;
     pending_approvals := pending_approvals x; approval_reason := approval_reason x |}.
Definition ui_audit_entries (v : list AuditEntry) (x : AppWatch) : AppWatch :=
  {| sandbox_profiles := sandbox_profiles x; selected_sandbox_profile := selected_sandbox_profile x; audit_entries := v; audit_filter_kind :=
     audit_filter_kind x; sessions := sessions x; selected_session := selected_session x; session_timeline := session_timeline x;
     pending_approvals := pending_approvals x; approval_reason := approval_reason x |}.
Definition ui_audit_filter_kind (v : option string) (x : AppWatch) : AppWatch :=
  {| sandbox_profiles := sandbox_profiles x; selected_sandbox_profile := selected_sandbox_profile x; audit_entries := audit_entries x;
     audit_filter_kind := v; sessions := sessions x; selected_session := selected_session x; session_timeline := session_timeline x;
     pending_approvals := pending_approvals x; approval_reason := approval_reason x |}.
Definition ui_sessions (v : list SessionSummary) (x : AppWatch) : AppWatch :=
  {| sandbox_profiles := sandbox_profiles x; selected_sandbox_profile := selected_sandbox_profile x; audit_entries := audit_entries x;
     audit_filter_kind := audit_filter_kind x; sessions := v; selected_session := selected_session x; session_timeline := session_timeline x;
     pending_approvals := pending_approvals x; approval_reason := approval_reason x |}.
Definition ui_selected_session (v : option Z) (x : AppWatch) : AppWatch :=
  {| sandbox_profiles := sandbox_profiles x; selected_sandbox_profile := selected_sandbox_profile x; audit_entries := audit_entries x;
     audit_filter_kind := audit_filter_kind x; sessions := sessions x; selected_session := v; session_timeline := session_timeline x;
     pending_approvals := pending_approvals x; approval_reason := approval_reason x |}.
Definition ui_session_timeline (v : list TimelineEntry) (x : AppWatch) : AppWatch :=
  {| sandbox_profiles := sandbox_profiles x; selected_sandbox_profile := selected_sandbox_profile x; audit_entries := audit_entries x;
     audit_filter_kind := audit_filter_kind x; sessions := sessions x; selected_session := selected_session x; session_timeline := v;
     pending_approvals := pending_approvals x; approval_reason := approval_reason x |}.
Definition ui_pending_approvals (v : list ApprovalRequest) (x : AppWatch) : AppWatch :=
  {| sandbox_profiles := sandbox_profiles x; selected_sandbox_profile := selected_sandbox_profile x; audit_entries := audit_entries x;
     audit_filter_kind := audit_filter_kind x; sessions := sessions x; selected_session := selected_session x; session_timeline :=
     session_timeline x; pending_approvals := v; approval_reason := approval_reason x |}.
Definition ui_approval_reason (v : string) (x : AppWatch) : AppWatch :=
  {| sandbox_profiles := sandbox_profiles x; selected_sandbox_profile := selected_sandbox_profile x; audit_entries := audit_entries x;
     audit_filter_kind := audit_filter_kind x; sessions := sessions x; selected_session := selected_session x; session_timeline :=
     session_timeline x; pending_approvals := pending_approvals x; approval_reason := v |}.
Definition on_snaps (f : AppSnaps → AppSnaps) (a : App) : App :=
  {| socket_path := socket_path a; tab := tab a; conn := conn a; ap_lists := ap_lists a; ap_watch := ap_watch a; ap_snaps := f (ap_snaps a);
     ap_panels := ap_panels a; ap_keys := ap_keys a |}.
Definition ui_snapshots (v : list SnapshotSummary) (x : AppSnaps) : AppSnaps :=
  {| snapshots := v; snapshot_diff_a := snapshot_diff_a x; snapshot_diff_b := snapshot_diff_b x; snapshot_diff := snapshot_diff x;
     key_rotate_form := key_rotate_form x; re_encrypt_form := re_encrypt_form x; encryption_badges := encryption_badges x |}.
Definition ui_snapshot_diff_a (v : option Z) (x : AppSnaps) : AppSnaps :=
  {| snapshots := snapshots x; snapshot_diff_a := v; snapshot_diff_b := snapshot_diff_b x; snapshot_diff := snapshot_diff x; key_rotate_form
     := key_rotate_form x; re_encrypt_form := re_encrypt_form x; encryption_badges := encryption_badges x |}.
Definition ui_snapshot_diff_b (v : option Z) (x : AppSnaps) : AppSnaps :=
  {| snapshots := snapshots x; snapshot_diff_a := snapshot_diff_a x; snapshot_diff_b := v; snapshot_diff := snapshot_diff x; key_rotate_form
     := key_rotate_form x; re_encrypt_form := re_encrypt_form x; encryption_badges := encryption_badges x |}.
Definition ui_snapshot_diff (v : option SnapshotDiffResponse) (x : AppSnaps) : AppSnaps :=
  {| snapshots := snapshots x; snapshot_diff_a := snapshot_diff_a x; snapshot_diff_b := snapshot_diff_b x; snapshot_diff := v; key_rotate_form
     := key_rotate_form x; re_encrypt_form := re_encrypt_form x; encryption_badges := encryption_badges x |}.
Definition ui_key_rotate_form (v : option SnapshotKeyRotateForm) (x : AppSnaps) : AppSnaps :=
  {| snapshots := snapshots x; snapshot_diff_a := snapshot_diff_a x; snapshot_diff_b := snapshot_diff_b x; snapshot_diff := snapshot_diff x;
     key_rotate_form := v; re_encrypt_form := re_encrypt_form x; encryption_badges := encryption_badges x |}.
Definition ui_re_encrypt_form (v : option SnapshotReEncryptForm) (x : AppSnaps) : AppSnaps :=
  {| snapshots := snapshots x; snapshot_diff_a := snapshot_diff_a x; snapshot_diff_b := snapshot_diff_b x; snapshot_diff := snapshot_diff x;
     key_rotate_form := key_rotate_form x; re_encrypt_form := v; encryption_badges := encryption_badges x |}.
Definition ui_encryption_badges (v : gmap Z SnapshotEncryptionBadge) (x : AppSnaps) : AppSnaps :=
  {| snapshots := snapshots x; snapshot_diff_a := snapshot_diff_a x; snapshot_diff_b := snapshot_diff_b x; snapshot_diff := snapshot_diff x;
     key_rotate_form := key_rotate_form x; re_encrypt_form := re_encrypt_form x; encryption_badges := v |}.
Definition on_panels (f : AppPanels → AppPanels) (a : App) : App :=
  {| socket_path := socket_path a; tab := tab a; conn := conn a; ap_lists := ap_lists a; ap_watch := ap_watch a; ap_snaps := ap_snaps a;
     ap_panels := f (ap_panels a); ap_keys := ap_keys a |}.
Definition ui_metrics_samples (v : gmap string (list MetricsSample)) (x : AppPanels) : AppPanels :=
  {| metrics_samples := v; metrics_selected := metrics_selected x; image_push_form := image_push_form x; exec_target := exec_target x;
     logs_target := logs_target x; logs_buffer := logs_buffer x |}.
Definition ui_metrics_selected (v : option string) (x : AppPanels) : AppPanels :=
  {| metrics_samples := metrics_samples x; metrics_selected := v; image_push_form := image_push_form x; exec_target := exec_target x;
     logs_target := logs_target x; logs_buffer := logs_buffer x |}.
Definition ui_image_push_form (v : option ImagePushForm) (x : AppPanels) : AppPanels :=
  {| metrics_samples := metrics_samples x; metrics_selected := metrics_selected x; image_push_form := v; exec_target := exec_target x;
     logs_target := logs_target x; logs_buffer := logs_buffer x |}.
Definition ui_exec_target (v : option string) (x : AppPanels) : AppPanels :=
  {| metrics_samples := metrics_samples x; metrics_selected := metrics_selected x; image_push_form := image_push_form x; exec_target := v;
     logs_target := logs_target x; logs_buffer := logs_buffer x |}.
Definition ui_logs_target (v : option string) (x : AppPanels) : AppPanels :=
  {| metrics_samples := metrics_samples x; metrics_selected := metrics_selected x; image_push_form := image_push_form x; exec_target :=
     exec_target x; logs_target := v; logs_buffer := logs_buffer x |}.
Definition ui_logs_buffer (v : gmap string (list (string * string))) (x : AppPanels) : AppPanels :=
  {| metrics_samples := metrics_samples x; metrics_selected := metrics_selected x; image_push_form := image_push_form x; exec_target :=
     exec_target x; logs_target := logs_target x; logs_buffer := v |}.
Definition on_keys (f : AppKeys → AppKeys) (a : App) : App :=
  {| socket_path := socket_path a; tab := tab a; conn := conn a; ap_lists := ap_lists a; ap_watch := ap_watch a; ap_snaps := ap_snaps a;
     ap_panels := ap_panels a; ap_keys := f (ap_keys a) |}.
Definition ui_tofu_expiry (v : option TofuExpiryStatus) (x : AppKeys) : AppKeys :=
  {| tofu_expiry := v; tofu_expiry_input := tofu_expiry_input x; plugin_keys := plugin_keys x; key_revoke_form := key_revoke_form x;
     key_revoke_state := key_revoke_state x; auto_trigger := auto_trigger x |}.
Definition ui_tofu_expiry_input (v : string) (x : AppKeys) : AppKeys :=
  {| tofu_expiry := tofu_expiry x; tofu_expiry_input := v; plugin_keys := plugin_keys x; key_revoke_form := key_revoke_form x;
     key_revoke_state := key_revoke_state x; auto_trigger := auto_trigger x |}.
Definition ui_plugin_keys (v : list PluginKeyEntry) (x : AppKeys) : AppKeys :=
  {| tofu_expiry := tofu_expiry x; tofu_expiry_input := tofu_expiry_input x; plugin_keys := v; key_revoke_form := key_revoke_form x;
     key_revoke_state := key_revoke_state x; auto_trigger := auto_trigger x |}.
Definition ui_key_revoke_form (v : option PluginKeyRevokeForm) (x : AppKeys) : AppKeys :=
  {| tofu_expiry := tofu_expiry x; tofu_expiry_input := tofu_expiry_input x; plugin_keys := plugin_keys x; key_revoke_form := v;
     key_revoke_state := key_revoke_state x; auto_trigger := auto_trigger x |}.
Definition ui_key_revoke_state (v : gmap (string * string) PluginRevokePropagation) (x : AppKeys) : AppKeys :=
  {| tofu_expiry := tofu_expiry x; tofu_expiry_input := tofu_expiry_input x; plugin_keys := plugin_keys x; key_revoke_form := key_revoke_form
     x; key_revoke_state := v; auto_trigger := auto_trigger x |}.
Definition ui_auto_trigger (v : option AutoEncryptStatus) (x : AppKeys) : AppKeys :=
  {| tofu_expiry := tofu_expiry x; tofu_expiry_input := tofu_expiry_input x; plugin_keys := plugin_keys x; key_revoke_form := key_revoke_form
     x; key_revoke_state := key_revoke_state x; auto_trigger := v |}.

Definition app_new (path : string) : App :=
  {| socket_path := path; tab := TabContainers; conn := Connecting;
     ap_lists := {| containers := []; images := []; volumes_ := []; networks_ := [] |};
     ap_watch := {| sandbox_profiles := []; selected_sandbox_profile := None; audit_entries := []; audit_filter_kind := None; sessions := [];
                    selected_session := None; session_timeline := []; pending_approvals := []; approval_reason := "" |};
     ap_snaps := {| snapshots := []; snapshot_diff_a := None; snapshot_diff_b := None; snapshot_diff := None; key_rotate_form := None;
                    re_encrypt_form := None; encryption_badges := ∅ |};
     ap_panels := {| metrics_samples := ∅; metrics_selected := None; image_push_form := None; exec_target := None; logs_target := None;
                     logs_buffer := ∅ |};
     ap_keys := {| tofu_expiry := None; tofu_expiry_input := ""; plugin_keys := []; key_revoke_form := None; key_revoke_state := ∅;
                   auto_trigger := None |} |}.

(** * The rings *)

Definition EVENTS_RING_CAP : nat := 1000.
Definition DAEMON_LOG_CAP : nat := 200.
Definition LOGS_BUFFER_CAP : nat := 1000.

(** [if len == cap { pop_front }; push_back]. *)
Definition push_capped {A} (cap : nat) (x : A) (l : list A) : list A :=
  (if decide (length l = cap) then tail l else l) ++ [x].

Inductive EventFilter : Type := FilterAll | FilterContainer | FilterSandbox | FilterSnapshot | FilterAudit.
Definition filter_matches (f : EventFilter) (t : EventTopic) : bool :=
  match f, t with
  | FilterAll, _ | FilterContainer, TContainer | FilterSandbox, TSandbox | FilterSnapshot, TSnapshot | FilterAudit, TAudit => true
  | _, _ => false
  end.

(** A client process: its state and the two rings, which every thread shares. *)
Record Client : Type := {
  cl_app : App;
  cl_events : list Event;
  cl_daemon_log : list string;
}.
Definition ring_push_event (e : Event) (c : Client) : Client :=
  {| cl_app := cl_app c; cl_events := push_capped EVENTS_RING_CAP e (cl_events c); cl_daemon_log := cl_daemon_log c |}.
Definition push_log_line (l : string) (c : Client) : Client :=
  {| cl_app := cl_app c; cl_events := cl_events c; cl_daemon_log := push_capped DAEMON_LOG_CAP l (cl_daemon_log c) |}.
Definition on_app (f : App → App) (c : Client) : Client :=
  {| cl_app := f (cl_app c); cl_events := cl_events c; cl_daemon_log := cl_daemon_log c |}.

(** * The reducer *)

Definition apply_snapshot (s : Snapshot) : AppLists → AppLists :=
  match s with
  | LoadedContainers v => ui_containers v
  | LoadedImages v => ui_images v
  | LoadedVolumes v => ui_volumes v
  | LoadedNetworks v => ui_networks v
  end.

Definition apply_event (e : Event) (x : AppLists) : AppLists :=
  let id := resource_id e in
  match topic e, ev_kind e with
  | TContainer, Removed => ui_containers (filter (λ c, cs_id c ≠ id ∧ id ∉ cs_names c) (containers x)) x
  | TImage, Removed => ui_images (filter (λ i, im_id i ≠ id) (images x)) x
  | TVolume, Removed => ui_volumes (filter (λ v, vs_name v ≠ id) (volumes_ x)) x
  | TNetwork, Removed => ui_networks (filter (λ n, nw_id n ≠ id ∧ nw_name n ≠ id) (networks_ x)) x
  | _, _ => x
  end.

(** A selected snapshot that is gone takes the diff with it. *)
Definition forget_gone (known : list Z) (x : AppSnaps) : AppSnaps :=
  let x := match snapshot_diff_a x with
           | Some id => if decide (id ∈ known) then x else ui_snapshot_diff None (ui_snapshot_diff_a None x)
           | None => x
           end in
  match snapshot_diff_b x with
  | Some id => if decide (id ∈ known) then x else ui_snapshot_diff None (ui_snapshot_diff_b None x)
  | None => x
  end.

Definition without_request (request_id_ : string) (x : AppWatch) : AppWatch :=
  let rest := filter (λ p, request_id p ≠ request_id_) (pending_approvals x) in
  let x := ui_pending_approvals rest x in
  if decide (rest = []) then ui_approval_reason "" x else x.

Definition push_log (stream line : string) (buf : list (string * string)) : list (string * string) :=
  let buf := buf ++ [(stream, line)] in
  if bool_decide (LOGS_BUFFER_CAP < length buf) then skipn (length buf - LOGS_BUFFER_CAP) buf else buf.

Definition apply_app (msg : Message) (a : App) : App :=
  match msg with
  | TabSelected t => ui_tab t a
  | ConnectionStateChanged s => ui_conn s a
  | SnapshotLoaded s => on_lists (apply_snapshot s) a
  | EventReceived e => on_lists (apply_event e) a
  | SandboxLoaded v => on_watch (ui_sandbox_profiles v) a
  | AuditLoaded v => on_watch (ui_audit_entries v) a
  | SnapshotsLoaded v => on_snaps (λ x, forget_gone (sm_id <$> v) (ui_snapshots v x)) a
  | SessionsLoaded v => on_watch (ui_sessions v) a
  | SessionTimelineLoaded id entries =>
      if decide (selected_session (ap_watch a) = Some id) then on_watch (ui_session_timeline entries) a else a
  | SandboxProfileSelected name => on_watch (ui_selected_sandbox_profile (Some name)) a
  | SessionSelected id => on_watch (λ x, ui_session_timeline [] (ui_selected_session (Some id) x)) a
  | AuditFilterChanged kind => on_watch (ui_audit_filter_kind kind) a
  | ApprovalReceived req =>
      if existsb (λ p, bool_decide (request_id p = request_id req)) (pending_approvals (ap_watch a)) then a
      else on_watch (λ x, ui_pending_approvals (pending_approvals x ++ [req]) x) a
  | MsgApprovalResolved res => on_watch (without_request (res_request_id res)) a
  | ApprovalReasonChanged s => on_watch (ui_approval_reason s) a
  | MsgApprovalDecision id _ _ => on_watch (without_request id) a
  | SnapshotRollback _ | SnapshotRemove _ | SnapshotBranch _ | SnapshotDiffRequest _ _ => a
  | SnapshotSelectForDiff SlotA id => on_snaps (λ x, ui_snapshot_diff None (ui_snapshot_diff_a (Some id) x)) a
  | SnapshotSelectForDiff SlotB id => on_snaps (λ x, ui_snapshot_diff None (ui_snapshot_diff_b (Some id) x)) a
  | SnapshotDiffLoaded resp =>
      if decide (snapshot_diff_a (ap_snaps a) = Some (sd_id_a resp) ∧ snapshot_diff_b (ap_snaps a) = Some (sd_id_b resp))
      then on_snaps (ui_snapshot_diff (Some resp)) a else a
  | MetricsContainerSelected id => on_panels (ui_metrics_selected (Some id)) a
  | MetricsLoaded id samples => on_panels (λ x, ui_metrics_samples (<[id := samples]> (metrics_samples x)) x) a
  | ImagePushOpen reference => on_panels (ui_image_push_form (Some {| pf_reference := reference; pf_registry := ""; pf_auth := "" |})) a
  | ImagePushRegistryChanged s => on_panels (λ x, ui_image_push_form
      ((λ f, {| pf_reference := pf_reference f; pf_registry := s; pf_auth := pf_auth f |}) <$> image_push_form x) x) a
  | ImagePushAuthChanged s => on_panels (λ x, ui_image_push_form
      ((λ f, {| pf_reference := pf_reference f; pf_registry := pf_registry f; pf_auth := s |}) <$> image_push_form x) x) a
  | ImagePushCancel | ImagePushSubmit => on_panels (ui_image_push_form None) a
  | ExecRequested id => on_panels (ui_exec_target (Some id)) a
  | LogsRequested id => on_panels (λ x, ui_logs_buffer (<[id := []]> (logs_buffer x)) (ui_logs_target (Some id) x)) a
  | LogLineReceived id stream line => on_panels (λ x,
      ui_logs_buffer (<[id := push_log stream line (unwrap_or [] (logs_buffer x !! id))]> (logs_buffer x)) x) a
  | ExecModalDismissed => on_panels (ui_exec_target None) a
  | LogsModalDismissed => on_panels (λ x,
      match logs_target x with Some id => ui_logs_buffer (delete id (logs_buffer x)) (ui_logs_target None x) | None => x end) a
  | SnapshotKeyRotateOpen id => on_snaps (ui_key_rotate_form (Some {| rf_snapshot_id := id; rf_new_passphrase := "" |})) a
  | SnapshotKeyRotatePassphraseChanged s => on_snaps (λ x, ui_key_rotate_form
      ((λ f, {| rf_snapshot_id := rf_snapshot_id f; rf_new_passphrase := s |}) <$> key_rotate_form x) x) a
  | SnapshotKeyRotateCancel | SnapshotKeyRotateSubmit => on_snaps (ui_key_rotate_form None) a
  | SnapshotKeyRotated id algorithm kdf => on_snaps (λ x, ui_encryption_badges
      (<[id := {| eb_encrypted := true; eb_algorithm := Some algorithm; eb_kdf := Some kdf |}]> (encryption_badges x)) x) a
  | SnapshotReEncryptAllOpen => on_snaps (ui_re_encrypt_form (Some {| ef_new_passphrase := "" |})) a
  | SnapshotReEncryptAllPassphraseChanged s => on_snaps (λ x, ui_re_encrypt_form
      ((λ _, {| ef_new_passphrase := s |}) <$> re_encrypt_form x) x) a
  | SnapshotReEncryptAllCancel | SnapshotReEncryptAllSubmit => on_snaps (ui_re_encrypt_form None) a
  | SnapshotReEncryptAllDone _ _ _ _ => a
  | SnapshotEncryptionLoaded resp => on_snaps (λ x, ui_encryption_badges
      (<[es_snapshot_id resp := {| eb_encrypted := es_encrypted resp; eb_algorithm := es_algorithm resp; eb_kdf := es_key_source resp |}]>
        (encryption_badges x)) x) a
  | TofuExpiryLoaded resp => on_keys (ui_tofu_expiry (Some resp)) a
  | TofuExpiryInputChanged s => on_keys (ui_tofu_expiry_input s) a
  | TofuExpirySubmit => on_keys (ui_tofu_expiry_input "") a
  | TofuExpiryUpdated max_age => on_keys (λ x, ui_tofu_expiry
      ((λ s, {| te_enabled := te_enabled s; te_max_age_secs := max_age; te_enabled_at := te_enabled_at s |}) <$> tofu_expiry x) x) a
  | PluginKeysLoaded keys => on_keys (ui_plugin_keys keys) a
  | PluginKeyRevokeOpen p f => on_keys (ui_key_revoke_form (Some {| vf_publisher := p; vf_fingerprint := f |})) a
  | PluginKeyRevokeCancel => on_keys (ui_key_revoke_form None) a
  | PluginKeyRevokeSubmit => on_keys (λ x, ui_key_revoke_form None
      match key_revoke_form x with
      | Some f => ui_key_revoke_state (<[(vf_publisher f, vf_fingerprint f) := Pending]> (key_revoke_state x)) x
      | None => x
      end) a
  | PluginKeyRevokePropagated p f log_index => on_keys (λ x,
      ui_key_revoke_state (<[(p, f) := Cluster log_index]> (key_revoke_state x)) x) a
  | SandboxAutoTriggerLoaded resp => on_keys (ui_auto_trigger (Some resp)) a
  | SandboxAutoTriggerToggle => on_keys (λ x, ui_auto_trigger
      ((λ s, {| as_enabled := negb (as_enabled s); as_last_image_ref := as_last_image_ref s; as_trigger_count := as_trigger_count s |})
        <$> auto_trigger x) x) a
  | NoOp => a
  end.

(** [App::apply]: an event goes to the rings before the state is changed. *)
Definition apply_message (msg : Message) (c : Client) : Client :=
  let c := match msg with
           | EventReceived e =>
               let c := ring_push_event e c in
               match ev_kind e, topic e with
               | Log, TContainer => c
               | Log, _ => match get (details e) "line" ≫= as_str with Some line => push_log_line line c | None => c end
               | _, _ => c
               end
           | _ => c
           end in
  on_app (apply_app msg) c.

(** * The tree of snapshots *)

Record SnapshotTreeNode : Type := {
  tn_snapshot : SnapshotSummary;
  tn_depth : nat;
}.
Definition by_id (a b : SnapshotSummary) : Prop := (sm_id a ≤ sm_id b)%Z.
#[export] Instance by_id_dec : RelDecision by_id := λ a b, Z_le_dec (sm_id a) (sm_id b).

Definition group_one (known : list Z) (acc : gmap Z (list SnapshotSummary) * list SnapshotSummary) (s : SnapshotSummary) :
    gmap Z (list SnapshotSummary) * list SnapshotSummary :=
  let '(children, roots) := acc in
  match sm_parent_id s with
  | Some p => if decide (p ∈ known) then (<[p := unwrap_or [] (children !! p) ++ [s]]> children, roots) else (children, roots ++ [s])
  | None => (children, roots ++ [s])
  end.

(** The loop over the stack, its top first: the children of a node are pushed in
    reverse, so they are popped in order. [None] when the fuel runs out. *)
Fixpoint tree_loop (fuel : nat) (children : gmap Z (list SnapshotSummary)) (stack : list (SnapshotSummary * nat)) (out : list SnapshotTreeNode) :
    option (list SnapshotTreeNode) :=
  match stack with
  | [] => Some out
  | (node, depth) :: stack' =>
      match fuel with
      | O => None
      | S fuel' =>
          let kids := unwrap_or [] (children !! sm_id node) in
          tree_loop fuel' children (((λ k, (k, S depth)) <$> kids) ++ stack') (out ++ [{| tn_snapshot := node; tn_depth := depth |}])
      end
  end.
Definition build_snapshot_tree (l : list SnapshotSummary) : option (list SnapshotTreeNode) :=
  let '(children, roots) := foldl (group_one (sm_id <$> l)) (∅, []) l in
  tree_loop (length l) (merge_sort by_id <$> children) ((λ r, (r, 0)) <$> merge_sort by_id roots) [].

(** ** Every snapshot once, under its parent *)

Section Tree.
Context (l : list SnapshotSummary) (Hids : NoDup (sm_id <$> l)).

(** The parent a snapshot is shown under: one that is listed. *)
Definition shown_parent (s : SnapshotSummary) : option Z :=
  match sm_parent_id s with Some p => if decide (p ∈ sm_id <$> l) then Some p else None | None => None end.
Definition kids_of (p : Z) : list SnapshotSummary := merge_sort by_id (filter (λ s, shown_parent s = Some p) l).
Definition roots_of : list SnapshotSummary := merge_sort by_id (filter (λ s, shown_parent s = None) l).

Lemma group_spec l1 :
  let '(children, roots) := foldl (group_one (sm_id <$> l)) (∅, []) l1 in
  roots = filter (λ s, shown_parent s = None) l1 ∧ ∀ p, unwrap_or [] (children !! p) = filter (λ s, shown_parent s = Some p) l1.
Proof.
  induction l1 as [|s l1 IH] using rev_ind; [done|]. rewrite foldl_snoc.
  destruct (foldl (group_one (sm_id <$> l)) (∅, []) l1) as [children roots]. destruct IH as [-> Hc].
  unfold group_one.
  destruct (sm_parent_id s) as [p|] eqn:Hp; [case_decide as Hk|].
  - assert (shown_parent s = Some p) as Hs by (unfold shown_parent; by rewrite Hp, decide_True). split; [by rewrite filter_app, filter_cons_False, app_nil_r by congruence|].
    intros q. rewrite filter_app. destruct (decide (p = q)) as [<-|Hq]; [by rewrite lookup_insert_eq, Hc, filter_cons_True|].
    rewrite lookup_insert_ne, Hc, filter_cons_False by congruence. by rewrite app_nil_r.
  - assert (shown_parent s = None) as Hs by (unfold shown_parent; by rewrite Hp, decide_False). split; [by rewrite filter_app, filter_cons_True|].
    intros q. by rewrite filter_app, Hc, filter_cons_False, app_nil_r by congruence.
  - assert (shown_parent s = None) as Hs by (unfold shown_parent; by rewrite Hp). split; [by rewrite filter_app, filter_cons_True|].
    intros q. by rewrite filter_app, Hc, filter_cons_False, app_nil_r by congruence.
Qed.

Lemma kids_elem p s : s ∈ kids_of p ↔ s ∈ l ∧ shown_parent s = Some p.
Proof. unfold kids_of. rewrite merge_sort_Permutation, list_elem_of_filter. naive_solver. Qed.
Lemma roots_elem s : s ∈ roots_of ↔ s ∈ l ∧ shown_parent s = None.
Proof. unfold roots_of. rewrite merge_sort_Permutation, list_elem_of_filter. naive_solver. Qed.
Lemma filter_ids (P : SnapshotSummary → Prop) `{∀ s, Decision (P s)} : NoDup (sm_id <$> filter P l).
Proof. eapply sublist_NoDup; [exact Hids|]. apply fmap_sublist, sublist_filter. Qed.
Lemma same_id s t : s ∈ l → t ∈ l → sm_id s = sm_id t → s = t.
Proof.
  intros [i Hi]%list_elem_of_lookup [j Hj]%list_elem_of_lookup He.
  assert (i = j) as ->; [|congruence].
  eapply (NoDup_lookup (sm_id <$> l)); [done|by rewrite list_lookup_fmap, Hi|by rewrite list_lookup_fmap, Hj, He].
Qed.

(** What holds of the loop: [out] was visited, [stack] is to be. *)
Record tree_inv (out : list SnapshotTreeNode) (stack : list (SnapshotSummary * nat)) : Prop := {
  ti_nodup : NoDup ((sm_id ∘ tn_snapshot <$> out) ++ (sm_id ∘ fst <$> stack));
  ti_listed : Forall (λ n, tn_snapshot n ∈ l) out ∧ Forall (λ p, p.1 ∈ l) stack;
  ti_depth i n : out !! i = Some n →
    match shown_parent (tn_snapshot n) with
    | None => tn_depth n = 0
    | Some p => ∃ j m, j < i ∧ out !! j = Some m ∧ sm_id (tn_snapshot m) = p ∧ tn_depth n = S (tn_depth m)
    end;
  ti_stack p : p ∈ stack →
    match shown_parent p.1 with
    | None => p.2 = 0
    | Some q => ∃ j m, out !! j = Some m ∧ sm_id (tn_snapshot m) = q ∧ p.2 = S (tn_depth m)
    end;
  ti_closed s : s ∈ l → (∀ p, shown_parent s = Some p → p ∈ sm_id ∘ tn_snapshot <$> out) →
    s ∈ (tn_snapshot <$> out) ++ (fst <$> stack);
}.

Lemma inv_start : tree_inv [] ((λ r, (r, 0)) <$> roots_of).
Proof.
  split; cbn [fmap list_fmap app].
  - rewrite <-list_fmap_compose. eapply NoDup_Permutation_proper; [apply fmap_Permutation, merge_sort_Permutation|]. apply (filter_ids).
  - split; [done|]. apply Forall_fmap, Forall_forall. intros s [Hs _]%roots_elem. exact Hs.
  - done.
  - intros p (s & -> & [_ Hs]%roots_elem)%list_elem_of_fmap. cbn [fst]. by rewrite Hs.
  - intros s Hs Hp. rewrite <-list_fmap_compose, list_fmap_id. apply roots_elem. split; [done|].
    destruct (shown_parent s) as [p|]; [|done]. by specialize (Hp p eq_refl) as ?%elem_of_nil.
Qed.

Lemma inv_step out x d stack :
  tree_inv out ((x, d) :: stack) →
  tree_inv (out ++ [{| tn_snapshot := x; tn_depth := d |}]) (((λ k, (k, S d)) <$> kids_of (sm_id x)) ++ stack).
Proof.
  intros [Hn [Ho Hs] Hd Ht Hc]. apply Forall_cons in Hs as [Hx Hs]. cbn [fst] in Hx.
  assert (∀ k, k ∈ kids_of (sm_id x) → sm_id k ∉ (sm_id ∘ tn_snapshot <$> out) ++ (sm_id ∘ fst <$> (x, d) :: stack)) as Hnew.
  { intros k [Hk Hp]%kids_elem Hin. cbn [fmap list_fmap] in Hn.
    assert (∃ j m, out !! j = Some m ∧ sm_id (tn_snapshot m) = sm_id x) as (j & m & Hj & Hm).
    { rewrite elem_of_app, !list_elem_of_fmap in Hin. destruct Hin as [(n & He & Hn')|(p & He & Hp')].
      - apply list_elem_of_lookup in Hn' as [i Hi]. specialize (Hd i n Hi).
        rewrite (same_id k (tn_snapshot n) Hk) in Hp; [|exact (Forall_lookup_1 _ _ _ _ Ho Hi)|done]. rewrite Hp in Hd. naive_solver.
      - specialize (Ht p Hp'). rewrite (same_id k p.1 Hk) in Hp; [| |done]; [rewrite Hp in Ht; naive_solver|].
        apply elem_of_cons in Hp' as [->|Hp']; [done|]. by eapply (Forall_forall (λ p, p.1 ∈ l)) in Hs. }
    apply NoDup_app in Hn as (_ & Hdis & _). apply (Hdis (sm_id x)); [|by left].
    apply list_elem_of_fmap. exists m. split; [done|]. by eapply list_elem_of_lookup_2. }
  split.
  - rewrite !fmap_app, <-list_fmap_compose. cbn [fmap list_fmap] in *. rewrite <-app_assoc.
    change (NoDup ((sm_id ∘ tn_snapshot <$> out) ++ sm_id x :: (sm_id <$> kids_of (sm_id x)) ++ (sm_id ∘ fst <$> stack))).
    rewrite (Permutation_app_comm (sm_id <$> _)), app_comm_cons, app_assoc, Permutation_app_comm. apply NoDup_app. split_and!; [|by intros ? (k & -> & Hk)%list_elem_of_fmap; apply Hnew|done].
    unfold kids_of. rewrite merge_sort_Permutation. apply filter_ids.
  - split; [apply Forall_app; by repeat constructor|]. apply Forall_app. split; [|done]. apply Forall_fmap, Forall_forall. by intros k [Hk _]%kids_elem.
  - intros i n [Hi|[Hl Hi]]%lookup_app_Some.
    + specialize (Hd i n Hi). destruct (shown_parent (tn_snapshot n)) as [p|]; [|done]. destruct Hd as (j & m & Hj & Hm & Hr).
      exists j, m. split; [done|]. split; [by apply lookup_app_l_Some|done].
    + apply list_lookup_singleton_Some in Hi as [Hi <-]. cbn [tn_snapshot tn_depth].
      specialize (Ht (x, d) ltac:(by left)). cbn [fst snd] in Ht. destruct (shown_parent x) as [p|]; [|done]. destruct Ht as (j & m & Hj & Hr).
      exists j, m. split; [apply lookup_lt_Some in Hj; lia|]. split; [by apply lookup_app_l_Some|done].
  - intros p [(k & -> & [_ Hk]%kids_elem)%list_elem_of_fmap|Hp]%elem_of_app.
    + cbn [fst snd]. rewrite Hk. exists (length out), {| tn_snapshot := x; tn_depth := d |}. split; [by rewrite list_lookup_middle|done].
    + specialize (Ht p ltac:(by right)). destruct (shown_parent p.1) as [q|]; [|done]. destruct Ht as (j & m & Hj & Hr).
      exists j, m. split; [by apply lookup_app_l_Some|done].
  - intros s Hin Hp. rewrite !fmap_app. cbn [fmap list_fmap tn_snapshot]. rewrite <-list_fmap_compose, <-app_assoc.
    destruct (decide (shown_parent s = Some (sm_id x))) as [He|He].
    + apply elem_of_app. right. apply elem_of_app. right. apply elem_of_app. left. apply list_elem_of_fmap. exists s. split; [done|].
      by apply kids_elem.
    + assert (s ∈ (tn_snapshot <$> out) ++ (fst <$> (x, d) :: stack)) as H.
      { apply Hc; [done|]. intros p Hs'. specialize (Hp p Hs'). rewrite fmap_app in Hp. apply elem_of_app in Hp as [?|Hp]; [done|].
        apply list_elem_of_fmap in Hp as (n & -> & ->%list_elem_of_singleton). by destruct He. }
      cbn [fmap list_fmap fst] in H. set_solver.
Qed.

Lemma inv_bound out stack : tree_inv out stack → length out + length stack ≤ length l.
Proof.
  intros [Hn [Ho Hs] _ _ _]. assert (length ((sm_id ∘ tn_snapshot <$> out) ++ (sm_id ∘ fst <$> stack)) ≤ length (sm_id <$> l)) as H;
    [|by rewrite length_app, !length_fmap in H].
  apply submseteq_length, NoDup_submseteq; [done|]. intros i [(n & -> & Hi)%list_elem_of_fmap|(p & -> & Hi)%list_elem_of_fmap]%elem_of_app;
    apply list_elem_of_fmap; eexists; (split; [reflexivity|]).
  1: by eapply (Forall_forall (λ n, tn_snapshot n ∈ l)) in Ho.
  by eapply (Forall_forall (λ p, p.1 ∈ l)) in Hs.
Qed.
Lemma loop_ends fuel children stack out :
  (∀ p, unwrap_or [] (children !! p) = kids_of p) → tree_inv out stack → length l ≤ fuel + length out →
  ∃ out', tree_loop fuel children stack out = Some out' ∧ tree_inv out' [].
Proof.
  intros Hc. revert stack out. induction fuel as [|fuel IH]; intros [|[x d] stack] out Hi Hf; cbn [tree_loop]; try (by exists out).
  - apply inv_bound in Hi. simpl in Hi. lia.
  - rewrite Hc. apply IH; [by apply inv_step|]. rewrite length_app. simpl. lia.
Qed.

(** In a forest nothing is left out: parents come before their children. *)
Lemma below_smaller (p i : Z) : (p < i)%Z → p ∈ sm_id <$> l →
  length (filter (λ j, j < p)%Z (sm_id <$> l)) < length (filter (λ j, j < i)%Z (sm_id <$> l)).
Proof.
  intros Hlt Hp. change (length (p :: filter (λ j, j < p)%Z (sm_id <$> l)) ≤ length (filter (λ j, j < i)%Z (sm_id <$> l))).
  apply submseteq_length, NoDup_submseteq.
  - constructor; [rewrite list_elem_of_filter; lia|]. by apply NoDup_filter.
  - intros j [->|Hj]%elem_of_cons; rewrite list_elem_of_filter in *; [done|]. split; [lia|apply Hj].
Qed.
Lemma inv_complete out : (∀ s p, s ∈ l → sm_parent_id s = Some p → (p < sm_id s)%Z) → tree_inv out [] → tn_snapshot <$> out ≡ₚ l.
Proof.
  intros Hf [Hn [Ho _] _ _ Hc]. setoid_rewrite app_nil_r in Hc. rewrite app_nil_r, list_fmap_compose in Hn.
  apply NoDup_Permutation; [by eapply NoDup_fmap_1|by eapply NoDup_fmap_1|]. intros s. split.
  - intros (n & -> & Hi)%list_elem_of_fmap. by eapply (Forall_forall (λ n, tn_snapshot n ∈ l)) in Ho.
  - remember (length (filter (λ j, j < sm_id s)%Z (sm_id <$> l))) as k eqn:Hk. revert s Hk.
    induction k as [k IH] using lt_wf_ind. intros s -> Hs. apply Hc; [done|].
    intros p Hp. unfold shown_parent in Hp. destruct (sm_parent_id s) as [q|] eqn:Hq; [|done]. case_decide as Hin; [|done]. injection Hp as <-.
    rewrite list_fmap_compose. pose proof Hin as (t & -> & Ht)%list_elem_of_fmap. apply list_elem_of_fmap_2.
    eapply (IH _); [|reflexivity|done]. apply below_smaller; [by eapply Hf|done].
Qed.
Lemma tree_complete :
  (∀ s p, s ∈ l → sm_parent_id s = Some p → (p < sm_id s)%Z) →
  ∃ out, build_snapshot_tree l = Some out ∧ tn_snapshot <$> out ≡ₚ l ∧
    ∀ i n, out !! i = Some n →
      match shown_parent (tn_snapshot n) with
      | None => tn_depth n = 0
      | Some p => ∃ j m, j < i ∧ out !! j = Some m ∧ sm_id (tn_snapshot m) = p ∧ tn_depth n = S (tn_depth m)
      end.
Proof.
  intros Hf. unfold build_snapshot_tree. pose proof (group_spec l) as Hg.
  destruct (foldl (group_one (sm_id <$> l)) (∅, []) l) as [children roots]. destruct Hg as [-> Hc].
  destruct (loop_ends (length l) (merge_sort by_id <$> children) ((λ r, (r, 0)) <$> roots_of) []) as (out & Hr & Hi).
  - intros p. rewrite lookup_fmap. unfold kids_of. rewrite <-Hc. by destruct (children !! p).
  - apply inv_start.
  - lia.
  - exists out. split; [exact Hr|]. split; [by apply inv_complete|]. apply (ti_depth _ _ Hi).
Qed.
End Tree.

(** A listing of a lineage that is a forest is one. *)
Lemma collect_rows `{E : Env} rows l s : collect (snap_into_summary <$> rows) = Ok l → s ∈ l →
  ∃ r, r ∈ rows ∧ sm_id s = sw_id r ∧ sm_parent_id s = sw_parent_id r.
Proof.
  revert l. induction rows as [|r rows IH]; intros l; simpl; [by intros [= <-] ?%elem_of_nil|].
  destruct (snap_into_summary r) as [sm|] eqn:Hr; [|done]. destruct (collect _) as [l'|]; [|done]. intros [= <-] [->|Hs]%elem_of_cons.
  - exists r. split; [by left|]. unfold snap_into_summary in Hr. destruct (ts_parse _); [|done]. by injection Hr as <-.
  - destruct (IH l' eq_refl Hs) as (r' & ? & ?). exists r'. split; [by right|done].
Qed.
Lemma increasing_NoDup (k : list Z) : StronglySorted Z.lt k → NoDup k.
Proof.
  induction 1 as [|x k _ IH Hx]; constructor; [|done]. intros Hin. rewrite Forall_forall in Hx. specialize (Hx x Hin). lia.
Qed.
Section Listing.
Context {E : Env} {S : Type} {W : HasWorld S} {T : HasSnaps S} {L : SnapLaws S}.

(** C37: The tree the clients draw is the lineage the daemon keeps: on every listing of a
    lineage that is a forest the loop ends with each listed snapshot exactly once,
    a snapshot whose parent is not listed at depth 0, and every other one after its
    parent and one level below it. *)
Theorem tree_shows_the_lineage container_id s l s' :
  lineage_ok (snaps_of s) → manager_list container_id s = (Ok l, s') →
  ∃ out, build_snapshot_tree l = Some out ∧ tn_snapshot <$> out ≡ₚ l ∧
    ∀ i n, out !! i = Some n →
      match shown_parent l (tn_snapshot n) with
      | None => tn_depth n = 0
      | Some p => ∃ j m, j < i ∧ out !! j = Some m ∧ sm_id (tn_snapshot m) = p ∧ tn_depth n = Datatypes.S (tn_depth m)
      end.
Proof.
  intros (Hs & _ & Hp) H. unfold manager_list in H. inv_bind H u s1 Hu. inv_bind H t s2 Ht.
  assert (t = snaps_of s) as ->.
  { injection Ht as <- _. unfold on_world in Hu. destruct (stmt (world_of s)) as [r w]. injection Hu as _ <-. apply snaps_of_put_world. }
  set (rows := match container_id with Some cid => filter (λ r, sw_container_id r = cid) (ss_rows (snaps_of s)) | None => ss_rows (snaps_of s) end) in *.
  assert (rows `sublist_of` ss_rows (snaps_of s)) as Hsub by (subst rows; destruct container_id; [apply sublist_filter|done]).
  destruct (collect (snap_into_summary <$> reverse rows)) as [l'|] eqn:Hl; [|done]. injection H as <- _.
  apply tree_complete.
  - rewrite (collect_ids _ _ Hl), fmap_reverse, reverse_Permutation.
    eapply sublist_NoDup; [|apply fmap_sublist, Hsub]. by apply increasing_NoDup.
  - intros x p Hx Hpar. destruct (collect_rows _ _ _ Hl Hx) as (r & Hr & Hi & Hq). rewrite Hi. rewrite Hq in Hpar.
    rewrite Forall_forall in Hp. apply (Hp r); [|done]. eapply elem_of_sublist; [|exact Hsub]. by rewrite reverse_Permutation in Hr.
Qed.
End Listing.

(** * What holds of a client whatever it is sent *)

Record snaps_view_ok (x : AppSnaps) : Prop := {
  sv_diff d : snapshot_diff x = Some d → snapshot_diff_a x = Some (sd_id_a d) ∧ snapshot_diff_b x = Some (sd_id_b d);
}.
Record client_ok (c : Client) : Prop := {
  co_events : length (cl_events c) ≤ EVENTS_RING_CAP;
  co_daemon_log : length (cl_daemon_log c) ≤ DAEMON_LOG_CAP;
  co_logs : map_Forall (λ _ buf, length buf ≤ LOGS_BUFFER_CAP) (logs_buffer (ap_panels (cl_app c)));
  co_approvals : NoDup (request_id <$> pending_approvals (ap_watch (cl_app c)));
  co_diff : snaps_view_ok (ap_snaps (cl_app c));
}.

Lemma push_capped_bound {A} cap (x : A) l : 0 < cap → length l ≤ cap → length (push_capped cap x l) ≤ cap.
Proof. intros H0 Hl. unfold push_capped. rewrite length_app. case_decide; [destruct l; simpl in *; lia|simpl; lia]. Qed.
Lemma push_log_bound stream line buf : length (push_log stream line buf) ≤ LOGS_BUFFER_CAP.
Proof.
  unfold push_log. case_bool_decide as H; [rewrite length_skipn; lia|lia].
Qed.
Lemma without_request_nodup id x : NoDup (request_id <$> pending_approvals x) → NoDup (request_id <$> pending_approvals (without_request id x)).
Proof.
  intros H. unfold without_request. case_decide; cbn; (eapply sublist_NoDup; [exact H|]; apply fmap_sublist, sublist_filter).
Qed.
Lemma forget_gone_ok known x : snaps_view_ok x → snaps_view_ok (forget_gone known x).
Proof.
  destruct x as [sn da db df kr re eb]. intros [Hd]. unfold forget_gone. cbn in *.
  split; intros d. destruct da as [i|], db as [j|]; cbn; repeat (case_decide; cbn); try done; apply Hd.
Qed.

Lemma apply_app_ok msg a :
  map_Forall (λ _ buf, length buf ≤ LOGS_BUFFER_CAP) (logs_buffer (ap_panels a)) → NoDup (request_id <$> pending_approvals (ap_watch a)) →
  snaps_view_ok (ap_snaps a) →
  map_Forall (λ _ buf, length buf ≤ LOGS_BUFFER_CAP) (logs_buffer (ap_panels (apply_app msg a))) ∧
  NoDup (request_id <$> pending_approvals (ap_watch (apply_app msg a))) ∧ snaps_view_ok (ap_snaps (apply_app msg a)).
Proof.
  intros Hl Ha Hd. destruct msg; try (by split_and!); cbn [apply_app]; try (split_and!; cbn; [done|done|by destruct Hd; split]).
  - split_and!; cbn; [done..|]. apply forget_gone_ok. by destruct Hd; split.
  - case_decide; by split_and!.
  - destruct slot; split_and!; cbn; try done; by split.
  - case_decide as He; [|by split_and!]. split_and!; cbn; [done..|]. split; cbn. by intros d [= <-].
  - destruct (existsb _ _) eqn:He; [by split_and!|]. split_and!; cbn; [done| |done].
    rewrite fmap_app. apply NoDup_app. split_and!; [done| |apply NoDup_singleton].
    intros i (p & -> & Hp)%list_elem_of_fmap Hin%list_elem_of_singleton. apply not_true_iff_false in He. apply He, existsb_exists.
    exists p. split; [by apply list_elem_of_In|by apply bool_decide_eq_true].
  - split_and!; cbn; [done|by apply without_request_nodup|done].
  - split_and!; cbn; [done|by apply without_request_nodup|done].
  - split_and!; cbn; [|done..]. apply map_Forall_insert_2; [unfold LOGS_BUFFER_CAP; simpl; lia|done].
  - split_and!; cbn; [|done..]. apply map_Forall_insert_2; [apply push_log_bound|done].
  - split_and!; [|done..]. cbn. destruct (logs_target (ap_panels a)); [|done]. cbn. by apply map_Forall_delete.
Qed.

Definition client_start (path : string) : Client := {| cl_app := app_new path; cl_events := []; cl_daemon_log := [] |}.

(** C38: Whatever a client is sent, it stays bounded and consistent: its event ring, its
    daemon-log ring and every container's log buffer keep to their caps, no approval
    is queued twice, and a diff on display belongs to the two snapshots selected. *)
Theorem client_stays_ok path msgs : client_ok (foldl (λ c m, apply_message m c) (client_start path) msgs).
Proof.
  induction msgs as [|m msgs IH] using rev_ind.
  { split; cbn; try lia; [apply map_Forall_empty|constructor|by split]. }
  rewrite foldl_snoc. destruct IH as [He Hg Hl Ha Hd]. set (c := foldl _ _ _) in *. clearbody c.
  destruct (apply_app_ok m (cl_app c) Hl Ha Hd) as (Hl' & Ha' & Hd'). unfold apply_message.
  assert (∀ c1, cl_app c1 = cl_app c → length (cl_events c1) ≤ EVENTS_RING_CAP → length (cl_daemon_log c1) ≤ DAEMON_LOG_CAP →
    client_ok (on_app (apply_app m) c1)) as Hok by (intros c1 Hc ? ?; split; cbn; rewrite ?Hc; done).
  assert (∀ e, length (push_capped EVENTS_RING_CAP e (cl_events c)) ≤ EVENTS_RING_CAP) as Hpe
    by (intros e; apply push_capped_bound; [unfold EVENTS_RING_CAP; lia|done]).
  assert (∀ x, length (push_capped DAEMON_LOG_CAP x (cl_daemon_log c)) ≤ DAEMON_LOG_CAP) as Hpd
    by (intros x; apply push_capped_bound; [unfold DAEMON_LOG_CAP; lia|done]).
  destruct m; try (by apply Hok). cbv zeta. repeat case_match; apply Hok; cbn; done.
Qed.

(** A queued approval leaves the queue only when it is answered. *)
Lemma approval_waits_for_an_answer m c r :
  r ∈ pending_approvals (ap_watch (cl_app c)) → r ∉ pending_approvals (ap_watch (cl_app (apply_message m c))) →
  match m with
  | MsgApprovalResolved res => request_id r = res_request_id res
  | MsgApprovalDecision id _ _ => request_id r = id
  | _ => False
  end.
Proof.
  unfold apply_message. intros Hin Hout.
  assert (r ∉ pending_approvals (ap_watch (apply_app m (cl_app c)))) as Ha.
  { destruct m; try exact Hout. cbn in Hout. repeat case_match; exact Hout. }
  clear Hout. assert (∀ id, r ∉ pending_approvals (without_request id (ap_watch (cl_app c))) → request_id r = id) as Hw.
  { intros id Hn. destruct (decide (request_id r = id)) as [|Hne]; [done|]. exfalso. apply Hn. unfold without_request.
    assert (r ∈ filter (λ p, request_id p ≠ id) (pending_approvals (ap_watch (cl_app c)))) by (by apply list_elem_of_filter).
    by case_decide. }
  destruct m; cbn in Ha; try done; repeat (case_match; try done); try (by apply Hw). cbn in Ha. set_solver.
Qed.

(** * Examples *)

Lemma tree_shows_the_lineage_witness :
  ∃ l out, (manager_list (E := toy_env) None two_snaps).1 = Ok l ∧ build_snapshot_tree l = Some out ∧ tn_snapshot <$> out ≡ₚ l ∧
    (sm_id ∘ tn_snapshot <$> out) = [1; 2]%Z ∧ (tn_depth <$> out) = [0; 1].
Proof.
  destruct (manager_list (E := toy_env) None two_snaps) as [[l|] s'] eqn:Hl; [|by vm_compute in Hl].
  destruct (tree_shows_the_lineage (E := toy_env) None two_snaps l s' two_snaps_ok Hl) as (out & Ht & Hp & _).
  exists l, out. split; [done|]. split; [done|]. split; [done|].
  vm_compute in Hl. injection Hl as <- _. vm_compute in Ht. by injection Ht as <-.
Defined.

(** A reason typed for one request is still there when the next one is shown: only an
    empty queue clears it. *)
Definition demo_approval (id : string) : ApprovalRequest :=
  {| request_id := id; category := CapAdd; profile_name := "agent"; timeout_secs := 30; created_at := 0; payload := JNull; container_hint := None |}.
Example reason_carries_over :
  let msgs := [ApprovalReceived (demo_approval "a"); ApprovalReceived (demo_approval "b"); ApprovalReasonChanged "fine for a";
               MsgApprovalDecision "a" true (Some "fine for a")] in
  let w := ap_watch (cl_app (foldl (λ c m, apply_message m c) (client_start "") msgs)) in
  (request_id <$> pending_approvals w) = ["b"] ∧ approval_reason w = "fine for a".
Proof. by vm_compute. Qed.

(** Two snapshots that name each other are shown by no tree. *)
Example cycle_is_not_shown :
  let s i p := {| sm_id := i; sm_container_id := "c"; sm_label := None; sm_image_ref := ""; sm_parent_id := Some p; sm_created_at := 0; sm_size_bytes := None |} in
  build_snapshot_tree [s 1 2; s 2 1]%Z = Some [].
Proof. by vm_compute. Qed.
