(* ===== verification/Server.v ===== *)
(** The daemon's Unix-socket server ([linpodx-daemon/src/server.rs]) and the broadcast
    channels it subscribes its connections to ([event_bus.rs], the two channels of
    [approval.rs]).

    A broadcast channel is the list of what was ever sent on it and a receiver the
    position of what it reads next; a receiver that is more than the channel's
    capacity behind is moved forward to the oldest message still kept. *)
From S2P Require Import Prelude Text Json Common Schema Policy Plugin Database AuditKinds AuditLog Logging Embedding Rpc.

Definition EVENT_CHANNEL_CAPACITY : nat := 1024.
Definition APPROVAL_CHANNEL_CAPACITY : nat := 1024.

(** [rx.recv()]: [None] while there is nothing to read; a receiver that lagged gets no
    message and its new position. *)
Definition recv {A} (capacity : nat) (log : list A) (next : nat) : option (option A * nat) :=
  if bool_decide (length log ≤ next) then None
  else if bool_decide (capacity < length log - next) then Some (None, length log - capacity)
  else Some (log !! next, S next).

(** The requests and resolutions the approval registry announced. *)
Class HasApprovalLogs (S : Type) := {
  approval_log : S → list ApprovalRequest;
  resolved_log : S → list ApprovalResolved;
}.

(** What the server writes: a response, or a notification of one of three methods. *)
Inductive ServerMessage : Type :=
| Response (r : RpcResponse)
| NotifyEvent (e : Event)
| NotifyApproval (req : ApprovalRequest)
| NotifyResolved (res : ApprovalResolved).
Definition notification_method (m : ServerMessage) : option string :=
  match m with
  | Response _ => None
  | NotifyEvent _ => Some "event"
  | NotifyApproval _ => Some "approval_request"
  | NotifyResolved _ => Some "approval_resolved"
  end.

(** One connection: its subscriptions, what was written to it, and how many writes
    were tried. *)
Record Conn : Type := {
  cn_topics : list EventTopic;
  cn_events : option nat;
  cn_approvals : option nat;
  cn_resolved : option nat;
  cn_sent : list ServerMessage;
  cn_writes : nat;
}.
Definition new_conn : Conn := {| cn_topics := []; cn_events := None; cn_approvals := None; cn_resolved := None; cn_sent := []; cn_writes := 0 |}.
Definition conn_events (topics : list EventTopic) (next : option nat) (c : Conn) : Conn :=
  {| cn_topics := topics; cn_events := next; cn_approvals := cn_approvals c; cn_resolved := cn_resolved c; cn_sent := cn_sent c; cn_writes := cn_writes c |}.
Definition conn_approvals (a r : option nat) (c : Conn) : Conn :=
  {| cn_topics := cn_topics c; cn_events := cn_events c; cn_approvals := a; cn_resolved := r; cn_sent := cn_sent c; cn_writes := cn_writes c |}.
Definition conn_wrote (msgs : list ServerMessage) (c : Conn) : Conn :=
  {| cn_topics := cn_topics c; cn_events := cn_events c; cn_approvals := cn_approvals c; cn_resolved := cn_resolved c;
     cn_sent := cn_sent c ++ msgs; cn_writes := Datatypes.S (cn_writes c) |}.

(** What wakes a connection up. A branch of the [select!] that is not ready (no
    subscription, nothing to read) is one that changes nothing. *)
Inductive ConnInput : Type :=
| Shutdown
| Line (raw : string)
| ClientClosed
| ReadError
| EventReady
| ApprovalReady
| ResolvedReady.

Section Server.
Context {E : Env} {S : Type} {HW : HasWorld S} {H : Handlers S} {C : RpcCodec S} {AL : HasApprovalLogs S}.
Context (write_fault : nat → bool).
Abbreviation V := (M (S * Conn) Fault).

Definition event_log (s : S) : list Event := w_events (world_of s).
Definition on_daemon {A} (c : M S Fault A) : V A := λ sc, let '(r, s) := c sc.1 in (r, (s, sc.2)).

(** [write_message]: whether the message could be serialised and written. *)
Definition write_message (msg : ServerMessage) : V bool := λ sc,
  if match msg with Response r => negb (is_some (rpc_to_string r)) | _ => false end then (Ok false, sc)
  else if write_fault (cn_writes sc.2) then (Ok false, (sc.1, conn_wrote [] sc.2))
  else (Ok true, (sc.1, conn_wrote [msg] sc.2)).

Definition subscribe_approvals : V unit := λ sc,
  (Ok tt, (sc.1, conn_approvals (Some (length (approval_log sc.1))) (Some (length (resolved_log sc.1))) sc.2)).
Definition subscribe_events (topics : list EventTopic) : V unit := λ sc,
  (Ok tt, (sc.1, conn_events topics (Some (length (event_log sc.1))) sc.2)).

Definition server_handle_request (raw : string) : V bool :=
  match rpc_from_str raw with
  | Err e => write_message (Response (parse_failure e))
  | Ok req =>
      response ← match rq_method req with
                 | Subscribe topics =>
                     let topics := if decide (topics = []) then all_topics else remove_dups topics in
                     _ ← subscribe_events topics;
                     _ ← subscribe_approvals;
                     t ← on_daemon (on_world now);
                     mret (rpc_success (rq_id req)
                       (JObject [("topics", jstrs (topic_as_str <$> topics)); ("since", JString (ts_serde t))]))
                 | ApprovalsSubscribe =>
                     _ ← subscribe_approvals;
                     t ← on_daemon (on_world now);
                     mret (rpc_success (rq_id req) (JObject [("since", JString (ts_serde t))]))
                 | Other _ => on_daemon (dispatch req)
                 end;
      write_message (Response response)
  end.

(** One turn of the loop of [handle_connection]; [false] leaves it. *)
Definition conn_turn (i : ConnInput) : V bool :=
  match i with
  | Shutdown | ClientClosed | ReadError => mret false
  | Line raw => if decide (trim raw = "") then mret true else server_handle_request raw
  | EventReady => λ sc,
      match cn_events sc.2 ≫= recv EVENT_CHANNEL_CAPACITY (event_log sc.1) with
      | None => (Ok true, sc)
      | Some (msg, next) =>
          let sc := (sc.1, conn_events (cn_topics sc.2) (Some next) sc.2) in
          match msg with
          | Some e => if decide (topic e ∈ cn_topics sc.2) then write_message (NotifyEvent e) sc else (Ok true, sc)
          | None => (Ok true, sc)
          end
      end
  | ApprovalReady => λ sc,
      match cn_approvals sc.2 ≫= recv APPROVAL_CHANNEL_CAPACITY (approval_log sc.1) with
      | None => (Ok true, sc)
      | Some (msg, next) =>
          let sc := (sc.1, conn_approvals (Some next) (cn_resolved sc.2) sc.2) in
          match msg with Some req => write_message (NotifyApproval req) sc | None => (Ok true, sc) end
      end
  | ResolvedReady => λ sc,
      match cn_resolved sc.2 ≫= recv APPROVAL_CHANNEL_CAPACITY (resolved_log sc.1) with
      | None => (Ok true, sc)
      | Some (msg, next) =>
          let sc := (sc.1, conn_approvals (cn_approvals sc.2) (Some next) sc.2) in
          match msg with Some res => write_message (NotifyResolved res) sc | None => (Ok true, sc) end
      end
  end.

(** A connection among the others: between two of its turns the daemon moves on. *)
Inductive Move : Type :=
| Turn (i : ConnInput)
| Elsewhere (s : S).
(** Whether the connection is still open, and where it stands. A panic ends the task. *)
Fixpoint run_connection (moves : list Move) (sc : S * Conn) : bool * (S * Conn) :=
  match moves with
  | [] => (true, sc)
  | Elsewhere s :: moves' => run_connection moves' (s, sc.2)
  | Turn i :: moves' =>
      match conn_turn i sc with
      | (Ok true, sc') => run_connection moves' sc'
      | (Ok false, sc') | (Err _, sc') => (false, sc')
      end
  end.
End Server.

(** * Delivery *)

(** Where the logs have moved on to. *)
Definition grows {S : Type} {HW : HasWorld S} {AL : HasApprovalLogs S} (s s' : S) : Prop :=
  event_log s `prefix_of` event_log s' ∧ approval_log s `prefix_of` approval_log s' ∧ resolved_log s `prefix_of` resolved_log s'.
(** The handlers and the clock only add to the logs. *)
Class LogsGrow (S : Type) {HW : HasWorld S} {WL : HasWorldLaws S} {H : Handlers S} {AL : HasApprovalLogs S} : Prop := {
  handlers_grow m (s : S) : grows s (handle_other m s).2;
  approvals_put_world w (s : S) : approval_log (put_world w s) = approval_log s;
  resolved_put_world w (s : S) : resolved_log (put_world w s) = resolved_log s;
}.

Definition segment {A} (start next : nat) (log : list A) : list A := take (next - start) (skipn start log).

(** A subscription as its client knows it: what was asked for, how long the log was and
    how much the connection had been sent at that moment, and how many turns since then
    found something in the channel that had not been read. *)
Record Subscription : Type := {
  sb_topics : list EventTopic;
  sb_start : nat;
  sb_before : nat;
  sb_reads : nat;
}.
(** What a subscription has brought to a connection: no notice without one. With one,
    the notices sent since are messages of the log after it that pass [P], in order and
    none twice; while the connection is open and the channel has dropped nothing they are
    exactly those among the messages its turns have read. *)
Definition delivered {A} (proj : ServerMessage → option A) (P : list EventTopic → A → Prop) `{∀ ts a, Decision (P ts a)} (capacity : nat) (log : list A)
    (sub : option Subscription) (sent : list ServerMessage) (is_open : bool) : Prop :=
  match sub with
  | None => omap proj sent = []
  | Some b =>
      let since := omap proj (skipn (sb_before b) sent) in
      since `sublist_of` filter (P (sb_topics b)) (skipn (sb_start b) log) ∧
      (is_open = true → length log - sb_start b ≤ capacity →
       since = filter (P (sb_topics b)) (take (sb_reads b) (skipn (sb_start b) log)))
  end.

Lemma segment_grow {A} start next (log log' : list A) : next ≤ length log → log `prefix_of` log' → segment start next log' = segment start next log.
Proof.
  intros Hn [k ->]. unfold segment. destruct (decide (start ≤ next)) as [Hs|Hs].
  - rewrite skipn_app, take_app_le; [done|]. rewrite length_skipn. lia.
  - by replace (next - start) with 0 by lia.
Qed.
Lemma segment_extend {A} start next next' (log : list A) : start ≤ next → next ≤ next' →
  segment start next' log = segment start next log ++ segment next next' log.
Proof.
  intros Hs Hn. unfold segment. replace (next' - start) with ((next - start) + (next' - next)) by lia.
  rewrite <-take_take_drop. f_equal. f_equal. rewrite drop_drop. f_equal. lia.
Qed.
Lemma segment_one {A} next (log : list A) a : log !! next = Some a → segment next (S next) log = [a].
Proof. intros H. unfold segment. replace (S next - next) with 1 by lia. by rewrite (drop_S log a next H). Qed.

Section Delivered.
Context {A : Type} (proj : ServerMessage → option A) (P : list EventTopic → A → Prop) `{∀ ts a, Decision (P ts a)} (capacity : nat).

(** The receiver's position beside the subscription. *)
Definition receives (log : list A) (pos : option nat) (sub : option Subscription) (sent : list ServerMessage) (is_open : bool) : Prop :=
  match pos, sub with
  | None, None => omap proj sent = []
  | Some next, Some b =>
      let since := omap proj (skipn (sb_before b) sent) in
      sb_before b ≤ length sent ∧ sb_start b + sb_reads b ≤ next ≤ length log ∧
      since `sublist_of` filter (P (sb_topics b)) (segment (sb_start b) next log) ∧
      (length log - sb_start b ≤ capacity → next = sb_start b + sb_reads b ∧
         (is_open = true → since = filter (P (sb_topics b)) (segment (sb_start b) next log)))
  | _, _ => False
  end.
(** A turn of the receiver counts when there is something to read. *)
Definition count_read (log : list A) (sub : option Subscription) : option Subscription :=
  (λ b, if bool_decide (sb_start b + sb_reads b < length log)
        then {| sb_topics := sb_topics b; sb_start := sb_start b; sb_before := sb_before b; sb_reads := Datatypes.S (sb_reads b) |}
        else b) <$> sub.

Lemma receives_delivered log pos sub sent o : receives log pos sub sent o → delivered proj P capacity log sub sent o.
Proof.
  unfold receives, delivered. destruct pos as [next|], sub as [b|]; try done. intros (_ & Hn & Hs & He). split.
  - etrans; [exact Hs|]. rewrite <-(take_drop (next - sb_start b) (skipn (sb_start b) log)), filter_app. by apply sublist_inserts_r.
  - intros Ho Hc. destruct (He Hc) as [-> Heq]. rewrite Heq by done. f_equal. unfold segment. f_equal. lia.
Qed.
Lemma receives_grow log log' pos sub sent o : log `prefix_of` log' → receives log pos sub sent o → receives log' pos sub sent o.
Proof.
  intros Hp. unfold receives. destruct pos as [next|], sub as [b|]; try done. intros (Hb & Hn & Hs & He). pose proof (prefix_length _ _ Hp).
  rewrite (segment_grow _ next log log') by (done || lia). split_and!; [done|lia..|done|]. intros Hc. apply He. lia.
Qed.
Lemma receives_other log pos sub sent o m : proj m = None → receives log pos sub sent o → receives log pos sub (sent ++ [m]) o.
Proof.
  intros Hm. unfold receives. destruct pos as [next|], sub as [b|]; try done.
  - intros (Hb & Hn & Hs & He). rewrite length_app, skipn_app, omap_app.
    replace (sb_before b - length sent) with 0 by lia. cbn [skipn omap list_omap]. rewrite Hm, app_nil_r. split_and!; first [done|lia].
  - intros He. rewrite omap_app, He. cbn [omap list_omap]. by rewrite Hm.
Qed.
Lemma receives_new log topics sent o :
  receives log (Some (length log)) (Some {| sb_topics := topics; sb_start := length log; sb_before := length sent; sb_reads := 0 |}) sent o.
Proof.
  unfold receives. cbn. unfold segment. rewrite skipn_all, Nat.sub_diag. split_and!; [done|lia..|done|]. intros _. split; [lia|done].
Qed.
Lemma receives_close log pos sub sent : receives log pos sub sent true → receives log pos sub sent false.
Proof.
  unfold receives. destruct pos as [next|], sub as [b|]; try done. intros (Hb & Hn & Hs & He). split_and!; [done|lia..|done|].
  intros Hc. by destruct (He Hc).
Qed.
Lemma receives_idle log next sub sent o :
  recv capacity log next = None → receives log (Some next) sub sent o → receives log (Some next) (count_read log sub) sent o.
Proof.
  unfold recv. case_bool_decide as H1; [|by case_bool_decide]. intros _. unfold receives, count_read. destruct sub as [b|]; [|done]. cbn.
  intros (Hb & Hn & Hs & He). case_bool_decide as Hr; [|done]. cbn. split_and!; [done|lia..|done|]. intros Hc. destruct (He Hc). lia.
Qed.
Lemma receives_lag (log : list A) next next' sub sent o :
  recv capacity log next = Some (None, next') → receives log (Some next) sub sent o → receives log (Some next') (count_read log sub) sent o.
Proof.
  unfold recv. case_bool_decide as H1; [done|]. case_bool_decide as H2.
  - intros [= <-]. unfold receives, count_read. destruct sub as [b|]; [|done]. cbn. intros (Hb & Hn & Hs & He).
    rewrite bool_decide_true by lia. cbn. rewrite (segment_extend (sb_start b) next) by lia. split_and!; [done|lia..| |lia].
    etrans; [exact Hs|]. rewrite filter_app. by apply sublist_inserts_r.
  - intros [= Hl _]. apply lookup_ge_None in Hl. lia.
Qed.
Lemma recv_next (log : list A) next next' a : recv capacity log next = Some (Some a, next') → log !! next = Some a ∧ next' = S next.
Proof. unfold recv. case_bool_decide; [done|]. case_bool_decide; [done|]. by intros [= -> <-]. Qed.
Lemma receives_skip (log : list A) next next' a b sent o :
  recv capacity log next = Some (Some a, next') → ¬ P (sb_topics b) a → receives log (Some next) (Some b) sent o →
  receives log (Some next') (count_read log (Some b)) sent o.
Proof.
  intros [Ha ->]%recv_next HP (Hb & Hn & Hs & He). pose proof (lookup_lt_Some _ _ _ Ha). unfold count_read. cbn [fmap option_fmap option_map].
  rewrite bool_decide_true by lia. unfold receives. cbn [sb_topics sb_start sb_before sb_reads].
  rewrite (segment_extend (sb_start b) next), (segment_one next log a), filter_app, filter_cons_False, app_nil_r by (done || lia).
  split_and!; [done|lia..|done|]. intros Hc. destruct (He Hc). split; [lia|done].
Qed.
Lemma receives_write (log : list A) next next' a b sent o m :
  recv capacity log next = Some (Some a, next') → P (sb_topics b) a → proj m = Some a → receives log (Some next) (Some b) sent o →
  receives log (Some next') (count_read log (Some b)) (sent ++ [m]) o.
Proof.
  intros [Ha ->]%recv_next HP Hm (Hb & Hn & Hs & He). pose proof (lookup_lt_Some _ _ _ Ha). unfold count_read. cbn [fmap option_fmap option_map].
  rewrite bool_decide_true by lia. unfold receives. cbn [sb_topics sb_start sb_before sb_reads].
  rewrite (segment_extend (sb_start b) next), (segment_one next log a), filter_app, filter_cons_True, length_app, skipn_app, omap_app by (done || lia).
  replace (sb_before b - length sent) with 0 by lia. cbn [skipn omap list_omap]. rewrite Hm.
  split_and!; [lia..|by apply sublist_app|]. intros Hc. destruct (He Hc) as [? Heq]. split; [lia|]. intros Ho. by rewrite Heq.
Qed.
Lemma receives_fail (log : list A) next next' a b sent o :
  recv capacity log next = Some (Some a, next') → receives log (Some next) (Some b) sent o →
  receives log (Some next') (count_read log (Some b)) sent false.
Proof.
  intros [Ha ->]%recv_next (Hb & Hn & Hs & He). pose proof (lookup_lt_Some _ _ _ Ha). unfold count_read. cbn [fmap option_fmap option_map].
  rewrite bool_decide_true by lia. unfold receives. cbn [sb_topics sb_start sb_before sb_reads]. rewrite (segment_extend (sb_start b) next) by lia.
  split_and!; [done|lia..| |]. { etrans; [exact Hs|]. rewrite filter_app. by apply sublist_inserts_r. }
  intros Hc. destruct (He Hc). split; [lia|done].
Qed.
End Delivered.
#[local] Arguments receives : simpl never.
#[local] Arguments count_read : simpl never.

Definition proj_event (m : ServerMessage) : option Event := match m with NotifyEvent e => Some e | _ => None end.
Definition proj_approval (m : ServerMessage) : option ApprovalRequest := match m with NotifyApproval r => Some r | _ => None end.
Definition proj_resolved (m : ServerMessage) : option ApprovalResolved := match m with NotifyResolved r => Some r | _ => None end.

(** The events of the topics asked for; approvals have no topics. *)
Definition wanted (topics : list EventTopic) (e : Event) : Prop := topic e ∈ topics.
#[export] Instance wanted_dec ts e : Decision (wanted ts e).
Proof. unfold wanted. apply _. Defined.
Definition any {A} (_ : list EventTopic) (_ : A) : Prop := True.
#[export] Instance any_dec {A} ts (a : A) : Decision (any ts a) := left I.

Section ServerProofs.
Context {E : Env} {S : Type} {HW : HasWorld S} {WL : HasWorldLaws S} {H : Handlers S} {C : RpcCodec S} {AL : HasApprovalLogs S} {LG : LogsGrow S}.
Context (write_fault : nat → bool).

(** ** Subscriptions along a run *)

Record Subscriptions : Type := {
  sn_events : option Subscription;
  sn_approvals : option Subscription;
  sn_resolved : option Subscription;
}.
Definition no_subscriptions : Subscriptions := {| sn_events := None; sn_approvals := None; sn_resolved := None |}.
Definition subscribed {A} (topics : list EventTopic) (log : list A) (c : Conn) : option Subscription :=
  Some {| sb_topics := topics; sb_start := length log; sb_before := length (cn_sent c); sb_reads := 0 |}.

(** What a turn that begins in [sc] means for the subscriptions: a request to subscribe
    makes new ones, with all topics if it names none; a turn of a receiver counts. *)
Definition note_turn (i : ConnInput) (sc : S * Conn) (b : Subscriptions) : Subscriptions :=
  let '(s, c) := sc in
  match i with
  | Line raw =>
      if decide (trim raw = "") then b
      else match rpc_from_str raw with
      | Ok req =>
          match rq_method req with
          | Subscribe topics =>
              {| sn_events := subscribed (if decide (topics = []) then all_topics else topics) (event_log s) c;
                 sn_approvals := subscribed [] (approval_log s) c; sn_resolved := subscribed [] (resolved_log s) c |}
          | ApprovalsSubscribe =>
              {| sn_events := sn_events b; sn_approvals := subscribed [] (approval_log s) c; sn_resolved := subscribed [] (resolved_log s) c |}
          | Other _ => b
          end
      | Err _ => b
      end
  | EventReady => {| sn_events := count_read (event_log s) (sn_events b); sn_approvals := sn_approvals b; sn_resolved := sn_resolved b |}
  | ApprovalReady => {| sn_events := sn_events b; sn_approvals := count_read (approval_log s) (sn_approvals b); sn_resolved := sn_resolved b |}
  | ResolvedReady => {| sn_events := sn_events b; sn_approvals := sn_approvals b; sn_resolved := count_read (resolved_log s) (sn_resolved b) |}
  | Shutdown | ClientClosed | ReadError => b
  end.
Fixpoint subscriptions (moves : list Move) (sc : S * Conn) (b : Subscriptions) : Subscriptions :=
  match moves with
  | [] => b
  | Elsewhere s :: moves' => subscriptions moves' (s, sc.2) b
  | Turn i :: moves' =>
      let b' := note_turn i sc b in
      match conn_turn write_fault i sc with (Ok true, sc') => subscriptions moves' sc' b' | _ => b' end
  end.

Definition conn_inv (is_open : bool) (b : Subscriptions) (sc : S * Conn) : Prop :=
  (∀ x, sn_events b = Some x → ∀ t, t ∈ cn_topics sc.2 ↔ t ∈ sb_topics x) ∧
  receives proj_event wanted EVENT_CHANNEL_CAPACITY (event_log sc.1) (cn_events sc.2) (sn_events b) (cn_sent sc.2) is_open ∧
  receives proj_approval any APPROVAL_CHANNEL_CAPACITY (approval_log sc.1) (cn_approvals sc.2) (sn_approvals b) (cn_sent sc.2) is_open ∧
  receives proj_resolved any APPROVAL_CHANNEL_CAPACITY (resolved_log sc.1) (cn_resolved sc.2) (sn_resolved b) (cn_sent sc.2) is_open.

Lemma inv_grow o b s s' c : grows s s' → conn_inv o b (s, c) → conn_inv o b (s', c).
Proof. intros (H1 & H2 & H3) (I0 & I1 & I2 & I3). split_and!; cbn in *; [done|by eapply receives_grow..]. Qed.
Lemma inv_close b sc : conn_inv true b sc → conn_inv false b sc.
Proof. intros (I0 & I1 & I2 & I3). split_and!; [done|by apply receives_close..]. Qed.
(** Responses change no subscription. *)
Lemma inv_response b r sc : conn_inv true b sc →
  let '(res, sc') := write_message write_fault (Response r) sc in res = Ok true ∧ conn_inv true b sc' ∨ res = Ok false ∧ conn_inv false b sc'.
Proof.
  intros HI. pose proof (inv_close _ _ HI) as Hc. unfold write_message. destruct (rpc_to_string r); cbn [is_some negb]; [|by right].
  destruct (write_fault _); [right; split; [done|]; destruct Hc as (J0 & J1 & J2 & J3); split_and!; cbn; by rewrite ?app_nil_r|]. left. split; [done|].
  destruct HI as (I0 & I1 & I2 & I3). split_and!; cbn; [done|by apply receives_other..].
Qed.
Lemma now_grows (s : S) : grows s (on_world now s).2.
Proof.
  unfold on_world. destruct (now (world_of s)) as [r w] eqn:Hw. cbn [snd]. unfold grows, event_log.
  rewrite world_of_put, approvals_put_world, resolved_put_world. split_and!; [|done..]. unfold now in Hw. by injection Hw as _ <-.
Qed.
Lemma dispatch_grows req (s : S) : (∀ t, rq_method req ≠ Subscribe t) → rq_method req ≠ ApprovalsSubscribe → grows s (dispatch req s).2.
Proof.
  intros H1 H2. pose proof (dispatch_answers req s) as Hd. destruct (rq_method req) as [t| |m]; [by destruct (H1 t)|done|].
  cbn [handle_method] in Hd. pose proof (handlers_grow m s) as Hg. destruct (handle_other m s) as [[v|[e|p]] s']; by rewrite Hd.
Qed.

Definition turn_ok (b : Subscriptions) (r : Result Fault bool * (S * Conn)) : Prop :=
  match r with (Ok true, sc) => conn_inv true b sc | (_, sc) => conn_inv false b sc end.
Lemma turn_response b r sc : conn_inv true b sc → turn_ok b (write_message write_fault (Response r) sc).
Proof. intros HI. apply (inv_response b r) in HI. destruct (write_message _ _ _) as [res sc']. by destruct HI as [[-> ?]|[-> ?]]. Qed.
Lemma turn_line raw b sc : conn_inv true b sc → trim raw ≠ "" → turn_ok (note_turn (Line raw) sc b) (server_handle_request write_fault raw sc).
Proof.
  destruct sc as [s c]. intros HI Hraw. pose proof HI as (I0 & I1 & I2 & I3). unfold server_handle_request, note_turn. rewrite decide_False by done.
  destruct (rpc_from_str raw) as [req|e]; [|by apply turn_response].
  destruct (rq_method req) as [topics| |m] eqn:Hm.
  - cbv [mbind M_bind mret M_ret subscribe_events subscribe_approvals on_daemon]. cbn [fst snd]. pose proof (now_grows s) as Hg.
    set (b' := {| sn_events := _ |}). set (c' := conn_approvals _ _ _).
    assert (conn_inv true b' (s, c')) as HI'.
    { split_and!; cbn; [|apply receives_new..]. intros x [= <-] t. cbn. case_decide; [done|by rewrite elem_of_remove_dups]. }
    destruct (on_world now s) as [[t|e] s1]; cbn [snd] in Hg; [apply turn_response|apply inv_close]; by eapply inv_grow.
  - cbv [mbind M_bind mret M_ret subscribe_approvals on_daemon]. cbn [fst snd]. pose proof (now_grows s) as Hg.
    set (b' := {| sn_events := _ |}). set (c' := conn_approvals _ _ _).
    assert (conn_inv true b' (s, c')) as HI' by (split_and!; cbn; [done|done|apply receives_new..]).
    destruct (on_world now s) as [[t|e] s1]; cbn [snd] in Hg; [apply turn_response|apply inv_close]; by eapply inv_grow.
  - cbv [mbind M_bind on_daemon]. cbn [fst snd]. pose proof (dispatch_grows req s ltac:(congruence) ltac:(congruence)) as Hg.
    destruct (dispatch req s) as [[resp|e] s1]; cbn [snd] in Hg; [apply turn_response|apply inv_close]; by eapply inv_grow.
Qed.

(** A turn on one of the receivers: no subscription, nothing to read, a lag, a message
    that is not asked for, one that is written and one whose write fails. *)
Lemma events_turn b sc : conn_inv true b sc → turn_ok (note_turn EventReady sc b) (conn_turn write_fault EventReady sc).
Proof.
  destruct sc as [s c], b as [be ba br]. intros (I0 & I1 & I2 & I3). cbn in *. destruct (cn_events c) as [next|] eqn:Hn; cbn [mbind option_bind].
  - destruct be as [x|]; [|done]. assert (∀ y, count_read (event_log s) (Some x) = Some y → sb_topics y = sb_topics x) as Ht.
    { unfold count_read. cbn. intros y [= <-]. by case_bool_decide. }
    assert (∀ y, count_read (event_log s) (Some x) = Some y → ∀ t, t ∈ cn_topics c ↔ t ∈ sb_topics y) as I0'.
    { intros y Hy t. rewrite (Ht y Hy). by apply I0. }
    destruct (recv _ _ next) as [[[e|] next']|] eqn:Hr; cbn.
    + case_decide as Hd; [|split_and!; cbn; [done| |done..]; eapply receives_skip; [done| |done]; intros Hw; apply Hd, (I0 x eq_refl), Hw].
      assert (wanted (sb_topics x) e) as Hw by by apply (I0 x eq_refl).
      unfold write_message. cbn. destruct (write_fault _); split_and!; cbn; rewrite ?app_nil_r; try done;
        first [by eapply receives_fail|by apply receives_close|by eapply receives_write|by apply receives_other].
    + split_and!; cbn; [done|by eapply receives_lag|done..].
    + split_and!; cbn; [done|rewrite Hn; by apply receives_idle|done..].
  - destruct be; [done|]. split_and!; cbn; [done|by rewrite Hn|done..].
Qed.
Lemma approvals_turn b sc : conn_inv true b sc → turn_ok (note_turn ApprovalReady sc b) (conn_turn write_fault ApprovalReady sc).
Proof.
  destruct sc as [s c], b as [be ba br]. intros (I0 & I1 & I2 & I3). cbn in *. destruct (cn_approvals c) as [next|] eqn:Hn; cbn [mbind option_bind].
  - destruct ba as [x|]; [|done]. destruct (recv _ _ next) as [[[e|] next']|] eqn:Hr; cbn.
    + unfold write_message. cbn. destruct (write_fault _); split_and!; cbn; rewrite ?app_nil_r; try done;
        first [by eapply receives_fail|by apply receives_close|by eapply receives_write|by apply receives_other].
    + split_and!; cbn; [done|done|by eapply receives_lag|done].
    + split_and!; cbn; [done|done|rewrite Hn; by apply receives_idle|done].
  - destruct ba; [done|]. split_and!; cbn; [done|done|by rewrite Hn|done].
Qed.
Lemma resolved_turn b sc : conn_inv true b sc → turn_ok (note_turn ResolvedReady sc b) (conn_turn write_fault ResolvedReady sc).
Proof.
  destruct sc as [s c], b as [be ba br]. intros (I0 & I1 & I2 & I3). cbn in *. destruct (cn_resolved c) as [next|] eqn:Hn; cbn [mbind option_bind].
  - destruct br as [x|]; [|done]. destruct (recv _ _ next) as [[[e|] next']|] eqn:Hr; cbn.
    + unfold write_message. cbn. destruct (write_fault _); split_and!; cbn; rewrite ?app_nil_r; try done;
        first [by eapply receives_fail|by apply receives_close|by eapply receives_write|by apply receives_other].
    + split_and!; cbn; [done|done|done|by eapply receives_lag].
    + split_and!; cbn; [done|done|done|rewrite Hn; by apply receives_idle].
  - destruct br; [done|]. split_and!; cbn; [done|done|done|by rewrite Hn].
Qed.
Lemma turn_inv i b sc : conn_inv true b sc → turn_ok (note_turn i sc b) (conn_turn write_fault i sc).
Proof.
  intros HI. destruct i; try (destruct sc; by apply inv_close); [|by apply events_turn|by apply approvals_turn|by apply resolved_turn].
  cbn [conn_turn]. destruct (decide (trim raw = "")) as [He|]; [|by apply turn_line].
  destruct sc. cbn [note_turn]. by rewrite decide_True.
Qed.

(** Along a run, the rest of the daemon only adds to the logs. *)
Fixpoint grows_along (moves : list Move) (sc : S * Conn) : Prop :=
  match moves with
  | [] => True
  | Elsewhere s :: moves' => grows sc.1 s ∧ grows_along moves' (s, sc.2)
  | Turn i :: moves' => match conn_turn write_fault i sc with (Ok true, sc') => grows_along moves' sc' | _ => True end
  end.

(** C29: A connection of the Unix socket gets what it subscribed to, whatever it sends and
    whatever happens elsewhere in between. Without a subscription it is told of no event,
    approval request or resolution. From its last request to subscribe on, the notices it
    is sent are messages published after that request, of the topics it named (all, if
    it named none; approvals have no topics), in the order they were published and none
    twice; while it is open and not more than the channel keeps were published since,
    they are exactly those among the first [n] messages published since, [n] being the
    number of its turns on that channel that found something new. *)
Theorem subscriber_gets_its_topics moves s0 :
  grows_along moves (s0, new_conn) →
  let b := subscriptions moves (s0, new_conn) no_subscriptions in
  let '(is_open, (s, c)) := run_connection write_fault moves (s0, new_conn) in
  delivered proj_event wanted 1024 (event_log s) (sn_events b) (cn_sent c) is_open ∧
  delivered proj_approval any 1024 (approval_log s) (sn_approvals b) (cn_sent c) is_open ∧
  delivered proj_resolved any 1024 (resolved_log s) (sn_resolved b) (cn_sent c) is_open.
Proof.
  assert (conn_inv true no_subscriptions (s0, new_conn)) as HI by (by split_and!). revert HI. generalize no_subscriptions (s0, new_conn). clear s0.
  assert (∀ b o s c, conn_inv o b (s, c) →
    delivered proj_event wanted 1024 (event_log s) (sn_events b) (cn_sent c) o ∧
    delivered proj_approval any 1024 (approval_log s) (sn_approvals b) (cn_sent c) o ∧
    delivered proj_resolved any 1024 (resolved_log s) (sn_resolved b) (cn_sent c) o) as Hend.
  { intros b o s c (_ & I1 & I2 & I3). split_and!; by eapply receives_delivered. }
  induction moves as [|[i|s] moves IH]; intros b sc HI Hg; cbn [run_connection subscriptions grows_along] in *; [destruct sc; by apply Hend| |].
  - pose proof (turn_inv i b sc HI) as Ht. destruct (conn_turn write_fault i sc) as [[[]|e] [s c]]; cbn in Ht; [by apply IH|by apply Hend..].
  - destruct Hg as [Hg Hgs]. apply IH; [|done]. destruct sc as [s1 c]. by eapply inv_grow.
Qed.
End ServerProofs.

(** * Examples *)

(** A daemon with one method, which starts a container. *)
#[export] Instance world_logs : HasApprovalLogs World := {| approval_log := λ _, []; resolved_log := λ _, [] |}.
#[export] Instance start_handlers : Handlers World := {| OtherMethod := string; handle_other := λ id, publish (E := toy_env) TContainer Started id JNull ≫= λ _, mret JNull |}.
#[export] Instance start_codec : RpcCodec World := {|
  rpc_from_str := λ s, Ok {| rq_id := None; rq_method := if decide (s = "subscribe") then Subscribe [TContainer] else Other (s : OtherMethod (S := World)) |};
  rpc_to_string := λ _, Some "";
  foreign_error := λ _, "" |}.
#[export] Instance start_grow : LogsGrow World.
Proof. split; [|done..]. intros m s. split_and!; [|done..]. by eexists. Qed.

Definition demo_moves : list (Move (S := World)) := [Turn (Line "early"); Turn (Line "subscribe"); Turn (Line "c1"); Turn EventReady].
Lemma subscriber_gets_its_topics_witness :
  let b := subscriptions (E := toy_env) (λ _, false) demo_moves (empty_world, new_conn) no_subscriptions in
  let '(is_open, (s, c)) := run_connection (E := toy_env) (λ _, false) demo_moves (empty_world, new_conn) in
  is_open = true ∧ (resource_id <$> omap proj_event (cn_sent c)) = ["c1"] ∧
  sn_events b = Some {| sb_topics := [TContainer]; sb_start := 1; sb_before := 1; sb_reads := 1 |} ∧
  delivered proj_event wanted 1024 (event_log s) (sn_events b) (cn_sent c) is_open.
Proof.
  pose proof (subscriber_gets_its_topics (E := toy_env) (λ _, false) demo_moves empty_world I) as H. cbv zeta in H. intros b. fold b in H.
  assert (let '(is_open, (s, c)) := run_connection (E := toy_env) (λ _, false) demo_moves (empty_world, new_conn) in
    is_open = true ∧ (resource_id <$> omap proj_event (cn_sent c)) = ["c1"]) as Hr by (by vm_compute).
  assert (sn_events b = Some {| sb_topics := [TContainer]; sb_start := 1; sb_before := 1; sb_reads := 1 |}) as Hb by (by vm_compute).
  destruct (run_connection _ _ _) as [is_open [s c]]. destruct H as [H _], Hr. done.
Defined.
