(* ===== verification/Web.v ===== *)
(** The host-testable helpers of the web client ([linpodx-webui/src/helpers.rs]): what
    it makes of the daemon's answers, the URLs it opens, the inputs it accepts, and the
    civil calendar behind its relative times. The chart geometry (floating point), the
    byte sizes and the fuzzy score are left out. *)
From S2P Require Import Prelude Text Json Common Schema Policy Plugin Database AuditKinds AuditLog Logging Embedding Rpc PinStore KeyRegistry Parse IpNet Podman Resources Sessions SnapCrypto SnapStore Snapshots.

(** * Answers of the daemon *)

Definition parse_exec_command (line : string) : list string := split_whitespace line.

Definition eol_text : string := String newline "".
(** A stream of an exec result: nothing when it is empty, else its text with a final newline. *)
Definition exec_block (title text : string) : string :=
  if decide (text = "") then "" else eol_text +:+ "--- " +:+ title +:+ " ---" +:+ eol_text +:+ text +:+ (if ends_with text eol_text then "" else eol_text).
Definition format_exec_result {E : Env} (v : Value) : string :=
  match as_object v with
  | None => json_to_string v
  | Some o =>
      let exit := unwrap_or (-1)%Z (obj_find "exit_code" o ≫= as_i64) in
      let stdout := unwrap_or "" (obj_find "stdout" o ≫= as_str) in
      let stderr := unwrap_or "" (obj_find "stderr" o ≫= as_str) in
      "exit: " +:+ pretty exit +:+ eol_text +:+ exec_block "stdout" stdout +:+ exec_block "stderr" stderr
  end.

Definition extract_log_line (details : Value) : option string :=
  o ← as_object details;
  v ← obj_find "line" o;
  line ← as_str v;
  Some ("[" +:+ unwrap_or "stdout" (obj_find "stream" o ≫= as_str) +:+ "] " +:+ line).
Definition event_matches_container (notif : Value) (container_id : string) : bool :=
  bool_decide ((p ← get notif "params"; v ← get p "resource_id"; as_str v) = Some container_id).
Definition event_is_log_kind (notif : Value) : bool :=
  bool_decide ((p ← get notif "params"; v ← get p "kind"; as_str v) = Some "log").
Definition log_line_is_stderr (line : string) : bool := starts_with line "[stderr]".
Definition split_log_lines (blob : string) : list string := filter (λ l, l ≠ "") (lines blob).

Definition parse_pty_response (v : Value) : Result string (string * string) :=
  match as_object v with
  | None => Err "pty response: not an object"
  | Some o =>
      match obj_find "bridge_id" o ≫= as_str with
      | None => Err "pty response: missing bridge_id"
      | Some bridge_id =>
          match obj_find "endpoint" o ≫= as_str with
          | None => Err "pty response: missing endpoint"
          | Some endpoint =>
              if bool_decide (bridge_id = "") || bool_decide (endpoint = "") then Err "pty response: empty bridge_id or endpoint"
              else Ok (bridge_id, endpoint)
          end
      end
  end.

(** * URLs *)

Definition url_safe (c : ascii) : bool :=
  let b := byte_val c in
  bool_decide (48 ≤ b ≤ 57)%N || bool_decide (65 ≤ b ≤ 90)%N || bool_decide (97 ≤ b ≤ 122)%N
  || bool_decide (c ∈ [Ascii.ascii_of_N 45; Ascii.ascii_of_N 95; Ascii.ascii_of_N 46; Ascii.ascii_of_N 126]).
Definition hex_upper (d : N) : ascii := Ascii.ascii_of_N (if bool_decide (d < 10)%N then 48 + d else 55 + d).
Definition percent : ascii := Ascii.ascii_of_N 37.
Fixpoint percent_encode_token (raw : string) : string :=
  match raw with
  | EmptyString => ""
  | String c s => if url_safe c then String c (percent_encode_token s)
                  else String percent (String (hex_upper (byte_val c / 16)) (String (hex_upper (byte_val c mod 16)) (percent_encode_token s)))
  end.

Definition build_pty_url (proto host endpoint : string) (token : option string) : string :=
  match token with
  | Some t => if decide (t = "") then proto +:+ "://" +:+ host +:+ endpoint
              else proto +:+ "://" +:+ host +:+ endpoint +:+ "?token=" +:+ percent_encode_token t
  | None => proto +:+ "://" +:+ host +:+ endpoint
  end.

(** * Inputs *)

Definition parse_pty_size (raw label : string) : Result string (option N) :=
  let trimmed := trim raw in
  if decide (trimmed = "") then Ok None
  else match parse_u16 trimmed with
       | None => Err (label +:+ " must be a number")
       | Some n => if bool_decide (1 ≤ n ≤ 4096)%N then Ok (Some n) else Err (label +:+ " must be between 1 and 4096")
       end.

Definition strip_either (a b : string) (s : string) : option string := or_else (strip_suffix a s) (strip_suffix b s).
Definition expiry_parts (trimmed : string) : string * N :=
  match strip_either "s" "S" trimmed with Some rest => (rest, 1) | None =>
  match strip_either "m" "M" trimmed with Some rest => (rest, 60) | None =>
  match strip_either "h" "H" trimmed with Some rest => (rest, 3600) | None =>
  match strip_either "d" "D" trimmed with Some rest => (rest, 86400) | None => (trimmed, 1) end end end end%N.
(** [debug] is [{raw:?}]. *)
Definition parse_tofu_expiry (debug : string → string) (raw : string) : Result string (option N) :=
  let trimmed := trim raw in
  if decide (trimmed = "") then Ok None
  else if eq_ignore_ascii_case trimmed "clear" || eq_ignore_ascii_case trimmed "none" then Ok None
  else
    let '(number_part, multiplier) := expiry_parts trimmed in
    match parse_u64 (trim number_part) with
    | None => Err ("invalid expiry value: " +:+ debug raw)
    | Some n => if decide (n = 0%N) then Err "expiry must be greater than zero (type 'clear' to disable)"
                else Ok (Some (N.min (2 ^ 64 - 1) (n * multiplier)))
    end.

(** * Labels *)

Definition snapshot_kdf_badge (encrypted : bool) (algorithm kdf : option string) : string :=
  if negb encrypted then "plaintext"
  else match algorithm, kdf with
       | Some a, Some k => a +:+ " / " +:+ k
       | Some a, None => a
       | None, Some k => k
       | None, None => "encrypted"
       end.
(** [max_age as i64 - elapsed], in the arithmetic of a release build. *)
Definition remaining_secs (max_age elapsed : Z) : Z := u64_as_i64 (u64_as_i64 max_age - elapsed).
Definition tofu_countdown_label (enabled : bool) (max_age_secs enabled_at : option Z) (now_secs : Z) : string :=
  if negb enabled then "TOFU disabled"
  else match max_age_secs with
  | None => "no expiry set (TOFU stays on until manually disabled)"
  | Some max_age =>
      match enabled_at with
      | None => "expiry " +:+ pretty max_age +:+ "s — will start when TOFU is enabled"
      | Some start =>
          let elapsed := i64_saturating_sub now_secs start in
          if bool_decide (elapsed < 0)%Z then "expiry " +:+ pretty max_age +:+ "s (clock skew)"
          else
            let remaining := remaining_secs max_age elapsed in
            if bool_decide (remaining ≤ 0)%Z
            then "EXPIRED (" +:+ pretty (wrap_u64 (- remaining)) +:+ "s past max_age=" +:+ pretty max_age +:+ "s)"
            else "expires in " +:+ pretty remaining +:+ "s (max_age=" +:+ pretty max_age +:+ "s)"
      end
  end.
Definition tofu_is_expired (enabled : bool) (max_age_secs enabled_at : option Z) (now_secs : Z) : bool :=
  if negb enabled then false
  else match max_age_secs, enabled_at with
       | Some max_age, Some start =>
           let elapsed := i64_saturating_sub now_secs start in
           bool_decide (0 ≤ elapsed)%Z && bool_decide (max_age ≤ elapsed)%Z
       | _, _ => false
       end.
Definition plugin_propagation_label (state : string) (log_index : option Z) : string :=
  if decide (state = "this_node" ∨ state = "local") then "this node"
  else if decide (state = "pending") then "pending (raft)"
  else if decide (state = "cluster")
       then match log_index with Some idx => "cluster-wide (idx " +:+ pretty idx +:+ ")" | None => "cluster-wide" end
  else state.

(** The first [n] characters. *)
Fixpoint take_chars (n : nat) (s : string) : string :=
  match s with
  | EmptyString => ""
  | String c s' => if is_cont_byte c then String c (take_chars n s')
                   else match n with O => "" | S n' => String c (take_chars n' s') end
  end.
Definition short_id (id : string) : string := take_chars 12 id.
Definition container_display_name (names : list string) (id : string) : string :=
  match find (λ n, bool_decide (trim n ≠ "")) names with
  | Some n => n
  | None => if decide (id = "") then "—" else short_id id
  end.

Definition status_chip_modifier (value : string) : string :=
  let v := to_lowercase value in
  let has := λ ws : list string, existsb (contains v) ws in
  if has ["error"; "fail"; "dead"; "unhealthy"] then "chip--error"
  else if has ["run"; "healthy"; "active"; "online"] || bool_decide (v = "up") || starts_with v "up " then "chip--running"
  else if has ["paus"; "restart"; "pending"; "warn"; "creat"] then "chip--warn"
  else if has ["exit"; "stop"; "inactive"; "offline"] then "chip--stopped"
  else "chip--neutral".

Record PortLink : Type := {
  pl_display : string;
  pl_href : option string;
}.
(** [split_once("->")]; [rsplit(c).next()]. *)
Fixpoint split_arrow (s : string) : option (string * string) :=
  match s with
  | EmptyString => None
  | String c s' => match strip_prefix "->" s with
                   | Some rest => Some ("", rest)
                   | None => (λ p, (String c p.1, p.2)) <$> split_arrow s'
                   end
  end.
Definition last_part (sep : ascii) (s : string) : string := match rsplit_once sep s with Some (_, b) => b | None => s end.
Definition port_link (raw : string) : PortLink :=
  let s := trim raw in
  match split_arrow s with
  | None => {| pl_display := s; pl_href := None |}
  | Some (host_side, cont_side) =>
      let cont := trim cont_side in
      let host_port := trim (last_part colon host_side) in
      let proto := trim (last_part slash cont) in
      match parse_u32 host_port with
      | Some p => {| pl_display := "localhost:" +:+ pretty p +:+ " → " +:+ cont;
                     pl_href := if eq_ignore_ascii_case proto "tcp" then Some ("http://localhost:" +:+ pretty p) else None |}
      | None => {| pl_display := s; pl_href := None |}
      end
  end.
Definition parse_published_ports (ports : list string) : list PortLink := port_link <$> ports.

(** * Time *)

Definition two_digits (n : Z) : string := if bool_decide (n < 10)%Z then "0" +:+ pretty n else pretty n.
Definition clock_hms (epoch_secs : Z) : string :=
  if bool_decide (epoch_secs < 0)%Z then "00:00:00"
  else
    let secs_of_day := (epoch_secs mod 86400)%Z in
    two_digits (secs_of_day ÷ 3600) +:+ ":" +:+ two_digits (Z.rem secs_of_day 3600 ÷ 60) +:+ ":" +:+ two_digits (Z.rem secs_of_day 60).

(** In [i64]; the years of its caller have four digits, so nothing wraps. *)
Definition days_from_civil (y m d : Z) : Z :=
  let y := if bool_decide (m ≤ 2)%Z then (y - 1)%Z else y in
  let era := ((if bool_decide (0 ≤ y)%Z then y else y - 399) ÷ 400)%Z in
  let yoe := (y - era * 400)%Z in
  let mp := Z.rem (m + 9) 12 in
  let doy := ((153 * mp + 2) ÷ 5 + d - 1)%Z in
  let doe := (yoe * 365 + yoe ÷ 4 - yoe ÷ 100 + doy)%Z in
  (era * 146097 + doe - 719468)%Z.

(** [s.get(a..b)]. *)
Definition str_get (s : string) (a b : nat) : option string :=
  if bool_decide (b ≤ String.length s) && is_char_boundary s a && is_char_boundary s b then Some (String.substring a (b - a) s) else None.
Definition byte_is (s : string) (i : nat) (cs : list N) : bool :=
  match String.get i s with Some c => bool_decide (byte_val c ∈ cs) | None => false end.
Definition parse_rfc3339_epoch (raw : string) : option Z :=
  let s := trim raw in
  if bool_decide (String.length s < 20) then None
  else
    year ← str_get s 0 4 ≫= parse_i64;
    if negb (byte_is s 4 [45%N]) then None else
    month ← str_get s 5 7 ≫= parse_i64;
    if negb (byte_is s 7 [45%N]) then None else
    day ← str_get s 8 10 ≫= parse_i64;
    if negb (byte_is s 10 [84%N; 116%N]) then None else
    hour ← str_get s 11 13 ≫= parse_i64;
    if negb (byte_is s 13 [58%N]) then None else
    minute ← str_get s 14 16 ≫= parse_i64;
    if negb (byte_is s 16 [58%N]) then None else
    second ← str_get s 17 19 ≫= parse_i64;
    let rest := String.substring 19 (String.length s - 19) s in
    let tz_ok := bool_decide (rest = "Z") || bool_decide (rest = "+00:00") || bool_decide (rest = "-00:00") || ends_with rest "Z" in
    if negb tz_ok then None
    else if negb (bool_decide (1 ≤ month ≤ 12)%Z && bool_decide (1 ≤ day ≤ 31)%Z && bool_decide (0 ≤ hour ≤ 23)%Z
                  && bool_decide (0 ≤ minute ≤ 59)%Z && bool_decide (0 ≤ second ≤ 60)%Z) then None
    else Some (days_from_civil year month day * 86400 + hour * 3600 + minute * 60 + second)%Z.

Definition unit_ago (n : Z) (name : string) : string :=
  if decide (n = 1)%Z then "1 " +:+ name +:+ " ago" else pretty n +:+ " " +:+ name +:+ "s ago".
Definition humanize_relative (now_secs then_secs : Z) : string :=
  let delta := Z.max (now_secs - then_secs) 0 in
  if bool_decide (delta < 5)%Z then "just now"
  else if bool_decide (delta < 60)%Z then unit_ago delta "second"
  else
    let mins := (delta ÷ 60)%Z in
    if bool_decide (mins < 60)%Z then unit_ago mins "minute"
    else
      let hours := (delta ÷ 3600)%Z in
      if bool_decide (hours < 24)%Z then unit_ago hours "hour"
      else
        let days := (delta ÷ 86400)%Z in
        if bool_decide (days < 30)%Z then unit_ago days "day"
        else
          let months := (days ÷ 30)%Z in
          if bool_decide (months < 12)%Z then unit_ago months "month" else unit_ago (days ÷ 365)%Z "year".
Definition humanize_timestamp (now_secs : Z) (raw : string) : string :=
  if decide (trim raw = "") then "—"
  else match parse_rfc3339_epoch raw with Some t => humanize_relative now_secs t | None => raw end.

(** * The calendar *)

Definition is_leap (y : Z) : bool := bool_decide (y mod 4 = 0)%Z && (negb (bool_decide (y mod 100 = 0)%Z) || bool_decide (y mod 400 = 0)%Z).
Definition days_in_month (y m : Z) : Z :=
  if bool_decide (m = 2)%Z then if is_leap y then 29 else 28
  else if bool_decide (m ∈ [4; 6; 9; 11]%Z) then 30 else 31.
Definition next_day (date : Z * Z * Z) : Z * Z * Z :=
  let '(y, m, d) := date in
  if bool_decide (d < days_in_month y m)%Z then (y, m, d + 1)%Z
  else if bool_decide (m < 12)%Z then (y, m + 1, 1)%Z else (y + 1, 1, 1)%Z.
Definition valid_date (date : Z * Z * Z) : Prop :=
  let '(y, m, d) := date in (1 ≤ m ≤ 12)%Z ∧ (1 ≤ d ≤ days_in_month y m)%Z.

(** The days before the March of year [y], counted from March 1 of year 0. *)
Definition march_days (y : Z) : Z := (y / 400 * 146097 + y mod 400 * 365 + y mod 400 / 4 - y mod 400 / 100)%Z.
Lemma march_step y : march_days (y + 1) = (march_days y + 365 + (if is_leap (y + 1) then 1 else 0))%Z.
Proof.
  unfold march_days, is_leap. repeat case_bool_decide; cbn [andb orb negb]; Z.to_euclidean_division_equations; lia.
Qed.
Definition month_days (m : Z) : Z := ((153 * Z.rem (m + 9) 12 + 2) ÷ 5)%Z.
Lemma days_march y m d : (1 ≤ m ≤ 12)%Z →
  days_from_civil y m d = (march_days (if bool_decide (m ≤ 2)%Z then y - 1 else y) + month_days m + d - 1 - 719468)%Z.
Proof.
  intros Hm. unfold days_from_civil, month_days. cbv zeta. set (y' := if bool_decide (m ≤ 2)%Z then (y - 1)%Z else y). clearbody y'.
  assert ((if bool_decide (0 ≤ y')%Z then y' else y' - 399) ÷ 400 = y' / 400)%Z as ->.
  { case_bool_decide; Z.to_euclidean_division_equations; lia. }
  assert (y' - y' / 400 * 400 = y' mod 400)%Z as -> by (Z.to_euclidean_division_equations; lia).
  unfold march_days. assert (0 ≤ y' mod 400 < 400)%Z as Hr by (apply Z.mod_pos_bound; lia).
  rewrite (Z.quot_div_nonneg (y' mod 400) 4), (Z.quot_div_nonneg (y' mod 400) 100) by lia. lia.
Qed.
Lemma month_cases m : (1 ≤ m ≤ 12)%Z → m ∈ [1; 2; 3; 4; 5; 6; 7; 8; 9; 10; 11; 12]%Z.
Proof. intros Hm. rewrite !elem_of_cons, elem_of_nil. lia. Qed.
Lemma days_in_month_pos y m : (1 ≤ days_in_month y m)%Z.
Proof. unfold days_in_month. repeat case_match; lia. Qed.
(** From the last day of a month to the first of the next. *)
Lemma month_end_counts y m : (1 ≤ m ≤ 12)%Z →
  let '(y', m') := if bool_decide (m < 12)%Z then (y, m + 1)%Z else (y + 1, 1)%Z in
  days_from_civil y' m' 1 = (days_from_civil y m (days_in_month y m) + 1)%Z.
Proof.
  intros Hm. pose proof (march_step (y - 1)) as Hs. replace (y - 1 + 1)%Z with y in Hs by lia.
  assert (days_in_month y 2 = 28 + (if is_leap y then 1 else 0))%Z as H2 by (unfold days_in_month; cbn; by destruct (is_leap y)).
  apply month_cases in Hm. repeat (apply elem_of_cons in Hm as [->|Hm]); [..|by apply elem_of_nil in Hm]; cbv zeta;
    match goal with |- context [bool_decide (?a < 12)%Z] => let b := eval vm_compute in (bool_decide (a < 12)%Z) in change (bool_decide (a < 12)%Z) with b end;
    cbv iota beta; rewrite !days_march by lia; try rewrite H2.
  all: repeat match goal with
       | |- context [bool_decide ?p] => let b := eval vm_compute in (bool_decide p) in change (bool_decide p) with b
       | |- context [month_days ?k] => let v := eval vm_compute in (month_days k) in change (month_days k) with v
       | |- context [days_in_month ?z ?k] => let v := eval lazy in (days_in_month z k) in change (days_in_month z k) with v
       end; cbv iota; rewrite ?Z.add_simpl_r; lia.
Qed.
Lemma next_day_counts y m d y' m' d' : valid_date (y, m, d) → next_day (y, m, d) = (y', m', d') →
  valid_date (y', m', d') ∧ days_from_civil y' m' d' = (days_from_civil y m d + 1)%Z.
Proof.
  intros [Hm Hd]. unfold next_day. case_bool_decide as Hlt.
  { intros [= <- <- <-]. split; [split; lia|]. rewrite !days_march by lia. lia. }
  assert (d = days_in_month y m) as -> by lia. pose proof (month_end_counts y m Hm) as Hc.
  case_bool_decide as H12; intros [= <- <- <-]; (split; [|exact Hc]); (split; [lia|]); split; [lia|apply days_in_month_pos|lia|apply days_in_month_pos].
Qed.

(** C39: The calendar arithmetic agrees with counting: the date reached from 1 January
    1970 by [n] steps of the civil calendar (month lengths, leap years by 4, 100 and
    400) is a valid date, and [days_from_civil] gives [n] for it. *)
Theorem calendar_agrees n :
  let '(y, m, d) := Nat.iter n next_day (1970, 1, 1)%Z in valid_date (y, m, d) ∧ days_from_civil y m d = Z.of_nat n.
Proof.
  induction n as [|n IH]; [by vm_compute|]. rewrite Nat.iter_succ. destruct (Nat.iter n next_day (1970, 1, 1)%Z) as [[y m] d].
  destruct IH as [Hv Hn]. destruct (next_day (y, m, d)) as [[y' m'] d'] eqn:Hd. apply next_day_counts in Hd as [Hv' Hn']; [|done].
  split; [done|]. lia.
Qed.

(** * The token in the URL *)

(** Decoding of a query component: [%XX] is a byte, [+] a space. *)
Fixpoint query_decode (s : string) : string :=
  match s with
  | EmptyString => ""
  | String c s' =>
      if decide (c = Ascii.ascii_of_N 43) then String (Ascii.ascii_of_N 32) (query_decode s')
      else if decide (c = percent) then
        match s' with
        | String a (String b s'') => match hex_val a, hex_val b with
                                     | Some x, Some y => String (Ascii.ascii_of_N (16 * x + y)) (query_decode s'')
                                     | _, _ => String c (query_decode s')
                                     end
        | _ => String c (query_decode s')
        end
      else String c (query_decode s')
  end.

Lemma hex_upper_val d : (d < 16)%N → hex_val (hex_upper d) = Some d.
Proof.
  intros H. rewrite <-(N2Nat.id d). assert (N.to_nat d < 16)%nat as Hd by lia. revert Hd.
  generalize (N.to_nat d). intros k Hk. do 16 (destruct k as [|k]; [by vm_compute|]). lia.
Qed.
Lemma safe_plain c : url_safe c = true → c ≠ Ascii.ascii_of_N 43 ∧ c ≠ percent.
Proof. intros H. split; intros ->; by vm_compute in H. Qed.
Lemma hex_upper_safe d : (d < 16)%N → url_safe (hex_upper d) = true.
Proof.
  intros H. rewrite <-(N2Nat.id d). assert (N.to_nat d < 16)%nat as Hd by lia. revert Hd.
  generalize (N.to_nat d). intros k Hk. do 16 (destruct k as [|k]; [by vm_compute|]). lia.
Qed.
Lemma byte_halves c : (byte_val c / 16 < 16)%N ∧ (byte_val c mod 16 < 16)%N ∧ Ascii.ascii_of_N (16 * (byte_val c / 16) + byte_val c mod 16) = c.
Proof.
  assert (byte_val c < 256)%N as Hb by apply Ascii.N_ascii_bounded. split; [apply N.Div0.div_lt_upper_bound; lia|]. split; [apply N.mod_lt; lia|].
  rewrite <-N.div_mod' . apply Ascii.ascii_N_embedding.
Qed.

(** The token survives the URL: whatever bytes it has, the encoded form consists of
    unreserved characters and percent signs, so nothing of it ends the query, and
    decoding the query gives the token back. *)
Theorem token_survives_the_url t :
  query_decode (percent_encode_token t) = t ∧ str_all (λ c, url_safe c || bool_decide (c = percent)) (percent_encode_token t) = true.
Proof.
  induction t as [|c t [IH1 IH2]]; [done|]. cbn [percent_encode_token]. destruct (url_safe c) eqn:Hs.
  - cbn [query_decode str_all]. destruct (safe_plain c Hs). rewrite !decide_False by done. by rewrite IH1, IH2, Hs.
  - destruct (byte_halves c) as (H1 & H2 & H3). cbn [query_decode str_all]. rewrite (decide_False (P := percent = _)) by done.
    rewrite decide_True by done. rewrite !hex_upper_val by done. rewrite H3, IH1. split; [done|].
    rewrite !hex_upper_safe by done. rewrite IH2. by rewrite bool_decide_true.
Qed.

(** * The expiry the client shows and the one the daemon enforces *)

(** They agree except at the very last second, where the daemon still enrolls. *)
Lemma expiry_shown m now_secs max_age start :
  tf_enabled m = true → tf_max_age_secs m = Some max_age → tf_enabled_at m = Some start → (0 ≤ max_age)%Z →
  tofu_is_expired (tf_enabled m) (tf_max_age_secs m) (tf_enabled_at m) now_secs = true ↔
  is_expired_at m now_secs = true ∨ i64_saturating_sub now_secs start = max_age.
Proof.
  intros He Ha Hs Hm. unfold tofu_is_expired, is_expired_at. rewrite He, Ha, Hs. cbn [negb].
  set (elapsed := i64_saturating_sub now_secs start). clearbody elapsed.
  rewrite andb_true_iff, !bool_decide_eq_true. case_bool_decide; [split; [lia|intros [?|?]; [done|lia]]|]. rewrite bool_decide_eq_true. lia.
Qed.
Definition expiring (max_age : Z) : TofuMode :=
  {| tf_enabled := true; tf_max_enrollments := None; tf_current_count := 0; tf_enabled_at := Some 1000%Z; tf_max_age_secs := Some max_age |}.
Example last_second_is_shown_expired :
  tofu_is_expired true (Some 60%Z) (Some 1000%Z) 1060 = true ∧ should_enroll_at (expiring 60) 1060 = true ∧
  tofu_countdown_label true (Some 60%Z) (Some 1000%Z) 1060 = "EXPIRED (0s past max_age=60s)".
Proof. by vm_compute. Qed.
(** A window beyond the signed range, which the input field accepts, is shown as
    expired at once while the daemon enrolls. *)
Example large_window_is_shown_expired :
  parse_tofu_expiry (λ s, s) "300000000000000d" = Ok (Some 18446744073709551615%N) ∧
  tofu_countdown_label true (Some 18446744073709551615%Z) (Some 1000%Z) 1001 = "EXPIRED (2s past max_age=18446744073709551615s)" ∧
  tofu_is_expired true (Some 18446744073709551615%Z) (Some 1000%Z) 1001 = false ∧ should_enroll_at (expiring 18446744073709551615) 1001 = true.
Proof. by vm_compute. Qed.

(** * Examples *)

Example times_read_back :
  parse_rfc3339_epoch "1970-01-01T00:00:00Z" = Some 0%Z ∧ parse_rfc3339_epoch "2024-02-29T12:34:56.789Z" = Some 1709210096%Z ∧
  parse_rfc3339_epoch "2024-02-29T12:34:56+02:00" = None ∧ clock_hms 1709210096 = "12:34:56" ∧
  humanize_timestamp 1709210396 "2024-02-29T12:34:56Z" = "5 minutes ago".
Proof. by vm_compute. Qed.
(** Between 360 and 364 days the label counts no years. *)
Example zero_years_ago : humanize_relative (360 * 86400) 0 = "0 years ago".
Proof. by vm_compute. Qed.
(** The word "active" is found in "inactive" first. *)
Example inactive_is_shown_running : status_chip_modifier "inactive" = "chip--running".
Proof. by vm_compute. Qed.
Example ports_shown :
  parse_published_ports ["0.0.0.0:8080->80/tcp"; "53->53/udp"; "80/tcp"]
  = [{| pl_display := "localhost:8080 → 80/tcp"; pl_href := Some "http://localhost:8080" |}; {| pl_display := "localhost:53 → 53/udp"; pl_href := None |};
     {| pl_display := "80/tcp"; pl_href := None |}].
Proof. by vm_compute. Qed.
