(* ===== verification/Distro.v ===== *)
(** Distro instances ([linpodx-distro]): the templates ([templates], [registry.rs]), the
    images built from them ([build.rs]), the instances and their table ([instance.rs]),
    the entries of the host's application menu ([menu.rs]) and the handler the daemon
    calls ([dispatch.rs], [run_distro] of [linpodx-daemon/src/dispatch.rs]).

    A [DistroError] is raised as the common error it becomes at the boundary of the
    crate. Menu entries are files by the text of their path. Error texts end before a
    foreign error's text. *)
From S2P Require Import Prelude Text Json Common Database AuditKinds AuditLog Plugin Logging Embedding KeyRegistry Rpc Parse Podman Resources SnapCrypto.

(** * Templates *)

Definition ALL_DISTRO_KINDS : list DistroKind := [Ubuntu; Fedora; Arch; Debian; Alpine; NixOS].
Definition distro_kind_as_str (k : DistroKind) : string :=
  match k with
  | Ubuntu => "ubuntu" | Fedora => "fedora" | Arch => "arch" | Debian => "debian" | Alpine => "alpine" | NixOS => "nixos"
  end.
Definition distro_kind_parse (raw : string) : Result string DistroKind :=
  let other := to_lower (trim raw) in
  if bool_decide (other = "ubuntu") then Ok Ubuntu
  else if bool_decide (other ∈ ["fedora"; "rhel"; "centos"]) then Ok Fedora
  else if bool_decide (other ∈ ["arch"; "archlinux"]) then Ok Arch
  else if bool_decide (other = "debian") then Ok Debian
  else if bool_decide (other = "alpine") then Ok Alpine
  else if bool_decide (other ∈ ["nixos"; "nix"]) then Ok NixOS
  else Err ("unknown distro '" +:+ other +:+ "' (expected: ubuntu, fedora, arch, debian, alpine, nixos)").

Inductive InitKind : Type := InitNone | Systemd | OpenRC.
Definition init_kind_as_str (i : InitKind) : string :=
  match i with InitNone => "none" | Systemd => "systemd" | OpenRC => "openrc" end.

Record TemplateMeta : Type := {
  tm_kind : DistroKind;
  tm_display_name : string;
  tm_default_image : string;
  tm_init_kind : InitKind;
  tm_keep_alive_command : option (list string);
  tm_default_packages : list string;
  tm_default_shell : string;
  tm_recommended_passthrough : PassthroughSpec;
  tm_post_create_hooks : list string;
  tm_notes : string;
}.

Definition standard_keep_alive : option (list string) := Some ["sleep"; "infinity"].
Definition desktop_passthrough : PassthroughSpec := {|
  wayland := true; x11 := false; audio := PipeWire; gpu := true; dbus_session := false; clipboard := true;
  hidpi_inherit := true; register_app_menu := None |}.

Definition ubuntu_template : TemplateMeta := {|
  tm_kind := Ubuntu; tm_display_name := "Ubuntu 24.04 LTS"; tm_default_image := "docker.io/library/ubuntu:24.04";
  tm_init_kind := Systemd; tm_keep_alive_command := standard_keep_alive;
  tm_default_packages := ["sudo"; "vim"; "git"; "curl"; "ca-certificates"]; tm_default_shell := "bash";
  tm_recommended_passthrough := desktop_passthrough; tm_post_create_hooks := [];
  tm_notes := "Ubuntu LTS with systemd. Pair with vm_mode for a long-lived dev box." |}.
Definition fedora_template : TemplateMeta := {|
  tm_kind := Fedora; tm_display_name := "Fedora (latest)"; tm_default_image := "docker.io/library/fedora:latest";
  tm_init_kind := Systemd; tm_keep_alive_command := standard_keep_alive;
  tm_default_packages := ["sudo"; "vim-enhanced"; "git"; "curl"]; tm_default_shell := "bash";
  tm_recommended_passthrough := desktop_passthrough; tm_post_create_hooks := [];
  tm_notes := "Fedora rolling tag with systemd. dnf-based." |}.
Definition arch_template : TemplateMeta := {|
  tm_kind := Arch; tm_display_name := "Arch Linux"; tm_default_image := "docker.io/library/archlinux:latest";
  tm_init_kind := Systemd; tm_keep_alive_command := standard_keep_alive;
  tm_default_packages := ["base-devel"; "git"; "vim"]; tm_default_shell := "bash";
  tm_recommended_passthrough := desktop_passthrough; tm_post_create_hooks := [];
  tm_notes := "Arch rolling release with systemd. pacman-based." |}.
Definition debian_template : TemplateMeta := {|
  tm_kind := Debian; tm_display_name := "Debian Bookworm"; tm_default_image := "docker.io/library/debian:bookworm";
  tm_init_kind := Systemd; tm_keep_alive_command := standard_keep_alive;
  tm_default_packages := ["sudo"; "vim"; "git"; "curl"]; tm_default_shell := "bash";
  tm_recommended_passthrough := desktop_passthrough; tm_post_create_hooks := [];
  tm_notes := "Debian stable with systemd. apt-based." |}.
Definition alpine_template : TemplateMeta := {|
  tm_kind := Alpine; tm_display_name := "Alpine Linux"; tm_default_image := "docker.io/library/alpine:latest";
  tm_init_kind := OpenRC; tm_keep_alive_command := standard_keep_alive;
  tm_default_packages := ["bash"; "git"; "vim"; "curl"]; tm_default_shell := "ash";
  tm_recommended_passthrough := desktop_passthrough; tm_post_create_hooks := [];
  tm_notes := "Alpine with OpenRC; tiny rootfs, ash by default." |}.
Definition nixos_template : TemplateMeta := {|
  tm_kind := NixOS; tm_display_name := "NixOS (nix base)"; tm_default_image := "docker.io/nixos/nix:latest";
  tm_init_kind := InitNone; tm_keep_alive_command := standard_keep_alive;
  tm_default_packages := []; tm_default_shell := "bash";
  tm_recommended_passthrough := desktop_passthrough; tm_post_create_hooks := [];
  tm_notes := "Nix base image; install packages via `nix-env -iA`." |}.

Definition registry_inspect (k : DistroKind) : TemplateMeta :=
  match k with
  | Ubuntu => ubuntu_template | Fedora => fedora_template | Arch => arch_template
  | Debian => debian_template | Alpine => alpine_template | NixOS => nixos_template
  end.
Definition registry_list : list TemplateMeta := registry_inspect <$> ALL_DISTRO_KINDS.

(** * build.rs *)

Record BuildSpec : Type := {
  bs_kind : DistroKind;
  bs_base_tag : option string;
  bs_include : list string;
}.

Definition replace_image_tag (image_ new_tag : string) : string :=
  match rsplit_once colon image_ with
  | Some (repo, _) => repo +:+ ":" +:+ new_tag
  | None => image_ +:+ ":" +:+ new_tag
  end.
Definition resolved_base_image (b : BuildSpec) (t : TemplateMeta) : string :=
  match bs_base_tag b with Some tag => replace_image_tag (tm_default_image t) tag | None => tm_default_image t end.
Definition effective_base_tag (b : BuildSpec) (t : TemplateMeta) : string :=
  match bs_base_tag b with
  | Some tag => tag
  | None => match rsplit_once colon (tm_default_image t) with Some (_, tag) => tag | None => "latest" end
  end.
Definition add_package (out : list string) (p : string) : list string :=
  if existsb (λ x, bool_decide (x = p)) out then out else out ++ [p].
Definition merged_packages (b : BuildSpec) (t : TemplateMeta) : list string :=
  foldl add_package (tm_default_packages t) (bs_include b).

(** Nothing to install leaves no line. *)
Definition unless_empty (pkgs : list string) (line : string) : string := match pkgs with [] => "" | _ => line end.
Definition apt_install_line (pkgs : list string) : string :=
  unless_empty pkgs ("RUN apt-get update && apt-get install -y --no-install-recommends " +:+ str_concat " " pkgs
                     +:+ " && rm -rf /var/lib/apt/lists/*").
Definition dnf_install_line (pkgs : list string) : string :=
  unless_empty pkgs ("RUN dnf install -y " +:+ str_concat " " pkgs +:+ " && dnf clean all").
Definition pacman_install_line (pkgs : list string) : string :=
  unless_empty pkgs ("RUN pacman -Syu --noconfirm " +:+ str_concat " " pkgs).
Definition apk_install_line (pkgs : list string) : string :=
  unless_empty pkgs ("RUN apk add --no-cache " +:+ str_concat " " pkgs).
Definition nix_install_line (pkgs : list string) : string :=
  unless_empty pkgs ("RUN nix-env -iA " +:+ str_concat " " ((λ p, "nixpkgs." +:+ p) <$> pkgs)).
Definition install_line (k : DistroKind) (pkgs : list string) : string :=
  match k with
  | Ubuntu | Debian => apt_install_line pkgs
  | Fedora => dnf_install_line pkgs
  | Arch => pacman_install_line pkgs
  | Alpine => apk_install_line pkgs
  | NixOS => nix_install_line pkgs
  end.
Definition lf : string := String newline "".
Definition dockerfile (b : BuildSpec) : string :=
  let t := registry_inspect (bs_kind b) in
  let line := install_line (bs_kind b) (merged_packages b t) in
  "FROM " +:+ resolved_base_image b t +:+ lf
  +:+ "LABEL io.linpodx.distro=" +:+ dquote +:+ distro_kind_as_str (bs_kind b) +:+ dquote
  +:+ " io.linpodx.template=" +:+ dquote +:+ "linpodx-distro" +:+ dquote +:+ lf
  +:+ (if bool_decide (line = "") then "" else line +:+ lf).

(** [Vec::dedup]: a run of equal elements becomes one. *)
Fixpoint dedup_runs (l : list string) : list string :=
  match l with
  | x :: ((y :: _) as l') => if bool_decide (x = y) then dedup_runs l' else x :: dedup_runs l'
  | _ => l
  end.

Section Tag.
Context {E : Env}.
(** [Debug] of a string; its escapes are Unicode's tables. *)
Context (debug_str : string → string).

Definition debug_opt (o : option string) : string :=
  match o with Some x => "Some(" +:+ debug_str x +:+ ")" | None => "None" end.
Definition debug_list (l : list string) : string := "[" +:+ str_concat ", " (debug_str <$> l) +:+ "]".
Definition tag_hash (b : BuildSpec) : string :=
  let sorted := dedup_runs (merge_sort String.le (merged_packages b (registry_inspect (bs_kind b)))) in
  str_take 8 (hex_encode (sha256 (distro_kind_as_str (bs_kind b) +:+ "|" +:+ debug_opt (bs_base_tag b) +:+ "|" +:+ debug_list sorted))).
Definition build_image_tag (b : BuildSpec) : string :=
  "linpodx-distro/" +:+ distro_kind_as_str (bs_kind b) +:+ ":" +:+ effective_base_tag b (registry_inspect (bs_kind b))
  +:+ "-custom-" +:+ tag_hash b.
End Tag.

(** * menu.rs *)

(** [char::is_whitespace] of some character. *)
Fixpoint has_whitespace (s : string) : bool :=
  match s with
  | EmptyString => false
  | String _ s' => negb (bool_decide (ws_len s = 0)) || has_whitespace s'
  end.
Definition quote_char : ascii := Ascii.ascii_of_N 34.
Definition tick_char : ascii := Ascii.ascii_of_N 39.
Definition backslash : ascii := Ascii.ascii_of_N 92.
Fixpoint replace_char (x : ascii) (by_ : string) (s : string) : string :=
  match s with
  | EmptyString => ""
  | String c s' => (if bool_decide (c = x) then by_ else String c "") +:+ replace_char x by_ s'
  end.
Definition shell_quote (p : string) : string :=
  if has_whitespace p || has_char quote_char p || has_char tick_char p || has_char backslash p
  then dquote +:+ replace_char quote_char (String backslash dquote)
                    (replace_char backslash (String backslash (String backslash "")) p) +:+ dquote
  else p.
Definition shell_quote_cmd (parts : list string) : string := str_concat " " (shell_quote <$> parts).
Definition render_desktop_entry (name : string) (exec_cmd : list string) (icon : option string) : string :=
  "[Desktop Entry]" +:+ lf +:+ "Type=Application" +:+ lf +:+ "Name=linpodx: " +:+ name +:+ lf
  +:+ "Comment=linpodx distro instance '" +:+ name +:+ "'" +:+ lf
  +:+ "Exec=" +:+ shell_quote_cmd exec_cmd +:+ lf
  +:+ match icon with Some p => "Icon=" +:+ p +:+ lf | None => "" end
  +:+ "Terminal=true" +:+ lf +:+ "Categories=System;Utility;" +:+ lf +:+ "X-Linpodx-Instance=" +:+ name +:+ lf.
Definition entry_path (dir name : string) : string := join dir ("linpodx-" +:+ name +:+ ".desktop").

(** * instance.rs: data *)

(** A row of [distro_instances] (migration 0007). *)
Record DistroRow : Type := {
  di_id : Z;
  di_name : string;
  di_kind : string;
  di_container : string;
  di_image : string;
  di_vm_mode : bool;
  di_home_volume : option string;
  di_auto_restart : bool;
  di_created_at : string;
  di_removed_at : option string;
}.
Record DistroInstanceSummary : Type := {
  is_id : Z;
  is_name : string;
  is_kind : DistroKind;
  is_container : string;
  is_image : string;
  is_vm_mode : bool;
  is_home_volume : option string;
  is_auto_restart : bool;
  is_created_at : Z;
}.
Record DistroCreateParams : Type := {
  dp_kind : DistroKind;
  dp_name : string;
  dp_vm_mode : bool;
  dp_passthrough : option PassthroughSpec;
  dp_custom_image : option string;
  dp_sandbox_profile : option string;
}.

(** The table with its [AUTOINCREMENT] counter, the menu entries, and how far the run
    has got in the outcomes of file operations. *)
Record DistroState : Type := {
  ds_rows : list DistroRow;
  ds_seq : Z;
  ds_menu : gmap string string;
  ds_io : nat;
}.
Class HasDistro (S : Type) := {
  distro_of : S → DistroState;
  put_distro : DistroState → S → S;
}.
Class HasDistroLaws (S P : Type) {W : HasWorld S} {HP : HasPodman S P} {T : HasDistro S} : Prop := {
  distro_of_put t (s : S) : distro_of (put_distro t s) = t;
  distro_of_put_world w (s : S) : distro_of (put_world w s) = distro_of s;
  distro_of_put_podman p (s : S) : distro_of (put_podman p s) = distro_of s;
}.
Definition set_distro_rows (rows : list DistroRow) (seq : Z) (t : DistroState) : DistroState :=
  {| ds_rows := rows; ds_seq := seq; ds_menu := ds_menu t; ds_io := ds_io t |}.
Definition set_menu (m : gmap string string) (t : DistroState) : DistroState :=
  {| ds_rows := ds_rows t; ds_seq := ds_seq t; ds_menu := m; ds_io := ds_io t |}.
Definition bump_file_io (t : DistroState) : DistroState :=
  {| ds_rows := ds_rows t; ds_seq := ds_seq t; ds_menu := ds_menu t; ds_io := Datatypes.S (ds_io t) |}.

Inductive DistroError : Type :=
| DNotImplemented (m : string)
| DIo
| DRuntime (m : string)
| NameTaken (name : string)
| DNotFound (name : string)
| DDb
| DSerde.
(** [From<DistroError> for Error]. *)
Definition distro_error_into (e : DistroError) : Error :=
  match e with
  | DNotFound s => NotFound s
  | NameTaken s => InvalidArgument ("distro instance name '" +:+ s +:+ "' already in use")
  | DIo => Io
  | DDb => Sqlx
  | DSerde => Json
  | DRuntime m => Runtime m
  | DNotImplemented m => Runtime ("not implemented: " +:+ m)
  end.

Definition HOME_PATH_IN_CONTAINER : string := "/home/linpodx".
Definition instance_name_char (c : ascii) : bool :=
  is_alnum c || bool_decide (c = Ascii.ascii_of_N 45) || bool_decide (c = Ascii.ascii_of_N 95).
Definition validate_instance_name (name : string) : Result DistroError unit :=
  if bool_decide (name = "") || negb (bool_decide (String.length name ≤ 64))
  then Err (DRuntime ("invalid instance name '" +:+ name +:+ "': must be 1..=64 chars"))
  else if negb (str_all instance_name_char name)
  then Err (DRuntime ("invalid instance name '" +:+ name +:+ "': only [A-Za-z0-9_-] allowed"))
  else Ok tt.

Definition merge_passthrough (base : PassthroughSpec) (overlay : option PassthroughSpec) : PassthroughSpec :=
  match overlay with
  | None => base
  | Some o =>
      {| wayland := wayland base || wayland o;
         x11 := x11 base || x11 o;
         audio := match audio o with AudioNone => audio base | a => a end;
         gpu := gpu base || gpu o;
         dbus_session := dbus_session base || dbus_session o;
         clipboard := clipboard base || clipboard o;
         hidpi_inherit := hidpi_inherit base || hidpi_inherit o;
         register_app_menu := or_else (register_app_menu o) (register_app_menu base) |}
  end.
Definition build_create_options (t : TemplateMeta) (p : DistroCreateParams) (image_ref : string) (home_volume : option string) : CreateOptions :=
  {| image := image_ref;
     co_name := Some ("linpodx-distro-" +:+ dp_name p);
     command := unwrap_or [] (tm_keep_alive_command t);
     env := [];
     labels := [("io.linpodx.distro", distro_kind_as_str (tm_kind t)); ("io.linpodx.distro.instance", dp_name p)];
     rm := false;
     detach := true;
     port_mappings := [];
     volumes := match home_volume with
                | Some vol => [{| source := vol; destination := HOME_PATH_IN_CONTAINER; vm_read_only := false |}]
                | None => []
                end;
     networks := [];
     cap_drop := [];
     cap_add := [];
     read_only := false;
     cpus := None;
     memory_mb := None;
     sandbox_profile := dp_sandbox_profile p;
     co_passthrough := Some (merge_passthrough (tm_recommended_passthrough t) (dp_passthrough p));
     co_systemd := match tm_init_kind t with Systemd => true | _ => false end;
     auto_restart := dp_vm_mode p;
     keep_user_id := dp_vm_mode p;
     rootfs := None;
     security_opts := [] |}.
Definition home_volume_name (name : string) : string := "linpodx-distro-" +:+ name +:+ "-home".

Definition kind_parsed (r : DistroRow) : Result DistroError DistroKind :=
  match distro_kind_parse (di_kind r) with Ok k => Ok k | Err m => Err (DRuntime m) end.

Inductive DistroAction : Type :=
| TemplateList
| TemplateInspect (kind : DistroKind)
| DistroCreate (p : DistroCreateParams)
| DistroBuild (spec : BuildSpec)
| DistroEnter (name : string)
| DistroRemove (name : string) (keep_volume : bool).
(** The values the handler serialises. *)
Inductive DistroReply : Type :=
| RepTemplates (l : list (DistroKind * string * string * string * list string))
| RepTemplate (kind : DistroKind) (display_name default_image init_kind : string) (packages : list string)
              (passthrough_ : PassthroughSpec) (shell notes : string)
| RepCreated (i : DistroInstanceSummary)
| RepBuilt (image_ref : string) (duration_ms : Z)
| RepEntered (container : string) (suggested : list string)
| RepRemoved (name : string) (kept_volume : bool).

(** * Operations *)

Section Distro.
Context {E : Env} {K : AuditSink} {S : Type} {W : HasWorld S} {P : Type} {C : PodmanCli P} {HP : HasPodman S P}.
Context {H : HostEnv} {T : HasDistro S}.
Context (cfg : PodmanConfig) (foreign_error : Error → string) (debug_str : string → string) (file_io : nat → IoOutcome).

Definition distro : M S Fault DistroState := gets distro_of.
Definition put_ds (f : DistroState → DistroState) : M S Fault unit := modify (λ s, put_distro (f (distro_of s)) s).
Definition dfail {A} (e : DistroError) : M S Fault A := throw (Fail (distro_error_into e)).
Definition lift_d {A} (r : Result DistroError A) : M S Fault A := match r with Ok a => mret a | Err e => dfail e end.
(** [.map_err(|e| DistroError::Runtime(e.to_string()))]. *)
Definition as_runtime {A} (c : M S Fault A) : M S Fault A := λ s,
  match c s with
  | (Err (Fail e), s') => (Err (Fail (distro_error_into (DRuntime (error_to_string foreign_error e)))), s')
  | r => r
  end.

(** ** The menu *)

Definition file_step : M S Fault IoOutcome :=
  t ← distro;
  _ ← put_ds bump_file_io;
  mret (file_io (ds_io t)).
Definition applications_dir : Result DistroError string :=
  let from_home := match host_var "HOME" with
                   | Some home => Ok (join home ".local/share/applications")
                   | None => Err (DRuntime "HOME env var not set; cannot locate ~/.local/share/applications")
                   end in
  match host_var "XDG_DATA_HOME" with
  | Some xdg => if decide (xdg = "") then from_home else Ok (join xdg "applications")
  | None => from_home
  end.
Definition write_desktop_entry (name : string) (exec_cmd : list string) (icon : option string) : M S Fault string :=
  if decide (name = "") then dfail (DRuntime "instance name must not be empty")
  else
    dir ← lift_d applications_dir;
    o ← file_step; (* create_dir_all *)
    match o with
    | IoOk =>
        let path := entry_path dir name in
        let body := render_desktop_entry name exec_cmd icon in
        w ← file_step;
        match w with
        | IoOk => _ ← put_ds (λ t, set_menu (<[path := body]> (ds_menu t)) t); mret path
        | IoCut n => _ ← put_ds (λ t, set_menu (<[path := str_take n body]> (ds_menu t)) t); dfail DIo
        | IoErr => dfail DIo
        end
    | _ => dfail DIo
    end.
Definition remove_desktop_entry (name : string) : M S Fault bool :=
  dir ← lift_d applications_dir;
  let path := entry_path dir name in
  o ← file_step;
  match o with
  | IoOk =>
      t ← distro;
      match ds_menu t !! path with
      | Some _ => _ ← put_ds (λ t, set_menu (delete path (ds_menu t)) t); mret true
      | None => mret false
      end
  | _ => dfail DIo
  end.

(** ** Instances *)

Definition create_volume_if_missing (name : string) : M S Fault unit :=
  r ← attempt_in (volume_create cfg (Some name) None [] []);
  match r with
  | Ok _ => mret tt
  | Err (Runtime message) =>
      if contains (to_lowercase message) "already exists" then mret tt
      else dfail (DRuntime (error_to_string foreign_error (Runtime message)))
  | Err e => dfail (DRuntime (error_to_string foreign_error e))
  end.
Definition best_effort_remove_volume (name : string) : M S Fault unit :=
  r ← attempt_in (volume_remove cfg name true);
  match r with
  | Ok _ => mret tt
  | Err (NotFound _) => mret tt
  | Err e => dfail (DRuntime (error_to_string foreign_error e))
  end.

Definition row_is_active (name : string) (r : DistroRow) : bool :=
  bool_decide (di_name r = name) && negb (is_some (di_removed_at r)).
Definition lookup_active_row (name : string) : M S Fault (option DistroRow) :=
  _ ← on_world stmt;
  t ← distro;
  mret (find (row_is_active name) (ds_rows t)).

Definition provision_home (p : DistroCreateParams) : M S Fault (option string) :=
  if dp_vm_mode p then
    let vol_name := home_volume_name (dp_name p) in
    _ ← create_volume_if_missing vol_name; mret (Some vol_name)
  else mret None.
(** The container is removed again when it does not start. *)
Definition start_or_roll_back (container_id : string) (home_volume : option string) : M S Fault unit :=
  started ← attempt_in (podman_start cfg container_id);
  match started with
  | Ok _ => mret tt
  | Err e =>
      _ ← attempt_in (podman_remove cfg container_id true);
      _ ← match home_volume with
          | Some name => _ ← attempt_in (best_effort_remove_volume name); mret tt
          | None => mret tt
          end;
      dfail (DRuntime (error_to_string foreign_error e))
  end.
(** [name] is [UNIQUE], over removed rows too. *)
Definition insert_distro_row (mk : Z → DistroRow) : M S Fault Z :=
  _ ← on_world stmt;
  t ← distro;
  let id := (ds_seq t + 1)%Z in
  if bool_decide (ds_seq t = i64_max) || bool_decide (di_name (mk id) ∈ di_name <$> ds_rows t) then dfail DDb
  else _ ← put_ds (set_distro_rows (ds_rows t ++ [mk id]) id); mret id.
Definition instance_to_value (i : DistroInstanceSummary) : Value :=
  JObject [("id", jint (is_id i)); ("name", JString (is_name i)); ("kind", JString (distro_kind_as_str (is_kind i)));
           ("container_id", JString (is_container i)); ("image_ref", JString (is_image i)); ("vm_mode", JBool (is_vm_mode i));
           ("home_volume", jopt JString (is_home_volume i)); ("auto_restart", JBool (is_auto_restart i));
           ("created_at", JString (ts_serde (is_created_at i)))].

Definition distro_create (p : DistroCreateParams) : M S Fault DistroInstanceSummary :=
  _ ← lift_d (validate_instance_name (dp_name p));
  existing ← lookup_active_row (dp_name p);
  match existing with
  | Some row => dfail (NameTaken (di_name row))
  | None =>
      let template := registry_inspect (dp_kind p) in
      let image_ref := unwrap_or (tm_default_image template) (dp_custom_image p) in
      home_volume ← provision_home p;
      container_id ← as_runtime (podman_create cfg (build_create_options template p image_ref home_volume));
      _ ← start_or_roll_back container_id home_volume;
      t ← on_world now;
      id ← insert_distro_row (λ id,
        {| di_id := id; di_name := dp_name p; di_kind := distro_kind_as_str (dp_kind p); di_container := container_id;
           di_image := image_ref; di_vm_mode := dp_vm_mode p; di_home_volume := home_volume;
           di_auto_restart := dp_vm_mode p; di_created_at := ts_format t; di_removed_at := None |});
      let summary :=
        {| is_id := id; is_name := dp_name p; is_kind := dp_kind p; is_container := container_id; is_image := image_ref;
           is_vm_mode := dp_vm_mode p; is_home_volume := home_volume; is_auto_restart := dp_vm_mode p; is_created_at := t |} in
      _ ← on_world (record SinkDistroCreated (dp_sandbox_profile p) (Some container_id) (instance_to_value summary));
      _ ← on_world (publish TDistro Created (dp_name p) (instance_to_value summary));
      mret summary
  end.

Definition distro_enter (name : string) : M S Fault (string * list string) :=
  found ← lookup_active_row name;
  match found with
  | None => dfail (DNotFound name)
  | Some row =>
      kind ← lift_d (kind_parsed row);
      let shell := tm_default_shell (registry_inspect kind) in
      let suggested := ["podman"; "exec"; "-it"; di_container row; shell] in
      _ ← on_world (record SinkDistroEntered None (Some (di_container row))
            (JObject [("name", JString (di_name row)); ("shell", JString shell)]));
      _ ← on_world (publish TDistro Started (di_name row) (JObject [("container_id", JString (di_container row))]));
      mret (di_container row, suggested)
  end.

Definition retire_row (id : Z) (at_ : string) (r : DistroRow) : DistroRow :=
  if decide (di_id r = id) then
    {| di_id := di_id r; di_name := di_name r; di_kind := di_kind r; di_container := di_container r; di_image := di_image r;
       di_vm_mode := di_vm_mode r; di_home_volume := di_home_volume r; di_auto_restart := di_auto_restart r;
       di_created_at := di_created_at r; di_removed_at := Some at_ |}
  else r.
Definition drop_home (row : DistroRow) (keep_volume : bool) : M S Fault bool :=
  match di_home_volume row with
  | Some vol => if keep_volume then mret true else _ ← attempt_in (best_effort_remove_volume vol); mret false
  | None => mret false
  end.
Definition distro_remove (name : string) (keep_volume : bool) : M S Fault (string * bool) :=
  found ← lookup_active_row name;
  match found with
  | None => dfail (DNotFound name)
  | Some row =>
      _ ← attempt_in (podman_stop cfg (di_container row) (Some 5%Z));
      _ ← attempt_in (podman_remove cfg (di_container row) true);
      kept_volume ← drop_home row keep_volume;
      t ← on_world now;
      _ ← on_world stmt;
      _ ← put_ds (λ d, set_distro_rows (retire_row (di_id row) (ts_format t) <$> ds_rows d) (ds_seq d) d);
      _ ← attempt_in (remove_desktop_entry name);
      _ ← on_world (record SinkDistroRemoved None (Some (di_container row))
            (JObject [("name", JString (di_name row)); ("kept_volume", JBool kept_volume)]));
      _ ← on_world (publish TDistro Removed (di_name row) (JObject [("kept_volume", JBool kept_volume)]));
      mret (di_name row, kept_volume)
  end.

Definition distro_into_summary (r : DistroRow) : Result DistroError DistroInstanceSummary :=
  match ts_parse (di_created_at r) with
  | inr e => Err (DRuntime ("invalid distro created_at '" +:+ di_created_at r +:+ "': " +:+ e))
  | inl t =>
      match kind_parsed r with
      | Err e => Err e
      | Ok kind => Ok {| is_id := di_id r; is_name := di_name r; is_kind := kind; is_container := di_container r;
                         is_image := di_image r; is_vm_mode := di_vm_mode r; is_home_volume := di_home_volume r;
                         is_auto_restart := di_auto_restart r; is_created_at := t |}
      end
  end.
(** Newest first; rows are in the order of their ids. *)
Definition distro_list : M S Fault (list DistroInstanceSummary) :=
  _ ← on_world stmt;
  t ← distro;
  lift_d (collect (distro_into_summary <$> reverse (filter (λ r, di_removed_at r = None) (ds_rows t)))).

(** ** Builds *)

(** [podman build] in a fresh directory [ctx], whose Dockerfile is what the call reads;
    [elapsed_ms] is how long it took. *)
Definition build (b : BuildSpec) (podman_root podman_runroot : option string) (ctx : string) (elapsed_ms : Z) : M S Fault (string * Z) :=
  let tag := build_image_tag debug_str b in
  d ← file_step; (* tempdir *)
  w ← (match d with IoOk => file_step | _ => dfail DIo end);
  match w with
  | IoOk =>
      o ← run_command (opt_arg "--root" podman_root ++ opt_arg "--runroot" podman_runroot
                       ++ ["build"; "-f"; join ctx "Dockerfile"; "-t"; tag; ctx]) (Some (dockerfile b));
      match o with
      | SpawnFailed _ => dfail DIo
      | Exited code _ err _ =>
          if negb (success code) then dfail (DRuntime ("podman build failed: " +:+ trim (from_utf8_lossy err)))
          else mret (tag, elapsed_ms)
      end
  | _ => dfail DIo
  end.

(** ** dispatch.rs *)

Definition template_summary (t : TemplateMeta) : DistroKind * string * string * string * list string :=
  (tm_kind t, tm_display_name t, tm_default_image t, init_kind_as_str (tm_init_kind t), tm_default_packages t).
Definition register_in_menu (p : DistroCreateParams) (i : DistroInstanceSummary) : M S Fault unit :=
  match dp_passthrough p ≫= register_app_menu with
  | None => mret tt
  | Some label =>
      let exec_cmd := ["podman"; "exec"; "-it"; is_container i; tm_default_shell (registry_inspect (is_kind i))] in
      _ ← attempt_in (write_desktop_entry label exec_cmd None);
      on_world (record SinkPassthroughGranted None (Some (is_container i)) (JObject [("register_app_menu", JString label)]))
  end.
Definition distro_handle (action : DistroAction) (ctx : string) (elapsed_ms : Z) : M S Fault DistroReply :=
  match action with
  | TemplateList => mret (RepTemplates (template_summary <$> registry_list))
  | TemplateInspect kind =>
      let t := registry_inspect kind in
      mret (RepTemplate (tm_kind t) (tm_display_name t) (tm_default_image t) (init_kind_as_str (tm_init_kind t))
              (tm_default_packages t) (tm_recommended_passthrough t) (tm_default_shell t) (tm_notes t))
  | DistroCreate p =>
      resp ← distro_create p;
      _ ← register_in_menu p resp;
      mret (RepCreated resp)
  | DistroBuild spec =>
      '(image_ref, duration_ms) ← build spec None None ctx elapsed_ms;
      _ ← on_world (record SinkDistroBuilt None None
            (JObject [("kind", JString (distro_kind_as_str (bs_kind spec))); ("image_ref", JString image_ref);
                      ("duration_ms", jint duration_ms)]));
      mret (RepBuilt image_ref duration_ms)
  | DistroEnter name => '(container, suggested) ← distro_enter name; mret (RepEntered container suggested)
  | DistroRemove name keep_volume => '(n, kept) ← distro_remove name keep_volume; mret (RepRemoved n kept)
  end.
End Distro.

(** [run_distro]: every request gets a sink without plugins. *)
Definition run_distro {E : Env} {W : Wasm} {S : Type} {HW : HasWorld S} {P : Type} {C : PodmanCli P} {HP : HasPodman S P}
    {H : HostEnv} {T : HasDistro S} (cfg : PodmanConfig) (foreign_error : Error → string) (debug_str : string → string)
    (file_io : nat → IoOutcome) (action : DistroAction) (ctx : string) (elapsed_ms : Z) : M S Fault DistroReply :=
  distro_handle (K := SandboxAuditSink false) cfg foreign_error debug_str file_io action ctx elapsed_ms.

(** * Tags *)

Lemma add_package_spec out p : NoDup out → NoDup (add_package out p) ∧ (∀ x, x ∈ add_package out p ↔ x ∈ out ∨ x = p).
Proof.
  intros Hnd. unfold add_package.
  destruct (existsb (λ x, bool_decide (x = p)) out) eqn:He.
  - apply existsb_exists in He as (x & Hx & ->%bool_decide_eq_true). split; [done|].
    intros y. apply list_elem_of_In in Hx. naive_solver.
  - assert (p ∉ out) as Hp.
    { intros Hin. apply (not_true_iff_false _) in He. apply He, existsb_exists. exists p.
      rewrite <-list_elem_of_In. by rewrite bool_decide_true. }
    split; [|intros x; rewrite elem_of_app, list_elem_of_singleton; done].
    apply NoDup_app. split_and!; [done| |apply NoDup_singleton]. by intros x Hx ->%list_elem_of_singleton.
Qed.
Lemma merged_spec out l : NoDup out → NoDup (foldl add_package out l) ∧ (∀ x, x ∈ foldl add_package out l ↔ x ∈ out ∨ x ∈ l).
Proof.
  revert out. induction l as [|p l IH]; intros out Hnd; cbn [foldl]; [split; [done|set_solver]|].
  destruct (add_package_spec out p Hnd) as [Hnd' He]. destruct (IH _ Hnd') as [Hnd'' He']. split; [done|].
  intros x. rewrite He', He. set_solver.
Qed.
Lemma default_packages_nodup k : NoDup (tm_default_packages (registry_inspect k)).
Proof. apply (bool_decide_unpack (NoDup _)). by destruct k. Qed.

(** The tag of a build is the same for the same set of extra packages, whatever their
    order and however often one is named, also when a template has it already. *)
Theorem image_tag_by_set {E : Env} debug_str b b' :
  bs_kind b = bs_kind b' → bs_base_tag b = bs_base_tag b' → (∀ p, p ∈ bs_include b ↔ p ∈ bs_include b') →
  build_image_tag debug_str b = build_image_tag debug_str b'.
Proof.
  intros Hk Ht Hp. unfold build_image_tag, tag_hash, effective_base_tag. rewrite Hk, Ht.
  assert (merge_sort String.le (merged_packages b (registry_inspect (bs_kind b'))) =
          merge_sort String.le (merged_packages b' (registry_inspect (bs_kind b')))) as ->; [|done].
  apply (Sorted_unique String.le); [apply (Sorted_merge_sort _)..|].
  rewrite !merge_sort_Permutation. unfold merged_packages.
  destruct (merged_spec _ (bs_include b) (default_packages_nodup (bs_kind b'))) as [N1 E1].
  destruct (merged_spec _ (bs_include b') (default_packages_nodup (bs_kind b'))) as [N2 E2].
  apply NoDup_Permutation; [done..|]. intros x. by rewrite E1, E2, Hp.
Qed.

(** * The menu *)

(** A label is not escaped: one with a line break adds a line of its own choice to the
    entry. *)
Example menu_label_adds_a_line :
  "Exec=sh" ∈ lines (render_desktop_entry ("x" +:+ lf +:+ "Exec=sh" +:+ lf) ["podman"] None).
Proof. apply (bool_decide_unpack (_ ∈ _)). by vm_compute. Qed.

(** * Grants *)

(** Merging only adds: what the template grants is granted, whatever the request
    says. *)
Theorem merge_only_adds base o :
  let m := merge_passthrough base o in
  (wayland base → wayland m) ∧ (x11 base → x11 m) ∧ (gpu base → gpu m) ∧ (dbus_session base → dbus_session m) ∧
  (clipboard base → clipboard m) ∧ (hidpi_inherit base → hidpi_inherit m) ∧
  (audio m = AudioNone → audio base = AudioNone) ∧ (is_Some (register_app_menu base) → is_Some (register_app_menu m)).
Proof.
  destruct o as [o|]; [|done]. cbn. split_and!; try (intros Hb; apply orb_True; by left).
  - by destruct (audio o).
  - intros Hb. by destruct (register_app_menu o).
Qed.

Section Profile.
Context {P : Type} {C : PodmanCli P} {H : HostEnv} {F : PodmanFlags} {FL : PodmanFlagLaws F}.
(** The sandbox profile of a request has no part in the call that creates the
    container: podman is told to drop no capability and given no security option. *)
Theorem distro_profile_is_not_applied t p image_ref home profile :
  let p' := {| dp_kind := dp_kind p; dp_name := dp_name p; dp_vm_mode := dp_vm_mode p; dp_passthrough := dp_passthrough p;
               dp_custom_image := dp_custom_image p; dp_sandbox_profile := profile |} in
  let opts := build_create_options t p' image_ref home in
  create_args opts = create_args (build_create_options t p image_ref home) ∧
  values "--cap-drop" (created_options opts) = [] ∧ values "--security-opt" (created_options opts) = [].
Proof.
  intros p' opts. split; [done|]. rewrite !created_values. by destruct (create_values opts) as (_ & -> & _ & -> & _).
Qed.
End Profile.

(** * The table *)

Lemma kind_parse_as_str k : distro_kind_parse (distro_kind_as_str k) = Ok k.
Proof. by destruct k. Qed.

Definition distro_row_ok (r : DistroRow) : Prop :=
  validate_instance_name (di_name r) = Ok tt ∧ (∃ k, di_kind r = distro_kind_as_str k) ∧
  di_auto_restart r = di_vm_mode r ∧
  di_home_volume r = (if di_vm_mode r then Some (home_volume_name (di_name r)) else None).
Definition distro_table_ok (t : DistroState) : Prop :=
  NoDup (di_name <$> ds_rows t) ∧ NoDup (di_id <$> ds_rows t) ∧
  Forall (λ r, (di_id r ≤ ds_seq t)%Z ∧ distro_row_ok r) (ds_rows t).

(** What a name stands for. A name that was never used has no entry. *)
Inductive NameUse : Type :=
| Active (container kind : string) (home : option string)
| Retired.
Definition use_of (r : DistroRow) : NameUse :=
  match di_removed_at r with Some _ => Retired | None => Active (di_container r) (di_kind r) (di_home_volume r) end.
Abbreviation Names := (gmap string NameUse).
Definition name_uses (t : DistroState) : Names := list_to_map ((λ r, (di_name r, use_of r)) <$> ds_rows t).

Lemma uses_keys (rows : list DistroRow) : ((λ r, (di_name r, use_of r)) <$> rows).*1 = di_name <$> rows.
Proof. rewrite <-list_fmap_compose. by apply list_fmap_ext. Qed.
Lemma lookup_use t r : distro_table_ok t → r ∈ ds_rows t → name_uses t !! di_name r = Some (use_of r).
Proof.
  intros (Hnd & _) Hr. apply elem_of_list_to_map; [by rewrite uses_keys|].
  apply list_elem_of_fmap. by exists r.
Qed.
Lemma lookup_unused t n : n ∉ di_name <$> ds_rows t → name_uses t !! n = None.
Proof. intros Hn. apply not_elem_of_list_to_map. by rewrite uses_keys. Qed.

Lemma table_ok_insert t r : distro_table_ok t → di_id r = (ds_seq t + 1)%Z → di_name r ∉ di_name <$> ds_rows t →
  distro_row_ok r → di_removed_at r = None →
  let t' := set_distro_rows (ds_rows t ++ [r]) (ds_seq t + 1) t in
  distro_table_ok t' ∧ name_uses t' = <[di_name r := Active (di_container r) (di_kind r) (di_home_volume r)]> (name_uses t).
Proof.
  intros (Hn & Hi & Hr) Hid Hnew Hok Hact t'. split.
  - unfold distro_table_ok, t'. cbn. rewrite !fmap_app. split_and!.
    + apply NoDup_app. split_and!; [done| |apply NoDup_singleton]. by intros x Hx ->%list_elem_of_singleton.
    + apply NoDup_app. split_and!; [done| |apply NoDup_singleton]. intros i Hx ->%list_elem_of_singleton.
      apply list_elem_of_fmap in Hx as (r' & Hr' & Hin). rewrite Forall_forall in Hr. destruct (Hr r' Hin). lia.
    + apply Forall_app. split; [|apply Forall_singleton; split; [lia|done]].
      apply (Forall_impl _ _ _ Hr). intros r' [? ?]. split; [lia|done].
  - unfold name_uses, t'. cbn [ds_rows set_distro_rows]. rewrite fmap_app, list_to_map_app.
    cbn [fmap list_fmap list_to_map foldr curry fst snd]. unfold use_of at 2. rewrite Hact.
    rewrite insert_empty. 
    apply map_eq. intros n. destruct (decide (n = di_name r)) as [->|Hne].
    + rewrite lookup_insert_eq. rewrite lookup_union_r; [by rewrite lookup_singleton_eq|]. by apply lookup_unused.
    + rewrite lookup_insert_ne by done. rewrite lookup_union_l; [done|]. by rewrite lookup_singleton_ne.
Qed.

Lemma retire_row_same id at_ r :
  di_id (retire_row id at_ r) = di_id r ∧ di_name (retire_row id at_ r) = di_name r ∧
  (distro_row_ok r → distro_row_ok (retire_row id at_ r)).
Proof. unfold retire_row. by case_decide. Qed.
Lemma retire_rows_names id at_ (rows : list DistroRow) : di_name <$> (retire_row id at_ <$> rows) = di_name <$> rows.
Proof. rewrite <-list_fmap_compose. apply list_fmap_ext. intros i r _. apply retire_row_same. Qed.
Lemma retire_rows_ids id at_ (rows : list DistroRow) : di_id <$> (retire_row id at_ <$> rows) = di_id <$> rows.
Proof. rewrite <-list_fmap_compose. apply list_fmap_ext. intros i r _. apply retire_row_same. Qed.
Lemma nodup_same_key {A} (key : DistroRow → A) (rows : list DistroRow) r r' :
  NoDup (key <$> rows) → r ∈ rows → r' ∈ rows → key r = key r' → r = r'.
Proof.
  intros Hnd [i Hi]%list_elem_of_lookup [j Hj]%list_elem_of_lookup Hk.
  assert (i = j) as ->; [|congruence]. apply (NoDup_lookup (key <$> rows) i j (key r)); [done|..]; rewrite list_lookup_fmap.
  - by rewrite Hi.
  - by rewrite Hj; simpl; rewrite Hk.
Qed.
Lemma table_ok_retire t r at_ : distro_table_ok t → r ∈ ds_rows t →
  let t' := set_distro_rows (retire_row (di_id r) at_ <$> ds_rows t) (ds_seq t) t in
  distro_table_ok t' ∧ name_uses t' = <[di_name r := Retired]> (name_uses t).
Proof.
  intros Hok Hin t'. destruct Hok as (Hn & Hi & Hr). assert (distro_table_ok t') as Hok'.
  { unfold distro_table_ok, t'. cbn [ds_rows ds_seq set_distro_rows]. rewrite retire_rows_names, retire_rows_ids. split_and!; [done..|].
    apply Forall_fmap. apply (Forall_impl _ _ _ Hr). intros r' [? ?]. cbn.
    destruct (retire_row_same (di_id r) at_ r') as (-> & _ & Hrow). auto. }
  split; [done|]. apply map_eq. intros n.
  destruct (decide (n ∈ di_name <$> ds_rows t)) as [(r' & -> & Hr')%list_elem_of_fmap|Hno].
  - assert (retire_row (di_id r) at_ r' ∈ ds_rows t') as Hin' by (apply list_elem_of_fmap; by exists r').
    pose proof (lookup_use t' _ Hok' Hin') as Hl. rewrite (proj1 (proj2 (retire_row_same (di_id r) at_ r'))) in Hl.
    rewrite Hl. unfold retire_row. case_decide as Hid.
    + rewrite <-(nodup_same_key di_id _ r' r Hi) by done. by rewrite lookup_insert_eq.
    + rewrite lookup_insert_ne; [by rewrite (lookup_use t)|]. intros Hname. apply Hid.
      by rewrite (nodup_same_key di_name _ r' r Hn) by done.
  - rewrite lookup_insert_ne by (intros <-; apply Hno, list_elem_of_fmap; by exists r).
    rewrite !lookup_unused; [done..|]. unfold t'. cbn. by rewrite retire_rows_names.
Qed.

(** * The specification *)

(** What a request may do to the names. *)
Definition may_do (action : DistroAction) (r : Result Fault DistroReply) (a a' : Names) : Prop :=
  match r with
  | Err _ => a' = a
  | Ok reply =>
      match action, reply with
      | DistroCreate p, RepCreated i =>
          validate_instance_name (dp_name p) = Ok tt ∧ a !! dp_name p = None ∧ is_name i = dp_name p ∧
          is_home_volume i = (if dp_vm_mode p then Some (home_volume_name (dp_name p)) else None) ∧
          a' = <[dp_name p := Active (is_container i) (distro_kind_as_str (dp_kind p)) (is_home_volume i)]> a
      | DistroEnter n, RepEntered c cmd =>
          a' = a ∧ ∃ k home, a !! n = Some (Active c (distro_kind_as_str k) home) ∧
                             cmd = ["podman"; "exec"; "-it"; c; tm_default_shell (registry_inspect k)]
      | DistroRemove n keep, RepRemoved n' kept =>
          n' = n ∧ a' = <[n := Retired]> a ∧ ∃ c kind home, a !! n = Some (Active c kind home) ∧ kept = is_some home && keep
      | TemplateList, RepTemplates _ | TemplateInspect _, RepTemplate _ _ _ _ _ _ _ _ | DistroBuild _, RepBuilt _ _ => a' = a
      | _, _ => False
      end
  end.
Inductive may_run : Names → list (DistroAction * Result Fault DistroReply) → Names → Prop :=
| may_stop a : may_run a [] a
| may_step a a1 a2 action r tr : may_do action r a a1 → may_run a1 tr a2 → may_run a ((action, r) :: tr) a2.

(** Once retired, a name is never in use again. *)
Lemma may_do_retired action r a a' n : may_do action r a a' → a !! n = Some Retired → a' !! n = Some Retired.
Proof.
  unfold may_do. intros Hm Hn. destruct r as [reply|e]; [|by subst].
  destruct action, reply; try done; try by subst.
  - destruct Hm as (_ & Hnone & _ & _ & ->). rewrite lookup_insert_ne; [done|]. intros <-. congruence.
  - by destruct Hm as (-> & _).
  - destruct Hm as (_ & -> & _). by destruct (decide (name = n)) as [->|?]; [rewrite lookup_insert_eq|rewrite lookup_insert_ne].
Qed.
Lemma retired_stays_retired a tr a' n : may_run a tr a' → a !! n = Some Retired → a' !! n = Some Retired.
Proof. induction 1; [done|]. intros Hn. eauto using may_do_retired. Qed.

(** * The implementation *)

Section Refinement.
Context {E : Env} {K : AuditSink} {S : Type} {W : HasWorld S} {P : Type} {C : PodmanCli P} {HP : HasPodman S P}.
Context {H : HostEnv} {T : HasDistro S} {L : HasDistroLaws S P}.
Context (cfg : PodmanConfig) (foreign_error : Error → string) (debug_str : string → string) (file_io : nat → IoOutcome).

Definition table_of (s : S) : list DistroRow * Z := (ds_rows (distro_of s), ds_seq (distro_of s)).
(** The operation leaves the table alone. *)
Class SameTable {A} (c : M S Fault A) : Prop := same_table s : table_of (c s).2 = table_of s.

#[export] Instance same_ret {A} (a : A) : SameTable (mret a).
Proof. done. Qed.
#[export] Instance same_throw {A} e : SameTable (throw e : M S Fault A).
Proof. done. Qed.
#[export] Instance same_dfail {A} e : SameTable (dfail e : M S Fault A).
Proof. done. Qed.
#[export] Instance same_lift {A} (r : Result DistroError A) : SameTable (lift_d r).
Proof. by destruct r. Qed.
#[export] Instance same_gets {A} (f : S → A) : SameTable (gets f).
Proof. done. Qed.
#[export] Instance same_bind {A B} (c : M S Fault A) (k : A → M S Fault B) :
  SameTable c → (∀ a, SameTable (k a)) → SameTable (c ≫= k).
Proof.
  intros Hc Hk s. unfold mbind, M_bind. specialize (Hc s). destruct (c s) as [[a|e] s']; simpl in *; [|done].
  rewrite <-Hc. apply Hk.
Qed.
#[export] Instance same_on_world {A} (c : D A) : SameTable (on_world c).
Proof. intros s. unfold on_world, table_of. destruct (c (world_of s)). simpl. by rewrite distro_of_put_world. Qed.
#[export] Instance same_attempt {A} (c : M S Fault A) : SameTable c → SameTable (attempt_in c).
Proof. intros Hc s. unfold attempt_in. specialize (Hc s). by destruct (c s) as [[a|[]] s']. Qed.
#[export] Instance same_as_runtime {A} (c : M S Fault A) : SameTable c → SameTable (as_runtime foreign_error c).
Proof. intros Hc s. unfold as_runtime. specialize (Hc s). by destruct (c s) as [[a|[]] s']. Qed.
#[export] Instance same_or_not_found {A} what (c : M S Fault A) : SameTable c → SameTable (or_not_found what c).
Proof. intros Hc s. unfold or_not_found. specialize (Hc s). by destruct (c s) as [[a|[]] s']. Qed.
#[export] Instance same_run_command args input : SameTable (run_command args input).
Proof. intros s. unfold run_command, table_of. destruct (podman_exec _ _ _). simpl. by rewrite distro_of_put_podman. Qed.
Lemma same_put_ds (f : DistroState → DistroState) :
  (∀ t, ds_rows (f t) = ds_rows t ∧ ds_seq (f t) = ds_seq t) → SameTable (put_ds f).
Proof. intros Hf s. unfold table_of, put_ds, modify. simpl. rewrite distro_of_put. by destruct (Hf (distro_of s)) as [-> ->]. Qed.
#[local] Hint Extern 2 (SameTable (put_ds _)) => (apply same_put_ds; done) : typeclass_instances.

#[export] Instance same_run_capture args : SameTable (run_capture cfg args).
Proof. unfold run_capture, run_with. apply same_bind; [apply _|]. intros []; repeat case_match; apply _. Qed.
#[export] Instance same_file_step : SameTable (file_step file_io).
Proof. unfold file_step, distro. apply _. Qed.
Ltac solve_same :=
  repeat first
    [ solve [apply _]
    | match goal with |- SameTable (match ?x with _ => _ end) => destruct x end
    | apply same_bind; [|intros ?] | apply same_attempt ].
#[export] Instance same_create opts : SameTable (podman_create cfg opts).
Proof. unfold podman_create. solve_same. Qed.
#[export] Instance same_start id : SameTable (podman_start cfg id).
Proof. unfold podman_start. solve_same. Qed.
#[export] Instance same_stop id t : SameTable (podman_stop cfg id t).
Proof. unfold podman_stop. solve_same. Qed.
#[export] Instance same_remove id force : SameTable (podman_remove cfg id force).
Proof. unfold podman_remove. solve_same. Qed.
#[export] Instance same_volume_remove name force : SameTable (volume_remove cfg name force).
Proof. unfold volume_remove. solve_same. Qed.
#[export] Instance same_volume_create name : SameTable (volume_create cfg name None [] []).
Proof. unfold volume_create. solve_same. Qed.
#[export] Instance same_create_volume name : SameTable (create_volume_if_missing cfg foreign_error name).
Proof. unfold create_volume_if_missing. solve_same. Qed.
#[export] Instance same_best_effort name : SameTable (best_effort_remove_volume cfg foreign_error name).
Proof. unfold best_effort_remove_volume. solve_same. Qed.
#[export] Instance same_provision p : SameTable (provision_home cfg foreign_error p).
Proof. unfold provision_home. solve_same. Qed.
#[export] Instance same_start_or_roll_back id home : SameTable (start_or_roll_back cfg foreign_error id home).
Proof. unfold start_or_roll_back. solve_same. Qed.
#[export] Instance same_drop_home row keep : SameTable (drop_home cfg foreign_error row keep).
Proof. unfold drop_home. solve_same. Qed.
#[export] Instance same_write_entry name cmd icon : SameTable (write_desktop_entry file_io name cmd icon).
Proof. unfold write_desktop_entry. solve_same. Qed.
#[export] Instance same_remove_entry name : SameTable (remove_desktop_entry file_io name).
Proof. unfold remove_desktop_entry, distro. solve_same. Qed.
#[export] Instance same_register p i : SameTable (register_in_menu file_io p i).
Proof. unfold register_in_menu. solve_same. Qed.
#[export] Instance same_build b root runroot ctx ms : SameTable (build debug_str file_io b root runroot ctx ms).
Proof. unfold build. solve_same. Qed.

Lemma wp_same {A} (c : M S Fault A) s (Q : Result Fault A → S → Prop) :
  SameTable c → (∀ r s', table_of s' = table_of s → Q r s') → wp c s Q.
Proof. intros Hc HQ. unfold wp. by apply HQ. Qed.
Lemma wp_sure {A} (c : M S Fault A) s (Q : Result Fault A → S → Prop) :
  SameTable c → (∃ a, (c s).1 = Ok a) → (∀ a s', table_of s' = table_of s → Q (Ok a) s') → wp c s Q.
Proof. intros Hc [a Ha] HQ. unfold wp. rewrite Ha. by apply HQ. Qed.
Lemma ok_by_table s s' : table_of s' = table_of s → distro_table_ok (distro_of s) →
  distro_table_ok (distro_of s') ∧ name_uses (distro_of s') = name_uses (distro_of s).
Proof. intros [= Hr Hq]. unfold distro_table_ok, name_uses. by rewrite Hr, Hq. Qed.

(** Operations that do not panic. *)
Class Calm {A} (c : M S Fault A) : Prop := calm s m : (c s).1 ≠ Err (Panic m).
#[export] Instance calm_ret {A} (a : A) : Calm (mret a).
Proof. done. Qed.
#[export] Instance calm_dfail {A} e : Calm (dfail e : M S Fault A).
Proof. by intros s m [=]. Qed.
#[export] Instance calm_lift {A} (r : Result DistroError A) : Calm (lift_d r).
Proof. by destruct r; intros s m [=]. Qed.
#[export] Instance calm_bind {A B} (c : M S Fault A) (k : A → M S Fault B) : Calm c → (∀ a, Calm (k a)) → Calm (c ≫= k).
Proof.
  intros Hc Hk s m. unfold mbind, M_bind. specialize (Hc s m). destruct (c s) as [[a|e] s']; [apply Hk|].
  simpl in *. intros [= ->]. by apply Hc.
Qed.
#[export] Instance calm_gets {A} (f : S → A) : Calm (gets f).
Proof. done. Qed.
#[export] Instance calm_put_ds f : Calm (put_ds f).
Proof. done. Qed.
#[export] Instance calm_file_step : Calm (file_step file_io).
Proof. unfold file_step, distro. apply _. Qed.
Lemma attempt_sure {A} (c : M S Fault A) s : Calm c → ∃ r, (attempt_in c s).1 = Ok r.
Proof. intros Hc. unfold attempt_in. specialize (Hc s). destruct (c s) as [[a|[e|m]] s']; [by eexists..|by destruct (Hc m)]. Qed.
Ltac solve_calm :=
  repeat first
    [ solve [apply _]
    | match goal with |- Calm (match ?x with _ => _ end) => destruct x end
    | apply calm_bind; [|intros ?] ].
#[export] Instance calm_write_entry name cmd icon : Calm (write_desktop_entry file_io name cmd icon).
Proof. unfold write_desktop_entry. solve_calm. Qed.
#[export] Instance calm_remove_entry name : Calm (remove_desktop_entry file_io name).
Proof. unfold remove_desktop_entry, distro. solve_calm. Qed.

(** A sink that always comes back, as the daemon's without plugins does. *)
Class SinkReturns : Prop := record_returns kind profile container p w : (record kind profile container p w).1 = Ok tt.
Context {R : SinkReturns}.

Lemma record_sure kind profile container p (s : S) : ∃ a, (on_world (record kind profile container p) s).1 = Ok a.
Proof. unfold on_world. pose proof (record_returns kind profile container p (world_of s)). destruct (record _ _ _ _ _). by eexists. Qed.
Lemma publish_sure t k id d (s : S) : ∃ a, (on_world (publish t k id d) s).1 = Ok a.
Proof. by eexists. Qed.
Lemma now_sure (s : S) : ∃ a, (on_world now s).1 = Ok a.
Proof. by eexists. Qed.
Lemma register_sure p i s : ∃ a, (register_in_menu file_io p i s).1 = Ok a.
Proof.
  unfold register_in_menu. case_match; [|by eexists]. unfold mbind, M_bind.
  destruct (attempt_sure (write_desktop_entry file_io s0 ["podman"; "exec"; "-it"; is_container i;
    tm_default_shell (registry_inspect (is_kind i))] None) s _) as [r Hr].
  destruct (attempt_in _ s) as [? s1]. simpl in Hr. subst. apply record_sure.
Qed.
Lemma remove_entry_sure name s : ∃ r, (attempt_in (remove_desktop_entry file_io name) s).1 = Ok r.
Proof. apply attempt_sure, _. Qed.
#[local] Hint Resolve record_sure publish_sure now_sure register_sure remove_entry_sure : linpodx.

(** One step of a handler that does not touch the table. *)
Ltac step := apply wp_bind; apply wp_same; [apply _|]; intros [?|?] ? ?.
Ltac sure := apply wp_bind; apply wp_sure; [apply _|auto with linpodx; fail|]; intros ? ? ?.

Lemma wp_lookup name s (Q : Result Fault (option DistroRow) → S → Prop) : distro_table_ok (distro_of s) →
  (∀ e s', table_of s' = table_of s → Q (Err e) s') →
  (∀ s', table_of s' = table_of s → (∀ r, r ∈ ds_rows (distro_of s) → di_name r = name → is_Some (di_removed_at r)) → Q (Ok None) s') →
  (∀ r s', table_of s' = table_of s → r ∈ ds_rows (distro_of s) → di_name r = name → di_removed_at r = None → Q (Ok (Some r)) s') →
  wp (lookup_active_row name) s Q.
Proof.
  intros Hok He Hn Hs. unfold lookup_active_row. apply wp_bind, wp_same; [apply _|]. intros [u|e] s1 H1; [|by apply He].
  unfold distro. apply wp_bind. unfold wp, gets. cbn.
  assert (ds_rows (distro_of s1) = ds_rows (distro_of s)) as -> by by injection H1.
  destruct (find _ _) as [r|] eqn:Hf.
  - apply find_some in Hf as [Hin Hact]. apply list_elem_of_In in Hin. unfold row_is_active in Hact.
    apply andb_true_iff in Hact as [Hname%bool_decide_eq_true Hrem]. apply Hs; [done..|]. by destruct (di_removed_at r).
  - apply Hn; [done|]. intros r Hin Hname. apply list_elem_of_In in Hin. pose proof (find_none _ _ Hf r Hin) as Hfn.
    unfold row_is_active in Hfn. rewrite bool_decide_true in Hfn by done. by destruct (di_removed_at r); [eexists|].
Qed.

Lemma wp_insert mk s (Q : Result Fault Z → S → Prop) :
  (∀ e s', table_of s' = table_of s → Q (Err e) s') →
  (let t := distro_of s in ∀ s', di_name (mk (ds_seq t + 1)%Z) ∉ di_name <$> ds_rows t →
     table_of s' = (ds_rows t ++ [mk (ds_seq t + 1)%Z], (ds_seq t + 1)%Z) → Q (Ok (ds_seq t + 1)%Z) s') →
  wp (insert_distro_row mk) s Q.
Proof.
  intros He Hi. unfold insert_distro_row. apply wp_bind, wp_same; [apply _|]. intros [u|e] s1 H1; [|by apply He].
  unfold distro. apply wp_bind. unfold wp, gets. cbn [fst snd]. injection H1 as Hr Hq. rewrite Hr, Hq.
  destruct (bool_decide _ || bool_decide _) eqn:Hb.
  - apply He. change (table_of s1 = table_of s). unfold table_of. by rewrite Hr, Hq.
  - apply orb_false_iff in Hb as [_ Hnew%bool_decide_eq_false]. cbn. apply Hi; [done|].
    cbv [mbind M_bind put_ds modify mret M_ret]. unfold table_of. cbn. by rewrite !distro_of_put.
Qed.

Lemma insert_by_table s s' row : table_of s' = (ds_rows (distro_of s) ++ [row], (ds_seq (distro_of s) + 1)%Z) →
  distro_table_ok (distro_of s) → di_id row = (ds_seq (distro_of s) + 1)%Z → di_name row ∉ di_name <$> ds_rows (distro_of s) →
  distro_row_ok row → di_removed_at row = None →
  distro_table_ok (distro_of s') ∧
  name_uses (distro_of s') = <[di_name row := Active (di_container row) (di_kind row) (di_home_volume row)]> (name_uses (distro_of s)).
Proof.
  intros [= Hr Hq] Hok Hid Hnew Hrow Hact. destruct (table_ok_insert _ _ Hok Hid Hnew Hrow Hact) as [Hok' Hu].
  rewrite <-Hu. unfold distro_table_ok, name_uses in *. by rewrite Hr, Hq.
Qed.
Lemma retire_by_table s s' row at_ :
  table_of s' = (retire_row (di_id row) at_ <$> ds_rows (distro_of s), ds_seq (distro_of s)) →
  distro_table_ok (distro_of s) → row ∈ ds_rows (distro_of s) →
  distro_table_ok (distro_of s') ∧ name_uses (distro_of s') = <[di_name row := Retired]> (name_uses (distro_of s)).
Proof.
  intros [= Hr Hq] Hok Hin. destruct (table_ok_retire _ _ at_ Hok Hin) as [Hok' Hu].
  rewrite <-Hu. unfold distro_table_ok, name_uses in *. by rewrite Hr, Hq.
Qed.

Lemma wp_provision p s (Q : Result Fault (option string) → S → Prop) :
  (∀ e s', table_of s' = table_of s → Q (Err e) s') →
  (∀ s', table_of s' = table_of s → Q (Ok (if dp_vm_mode p then Some (home_volume_name (dp_name p)) else None)) s') →
  wp (provision_home cfg foreign_error p) s Q.
Proof.
  intros He Ho. unfold provision_home. destruct (dp_vm_mode p); [|by apply wp_ret, Ho].
  apply wp_bind, wp_same; [apply _|]. intros [u|e] s1 H1; [by apply wp_ret, Ho|by apply He].
Qed.

Lemma create_simulates p s : distro_table_ok (distro_of s) →
  wp (distro_create cfg foreign_error p) s (λ r s',
    distro_table_ok (distro_of s') ∧
    match r with
    | Ok i => may_do (DistroCreate p) (Ok (RepCreated i)) (name_uses (distro_of s)) (name_uses (distro_of s'))
    | Err e => name_uses (distro_of s') = name_uses (distro_of s)
    end).
Proof.
  intros Hok. unfold distro_create. apply wp_bind.
  destruct (validate_instance_name (dp_name p)) as [[]|e] eqn:Hv; [|by split].
  apply wp_ret, wp_bind, wp_lookup; [done|intros e s1 H1; by apply ok_by_table| |intros r s1 H1 _ _ _; by apply ok_by_table].
  intros s1 H1 _. apply wp_bind, wp_provision; [intros e s2 H2; by apply ok_by_table; [rewrite H2|]|]. intros s2 H2.
  step; [|by apply ok_by_table; [congruence|]]. step; [|by apply ok_by_table; [congruence|]]. sure.
  apply wp_bind, wp_insert; [intros e s6 H6; by apply ok_by_table; [congruence|]|].
  assert (table_of s'1 = table_of s) as Heq by congruence. cbv zeta. injection Heq as -> ->. cbn [di_name]. intros s6 Hnew H6.
  sure. sure. apply wp_ret.
  assert (table_of s'3 = table_of s6) as H63 by congruence. rewrite H6 in H63.
  apply insert_by_table in H63 as [Hok' ->]; [|done..|split_and!; [done|by eexists|done..]|done].
  split; [done|]. split_and!; [done|by apply lookup_unused|done..].
Qed.

Lemma enter_simulates name s : distro_table_ok (distro_of s) →
  wp (distro_enter name) s (λ r s',
    distro_table_ok (distro_of s') ∧
    match r with
    | Ok (c, cmd) => may_do (DistroEnter name) (Ok (RepEntered c cmd)) (name_uses (distro_of s)) (name_uses (distro_of s'))
    | Err e => name_uses (distro_of s') = name_uses (distro_of s)
    end).
Proof.
  intros Hok. unfold distro_enter.
  apply wp_bind, wp_lookup; [done|intros e s1 H1; by apply ok_by_table|intros s1 H1 _; by apply ok_by_table|].
  intros row s1 H1 Hin Hname Hact. destruct Hok as (Hn & Hi & Hrows).
  destruct (proj1 (Forall_forall _ _) Hrows row Hin) as [_ (_ & [k Hk] & _)].
  assert (kind_parsed row = Ok k) as Hp by (unfold kind_parsed; by rewrite Hk, kind_parse_as_str). rewrite Hp.
  apply wp_bind, wp_ret. sure. sure. apply wp_ret.
  destruct (ok_by_table s s'0) as [Hok' Hu]; [congruence|done|]. split; [done|]. rewrite Hu. split; [done|].
  exists k, (di_home_volume row). split; [|done]. rewrite <-Hname, (lookup_use _ row) by done. unfold use_of. by rewrite Hact, Hk.
Qed.

Lemma wp_put_ds f s (Q : Result Fault unit → S → Prop) :
  (∀ s', distro_of s' = f (distro_of s) → Q (Ok tt) s') → wp (put_ds f) s Q.
Proof. intros HQ. apply HQ. cbn. apply distro_of_put. Qed.
Lemma wp_drop_home row keep s (Q : Result Fault bool → S → Prop) :
  (∀ e s', table_of s' = table_of s → Q (Err e) s') →
  (∀ s', table_of s' = table_of s → Q (Ok (is_some (di_home_volume row) && keep)) s') →
  wp (drop_home cfg foreign_error row keep) s Q.
Proof.
  intros He Ho. unfold drop_home. destruct (di_home_volume row) as [vol|]; [|by apply wp_ret, Ho].
  destruct keep; [by apply wp_ret, Ho|]. apply wp_bind, wp_same; [apply _|]. intros [u|e] s1 H1; [by apply wp_ret, Ho|by apply He].
Qed.

Lemma remove_simulates name keep s : distro_table_ok (distro_of s) →
  wp (distro_remove cfg foreign_error file_io name keep) s (λ r s',
    distro_table_ok (distro_of s') ∧
    match r with
    | Ok (n, kept) => may_do (DistroRemove name keep) (Ok (RepRemoved n kept)) (name_uses (distro_of s)) (name_uses (distro_of s'))
    | Err e => name_uses (distro_of s') = name_uses (distro_of s)
    end).
Proof.
  intros Hok. unfold distro_remove.
  apply wp_bind, wp_lookup; [done|intros e s1 H1; by apply ok_by_table|intros s1 H1 _; by apply ok_by_table|].
  intros row s1 H1 Hin Hname Hact. step; [|by apply ok_by_table; [congruence|]]. step; [|by apply ok_by_table; [congruence|]].
  apply wp_bind, wp_drop_home; [intros e s4 H4; by apply ok_by_table; [congruence|]|]. intros s4 H4.
  sure. step; [|by apply ok_by_table; [congruence|]].
  assert (table_of s'2 = table_of s) as Heq by congruence. injection Heq as Hr Hq.
  apply wp_bind, wp_put_ds. rewrite Hr, Hq. intros s7 H7. sure. sure. sure. apply wp_ret.
  assert (table_of s'5 = table_of s7) as H75 by congruence. unfold table_of at 2 in H75. rewrite H7 in H75.
  apply retire_by_table in H75 as [Hok' ->]; [|done..]. split; [done|]. rewrite Hname. split_and!; [done..|].
  exists (di_container row), (di_kind row), (di_home_volume row). split; [|done].
  rewrite <-Hname, (lookup_use _ row) by done. unfold use_of. by rewrite Hact.
Qed.

Lemma handle_simulates action ctx ms s : distro_table_ok (distro_of s) →
  wp (distro_handle cfg foreign_error debug_str file_io action ctx ms) s (λ r s',
    distro_table_ok (distro_of s') ∧ may_do action r (name_uses (distro_of s)) (name_uses (distro_of s'))).
Proof.
  intros Hok. destruct action as [|kind|p|spec|name|name keep]; [by split..| | | |].
  - apply wp_bind. eapply wp_mono; [by apply create_simulates|]. intros [i|e] s1 [Hok1 Hm]; [|by split].
    sure. apply wp_ret. destruct (ok_by_table s1 s') as [Hok' Hu]; [done..|]. by rewrite Hu.
  - step; [|by apply ok_by_table]. destruct a as [image_ref ms']. sure. apply wp_ret. by apply ok_by_table; [congruence|].
  - apply wp_bind. eapply wp_mono; [by apply enter_simulates|]. by intros [[c cmd]|e] s1 [Hok1 Hm].
  - apply wp_bind. eapply wp_mono; [by apply remove_simulates|]. by intros [[n kept]|e] s1 [Hok1 Hm].
Qed.
End Refinement.

#[export] Instance plain_sink_returns {E : Env} {W : Wasm} : SinkReturns (K := SandboxAuditSink false).
Proof.
  intros kind profile container p w. simpl. unfold sandbox_record, run_audit_filter_chain, attempt.
  destruct (is_filter_meta kind); cbv [mbind M_bind mret M_ret negb].
  all: destruct (append _ _ _ _ w) as [r w'] eqn:Ha; apply append_spec in Ha; destruct r as [?|e]; [done|].
  all: by destruct Ha as (-> & _).
Qed.

Section Theorems.
Context {E : Env} {WA : Wasm} {S : Type} {W : HasWorld S} {P : Type} {C : PodmanCli P} {HP : HasPodman S P}.
Context {H : HostEnv} {T : HasDistro S} {L : HasDistroLaws S P}.
Context (cfg : PodmanConfig) (foreign_error : Error → string) (debug_str : string → string) (file_io : nat → IoOutcome).

(** A request with the directory and the duration of its build, should it be one. *)
Record DistroRequest : Type := {
  rq_action : DistroAction;
  rq_ctx : string;
  rq_elapsed_ms : Z;
}.
Fixpoint run_requests (l : list DistroRequest) (s : S) : list (DistroAction * Result Fault DistroReply) * S :=
  match l with
  | [] => ([], s)
  | q :: l' =>
      let '(r, s1) := run_distro cfg foreign_error debug_str file_io (rq_action q) (rq_ctx q) (rq_elapsed_ms q) s in
      let '(tr, s2) := run_requests l' s1 in
      ((rq_action q, r) :: tr, s2)
  end.

(** C30: The instances refine a map from names to what they stand for. Whatever requests
    arrive, and whichever podman calls, statements and file operations fail, the table
    stays well-formed (unique names and ids, valid names, a home volume exactly in VM
    mode) and the names change only so: a creation takes a valid name that was never
    used and binds it to its container; entering a name gives the shell of the distro in
    the container the name is bound to; a removal retires an active name; a request that
    fails, on whatever path, changes nothing. *)
Theorem instances_refine_names (l : list DistroRequest) (s : S) :
  distro_table_ok (distro_of s) →
  let '(tr, s') := run_requests l s in
  tr.*1 = rq_action <$> l ∧ distro_table_ok (distro_of s') ∧ may_run (name_uses (distro_of s)) tr (name_uses (distro_of s')).
Proof.
  revert s. induction l as [|q l IH]; intros s Hok; cbn [run_requests]; [split_and!; [done|done|constructor]|].
  pose proof (handle_simulates (K := SandboxAuditSink false) cfg foreign_error debug_str file_io (rq_action q) (rq_ctx q)
    (rq_elapsed_ms q) s Hok) as Hs.
  unfold wp in Hs. unfold run_distro. destruct (distro_handle _ _ _ _ _ _ _ s) as [r s1]. destruct Hs as [Hok1 Hm].
  specialize (IH s1 Hok1). destruct (run_requests l s1) as [tr s2]. destruct IH as (Htr & Hok2 & Hrun). cbn in *.
  split_and!; [by rewrite Htr|done|]. by econstructor.
Qed.

(** A name whose instance was removed cannot be given to another: the request fails,
    after its container was created and started. *)
Theorem retired_name_cannot_be_created p ctx ms s :
  distro_table_ok (distro_of s) → name_uses (distro_of s) !! dp_name p = Some Retired →
  ∃ e, (run_distro cfg foreign_error debug_str file_io (DistroCreate p) ctx ms s).1 = Err e.
Proof.
  intros Hok Hr. pose proof (handle_simulates (K := SandboxAuditSink false) cfg foreign_error debug_str file_io
    (DistroCreate p) ctx ms s Hok) as [_ Hm]. unfold run_distro.
  destruct ((distro_handle _ _ _ _ (DistroCreate p) _ _ s).1) as [reply|e]; [|by exists e].
  destruct reply; try done. destruct Hm as (_ & Hnone & _). congruence.
Qed.

(** [list] shows the active instances, the newest first. *)
Theorem list_shows_the_active s l s' : distro_list s = (Ok l, s') →
  is_name <$> l = di_name <$> reverse (filter (λ r, di_removed_at r = None) (ds_rows (distro_of s))).
Proof.
  unfold distro_list. intros Hrun. apply bind_ok in Hrun as (u & s1 & Hst & Hrun). apply bind_ok in Hrun as (t & s2 & Ht & Hrun).
  unfold distro, gets in Ht. injection Ht as <- <-.
  assert (distro_of s1 = distro_of s) as Heq.
  { unfold on_world in Hst. destruct (stmt (world_of s)). injection Hst as _ <-. apply distro_of_put_world. }
  rewrite Heq in Hrun. generalize dependent (reverse (filter (λ r, di_removed_at r = None) (ds_rows (distro_of s)))).
  intros rows Hrun. assert (collect (distro_into_summary <$> rows) = Ok l) as Hc.
  { destruct (collect _); [by injection Hrun as -> _|done]. }
  clear -Hc. revert l Hc. induction rows as [|r rows IH]; intros l Hc; [by injection Hc as <-|].
  rewrite fmap_cons in Hc. cbn [collect] in Hc. unfold distro_into_summary at 1 in Hc.
  destruct (ts_parse (di_created_at r)); [|done]. destruct (kind_parsed r); [|done].
  destruct (collect (distro_into_summary <$> rows)) as [l'|]; [|done]. injection Hc as <-. rewrite !fmap_cons. by rewrite (IH l').
Qed.
End Theorems.

(** * Examples *)

Record DistroDemo : Type := { dd_world : World; dd_podman : Calls; dd_distro : DistroState }.
#[export] Instance demo_world_in : HasWorld DistroDemo :=
  {| world_of := dd_world; put_world := λ w s, {| dd_world := w; dd_podman := dd_podman s; dd_distro := dd_distro s |} |}.
#[export] Instance demo_podman_in : HasPodman DistroDemo Calls :=
  {| podman_of := dd_podman; put_podman := λ p s, {| dd_world := dd_world s; dd_podman := p; dd_distro := dd_distro s |} |}.
#[export] Instance demo_distro_in : HasDistro DistroDemo :=
  {| distro_of := dd_distro; put_distro := λ t s, {| dd_world := dd_world s; dd_podman := dd_podman s; dd_distro := t |} |}.
#[export] Instance demo_distro_laws : HasDistroLaws DistroDemo Calls.
Proof. by split. Qed.

Definition no_distros : DistroState := {| ds_rows := []; ds_seq := 0; ds_menu := ∅; ds_io := 0 |}.
Definition fresh_demo : DistroDemo := {| dd_world := empty_world; dd_podman := []; dd_distro := no_distros |}.
Definition willing_podman (args : list string) : ProcOutcome :=
  match args with
  | "create" :: _ => exits ("c0ffee" +:+ lf)
  | "volume" :: "create" :: v :: _ => exits (v +:+ lf)
  | _ => exits ""
  end.
(** It creates containers, but none starts. *)
Definition stuck_podman (args : list string) : ProcOutcome :=
  match args with "start" :: _ => Exited (Some 125%Z) "" "Error: oom" None | _ => willing_podman args end.
Definition home_of_u : HostEnv := {| host_var := λ v, if decide (v = "HOME") then Some "/home/u" else None; etc_group := None |}.
(** An environment without faults whose texts cost nothing. *)
Definition quick_env : Env := {|
  sha256 := str_take 4; json_to_string := λ _, ""; struct_to_string := λ _, ""; json_from_str := λ _, None;
  ts_format := λ _, ""; ts_parse := λ _, inr ""; ts_serde := λ _, ""; f32_number := NFloat; clock := Z.of_nat;
  db_fault := λ _, false; task_fault := λ _, false |}.
Definition demo_requests (l : list DistroAction) : list DistroRequest :=
  (λ a, {| rq_action := a; rq_ctx := "/tmp/ctx"; rq_elapsed_ms := 0 |}) <$> l.
Definition demo_run (answer : list string → ProcOutcome) (l : list DistroAction) (s : DistroDemo) :=
  run_requests (E := quick_env) (WA := example_wasm) (C := recording_cli answer) (H := home_of_u) plain_config (λ _, "") id (λ _, IoOk)
    (demo_requests l) s.
Definition box (name : string) (vm : bool) (label : option string) : DistroCreateParams :=
  {| dp_kind := Alpine; dp_name := name; dp_vm_mode := vm;
     dp_passthrough := (λ l, {| wayland := false; x11 := false; audio := AudioNone; gpu := false; dbus_session := false;
                                clipboard := false; hidpi_inherit := false; register_app_menu := Some l |}) <$> label;
     dp_custom_image := None; dp_sandbox_profile := Some "strict" |}.
Definition replies (tr : list (DistroAction * Result Fault DistroReply)) : list (option DistroReply) :=
  (λ p, match p.2 with Ok r => Some r | Err _ => None end) <$> tr.

Definition demo_actions : list DistroAction :=
  [DistroCreate (box "dev" false None); DistroCreate (box "dev" false None); DistroEnter "dev"; DistroRemove "dev" true; DistroEnter "dev"].
Lemma instances_refine_names_witness :
  distro_table_ok (distro_of fresh_demo) ∧
  (let '(tr, s') := run_requests (E := quick_env) (WA := example_wasm) (C := recording_cli willing_podman) (H := home_of_u) plain_config
      (λ _, "") id (λ _, IoOk) (demo_requests demo_actions) fresh_demo in
   tr.*1 = rq_action <$> demo_requests demo_actions ∧
   distro_table_ok (distro_of s') ∧ may_run (name_uses (distro_of fresh_demo)) tr (name_uses (distro_of s'))).
Proof.
  assert (distro_table_ok (distro_of fresh_demo)) as Hok by (split_and!; constructor). split; [exact Hok|].
  pose proof (instances_refine_names (E := quick_env) (WA := example_wasm) (C := recording_cli willing_podman) (H := home_of_u) plain_config
    (λ _, "") id (λ _, IoOk) (demo_requests demo_actions) fresh_demo Hok) as Hw.
  exact Hw.
Defined.
Example demo_shell :
  (λ o, match o with Some (RepEntered _ cmd) => Some cmd | _ => None end) <$> replies (demo_run willing_podman demo_actions fresh_demo).1
    = [None; None; Some ["podman"; "exec"; "-it"; "c0ffee"; "ash"]; None; None].
Proof. by vm_compute. Qed.

(** The second creation of a removed name leaves its container running: podman was asked
    to create and start it, and nothing after. *)
Example recreated_name_leaves_a_container :
  let s1 := (demo_run willing_podman [DistroCreate (box "dev" false None); DistroRemove "dev" true] fresh_demo).2 in
  let '(tr, s2) := demo_run willing_podman [DistroCreate (box "dev" false None)] s1 in
  replies tr = [None] ∧ last (dd_podman s2) = Some (["start"; "c0ffee"], None) ∧
  length (dd_podman s2) = length (dd_podman s1) + 2.
Proof. by vm_compute. Qed.

(** When the container does not start, the home volume is removed by force, also one that
    podman said existed already. *)
Example failed_start_drops_the_home :
  let s := (demo_run (λ args, match args with
                              | "volume" :: "create" :: _ => Exited (Some 125%Z) "" "Error: volume already exists" None
                              | _ => stuck_podman args
                              end) [DistroCreate (box "dev" true None)] fresh_demo).2 in
  last (dd_podman s) = Some (["volume"; "rm"; "--force"; "linpodx-distro-dev-home"], None).
Proof. by vm_compute. Qed.

(** A menu entry is written under its label and looked for under the name of the
    instance: removing the instance leaves it. *)
Example menu_entry_is_left_behind :
  let s := (demo_run willing_podman [DistroCreate (box "dev" false (Some "My box")); DistroRemove "dev" false] fresh_demo).2 in
  map_to_list (ds_menu (dd_distro s)) =
    [("/home/u/.local/share/applications/linpodx-My box.desktop",
      render_desktop_entry "My box" ["podman"; "exec"; "-it"; "c0ffee"; "ash"] None)].
Proof. by vm_compute. Qed.

Example tag_ignores_the_order :
  let tag := λ l, build_image_tag (E := toy_env) id {| bs_kind := Alpine; bs_base_tag := None; bs_include := l |} in
  tag ["jq"; "zsh"; "git"] = tag ["zsh"; "jq"; "jq"] ∧ tag ["jq"] ≠ tag ["zsh"].
Proof. by vm_compute. Qed.
Example dockerfile_of_alpine :
  lines (dockerfile {| bs_kind := Alpine; bs_base_tag := Some "3.19"; bs_include := ["jq"; "git"] |}) =
    ["FROM docker.io/library/alpine:3.19";
     "LABEL io.linpodx.distro=" +:+ dquote +:+ "alpine" +:+ dquote +:+ " io.linpodx.template=" +:+ dquote +:+ "linpodx-distro" +:+ dquote;
     "RUN apk add --no-cache bash git vim curl jq"].
Proof. by vm_compute. Qed.
